(* ===== verification/_CoqProject ===== *)
-Q . S2P
Prelude.v
Container.v
Access.v
Codegen.v
Register.v
Lifecycle.v
App.v
Events.v
Authz.v
Schedule.v
Queue.v
Throttler.v
Ws.v
Http.v
OpenApi.v
Health.v
ServerTiming.v
Orm.v
AuthzHttp.v
Crud.v
Graphql.v
GraphqlSchema.v
GraphqlModule.v
Auth.v
Bridges.v
Js.v
Base64.v
SwaggerUi.v
ReduxStore.v
Gateway.v
Messages.v
Controller.v
Resolver.v
GraphqlCrud.v
Resource.v
Config.v
HttpEdge.v
Telemetry.v
Testing.v
Infrastructure.v
Dataloader.v
MacroArgs.v
Mcp.v
Identity.v
Api.v
ApiRoutes.v
Chat.v
Seed.v
Apps.v
