(* ===== verification/Prelude.v ===== *)
(** nestrs, verified: a model of the Rust framework under [crates/], of what its documentation page does
    with the document it is served, and of the applications under [apps/] that are built on it, with the
    theorems that make them correct.

    * The program

    nestrs is a modular application framework.  Decorators (procedural macros) lower plain structs to
    registrations; a flat container, keyed by type, holds what they register; at boot the modules of
    the application are collected, their asynchronous factories awaited, their providers built in
    dependency order, and the declared module boundaries validated; transports (HTTP, WebSocket over
    HTTP, cron jobs) then read the container's metadata and serve.  A request crosses layers of
    guards, interceptors and filters, acquires an ability (what its caller may do), and reaches the
    database through a repository that scopes every statement to that ability, inside a transaction
    that the request's answer commits or rolls back.

    * The files

    - [Prelude] (this file): results and their loops, fixed-width arithmetic, stable sorting, the JSON
      values and the ASCII string functions the components share, and their lemmas.
    - [Container]: [nestrs-core/src/container.rs], [discovery.rs], [scope.rs].  A Rust type used as a
      key is a [ty]; an erased value carries its dynamic type, so a downcast is a test.
    - [Access]: [nestrs-core/src/access.rs], the module boundaries, validated at boot.
    - [Codegen]: [nestrs-codegen/src/inject.rs], [ty.rs] and the decorators that lower a struct to its
      [Discoverable] implementation.
    - [Register]: [nestrs-macros/src/module.rs] and [nestrs-core/src/module.rs]: the import tree and the
      fixpoint that builds the providers of a module.
    - [Lifecycle]: [nestrs-core/src/lifecycle.rs], [nestrs-macros/src/hooks.rs].
    - [App]: [nestrs-core/src/app.rs]: the phases of a boot, and the run loop.
    - [Events]: [nestrs-events] and [#[on_event]]: the bus, its wiring at bootstrap and its dispatch.
    - [Authz]: [nestrs-authz]: predicates, rules, abilities and their three layers.
    - [Schedule]: [nestrs-schedule], [nestrs-schedule-macros]: periods and the scheduler.
    - [Queue]: [nestrs-queue] and the arguments of [#[processor]]: storages, workers, one attempt at a job.
    - [Throttler]: [nestrs-throttler]: the fixed-window limiter.
    - [Ws]: [nestrs-ws] and the dispatch of [nestrs-ws-macros].
    - [Http]: [nestrs-middleware], the route and controller layers of [nestrs-http-macros], the assembly
      of [nestrs-http/src/transport.rs], the request-scope extractor.
    - [OpenApi]: the route metadata of [nestrs-http], what [#[routes]] emits of it, and the document and
      the module of [nestrs-openapi].
    - [Health], [ServerTiming]: the probes of [nestrs-health], the header of [nestrs-server-timing].
    - [Orm]: [nestrs-orm]: executor, request transaction, repository, keyset pages, CRUD service; and
      the offset pages of [nestrs-resource].
    - [AuthzHttp]: [nestrs-authz-http]: the ability guard, the gate, binding and the response mask.
    - [Crud]: the REST handlers [#[crud]] generates ([nestrs-http-macros/src/crud.rs]) and the pipes of
      [nestrs-pipes] their input goes through.
    - [Graphql]: the endpoint of [nestrs-graphql] and the resolver authorization of
      [nestrs-authz-graphql].
    - [GraphqlSchema]: the roots of a schema, composed from the resolvers of the program
      ([nestrs-graphql/src/resolver.rs]); [GraphqlModule]: the committed SDL and the mount of the endpoint.
    - [Auth]: [nestrs-auth]: tokens, strategies, the guard, the OAuth2 flow.
    - [Bridges]: data access off the task of a request: [nestrs-authz-ws], the data loaders of
      [nestrs-graphql] and [nestrs-authz-graphql], the worker context of [nestrs-orm].
    - [Gateway], [Controller], [Resolver], [Mcp]: the decorators that mount something, from their
      attributes to what is served: [nestrs-ws-macros/src/gateway.rs], [nestrs-http-macros/src/controller.rs]
      and [routes.rs], [nestrs-graphql-macros/src/resolver.rs], [nestrs-mcp-macros].  Each is constructed as
      [Codegen] says, resolves its layers from the container of [Container], and then acts as [Ws], [Http]
      and [GraphqlSchema] say.  [Messages]: [nestrs-ws-macros/src/messages.rs], from the impl block of a
      gateway to the handlers [Ws] dispatches to, under the guards [Gateway] has resolved.
    - [MacroArgs]: the grammars of [nestrs-codegen/src/args.rs], [crud.rs] and [nestrs-macros/src/module.rs]
      over tokens, which [#[crud]], [#[injectable]], [#[mcp]] and [#[module]] are read by.
    - [GraphqlCrud]: the operations [#[crud]] generates for a resolver ([nestrs-graphql-macros/src/crud.rs]);
      [Dataloader]: [#[dataloader]] and the seeding of every linked loader.
    - [Resource]: [nestrs-resource-macros]: the output, the inputs and the conversions of an entity.
    - [Config]: [nestrs-config], and the parsing of numbers in settings.  [Infrastructure]: the modules that
      open a resource in the factory phase ([nestrs-orm], [nestrs-auth], [nestrs-throttler]), over [App].
    - [HttpEdge]: the TLS material and the listener of the transport, the parse pipes and the extractors,
      the documentation page.
    - [Telemetry]: [nestrs-telemetry]; [Testing]: [nestrs-testing], over [App] and a shared database server.
    - [Identity]: [crates/identity] and [apps/auth]: the claims, the token endpoint, the issuer and the OAuth
      strategy, over [Auth].  [Api]: the entities, the ability, the services, their loaders and the relations
      of [apps/api], over [Authz], [Orm] and [Resource]; [ApiRoutes]: its users controller end to end, over
      [AuthzHttp], [Crud], [Auth] and the layers of [Http].
    - [Chat]: [apps/chat], a gateway of [Ws] with its room, and connections of a gateway as they interleave.
      [Seed]: the schema and the seed of [apps/db].  [Apps]: the greeting of [apps/app], the audio jobs of
      [apps/worker] (over [Schedule] and [Queue]) and the weather tool of [apps/mcp].
    - [Js], [Base64], [SwaggerUi], [ReduxStore]: parts of the two JavaScript files that [nestrs-openapi]
      embeds and serves.  [Js] has the operators on numbers and strings; [Base64] a codec the page carries;
      [SwaggerUi] how the page names, normalises and looks up the operations of the document that
      [OpenApi] builds, and its top bar; [ReduxStore] the state container the page is built on, with its
      listener maps and their aliasing.  Each file is a bundle of a third-party application of more
      than a megabyte (a quarter for the second) on one line: what is modelled is a few dozen of its
      functions, those that act on this framework's document and two that stand by themselves.

    * How the code is rendered

    Functions keep the names of the source.  Mutable state is passed explicitly: a builder, a scope or
    a registry is a record, a task-local is an argument, and the endpoints of the HTTP layer act on a
    world.  [Result] is [result], with [let?] for the question mark; a panic is [None] or an [Err] of
    the state it leaves, as each file says.  A [u32] or [u64] is a [Z] with its wrap-around written
    out.  The order in which the linker presents inventory entries is an arbitrary list.

    Code outside the repository is a parameter, with what is documented of it in a class of its own:
    [Payloads] and [UserCode] (what applications put in the container), [Orm] and [SqlSemantics]
    (sea-query's conditions in SQL's three-valued logic), [Transactions], [Queries] and their
    semantics (a connection), [Serde], [Wire] (serialization), [GraphqlEngine], [JwtEngine],
    [OAuthEngine], [SchemaGenerator], [HeaderValues].  What an application writes is one too:
    [EventCode], [ProcessorCode], [ControllerCode], [GatewayCode].  Each class has a concrete instance in a
    [Demo] module of its file, where the hypotheses of the theorems are discharged at concrete inputs.

    * What is proved

    - Boot: a container that boots has every injected dependency of every provider
      ([App.boot_leaves_no_dangling_dependency]); the provider fixpoint succeeds exactly on buildable
      lists, whatever their order, and its diagnosis of a stall is sound ([Register]); the access check
      accepts exactly the module graphs without a violation, and names one otherwise ([Access]);
      constructing a provider succeeds exactly when what it injects is bound ([Codegen]).
    - Container and phases: last registration wins, one instance per request scope ([Container]); hooks
      run sorted and each phase stops or continues as documented ([Lifecycle]); the run loop shuts down in
      order ([App]).
    - Authorization: the instance check is grant and not denial; where the rules compare values of the
      types of their columns, the query pre-filter never selects a row the check refuses, and agrees with
      it away from NULL; masking keeps permitted fields ([Authz]); a protected HTTP route enforces all of
      it end to end, a body that is one object is masked and not filtered, and masking fails closed
      ([AuthzHttp]).
    - Generated REST routes act on granted rows only, the mask of their answers included ([Crud]).
    - Data: a mutation is durable exactly when it is answered as a success, but for a commit whose error
      leaves the outcome in doubt; scoped reads return granted rows only, writes need a grant; keyset
      pages enumerate the scope ([Orm]).
    - Transports: the order of the layers around a route and around the application ([Http]); pushes reach
      their audience, a message runs under the guards of its handler, a connection is reclaimed unless
      something panics ([Ws]), and the handlers are the methods as they were declared
      ([Messages.messages_run_their_methods]); periods parse exactly, jobs run until cancelled
      ([Schedule]); a window allows its limit ([Throttler]); tokens and OAuth transactions verify for
      their lifetime ([Auth]), where the key is of the family of the algorithm; an emitted event reaches
      every listed handler once, in order, and emission ends ([Events]); the timing header is read back
      entry by entry ([ServerTiming]).
    - Identity: a WebSocket message and a loader's batch read as the caller whose guards were passed
      ([Bridges]). The fields a GraphQL root advertises are the ones it runs, whatever the link order,
      while no two resolvers share one ([GraphqlSchema]), and so is the committed SDL ([GraphqlModule]).
    - Decorators: a controller and a gateway mount exactly when what they need is bound, and what they
      serve runs inside the layers their attributes list ([Controller.controller_mounts_as_declared],
      [Gateway.gateway_mounts_when_wired]); a resolver's operations run under its guards and it declares
      what it looks up ([Resolver]); a generated GraphQL operation needs the grant that its REST
      counterpart needs and agrees with it, up to the mask the route adds ([GraphqlCrud]); an exposed
      entity shows the columns marked and no other ([Resource]); the options of [#[crud]] and [#[module]]
      are read back as written ([MacroArgs]).
    - Resources: a boot with the configured modules has what they open ([Infrastructure]); a GraphQL
      request is prepared exactly when every linked loader's data layer is bound ([Dataloader]); throwaway
      databases do not disturb each other, step by step of any interleaving ([Testing]); a response is
      logged once however its body ends ([Telemetry]).
    - Edges: TLS is all or nothing, integer arguments are read exactly, and the documentation page finds
      all it refers to ([HttpEdge]).
    - Documentation: the OpenAPI document has an operation exactly where a route is mounted, with the
      parameters its path names ([OpenApi]); the page leaves the document's identifiers alone, tries an
      operation out on the first route whose handler has its name, and shows as selected what it loaded
      ([SwaggerUi]); its store refines snapshots of its listeners ([ReduxStore]); its base64 is that of
      RFC 4648 and decodes what it encodes ([Base64]).
    - Applications: a token that is issued is the principal a resource server sees, and the OAuth guard
      admits nobody without a flow that checks out ([Identity]); the rules the API declares decide, in
      each of their layers, as its policy says, and its relations stay in the organisation of the caller
      ([Api]); whatever a route of the users is given, it acts in and answers from that organisation only
      ([ApiRoutes]); the chat's room tracks its connections however they interleave ([Chat]); seeding
      again changes nothing ([Seed]); a track the cron job queues is the one transcoded, and coordinates
      out of range reach no provider ([Apps]).
    - Where the code and its documentation part, a theorem or an example says so: for instance a GraphQL
      mutation that reports errors is committed ([Graphql.graphql_operation_commits_its_errors]), a
      validated page can overflow its offset ([Orm.offset_exact_below_overflow]), and creating a row is
      not gated by the conditions of a rule ([Crud.crud_create_ignores_rule_conditions]). Where a library
      behaves in a way the code does not expect, an example does: an update that sets nothing skips the
      scope of its statement ([Api.ApiDemo.empty_update_skips_the_scope]), a rule that compares with
      another integer type filters and checks differently ([Authz.VariantDemo.variant_diverges]), and a
      key of another family boots and signs nothing ([Auth]).

    * Fuel and bounds

    These recursions take fuel.  The reachability walk of [Access] pops one entry per unit and is given
    more units than there are roots and imports to push; the provider fixpoint of [Register] is given
    one unit per pending provider and one more, each round but the last building at least one; the
    import tree of [Register] is given one unit per module type and one more, since a module marks
    itself before it recurs; a client that follows cursors ([Orm.traverse]) is given one unit per row
    and one more.  [Events.emit] is given more units than the rank of the event, where handlers emit
    events of lower rank only; without such a rank the code need not end either.  The loops of [Base64]
    advance by three, four or a chunk and are given one unit per unit of input and one more; the reader
    of [ServerTiming] likewise.  A notification of [ReduxStore] takes one unit per slot of its map and one
    more, [MacroArgs.crud_loop] and [MacroArgs.module_loop] one per token, and the search for a payload in
    [Controller.json_payload] the size of the type.  Each is proved never to run out.  Everything else is structural.

    * What is not modelled

    Macro entry points and re-exports, which only name the functions that are modelled, and the module lists
    and [main] functions of the applications, which only name modules; token generation as such (a macro is
    modelled by what its output does).  Sockets, rustls, the broker behind the queues, poem's router,
    async-graphql's executor, sea-orm's statements and its record of the migrations that have run, syn's
    parsing, the floating-point coordinates of the weather tool and the exporters are third-party and
    parameters.  Nearly all of the vendored Swagger UI (React, its request builder, its reference resolver)
    is left out: of its two files, each a bundle on one line, only the functions named above are
    modelled, whatever share of the lines that is.  Concurrency is modelled where it is observable in order
    (link order, the interleaving of pushes and disconnections, of connections and their messages, of
    transports and cancellation, the steps of tests that create databases); two
    requests running against one database at once are not. *)

(** Shared vocabulary: the [result] type of fallible code with its notation and loops, the
    fixed-width unsigned arithmetic of the Rust program (wrapping, checked and saturating forms),
    ordering of strings, the automation the components share and the generic list lemmas their
    proofs use. *)

From stdpp Require Export prelude gmap strings list sorting.
From Stdlib Require Export ZArith Lia.
From Stdlib Require Import DecimalString DecimalFacts DecimalPos DecimalN.

Declare Scope nestrs_scope.
Delimit Scope nestrs_scope with nestrs.
Open Scope nestrs_scope.

(** ** Fallible code: Rust's [Result<A, E>] *)

Inductive result (A E : Type) : Type :=
| Ok (a : A)
| Err (e : E).
Arguments Ok {A E} a.
Arguments Err {A E} e.

Definition result_bind {A B E} (r : result A E) (k : A -> result B E) : result B E :=
  match r with
  | Ok a => k a
  | Err e => Err e
  end.

(** The [?] operator. *)
Notation "'let?' x ':=' c 'in' k" := (result_bind c (fun x => k))
  (at level 10, x pattern, c at level 200, k at level 200)
  : nestrs_scope.

Definition result_map {A B E} (f : A -> B) (r : result A E) : result B E :=
  match r with
  | Ok a => Ok (f a)
  | Err e => Err e
  end.

Definition map_err {A E E'} (f : E -> E') (r : result A E) : result A E' :=
  match r with
  | Ok a => Ok a
  | Err e => Err (f e)
  end.

Definition result_ok {A E} (r : result A E) : option A :=
  match r with
  | Ok a => Some a
  | Err _ => None
  end.

Definition is_ok {A E} (r : result A E) : bool :=
  match r with
  | Ok _ => true
  | Err _ => false
  end.

Definition ok_or {A E} (o : option A) (e : E) : result A E :=
  match o with
  | Some a => Ok a
  | None => Err e
  end.

(** A [for] loop whose body may leave it with an error ([return Err(..)] or [?]). *)
Fixpoint for_each {X S E} (body : S -> X -> result S E) (l : list X) (s : S) : result S E :=
  match l with
  | [] => Ok s
  | x :: l' => let? s' := body s x in for_each body l' s'
  end.

(** [iter.map(f).collect::<Result<Vec<_>>>()]. *)
Fixpoint collect_results {X A E} (f : X -> result A E) (l : list X) : result (list A) E :=
  match l with
  | [] => Ok []
  | x :: l' => let? a := f x in let? t := collect_results f l' in Ok (a :: t)
  end.

(** The two sides of a list of sums. *)
Definition lefts {A B} (l : list (A + B)) : list A :=
  omap (fun d : A + B => match d with inl a => Some a | inr _ => None end) l.

Definition rights {A B} (l : list (A + B)) : list B :=
  omap (fun d : A + B => match d with inl _ => None | inr b => Some b end) l.

(** ** Fixed-width unsigned integers *)

Definition u32_max : Z := 2 ^ 32 - 1.
Definition u64_max : Z := 2 ^ 64 - 1.
Definition u32 (x : Z) : Prop := (0 <= x <= u32_max)%Z.
Definition u64 (x : Z) : Prop := (0 <= x <= u64_max)%Z.

(** Release builds wrap on overflow. *)
Definition wrap_u32 (x : Z) : Z := Z.modulo x (2 ^ 32).
Definition wrap_u64 (x : Z) : Z := Z.modulo x (2 ^ 64).

Definition checked_mul_u64 (x y : Z) : option Z :=
  if Z.leb (x * y) u64_max then Some (x * y)%Z else None.

Definition saturating_sub (x y : Z) : Z := Z.max 0 (x - y).

Definition clampZ (x lo hi : Z) : Z := Z.min (Z.max x lo) hi.

(** ** Byte-wise string order ([Ord for str]) and its lexicographic product *)

Definition str_leb (a b : string) : bool := String.leb a b.

Definition pair_leb (a b : string * string) : bool :=
  if String.eqb a.1 b.1 then str_leb a.2 b.2 else str_leb a.1 b.1.

(** Rust's [sort_by_key] is a stable sort; insertion keeps equal keys in order. *)
Fixpoint insert_by {X} (leb : X -> X -> bool) (x : X) (l : list X) : list X :=
  match l with
  | [] => [x]
  | y :: l' => if leb x y then x :: y :: l' else y :: insert_by leb x l'
  end.

Fixpoint stable_sort {X} (leb : X -> X -> bool) (l : list X) : list X :=
  match l with
  | [] => []
  | x :: l' => insert_by leb x (stable_sort leb l')
  end.

(** ** Serialized values

    [serde_json::Value]; an object keeps its members in order. *)
Inductive json :=
| JNull
| JBool (b : bool)
| JNumber (z : Z)
| JString (s : string)
| JArray (l : list json)
| JObject (members : list (string * json)).

(** ** ASCII strings: [trim], [strip_prefix], [strip_suffix], [split] and [parse::<u64>] *)

Definition chars (s : string) : list Ascii.ascii := String.list_ascii_of_string s.
Definition of_chars (l : list Ascii.ascii) : string := String.string_of_list_ascii l.

(** [char::is_whitespace] on ASCII. *)
Definition is_space (c : Ascii.ascii) : bool :=
  let n := Ascii.nat_of_ascii c in (Nat.leb 9 n && Nat.leb n 13) || Nat.eqb n 32.

Fixpoint drop_spaces (l : list Ascii.ascii) : list Ascii.ascii :=
  match l with
  | c :: l' => if is_space c then drop_spaces l' else l
  | [] => []
  end.

Definition trim (s : string) : string :=
  of_chars (rev (drop_spaces (rev (drop_spaces (chars s))))).

Fixpoint strip_chars (p l : list Ascii.ascii) : option (list Ascii.ascii) :=
  match p, l with
  | [], _ => Some l
  | c :: p', d :: l' => if Ascii.eqb c d then strip_chars p' l' else None
  | _ :: _, [] => None
  end.

Definition strip_prefix (p s : string) : option string := of_chars <$> strip_chars (chars p) (chars s).

Definition strip_suffix (p s : string) : option string :=
  (fun l => of_chars (rev l)) <$> strip_chars (rev (chars p)) (rev (chars s)).

(** [s.split(c)]: never empty. *)
Fixpoint split_chars (c : Ascii.ascii) (l acc : list Ascii.ascii) : list (list Ascii.ascii) :=
  match l with
  | [] => [rev acc]
  | d :: l' => if Ascii.eqb c d then rev acc :: split_chars c l' [] else split_chars c l' (d :: acc)
  end.

Definition split (c : Ascii.ascii) (s : string) : list string := map of_chars (split_chars c (chars s) []).

(** [slice.join(sep)]. *)
Fixpoint join (sep : string) (l : list string) : string :=
  match l with
  | [] => ""
  | [x] => x
  | x :: l' => x +:+ sep +:+ join sep l'
  end.

(** [str::parse] of an unsigned integer: an optional [+], at least one decimal digit, no overflow. *)
Definition parse_uint (max : Z) (s : string) : option Z :=
  let digits := default s (strip_prefix "+" s) in
  if String.eqb digits "" then None
  else
    d ← NilEmpty.uint_of_string digits;
    let n := Z.of_N (N.of_uint d) in
    if Z.leb n max then Some n else None.

Definition parse_u64 (s : string) : option Z := parse_uint u64_max s.

(** [u64::to_string]. *)
Definition show_u64 (n : Z) : string := NilEmpty.string_of_uint (N.to_uint (Z.to_N n)).

(** ** Automation *)

Create HintDb nestrs discriminated.

Ltac simpl_results :=
  repeat match goal with
  | H : Ok _ = Ok _ |- _ => injection H as H; subst
  | H : Err _ = Err _ |- _ => injection H as H; subst
  | H : Ok _ = Err _ |- _ => discriminate H
  | H : Err _ = Ok _ |- _ => discriminate H
  | H : Some _ = Some _ |- _ => injection H as H; subst
  | H : result_bind ?c _ = _ |- _ =>
      let E := fresh "E" in destruct c eqn:E; simpl in H
  end.

(** Case analysis on every [match] and [if] of the goal. *)
Ltac case_all := repeat (case_match; simplify_eq/=; try done).

(** ** Lemmas on results and loops *)

Lemma for_each_ok_iff {X E} (body : X -> result unit E) (l : list X) :
  for_each (fun _ x => body x) l tt = Ok tt <-> Forall (fun x => body x = Ok tt) l.
Proof.
  induction l as [|x l IH]; simpl; [split; auto|].
  destruct (body x) as [[]|e] eqn:Hx; simpl.
  - rewrite IH. split; [by constructor | by inversion 1].
  - split; [discriminate | inversion 1; congruence].
Qed.

Lemma for_each_err {X E} (body : X -> result unit E) (l : list X) (e : E) :
  for_each (fun _ x => body x) l tt = Err e -> exists x, x ∈ l /\ body x = Err e.
Proof.
  induction l as [|x l IH]; simpl; [discriminate|].
  destruct (body x) as [[]|e'] eqn:Hx; simpl; intros H.
  - destruct (IH H) as (y & Hy & Hb). exists y. split; [by right | done].
  - simplify_eq. exists x. split; [by left | done].
Qed.

Lemma for_each_app {X S E} (body : S -> X -> result S E) (l1 l2 : list X) (s : S) :
  for_each body (l1 ++ l2) s = (let? s' := for_each body l1 s in for_each body l2 s').
Proof.
  revert s. induction l1 as [|x l1 IH]; intros s; simpl; [done|].
  destruct (body s x); simpl; auto.
Qed.

Lemma collect_results_ok {X A E} (f : X -> result A E) (l : list X) (t : list A) :
  collect_results f l = Ok t <-> Forall2 (fun x a => f x = Ok a) l t.
Proof.
  revert t. induction l as [|x l IH]; intros t; simpl.
  - split; [intros; simplify_eq; constructor | inversion 1; done].
  - destruct (f x) as [a|e] eqn:Hx; simpl.
    + destruct (collect_results f l) as [t'|e] eqn:Hl; simpl.
      * split.
        -- intros; simplify_eq. constructor; [done | by apply IH].
        -- inversion 1; subst. repeat f_equal; [congruence|].
           assert (Ok t' = Ok l') as [= ->] by (by apply IH). done.
      * split; [discriminate|]. inversion 1 as [|? ? ? l' ? H2]; subst.
        apply IH in H2. discriminate.
    + split; [discriminate | inversion 1; congruence].
Qed.

(** The first error of the list is the one reported. *)
Lemma collect_results_err {X A E} (f : X -> result A E) (l : list X) (e : E) :
  collect_results f l = Err e ->
  exists l1 x l2, l = l1 ++ x :: l2 /\ f x = Err e /\ Forall (fun y => is_ok (f y) = true) l1.
Proof.
  induction l as [|x l IH]; simpl; [discriminate|].
  destruct (f x) as [a|e'] eqn:Hx; simpl.
  - destruct (collect_results f l) as [t|e'] eqn:Hl; simpl; [discriminate|].
    intros H. injection H as ->. destruct (IH eq_refl) as (l1 & y & l2 & -> & Hy & Hok).
    exists (x :: l1), y, l2. split; [done|]. split; [done|]. constructor; [|done]. by rewrite Hx.
  - intros H. injection H as ->. exists [], x, l. auto.
Qed.

(** ** Sums over lists, reversal *)

#[export] Instance lefts_perm {A B} : Proper ((≡ₚ) ==> (≡ₚ)) (@lefts A B).
Proof. intros l l' Hl. unfold lefts. by rewrite Hl. Qed.

#[export] Instance rights_perm {A B} : Proper ((≡ₚ) ==> (≡ₚ)) (@rights A B).
Proof. intros l l' Hl. unfold rights. by rewrite Hl. Qed.

Lemma elem_of_lefts {A B} (l : list (A + B)) a : a ∈ lefts l <-> inl a ∈ l.
Proof.
  unfold lefts. rewrite list_elem_of_omap. split; [|by exists (inl a)].
  intros ([a'|b] & Hin & Ha); by simplify_eq.
Qed.

Lemma elem_of_rights {A B} (l : list (A + B)) b : b ∈ rights l <-> inr b ∈ l.
Proof.
  unfold rights. rewrite list_elem_of_omap. split; [|by exists (inr b)].
  intros ([a|b'] & Hin & Hb); by simplify_eq.
Qed.

Lemma elem_of_rev {X} (x : X) (l : list X) : x ∈ rev l <-> x ∈ l.
Proof. rewrite !list_elem_of_In. symmetry. apply in_rev. Qed.


Lemma sum_list_with_ext {X} (f g : X -> nat) (l : list X) :
  (forall x, x ∈ l -> f x = g x) -> sum_list_with f l = sum_list_with g l.
Proof.
  induction l as [|x l IH]; intros Hfg; simpl; [done|].
  rewrite (Hfg x) by (by left). f_equal. apply IH. intros y Hy. apply Hfg. by right.
Qed.

(** ** Machine integers *)

Lemma wrap_u64_range x : u64 (wrap_u64 x).
Proof. unfold u64, wrap_u64, u64_max. pose proof (Z.mod_pos_bound x (2 ^ 64)). lia. Qed.

Lemma wrap_u64_small x : u64 x -> wrap_u64 x = x.
Proof. unfold u64, wrap_u64, u64_max. intros. apply Z.mod_small. lia. Qed.

Lemma wrap_u32_range x : u32 (wrap_u32 x).
Proof. unfold u32, wrap_u32, u32_max. pose proof (Z.mod_pos_bound x (2 ^ 32)). lia. Qed.

Lemma wrap_u32_small x : u32 x -> wrap_u32 x = x.
Proof. unfold u32, wrap_u32, u32_max. intros. apply Z.mod_small. lia. Qed.

Lemma clampZ_range x lo hi : (lo <= hi -> lo <= clampZ x lo hi <= hi)%Z.
Proof. unfold clampZ. lia. Qed.

#[export] Hint Resolve wrap_u64_range wrap_u32_range : nestrs.

(** ** Stable sorting *)

Section stable_sort.
Context {X : Type} (leb : X -> X -> bool).

Lemma insert_by_perm x l : insert_by leb x l ≡ₚ x :: l.
Proof.
  induction l as [|y l IH]; simpl; [done|]. destruct (leb x y); [done|].
  rewrite IH. by apply Permutation_swap.
Qed.

Lemma stable_sort_perm l : stable_sort leb l ≡ₚ l.
Proof. induction l as [|x l IH]; simpl; [done|]. by rewrite insert_by_perm, IH. Qed.

Hypothesis total : forall x y, leb x y = true \/ leb y x = true.
Hypothesis trans : forall x y z, leb x y = true -> leb y z = true -> leb x z = true.

Lemma insert_by_sorted x l : StronglySorted (fun x y => leb x y = true) l -> StronglySorted (fun x y => leb x y = true) (insert_by leb x l).
Proof.
  induction 1 as [|y l Hs IH Hall]; simpl; [repeat constructor|].
  destruct (leb x y) eqn:Hxy.
  - constructor; [by constructor|]. constructor; [done|].
    eapply Forall_impl; [exact Hall|]. intros z Hz. by apply trans with y.
  - assert (leb y x = true) as Hyx by (destruct (total x y); congruence).
    constructor; [done|]. rewrite insert_by_perm. by constructor.
Qed.

Lemma stable_sort_sorted l : StronglySorted (fun x y => leb x y = true) (stable_sort leb l).
Proof. induction l; simpl; [constructor | by apply insert_by_sorted]. Qed.

End stable_sort.

(** Two sorted permutations agree as soon as the order is antisymmetric on them. *)
Lemma sorted_perm_unique {X} (R : relation X) (l1 l2 : list X) :
  (forall x y, x ∈ l1 -> y ∈ l1 -> R x y -> R y x -> x = y) ->
  StronglySorted R l1 -> StronglySorted R l2 -> l1 ≡ₚ l2 -> l1 = l2.
Proof.
  revert l2. induction l1 as [|x l1 IH]; intros l2 Hanti Hs1 Hs2 Hp.
  { by apply Permutation_nil_l in Hp. }
  destruct l2 as [|y l2]; [symmetry in Hp; by apply Permutation_nil_l in Hp|].
  inversion Hs1 as [|? ? Hs1' Ha1]; inversion Hs2 as [|? ? Hs2' Ha2]; subst.
  assert (x = y) as ->.
  { assert (Hx : x ∈ y :: l2) by (rewrite <- Hp; by left).
    assert (Hy : y ∈ x :: l1) by (rewrite Hp; by left).
    apply elem_of_cons in Hx as [->|Hx]; [done|].
    apply elem_of_cons in Hy as [->|Hy]; [done|].
    rewrite Forall_forall in Ha1, Ha2.
    apply Hanti; [by left | by right | apply Ha1, Hy | apply Ha2, Hx]. }
  f_equal. apply IH; [|done|done|by apply Permutation_cons_inv in Hp].
  intros a b Ha Hb. apply Hanti; by right.
Qed.

(** ** String order is total, transitive and antisymmetric *)

Lemma str_leb_total a b : str_leb a b = true \/ str_leb b a = true.
Proof.
  unfold str_leb, String.leb. rewrite (String.compare_antisym a b).
  destruct (String.compare b a); simpl; auto.
Qed.

Lemma ascii_compare_N a b : Ascii.compare a b = N.compare (Ascii.N_of_ascii a) (Ascii.N_of_ascii b).
Proof. reflexivity. Qed.

Lemma str_leb_trans a b c : str_leb a b = true -> str_leb b c = true -> str_leb a c = true.
Proof.
  unfold str_leb, String.leb. revert b c.
  induction a as [|x a IH]; intros [|y b] [|z c]; simpl; try done.
  rewrite !ascii_compare_N. specialize (IH b c).
  destruct (N.compare_spec (Ascii.N_of_ascii x) (Ascii.N_of_ascii y)) as [Exy|?|?];
    destruct (N.compare_spec (Ascii.N_of_ascii y) (Ascii.N_of_ascii z)) as [Eyz|?|?];
    destruct (N.compare_spec (Ascii.N_of_ascii x) (Ascii.N_of_ascii z)) as [Exz|?|?];
    try done; try lia; auto.
Qed.

Lemma str_leb_antisym a b : str_leb a b = true -> str_leb b a = true -> a = b.
Proof.
  unfold str_leb, String.leb. rewrite (String.compare_antisym a b).
  destruct (String.compare b a) eqn:E; simpl; try done.
  intros _ _. symmetry. by apply String.compare_eq_iff.
Qed.

Lemma pair_leb_total a b : pair_leb a b = true \/ pair_leb b a = true.
Proof.
  unfold pair_leb. destruct (String.eqb_spec a.1 b.1) as [->|Hne].
  - rewrite String.eqb_refl. apply str_leb_total.
  - destruct (String.eqb_spec b.1 a.1); [congruence|]. apply str_leb_total.
Qed.

Lemma pair_leb_trans a b c : pair_leb a b = true -> pair_leb b c = true -> pair_leb a c = true.
Proof.
  unfold pair_leb.
  destruct (String.eqb_spec a.1 b.1) as [E1|N1]; destruct (String.eqb_spec b.1 c.1) as [E2|N2];
    destruct (String.eqb_spec a.1 c.1) as [E3|N3]; try congruence; intros H1 H2.
  - by apply str_leb_trans with b.2.
  - exfalso. apply N1. apply str_leb_antisym; [done|]. by rewrite E3.
  - by apply str_leb_trans with b.1.
Qed.

Lemma pair_leb_antisym a b : pair_leb a b = true -> pair_leb b a = true -> a = b.
Proof.
  unfold pair_leb. destruct a as [a1 a2], b as [b1 b2]; simpl.
  destruct (String.eqb_spec a1 b1) as [->|Hne].
  - rewrite String.eqb_refl. intros. f_equal. by apply str_leb_antisym.
  - destruct (String.eqb_spec b1 a1); [congruence|]. intros. exfalso. apply Hne.
    by apply str_leb_antisym.
Qed.

(** ** ASCII strings *)

Lemma of_chars_chars s : of_chars (chars s) = s.
Proof. apply String.string_of_list_ascii_of_string. Qed.

Lemma chars_of_chars l : chars (of_chars l) = l.
Proof. apply String.list_ascii_of_string_of_list_ascii. Qed.

Lemma chars_app s t : chars (s +:+ t) = chars s ++ chars t.
Proof. induction s as [|c s IH]; simpl; [done|]. by rewrite IH. Qed.

(** Splitting what was joined at a character the pieces do not have. *)
Lemma split_chars_app (c : Ascii.ascii) (l1 l2 acc : list Ascii.ascii) : c ∉ l1 ->
  split_chars c (l1 ++ c :: l2) acc = rev (rev l1 ++ acc) :: split_chars c l2 [].
Proof.
  revert acc. induction l1 as [|d l1 IH]; intros acc Hl; [cbn; by rewrite Ascii.eqb_refl|]. apply not_elem_of_cons in Hl as [? ?].
  cbn [app split_chars]. destruct (Ascii.eqb_spec c d); [done|]. rewrite IH by done. simpl. by rewrite <-app_assoc.
Qed.

Lemma split_chars_last (c : Ascii.ascii) (l acc : list Ascii.ascii) : c ∉ l -> split_chars c l acc = [rev (rev l ++ acc)].
Proof.
  revert acc. induction l as [|d l IH]; intros acc Hl; [done|]. apply not_elem_of_cons in Hl as [? ?].
  cbn [split_chars]. destruct (Ascii.eqb_spec c d); [done|]. rewrite IH by done. simpl. by rewrite <-app_assoc.
Qed.

Lemma split_join_char (c : Ascii.ascii) segs : segs <> [] -> Forall (fun s => c ∉ chars s) segs -> split c (join (of_chars [c]) segs) = segs.
Proof.
  intros Hne Hs. unfold split. induction Hs as [|x [|y segs] Hx Hs IH]; [done| |].
  - cbn [join]. rewrite split_chars_last, List.app_nil_r, List.rev_involutive by done. cbn. by rewrite of_chars_chars.
  - cbn [join] in *. rewrite !chars_app, chars_of_chars. cbn [app].
    rewrite split_chars_app, List.app_nil_r, List.rev_involutive by done. cbn [map]. rewrite of_chars_chars. f_equal. by apply IH.
Qed.

Lemma strip_chars_app p l : strip_chars p (p ++ l) = Some l.
Proof. induction p as [|c p IH]; simpl; [done|]. by rewrite Ascii.eqb_refl. Qed.

Lemma strip_chars_some p l r : strip_chars p l = Some r <-> l = p ++ r.
Proof.
  split; [|intros ->; apply strip_chars_app]. revert l.
  induction p as [|c p IH]; intros [|d l]; simpl; try (by intros [= ->]).
  destruct (Ascii.eqb_spec c d) as [->|]; [|done]. intros. f_equal. by apply IH.
Qed.

Lemma strip_suffix_some p s r : strip_suffix p s = Some r <-> s = r +:+ p.
Proof.
  unfold strip_suffix. rewrite fmap_Some. split.
  - intros (l & Hl & ->). apply strip_chars_some in Hl.
    rewrite <- (of_chars_chars s), <- (rev_involutive (chars s)), Hl, rev_app_distr, rev_involutive.
    rewrite <- (of_chars_chars p) at 2. rewrite <- (of_chars_chars (of_chars (rev l) +:+ of_chars (chars p))).
    by rewrite chars_app, !chars_of_chars.
  - intros ->. exists (rev (chars r)). rewrite strip_chars_some, chars_app, rev_app_distr, rev_involutive.
    by rewrite of_chars_chars.
Qed.

(** Neither end is a space. *)
Definition tight (l : list Ascii.ascii) : Prop :=
  (forall c l', l = c :: l' -> is_space c = false) /\ (forall c l', l = l' ++ [c] -> is_space c = false).

Lemma drop_spaces_id l : (forall c l', l = c :: l' -> is_space c = false) -> drop_spaces l = l.
Proof. destruct l as [|c l]; simpl; intros Hc; [done|]. by rewrite (Hc c l eq_refl). Qed.

Lemma trim_tight s : tight (chars s) -> trim s = s.
Proof.
  intros [Hl Hr]. unfold trim. rewrite (drop_spaces_id _ Hl), drop_spaces_id.
  - by rewrite rev_involutive, of_chars_chars.
  - intros c l' Hc. apply (Hr c (rev l')). rewrite <- (rev_involutive (chars s)), Hc. done.
Qed.

(** ** Decimal printing and parsing *)

Definition is_digit (c : Ascii.ascii) : bool :=
  let n := Ascii.nat_of_ascii c in Nat.leb 48 n && Nat.leb n 57.

Lemma uint_digits d : Forall (fun c => is_digit c = true) (chars (NilEmpty.string_of_uint d)).
Proof. induction d; simpl; constructor; done. Qed.

Lemma show_u64_digits n : Forall (fun c => is_digit c = true) (chars (show_u64 n)).
Proof. apply uint_digits. Qed.

Lemma show_u64_nonempty n : show_u64 n <> "".
Proof.
  unfold show_u64. destruct (Z.to_N n) as [|p]; [done|]. simpl.
  pose proof (DecimalPos.Unsigned.to_uint_nonnil p) as Hn. by destruct (Pos.to_uint p).
Qed.

Lemma digit_not_space c : is_digit c = true -> is_space c = false.
Proof.
  unfold is_digit, is_space. intros [H1%Nat.leb_le H2%Nat.leb_le]%andb_true_iff.
  apply orb_false_iff. split; [apply andb_false_iff; right; apply Nat.leb_gt|apply Nat.eqb_neq]; lia.
Qed.

Lemma digits_tight l : Forall (fun c => is_digit c = true) l -> tight l.
Proof.
  intros Hl. split; intros c l' ->; apply digit_not_space.
  - by inversion Hl.
  - apply Forall_app in Hl as [_ Hc]. by inversion Hc.
Qed.

Lemma parse_show_digits max n : (0 <= n)%Z ->
  parse_uint max (show_u64 n) = if Z.leb n max then Some n else None.
Proof.
  intros Hn. unfold parse_uint. pose proof (show_u64_digits n) as Hd. pose proof (show_u64_nonempty n) as Hne.
  assert (Hplus : strip_prefix "+" (show_u64 n) = None).
  { unfold strip_prefix. destruct (strip_chars (chars "+") (chars (show_u64 n))) as [r|] eqn:E; [|done].
    apply strip_chars_some in E. rewrite E in Hd. by inversion Hd. }
  rewrite Hplus. simpl. destruct (String.eqb_spec (show_u64 n) ""); [done|].
  unfold show_u64 at 1. rewrite NilEmpty.usu. simpl. rewrite DecimalN.Unsigned.of_to.
  by rewrite Z2N.id.
Qed.

Lemma parse_show_u64 n : u64 n -> parse_u64 (show_u64 n) = Some n.
Proof. intros [? ?]. unfold parse_u64. rewrite parse_show_digits by done. by rewrite (proj2 (Z.leb_le _ _)). Qed.

Lemma parse_show_u64_overflow n : (u64_max < n)%Z -> parse_u64 (show_u64 n) = None.
Proof.
  intros Hn. unfold parse_u64. rewrite parse_show_digits by (unfold u64_max in Hn; lia). by rewrite (proj2 (Z.leb_gt _ _)).
Qed.

Lemma parse_u64_range s n : parse_u64 s = Some n -> u64 n.
Proof.
  unfold parse_u64, parse_uint. case_match; [done|]. destruct (NilEmpty.uint_of_string _) as [d|]; simpl; [|done].
  case_match eqn:Hle; [|done]. intros [= <-]. apply Z.leb_le in Hle. split; [apply N2Z.is_nonneg|done].
Qed.
