(* ===== verification/Container.v ===== *)
(** The flat dependency-injection container of [nestrs-core]: [container.rs] (the
    [ContainerBuilder] and the [Container] it builds), [discovery.rs] (the metadata façade)
    and [scope.rs] (the per-request layer).

    A Rust type used as a key is a value of [ty]; [TypeId::of::<T>()] is the type itself.
    A stored [Arc<dyn Any>] is an [any_arc]: the dynamic type with the payload, so that
    [downcast] is the type test.  The closures an application hands to the container
    (request-scoped factories, asynchronous factories) are opaque handles of the class
    [Payloads]; the class [UserCode] says what running them returns. *)

From S2P Require Import Prelude.

(** ** Types and erased values *)

Inductive ty : Type :=
| TNamed (n : string)        (* a concrete type *)
| TDyn (n : string)          (* a trait object type [dyn Trait] *)
| TArc (t : ty).             (* [Arc<t>] *)

#[export] Instance ty_eq_dec : EqDecision ty.
Proof. solve_decision. Defined.

Fixpoint ty_code (t : ty) : nat * (bool * string) :=
  match t with
  | TNamed n => (0, (false, n))
  | TDyn n => (0, (true, n))
  | TArc t' => (S (ty_code t').1, (ty_code t').2)
  end.

Fixpoint ty_wrap (k : nat) (b : ty) : ty :=
  match k with
  | O => b
  | S k' => TArc (ty_wrap k' b)
  end.

Definition ty_decode (c : nat * (bool * string)) : ty :=
  ty_wrap c.1 (if c.2.1 then TDyn c.2.2 else TNamed c.2.2).

#[export] Instance ty_countable : Countable ty.
Proof.
  refine (inj_countable' ty_code ty_decode _).
  intros t. induction t as [n|n|t IH]; [done|done|].
  unfold ty_decode in *; simpl. by rewrite IH.
Defined.

(** The application's side of the container: payloads and opaque closures. *)
Class Payloads := {
  val : Type;                 (* what an [Arc] points at *)
  scoped_fn : Type;           (* [Fn(&Container) -> T] of a request-scoped provider *)
  factory_fn : Type;          (* [FnOnce(Container) -> Future<Result<T>>] *)
  failure : Type              (* [anyhow::Error] *)
}.

Section container.
Context `{Payloads}.

Record any_arc := AnyArc { any_ty : ty; any_val : val }.

(** [Arc<dyn Any>::downcast::<T>().ok()] *)
Definition downcast (t : ty) (a : any_arc) : option val :=
  if decide (any_ty a = t) then Some (any_val a) else None.

Record meta_entry := MetaEntry {
  provider_type_id : option ty;
  meta : any_arc
}.

(** The erased [ScopedFactory] closure: the factory and the type its result is stored at. *)
Record scoped_factory_t := ScopedFactory { sf_ty : ty; sf_fn : scoped_fn }.

Record container := Container {
  providers : gmap ty any_arc;
  metadata : gmap ty (list meta_entry);
  scoped : gmap ty scoped_factory_t
}.

Inductive log_event :=
| ProviderOverride (t : ty)
| ScopedOverride (t : ty).

(** [log] is the tracing output of the registrations, oldest first. *)
Record container_builder := ContainerBuilder {
  b_providers : gmap ty any_arc;
  b_metadata : gmap ty (list meta_entry);
  registered_modules : gset ty;
  collected_modules : gset ty;
  factories : list (ty * factory_fn);
  b_scoped : gmap ty scoped_factory_t;
  log : list log_event
}.

(** ** Reads of a built container *)

Definition get (t : ty) (c : container) : option val :=
  any ← providers c !! t; downcast t any.

Definition get_dyn (t : ty) (c : container) : option val :=
  any ← providers c !! TArc t; downcast (TArc t) any.

Definition metadata_entries (key : ty) (c : container) : option (list meta_entry) :=
  metadata c !! key.

Definition scoped_factory (id : ty) (c : container) : option scoped_factory_t :=
  scoped c !! id.

(** [DiscoveryService::meta::<M>] *)
Definition discovery_meta (m : ty) (c : container) : list (val * option ty) :=
  match metadata_entries m c with
  | Some entries =>
      omap (fun entry => v ← downcast m (meta entry); Some (v, provider_type_id entry)) entries
  | None => []
  end.

(** ** Registrations *)

Definition builder_new : container_builder :=
  {| b_providers := ∅; b_metadata := ∅; registered_modules := ∅; collected_modules := ∅;
     factories := []; b_scoped := ∅; log := [] |}.

Definition set_providers (p : gmap ty any_arc) (b : container_builder) : container_builder :=
  ContainerBuilder p (b_metadata b) (registered_modules b) (collected_modules b)
    (factories b) (b_scoped b) (log b).

Definition emit (e : log_event) (b : container_builder) : container_builder :=
  ContainerBuilder (b_providers b) (b_metadata b) (registered_modules b) (collected_modules b)
    (factories b) (b_scoped b) (log b ++ [e]).

Definition contains (id : ty) (b : container_builder) : bool :=
  bool_decide (is_Some (b_providers b !! id)).

Definition warn_if_replacing (id : ty) (b : container_builder) : container_builder :=
  if contains id b then emit (ProviderOverride id) b else b.

Definition provide (t : ty) (value : val) (b : container_builder) : container_builder :=
  let b := warn_if_replacing t b in
  set_providers (<[t := AnyArc t value]> (b_providers b)) b.

(** [provide_arc] stores the given [Arc] itself. *)
Definition provide_arc (t : ty) (value : val) (b : container_builder) : container_builder :=
  let b := warn_if_replacing t b in
  set_providers (<[t := AnyArc t value]> (b_providers b)) b.

Definition replace (t : ty) (value : val) (b : container_builder) : container_builder :=
  set_providers (<[t := AnyArc t value]> (b_providers b)) b.

(** A trait object is stored as [Arc<Arc<dyn T>>], keyed by [TypeId::of::<Arc<dyn T>>()]. *)
Definition provide_dyn (t : ty) (value : val) (b : container_builder) : container_builder :=
  set_providers (<[TArc t := AnyArc (TArc t) value]> (b_providers b)) b.

Definition push_meta (key : ty) (e : meta_entry) (b : container_builder) : container_builder :=
  ContainerBuilder (b_providers b)
    (<[key := default [] (b_metadata b !! key) ++ [e]]> (b_metadata b))
    (registered_modules b) (collected_modules b) (factories b) (b_scoped b) (log b).

Definition attach_meta (p m : ty) (value : val) (b : container_builder) : container_builder :=
  push_meta m {| provider_type_id := Some p; meta := AnyArc m value |} b.

Definition provide_meta (m : ty) (value : val) (b : container_builder) : container_builder :=
  push_meta m {| provider_type_id := None; meta := AnyArc m value |} b.

Definition mark_registered (id : ty) (b : container_builder) : bool * container_builder :=
  (negb (bool_decide (id ∈ registered_modules b)),
   ContainerBuilder (b_providers b) (b_metadata b) ({[id]} ∪ registered_modules b)
     (collected_modules b) (factories b) (b_scoped b) (log b)).

Definition mark_collected (id : ty) (b : container_builder) : bool * container_builder :=
  (negb (bool_decide (id ∈ collected_modules b)),
   ContainerBuilder (b_providers b) (b_metadata b) (registered_modules b)
     ({[id]} ∪ collected_modules b) (factories b) (b_scoped b) (log b)).

Definition provide_factory (t : ty) (f : factory_fn) (b : container_builder) : container_builder :=
  ContainerBuilder (b_providers b) (b_metadata b) (registered_modules b) (collected_modules b)
    (factories b ++ [(t, f)]) (b_scoped b) (log b).

Definition provide_scoped (t : ty) (f : scoped_fn) (b : container_builder) : container_builder :=
  let b := if bool_decide (is_Some (b_scoped b !! t)) then emit (ScopedOverride t) b else b in
  ContainerBuilder (b_providers b) (b_metadata b) (registered_modules b) (collected_modules b)
    (factories b) (<[t := ScopedFactory t f]> (b_scoped b)) (log b).

Definition take_factories (b : container_builder) : list (ty * factory_fn) * container_builder :=
  (factories b,
   ContainerBuilder (b_providers b) (b_metadata b) (registered_modules b) (collected_modules b)
     [] (b_scoped b) (log b)).

Definition provider_ids (b : container_builder) : gset ty := dom (b_providers b).

Definition build (b : container_builder) : container :=
  {| providers := b_providers b; metadata := b_metadata b; scoped := b_scoped b |}.

Definition snapshot (b : container_builder) : container :=
  {| providers := b_providers b; metadata := b_metadata b; scoped := b_scoped b |}.

(** ** The well-formedness of a builder: every value sits under its own type *)

Definition providers_typed (p : gmap ty any_arc) : Prop := map_Forall (fun t a => any_ty a = t) p.
Definition metadata_typed (m : gmap ty (list meta_entry)) : Prop :=
  map_Forall (fun t es => Forall (fun e => any_ty (meta e) = t) es) m.
Definition scoped_typed (m : gmap ty scoped_factory_t) : Prop := map_Forall (fun t f => sf_ty f = t) m.

Record builder_wf (b : container_builder) : Prop := {
  wf_providers : providers_typed (b_providers b);
  wf_metadata : metadata_typed (b_metadata b);
  wf_scoped : scoped_typed (b_scoped b)
}.

(** The registrations of the public API, for statements over any sequence of them. *)
Inductive registration :=
| RProvide (t : ty) (v : val)
| RProvideArc (t : ty) (v : val)
| RReplace (t : ty) (v : val)
| RProvideDyn (t : ty) (v : val)
| RAttachMeta (p m : ty) (v : val)
| RProvideMeta (m : ty) (v : val)
| RProvideScoped (t : ty) (f : scoped_fn)
| RProvideFactory (t : ty) (f : factory_fn)
| RMarkRegistered (t : ty)
| RMarkCollected (t : ty).

Definition apply_registration (r : registration) (b : container_builder) : container_builder :=
  match r with
  | RProvide t v => provide t v b
  | RProvideArc t v => provide_arc t v b
  | RReplace t v => replace t v b
  | RProvideDyn t v => provide_dyn t v b
  | RAttachMeta p m v => attach_meta p m v b
  | RProvideMeta m v => provide_meta m v b
  | RProvideScoped t f => provide_scoped t f b
  | RProvideFactory t f => provide_factory t f b
  | RMarkRegistered t => (mark_registered t b).2
  | RMarkCollected t => (mark_collected t b).2
  end.

Definition apply_registrations (rs : list registration) (b : container_builder) : container_builder :=
  foldl (fun b r => apply_registration r b) b rs.

(** The key a registration binds in [providers], with its value. *)
Definition provider_binding (r : registration) : option (ty * val) :=
  match r with
  | RProvide t v | RProvideArc t v | RReplace t v => Some (t, v)
  | RProvideDyn t v => Some (TArc t, v)
  | _ => None
  end.

(** The specification of the store: the last registration of a key wins. *)
Definition last_binding (t : ty) (rs : list registration) : option val :=
  foldl (fun acc r => match provider_binding r with
    | Some (k, v) => if decide (k = t) then Some v else acc
    | None => acc
    end) None rs.

(** The metadata a sequence of registrations attaches under [m], in order. *)
Definition meta_bindings (m : ty) (rs : list registration) : list (val * option ty) :=
  omap (fun r => match r with
    | RAttachMeta p m' v => if decide (m' = m) then Some (v, Some p) else None
    | RProvideMeta m' v => if decide (m' = m) then Some (v, None) else None
    | _ => None
    end) rs.

(** The log entry one registration adds, given the keys bound before it. *)
Definition override_warning (rs : list registration) (r : registration) : list log_event :=
  match r with
  | RProvide t _ | RProvideArc t _ =>
      if decide (is_Some (last_binding t rs)) then [ProviderOverride t] else []
  | RProvideScoped t _ =>
      if decide (is_Some (b_scoped (apply_registrations rs builder_new) !! t))
      then [ScopedOverride t] else []
  | _ => []
  end.

End container.

Arguments any_arc {_}.
Arguments container {_}.
Arguments container_builder {_}.
Arguments meta_entry {_}.
Arguments registration {_}.
Arguments log_event : clear implicits.

(** What running the application's closures returns.  [call_scoped] takes the number of
    request-scoped constructions made so far, so two constructions may return different
    instances; [call_factory] is the awaited future. *)
Class UserCode `{Payloads} := {
  call_scoped : scoped_fn -> container -> nat -> val;
  call_factory : factory_fn -> container -> result val failure
}.

(** ** The request scope *)

Section scope.
Context `{UserCode}.

Record request_scope := RequestScope {
  rs_root : container;
  rs_cache : gmap ty any_arc
}.

Definition scope_new (root : container) : request_scope :=
  {| rs_root := root; rs_cache := ∅ |}.

(** [RequestScope::get::<T>]: [built] counts the factory runs before the call. *)
Definition scope_get (id : ty) (s : request_scope) (built : nat)
  : option val * request_scope * nat :=
  match scoped_factory id (rs_root s) with
  | Some factory =>
      match rs_cache s !! id with
      | Some any => (downcast id any, s, built)
      | None =>
          let any := AnyArc (sf_ty factory) (call_scoped (sf_fn factory) (rs_root s) built) in
          (downcast id any, {| rs_root := rs_root s; rs_cache := <[id := any]> (rs_cache s) |},
           S built)
      end
  | None => (get id (rs_root s), s, built)
  end.

(** A request: a sequence of resolutions against one scope, with their answers. *)
Fixpoint scope_gets (ids : list ty) (s : request_scope) (built : nat)
  : list (option val) * request_scope * nat :=
  match ids with
  | [] => ([], s, built)
  | id :: ids' =>
      let '(v, s', n') := scope_get id s built in
      let '(vs, s'', n'') := scope_gets ids' s' n' in
      (v :: vs, s'', n'')
  end.

Definition scope_typed (s : request_scope) : Prop :=
  scoped_typed (scoped (rs_root s)) /\ providers_typed (rs_cache s) /\
  dom (rs_cache s) ⊆ dom (scoped (rs_root s)).

End scope.

(** ** Lemmas *)

Section lemmas.
Context `{Payloads}.
Implicit Types (b : container_builder) (r : registration) (rs : list registration).

Lemma downcast_same t v : downcast t (AnyArc t v) = Some v.
Proof. unfold downcast; simpl. by rewrite decide_True. Qed.

Lemma downcast_typed t a : any_ty a = t -> downcast t a = Some (any_val a).
Proof. intros. unfold downcast. by rewrite decide_True. Qed.

Lemma b_providers_warn t b : b_providers (warn_if_replacing t b) = b_providers b.
Proof. unfold warn_if_replacing. by destruct (contains t b). Qed.

Lemma b_metadata_warn t b : b_metadata (warn_if_replacing t b) = b_metadata b.
Proof. unfold warn_if_replacing. by destruct (contains t b). Qed.

Lemma b_scoped_warn t b : b_scoped (warn_if_replacing t b) = b_scoped b.
Proof. unfold warn_if_replacing. by destruct (contains t b). Qed.

(** The provider map after one registration. *)
Lemma apply_registration_providers r b :
  b_providers (apply_registration r b) =
    match provider_binding r with
    | Some (k, v) => <[k := AnyArc k v]> (b_providers b)
    | None => b_providers b
    end.
Proof.
  destruct r; simpl; rewrite ?b_providers_warn; try done.
  unfold provide_scoped. by case_match.
Qed.

Lemma apply_registration_metadata r b :
  b_metadata (apply_registration r b) =
    match r with
    | RAttachMeta p m v => b_metadata (attach_meta p m v b)
    | RProvideMeta m v => b_metadata (provide_meta m v b)
    | _ => b_metadata b
    end.
Proof.
  destruct r; simpl; rewrite ?b_metadata_warn; try done.
  unfold provide_scoped. by case_match.
Qed.

Lemma builder_wf_new : builder_wf builder_new.
Proof. split; apply map_Forall_empty. Qed.

Lemma push_meta_typed m e b :
  metadata_typed (b_metadata b) -> any_ty (meta e) = m -> metadata_typed (b_metadata (push_meta m e b)).
Proof.
  intros Hm He. simpl. apply map_Forall_insert_2; [|done].
  apply Forall_app; split; [|by repeat constructor].
  destruct (b_metadata b !! m) eqn:E; simpl; [|constructor]. by apply (Hm m).
Qed.

Lemma apply_registration_wf r b : builder_wf b -> builder_wf (apply_registration r b).
Proof.
  intros [Hp Hm Hs]. split.
  - rewrite apply_registration_providers. destruct (provider_binding r) as [[k v]|]; [|done].
    by apply map_Forall_insert_2.
  - rewrite apply_registration_metadata. destruct r; try done; by apply push_meta_typed.
  - destruct r; simpl; rewrite ?b_scoped_warn; try done.
    unfold provide_scoped. case_match; simpl; by apply map_Forall_insert_2.
Qed.

Lemma apply_registrations_wf rs b : builder_wf b -> builder_wf (apply_registrations rs b).
Proof. revert b. induction rs; simpl; [done|]. intros. by apply IHrs, apply_registration_wf. Qed.

Lemma apply_registrations_snoc rs r b :
  apply_registrations (rs ++ [r]) b = apply_registration r (apply_registrations rs b).
Proof. unfold apply_registrations. by rewrite foldl_app. Qed.

Lemma last_binding_snoc t rs r :
  last_binding t (rs ++ [r]) =
    match provider_binding r with
    | Some (k, v) => if decide (k = t) then Some v else last_binding t rs
    | None => last_binding t rs
    end.
Proof. unfold last_binding. by rewrite foldl_app. Qed.

Lemma providers_last_binding t rs :
  b_providers (apply_registrations rs builder_new) !! t = AnyArc t <$> last_binding t rs.
Proof.
  induction rs as [|r rs IH] using rev_ind; [apply lookup_empty|].
  rewrite apply_registrations_snoc, apply_registration_providers, last_binding_snoc.
  destruct (provider_binding r) as [[k v]|]; [|done].
  destruct (decide (k = t)) as [->|Hne].
  - by rewrite lookup_insert_eq.
  - by rewrite lookup_insert_ne.
Qed.

Lemma providers_last_binding_from t rs b v : last_binding t rs = Some v ->
  b_providers (apply_registrations rs b) !! t = Some (AnyArc t v).
Proof.
  induction rs as [|r rs IH] using rev_ind; [done|].
  rewrite apply_registrations_snoc, apply_registration_providers, last_binding_snoc.
  destruct (provider_binding r) as [[k w]|]; [|done].
  destruct (decide (k = t)) as [->|Hne].
  - intros [= ->]. by rewrite lookup_insert_eq.
  - rewrite lookup_insert_ne; done.
Qed.

Lemma get_build_eq t b : providers_typed (b_providers b) ->
  get t (build b) = any_val <$> (b_providers b !! t).
Proof.
  intros Hp. unfold get; simpl. destruct (b_providers b !! t) as [a|] eqn:E; simpl; [|done].
  by rewrite downcast_typed by (by apply (Hp t)).
Qed.

Lemma contains_iff t b : contains t b = true <-> is_Some (b_providers b !! t).
Proof. unfold contains. by rewrite bool_decide_eq_true. Qed.

Lemma contains_dom t b : contains t b = true <-> t ∈ provider_ids b.
Proof. unfold provider_ids. by rewrite contains_iff, elem_of_dom. Qed.

Lemma contains_provide t t' v b : contains t (provide t' v b) = bool_decide (t = t') || contains t b.
Proof.
  unfold contains, provide; simpl. rewrite b_providers_warn.
  destruct (decide (t = t')) as [->|Hne].
  - rewrite lookup_insert_eq, (bool_decide_eq_true_2 (is_Some _)) by eauto. by rewrite (bool_decide_eq_true_2 _ eq_refl).
  - rewrite lookup_insert_ne by done. by rewrite (bool_decide_false (t = t')).
Qed.

Lemma contains_provide_dyn t t' v b :
  contains t (provide_dyn t' v b) = bool_decide (t = TArc t') || contains t b.
Proof.
  unfold contains, provide_dyn; simpl.
  destruct (decide (t = TArc t')) as [->|Hne].
  - rewrite lookup_insert_eq, (bool_decide_eq_true_2 (is_Some _)) by eauto. by rewrite (bool_decide_eq_true_2 _ eq_refl).
  - rewrite lookup_insert_ne by done. by rewrite (bool_decide_false (t = TArc t')).
Qed.

End lemmas.

#[export] Hint Resolve builder_wf_new apply_registration_wf apply_registrations_wf : nestrs.

(** ** The store, the metadata index and the override log *)

Section store.
Context `{Payloads}.
Implicit Types (rs : list registration).

Lemma meta_bindings_snoc m rs r :
  meta_bindings m (rs ++ [r]) = meta_bindings m rs ++ meta_bindings m [r].
Proof. unfold meta_bindings. by rewrite omap_app. Qed.

Lemma metadata_bindings m rs :
  default [] (b_metadata (apply_registrations rs builder_new) !! m) =
    (fun vp => MetaEntry vp.2 (AnyArc m vp.1)) <$> meta_bindings m rs.
Proof.
  induction rs as [|r rs IH] using rev_ind; [simpl; by rewrite lookup_empty|].
  rewrite apply_registrations_snoc, apply_registration_metadata, meta_bindings_snoc, fmap_app, <- IH.
  destruct r as [| | | |p m' v|m' v| | | |]; simpl; rewrite ?app_nil_r; try done;
    (destruct (decide (m' = m)) as [->|Hne]; simpl;
     [by rewrite lookup_insert_eq | by rewrite lookup_insert_ne, app_nil_r]).
Qed.

Lemma omap_entries m (l : list (val * option ty)) :
  omap (fun entry => v ← downcast m (meta entry); Some (v, provider_type_id entry))
    ((fun vp => MetaEntry vp.2 (AnyArc m vp.1)) <$> l) = l.
Proof.
  induction l as [|[v p] l IH]; [done|]. rewrite fmap_cons. simpl.
  rewrite downcast_same. simpl. f_equal. exact IH.
Qed.

Lemma log_warn_if_replacing t rs :
  log (warn_if_replacing t (apply_registrations rs builder_new)) =
    log (apply_registrations rs builder_new) ++
      (if decide (is_Some (last_binding t rs)) then [ProviderOverride t] else []).
Proof.
  assert (Hiff : is_Some (b_providers (apply_registrations rs builder_new) !! t)
                 <-> is_Some (last_binding t rs)).
  { by rewrite providers_last_binding, fmap_is_Some. }
  unfold warn_if_replacing, contains. case_decide as Hd.
  - by rewrite bool_decide_eq_true_2 by tauto.
  - by rewrite bool_decide_eq_false_2, app_nil_r by tauto.
Qed.

(** The container is a last-binding-wins store: after any sequence of registrations,
    [get] returns the value of the last one of that type, and [get_dyn] the last binding
    under [Arc<dyn Trait>]; the downcast of a stored value never fails. *)
Lemma store_last_registration_wins (t : ty) (rs : list registration) :
  get t (build (apply_registrations rs builder_new)) = last_binding t rs /\
  get_dyn t (build (apply_registrations rs builder_new)) = last_binding (TArc t) rs.
Proof.
  assert (Hwf := apply_registrations_wf rs builder_new builder_wf_new).
  split.
  - rewrite get_build_eq by apply Hwf. rewrite providers_last_binding. by destruct (last_binding t rs).
  - change (get (TArc t) (build (apply_registrations rs builder_new)) = last_binding (TArc t) rs).
    rewrite get_build_eq by apply Hwf. rewrite providers_last_binding. by destruct (last_binding _ rs).
Qed.

(** Discovery reads back exactly the metadata attached under a type, in registration order. *)
Lemma discovery_meta_bindings (m : ty) rs :
  discovery_meta m (build (apply_registrations rs builder_new)) = meta_bindings m rs.
Proof.
  unfold discovery_meta, metadata_entries; simpl. generalize (metadata_bindings m rs).
  destruct (b_metadata _ !! m) as [es|]; simpl; intros E.
  - subst es. apply omap_entries.
  - symmetry in E. by apply fmap_nil_inv in E.
Qed.

(** A registration warns exactly when it is a concrete one ([provide]/[provide_arc]) or a
    request-scoped one of a type already bound; [provide_dyn] and [replace] never warn. *)
Lemma override_warned_iff_replacing (rs : list registration) (r : registration) :
  log (apply_registrations (rs ++ [r]) builder_new) =
    log (apply_registrations rs builder_new) ++ override_warning rs r.
Proof.
  rewrite apply_registrations_snoc.
  destruct r; simpl; rewrite ?app_nil_r; try done; try apply log_warn_if_replacing.
  unfold provide_scoped. case_decide.
  - by rewrite bool_decide_eq_true_2.
  - by rewrite bool_decide_eq_false_2, app_nil_r.
Qed.

End store.

(** ** Request scopes *)

Section scope_lemmas.
Context `{UserCode}.
Implicit Types (s : request_scope).

Lemma scope_get_spec id s n v s' n' :
  scope_typed s -> scope_get id s n = (v, s', n') ->
  scope_typed s' /\ rs_root s' = rs_root s /\
  rs_cache s ⊆ rs_cache s' /\
  (is_Some (scoped (rs_root s) !! id) -> v = any_val <$> (rs_cache s' !! id) /\ is_Some v) /\
  (scoped (rs_root s) !! id = None -> v = get id (rs_root s) /\ s' = s) /\
  dom (rs_cache s') = dom (rs_cache s) ∪ (if scoped (rs_root s) !! id is Some _ then {[id]} else ∅) /\
  (n' + size (dom (rs_cache s)) = n + size (dom (rs_cache s')))%nat.
Proof.
  intros Hty. destruct Hty as (Hsc & Hca & Hdom). unfold scope_get, scoped_factory.
  destruct (scoped (rs_root s) !! id) as [f|] eqn:Ef; [|intros; simplify_eq].
  2:{ repeat (split; try done); first [set_solver | by intros [? ?]]. }
  destruct (rs_cache s !! id) as [a|] eqn:Ec; intros; simplify_eq; simpl.
  - assert (Ha : any_ty a = id) by (by apply (Hca id)).
    assert (Hid : id ∈ dom (rs_cache s')) by (by apply elem_of_dom_2 in Ec).
    repeat (split; try done); try (rewrite downcast_typed by done; by rewrite ?Ec); set_solver.
  - assert (Hf : sf_ty f = id) by (by apply (Hsc id)).
    rewrite downcast_typed by done. rewrite lookup_insert_eq. simpl.
    assert (id ∉ dom (rs_cache s)) by (by apply not_elem_of_dom).
    split; [split; [done|split]|]; simpl.
    + by apply map_Forall_insert_2.
    + rewrite dom_insert_L. apply elem_of_dom_2 in Ef. set_solver.
    + split; [done|]. split; [by apply insert_subseteq|].
      split; [eauto|]. split; [done|]. rewrite dom_insert_L.
      split; [set_solver|]. rewrite size_union, size_singleton by set_solver. lia.
Qed.

Lemma scope_gets_spec ids s n vs s' n' :
  scope_typed s -> scope_gets ids s n = (vs, s', n') ->
  scope_typed s' /\ rs_root s' = rs_root s /\ rs_cache s ⊆ rs_cache s' /\
  Forall2 (fun id v => v = if scoped (rs_root s) !! id is Some _ then any_val <$> (rs_cache s' !! id)
                           else get id (rs_root s)) ids vs /\
  dom (rs_cache s') = dom (rs_cache s) ∪
    list_to_set (filter (fun id => is_Some (scoped (rs_root s) !! id)) ids) /\
  (n' + size (dom (rs_cache s)) = n + size (dom (rs_cache s')))%nat.
Proof.
  revert s n vs. induction ids as [|id ids IH]; intros s n vs Hty; simpl.
  { intros; simplify_eq. repeat (split; try done). set_solver. }
  destruct (scope_get id s n) as [[v s1] n1] eqn:E1.
  destruct (scope_gets ids s1 n1) as [[vs1 s2] n2] eqn:E2. intros; simplify_eq.
  destruct (scope_get_spec _ _ _ _ _ _ Hty E1) as (Ht1 & Hr1 & Hsub1 & Hsome & Hnone & Hd1 & Hn1).
  destruct (IH _ _ _ Ht1 E2) as (Ht2 & Hr2 & Hsub2 & Hall & Hd2 & Hn2).
  rewrite Hr1 in *. split; [done|]. split; [done|]. split; [by etrans|].
  split; [constructor; [|done]|split; [|lia]].
  - destruct (scoped (rs_root s) !! id) eqn:Ef; [|by apply Hnone].
    destruct Hsome as [-> [w Hw]]; [done|]. destruct (rs_cache s1 !! id) as [a|] eqn:Ea; [|done].
    by rewrite (lookup_weaken _ _ _ _ Ea Hsub2).
  - rewrite Hd2, Hd1. destruct (scoped (rs_root s) !! id) eqn:Ef.
    + rewrite filter_cons_True by eauto. rewrite list_to_set_cons. by rewrite (assoc_L (∪)).
    + rewrite filter_cons_False by (rewrite Ef; by intros [? ?]). by rewrite union_empty_r_L.
Qed.

(** [C19] Within one request every resolution of a type yields the same instance, and the
    factories run exactly once per distinct request-scoped type that is resolved. *)
Theorem scope_one_instance_per_request (root : container) (ids : list ty) (n : nat)
    (i j : nat) (id : ty) :
  scoped_typed (scoped root) -> ids !! i = Some id -> ids !! j = Some id ->
  let '(vs, _, n') := scope_gets ids (scope_new root) n in
  vs !! i = vs !! j /\
  n' = (n + size (list_to_set (filter (fun id => is_Some (scoped root !! id)) ids) : gset ty))%nat.
Proof.
  intros Hty Hi Hj. destruct (scope_gets ids (scope_new root) n) as [[vs s'] n'] eqn:E.
  assert (Hs : scope_typed (scope_new root)).
  { split; [done|]. split; [apply map_Forall_empty|set_solver]. }
  destruct (scope_gets_spec _ _ _ _ _ _ Hs E) as (_ & _ & _ & Hall & Hd & Hn). simpl in *.
  split.
  - destruct (Forall2_lookup_l _ _ _ _ _ Hall Hi) as (v & -> & ->).
    by destruct (Forall2_lookup_l _ _ _ _ _ Hall Hj) as (w & -> & ->).
  - rewrite Hd, dom_empty_L, union_empty_l_L, size_empty in Hn. lia.
Qed.

End scope_lemmas.

(** ** A concrete application for the witnesses *)

Module Demo.

#[export] Instance payloads : Payloads :=
  {| val := nat; scoped_fn := nat; factory_fn := nat; failure := string |}.

(** A request-scoped construction returns a distinct instance each time. *)
#[export] Instance user_code : UserCode :=
  {| call_scoped := fun f _ n => (100 * f + n)%nat;
     call_factory := fun f c => match get (TNamed "Config") c with
                                | Some v => Ok (v + f)%nat
                                | None => Err "no config"
                                end |}.

Definition root : container :=
  build (apply_registrations
    [RProvide (TNamed "Config") (7 : @val payloads);
     RProvideScoped (TNamed "Session") (3 : @scoped_fn payloads)] builder_new).

Lemma scope_one_instance_per_request_witness :
  let '(vs, _, n') := scope_gets [TNamed "Session"; TNamed "Config"; TNamed "Session"] (scope_new root) 5 in
  vs !! 0 = vs !! 2 /\
  n' = (5 + size (list_to_set (filter (fun id => is_Some (scoped root !! id))
          [TNamed "Session"; TNamed "Config"; TNamed "Session"]) : gset ty))%nat.
Proof.
  apply (scope_one_instance_per_request root _ 5 0 2 (TNamed "Session"));
    [|reflexivity|reflexivity].
  apply (wf_scoped (apply_registrations _ builder_new)), apply_registrations_wf, builder_wf_new.
Defined.

(** The two resolutions agree on a freshly built instance. *)
Example scope_demo :
  (scope_gets [TNamed "Session"; TNamed "Config"; TNamed "Session"] (scope_new root) 5).1.1
    = [Some 305; Some 7; Some 305].
Proof. vm_compute. reflexivity. Qed.

End Demo.
