(* ===== verification/Access.v ===== *)
(** The access contract of [nestrs-core/src/access.rs]: the boot-time validation that every
    provider of a module reachable from the application's roots injects only what its
    module's import closure provides (or global infrastructure), and that every linked
    resolver is a member of a reachable module.

    The [fn() -> TypeId] thunks of a descriptor are the values they return.  A Rust
    [HashSet] is iterated in an unspecified order: the class [SetIter] is any such order,
    and every theorem holds for all of them. *)

From S2P Require Import Prelude Container.

Record provider_descriptor := ProviderDescriptor {
  pd_name : string;
  pd_provides : ty;
  pd_injects : list ty
}.

Record module_descriptor := ModuleDescriptor {
  md_module : ty;
  md_name : string;
  md_imports : list ty;
  md_providers : list provider_descriptor
}.

Record resolver_descriptor := ResolverDescriptor {
  rd_resolver : ty;
  rd_name : string
}.

Record access_graph_error := AccessGraphError {
  age_module : string;
  age_consumer : string;
  age_dependency : string;
  age_owner : string
}.

Record resolver_membership_error := ResolverMembershipError { rme_resolver : string }.

(** The iteration order of a [HashSet<TypeId>]. *)
Class SetIter := {
  iter_set : gset ty -> list ty;
  iter_set_perm : forall s, iter_set s ≡ₚ elements s
}.

(** ** Operations *)

(** [descriptors.iter().map(|d| ((d.module)(), *d)).collect()]: a later entry replaces an
    earlier one of the same key. *)
Definition index_modules (ds : list module_descriptor) : gmap ty module_descriptor :=
  foldl (fun m d => <[md_module d := d]> m) ∅ ds.

(** [entry(..).or_insert(..)]: the first binding wins. *)
Definition or_insert {A} (k : ty) (v : A) (m : gmap ty A) : gmap ty A :=
  match m !! k with
  | Some _ => m
  | None => <[k := v]> m
  end.

Definition provided_by_map (ds : list module_descriptor) : gmap ty (string * string) :=
  foldl (fun m d =>
    foldl (fun m p => or_insert (pd_provides p) (pd_name p, md_name d) m) m (md_providers d))
    ∅ ds.

(** The worklist loop of [reachable]; the head of [stack] is the end of the [Vec].
    [None] is running out of fuel, which [reachable_fuel] rules out. *)
Fixpoint reach_loop (by_id : gmap ty module_descriptor) (fuel : nat) (stack : list ty)
    (seen : gset ty) : option (gset ty) :=
  match fuel with
  | O => None
  | S fuel' =>
      match stack with
      | [] => Some seen
      | id :: stack' =>
          if decide (id ∈ seen) then reach_loop by_id fuel' stack' seen
          else
            let seen' := {[id]} ∪ seen in
            match by_id !! id with
            | Some desc =>
                reach_loop by_id fuel' (foldl (fun st import => import :: st) stack' (md_imports desc)) seen'
            | None => reach_loop by_id fuel' stack' seen'
            end
      end
  end.

(** The imports of the modules not visited yet: what the worklist may still grow by. *)
Definition pending_imports (by_id : gmap ty module_descriptor) (seen : gset ty) : nat :=
  sum_list_with (fun kd => if decide (kd.1 ∈ seen) then 0 else length (md_imports kd.2))
    (map_to_list by_id).

Definition reachable_fuel (by_id : gmap ty module_descriptor) (roots : list ty) : nat :=
  S (length roots + pending_imports by_id ∅).

Definition reachable (roots : list ty) (by_id : gmap ty module_descriptor) : gset ty :=
  default ∅ (reach_loop by_id (reachable_fuel by_id roots) (rev roots) ∅).

Section validate.
Context `{SetIter}.

(** The keys one module's import closure provides. *)
Definition closure_keys (by_id : gmap ty module_descriptor) (roots : list ty) : gset ty :=
  foldl (fun keys import_id =>
    match by_id !! import_id with
    | Some imported => foldl (fun keys p => {[pd_provides p]} ∪ keys) keys (md_providers imported)
    | None => keys
    end) ∅ (iter_set (reachable roots by_id)).

Definition check_dep (provided_by : gmap ty (string * string)) (global closure : gset ty)
    (desc : module_descriptor) (p : provider_descriptor) (dep : ty)
  : result unit access_graph_error :=
  if decide (dep ∈ global \/ dep ∈ closure) then Ok tt
  else
    match provided_by !! dep with
    | Some (dependency, owner) =>
        Err {| age_module := md_name desc; age_consumer := pd_name p;
               age_dependency := dependency; age_owner := owner |}
    | None => Ok tt
    end.

Definition check_module (by_id : gmap ty module_descriptor)
    (provided_by : gmap ty (string * string)) (global : gset ty) (module_id : ty)
  : result unit access_graph_error :=
  match by_id !! module_id with
  | None => Ok tt
  | Some desc =>
      let closure := closure_keys by_id [module_id] in
      for_each (fun _ p =>
        for_each (fun _ dep => check_dep provided_by global closure desc p dep) (pd_injects p) tt)
        (md_providers desc) tt
  end.

Definition validate_access_graph (descriptors : list module_descriptor) (roots : list ty)
    (global : gset ty) : result unit access_graph_error :=
  let by_id := index_modules descriptors in
  let provided_by := provided_by_map descriptors in
  for_each (fun _ module_id => check_module by_id provided_by global module_id)
    (iter_set (reachable roots by_id)) tt.

Definition validate_resolver_membership (descriptors : list module_descriptor) (roots : list ty)
    (resolvers : list resolver_descriptor) : result unit resolver_membership_error :=
  let by_id := index_modules descriptors in
  let reachable_keys := closure_keys by_id roots in
  for_each (fun _ r =>
    if decide (rd_resolver r ∈ reachable_keys) then Ok tt
    else Err {| rme_resolver := rd_name r |}) resolvers tt.

End validate.

(** ** The specification *)

(** One import step, and the import closure. *)
Definition imports (by_id : gmap ty module_descriptor) (a b : ty) : Prop :=
  exists d, by_id !! a = Some d /\ b ∈ md_imports d.

Definition import_closure (by_id : gmap ty module_descriptor) (roots : list ty) (m : ty) : Prop :=
  exists r, r ∈ roots /\ rtc (imports by_id) r m.

(** Module [m] of the graph provides the key [k]. *)
Definition module_provides (by_id : gmap ty module_descriptor) (m k : ty) : Prop :=
  exists d p, by_id !! m = Some d /\ p ∈ md_providers d /\ pd_provides p = k.

(** A dependency that the contract forbids: [k] is injected by provider [p] of the reachable
    module [d], is neither global nor provided by [d]'s import closure, and yet some module
    of the binary provides it. *)
Definition access_violation (descriptors : list module_descriptor) (roots : list ty)
    (global : gset ty) (d : module_descriptor) (p : provider_descriptor) (k : ty) : Prop :=
  let by_id := index_modules descriptors in
  import_closure by_id roots (md_module d) /\ by_id !! md_module d = Some d /\
  p ∈ md_providers d /\ k ∈ pd_injects p /\ ~ (k ∈ global) /\
  ~ (exists m, import_closure by_id [md_module d] m /\ module_provides by_id m k) /\
  (exists d' p', d' ∈ descriptors /\ p' ∈ md_providers d' /\ pd_provides p' = k).

(** ** Lemmas *)

Lemma push_imports (st l : list ty) : foldl (fun st import => import :: st) st l = rev l ++ st.
Proof.
  revert st. induction l as [|x l IH]; intros st; simpl; [done|].
  rewrite IH. by rewrite <- (assoc_L (++)).
Qed.

(** Visiting a described module consumes exactly its imports; any other visit is free. *)
Lemma pending_imports_visit by_id seen id :
  id ∉ seen ->
  pending_imports by_id seen =
    pending_imports by_id ({[id]} ∪ seen) +
      (match by_id !! id with Some d => length (md_imports d) | None => 0 end).
Proof.
  intros Hid. unfold pending_imports.
  assert (Hother : forall m : gmap ty module_descriptor, m !! id = None ->
    sum_list_with (fun kd => if decide (kd.1 ∈ seen) then 0 else length (md_imports kd.2)) (map_to_list m) =
    sum_list_with (fun kd => if decide (kd.1 ∈ {[id]} ∪ seen) then 0 else length (md_imports kd.2)) (map_to_list m)).
  { intros m Hm. apply sum_list_with_ext. intros [k d] Hk%elem_of_map_to_list. simpl.
    assert (k <> id) by congruence. by repeat case_decide; try set_solver. }
  destruct (by_id !! id) as [d|] eqn:Ed; [|rewrite Hother by done; lia].
  rewrite <- (map_to_list_delete by_id id d Ed). simpl.
  rewrite (decide_False (P := id ∈ seen)) by done.
  rewrite (decide_True (P := id ∈ {[id]} ∪ seen)) by set_solver.
  rewrite Hother by apply lookup_delete_eq. lia.
Qed.

Lemma reach_loop_total by_id fuel stack seen :
  length stack + pending_imports by_id seen < fuel ->
  is_Some (reach_loop by_id fuel stack seen).
Proof.
  revert stack seen. induction fuel as [|fuel IH]; intros stack seen Hf; simpl; [lia|].
  destruct stack as [|id stack]; [eauto|]. simpl in Hf. case_decide as Hid; [apply IH; lia|].
  rewrite (pending_imports_visit _ _ _ Hid) in Hf.
  destruct (by_id !! id) as [d|]; apply IH; rewrite ?push_imports, ?length_app, ?length_rev; lia.
Qed.

(** Everything reached satisfies any import-closed predicate that holds of the start. *)
Lemma reach_loop_sound by_id (P : ty -> Prop) fuel stack seen s :
  (forall a b, imports by_id a b -> P a -> P b) ->
  (forall x, x ∈ seen -> P x) -> (forall x, x ∈ stack -> P x) ->
  reach_loop by_id fuel stack seen = Some s -> forall x, x ∈ s -> P x.
Proof.
  intros Hcl. revert stack seen. induction fuel as [|fuel IH]; intros stack seen Hseen Hst; simpl; [done|].
  destruct stack as [|id stack]; [by intros [= ->]|].
  assert (Hid : P id) by (apply Hst; by left).
  assert (Hst' : forall x, x ∈ stack -> P x) by (intros; apply Hst; by right).
  assert (Hseen' : forall x, x ∈ {[id]} ∪ seen -> P x).
  { by intros x [->%elem_of_singleton|?]%elem_of_union; auto. }
  case_decide; [by apply IH|].
  destruct (by_id !! id) as [d|] eqn:Ed; apply IH; try done.
  intros x. rewrite push_imports, elem_of_app, elem_of_rev. intros [Hx|Hx]; [|by apply Hst'].
  apply Hcl with id; [|done]. by exists d.
Qed.

(** The result contains the start and is closed under imports. *)
Lemma reach_loop_closed by_id fuel stack seen s :
  (forall a b, a ∈ seen -> imports by_id a b -> b ∈ seen \/ b ∈ stack) ->
  reach_loop by_id fuel stack seen = Some s ->
  seen ⊆ s /\ (forall x, x ∈ stack -> x ∈ s) /\
  (forall a b, a ∈ s -> imports by_id a b -> b ∈ s).
Proof.
  revert stack seen. induction fuel as [|fuel IH]; intros stack seen Hcl; simpl; [done|].
  destruct stack as [|id stack].
  { intros [= ->]. split; [done|]. split; [set_solver|]. intros a b Ha Hb.
    destruct (Hcl a b Ha Hb); set_solver. }
  case_decide as Hid.
  { intros (H1 & H2 & H3)%IH; [|intros a b Ha Hb; destruct (Hcl a b Ha Hb); set_solver].
    split; [done|]. split; [|done]. intros x [->|Hx]%elem_of_cons; [by apply H1|by apply H2]. }
  destruct (by_id !! id) as [d|] eqn:Ed; intros (H1 & H2 & H3)%IH.
  - split; [set_solver|]. split; [|done]. rewrite push_imports in H2.
    intros x [->|Hx]%elem_of_cons; [set_solver|]. apply H2, elem_of_app. by right.
  - intros a b [->%elem_of_singleton|Ha]%elem_of_union Hb; rewrite push_imports, elem_of_app.
    + destruct Hb as (d' & Hd' & Hb). right. left. simplify_eq.
      by rewrite elem_of_rev.
    + destruct (Hcl a b Ha Hb) as [?|[->|?]%elem_of_cons]; set_solver.
  - split; [set_solver|]. split; [|done]. intros x [->|Hx]%elem_of_cons; [set_solver|by apply H2].
  - intros a b [->%elem_of_singleton|Ha]%elem_of_union Hb.
    + by destruct Hb as (d & Hd & _); simplify_eq.
    + destruct (Hcl a b Ha Hb) as [?|[->|?]%elem_of_cons]; set_solver.
Qed.

Section reach_lemmas.
Context (by_id : gmap ty module_descriptor).

Lemma reachable_total roots :
  is_Some (reach_loop by_id (reachable_fuel by_id roots) (rev roots) ∅).
Proof. apply reach_loop_total. rewrite length_rev. unfold reachable_fuel. lia. Qed.

(** The worklist computes the import closure of its roots. *)
Lemma elem_of_reachable roots m : m ∈ reachable roots by_id <-> import_closure by_id roots m.
Proof.
  unfold reachable. destruct (reachable_total roots) as [s Hs]. rewrite Hs. simpl. split.
  - intros Hm. eapply (reach_loop_sound by_id (import_closure by_id roots)); try exact Hs; try done.
    + intros a b Hab (r & Hr & Hra). exists r. split; [done|]. by eapply rtc_r.
    + intros x. rewrite elem_of_rev. intros Hx. exists x. split; [done|apply rtc_refl].
  - apply reach_loop_closed in Hs as (_ & Hst & Hcl); [|set_solver].
    intros (r & Hr & Hrm). rewrite <- elem_of_rev in Hr. apply Hst in Hr. induction Hrm; eauto.
Qed.

Context `{SetIter}.

Lemma elem_of_iter s x : x ∈ iter_set s <-> x ∈ s.
Proof. by rewrite iter_set_perm, elem_of_elements. Qed.

Lemma elem_of_fold_providers (keys : gset ty) (ps : list provider_descriptor) k :
  k ∈ foldl (fun keys p => {[pd_provides p]} ∪ keys) keys ps <->
  k ∈ keys \/ exists p, p ∈ ps /\ pd_provides p = k.
Proof.
  revert keys. induction ps as [|p ps IH]; intros keys; simpl.
  - split; [by left|]. intros [?|(p & []%elem_of_nil & _)]; done.
  - rewrite IH, elem_of_union, elem_of_singleton. setoid_rewrite elem_of_cons. naive_solver.
Qed.

Lemma elem_of_fold_modules (keys : gset ty) (ms : list ty) k :
  k ∈ foldl (fun keys import_id =>
        match by_id !! import_id with
        | Some imported => foldl (fun keys p => {[pd_provides p]} ∪ keys) keys (md_providers imported)
        | None => keys
        end) keys ms <->
  k ∈ keys \/ exists m, m ∈ ms /\ module_provides by_id m k.
Proof.
  revert keys. induction ms as [|m ms IH]; intros keys; simpl.
  - split; [by left|]. intros [?|(m & []%elem_of_nil & _)]; done.
  - rewrite IH. setoid_rewrite elem_of_cons. unfold module_provides.
    destruct (by_id !! m) as [d|] eqn:Ed; [rewrite elem_of_fold_providers|]; naive_solver.
Qed.

Lemma elem_of_closure_keys roots k :
  k ∈ closure_keys by_id roots <->
  exists m, import_closure by_id roots m /\ module_provides by_id m k.
Proof.
  unfold closure_keys. rewrite elem_of_fold_modules.
  setoid_rewrite elem_of_iter. setoid_rewrite elem_of_reachable.
  split; [by intros [?%elem_of_empty|?] | by right].
Qed.

End reach_lemmas.

Lemma index_modules_snoc ds d :
  index_modules (ds ++ [d]) = <[md_module d := d]> (index_modules ds).
Proof. unfold index_modules. by rewrite foldl_app. Qed.

Lemma index_modules_key ds m d : index_modules ds !! m = Some d -> md_module d = m /\ d ∈ ds.
Proof.
  induction ds as [|d' ds IH] using rev_ind.
  { intros Hm. change (index_modules [] !! m) with ((∅ : gmap ty module_descriptor) !! m) in Hm.
    by rewrite lookup_empty in Hm. }
  rewrite index_modules_snoc, elem_of_app, list_elem_of_singleton.
  intros [[<- <-]|[_ Hd%IH]]%lookup_insert_Some; naive_solver.
Qed.

Lemma or_insert_lookup {A} (k k' : ty) (v : A) m :
  or_insert k v m !! k' =
    match m !! k' with Some w => Some w | None => if decide (k = k') then Some v else None end.
Proof.
  unfold or_insert. destruct (m !! k) eqn:E.
  - destruct (m !! k') eqn:E'; [done|]. case_decide; congruence.
  - destruct (decide (k = k')) as [->|Hne]; [by rewrite lookup_insert_eq, E|].
    rewrite lookup_insert_ne by done. by destruct (m !! k').
Qed.

Lemma provided_by_module d (ps : list provider_descriptor) m k :
  (foldl (fun m p => or_insert (pd_provides p) (pd_name p, md_name d) m) m ps : gmap ty (string * string)) !! k =
    match m !! k with
    | Some w => Some w
    | None => (fun p => (pd_name p, md_name d)) <$> head (filter (fun p => pd_provides p = k) ps)
    end.
Proof.
  revert m. induction ps as [|p ps IH]; intros m; [simpl; by destruct (m !! k)|].
  cbn [foldl]. rewrite IH, or_insert_lookup, filter_cons. destruct (m !! k); [done|].
  by repeat case_decide.
Qed.

(** The owner a suggestion names is a module that provides the key, and there is one as soon
    as any module does. *)
Lemma provided_by_lookup ds k :
  match provided_by_map ds !! k with
  | Some (n, o) => exists d p, d ∈ ds /\ p ∈ md_providers d /\ pd_provides p = k /\
                               n = pd_name p /\ o = md_name d
  | None => forall d p, d ∈ ds -> p ∈ md_providers d -> pd_provides p <> k
  end.
Proof.
  unfold provided_by_map. induction ds as [|d ds IH] using rev_ind; simpl.
  { rewrite lookup_empty. intros d p []%elem_of_nil. }
  rewrite foldl_app. simpl. rewrite provided_by_module.
  destruct (foldl _ ∅ ds !! k) as [[n o]|].
  - destruct IH as (d' & p & Hd & H'). exists d', p. rewrite elem_of_app. tauto.
  - destruct (head _) as [p|] eqn:Eh; simpl.
    + apply head_Some_elem_of, list_elem_of_filter in Eh as [Hk Hp].
      exists d, p. rewrite elem_of_app, list_elem_of_singleton. tauto.
    + apply head_None in Eh. intros d' p [Hd| ->%list_elem_of_singleton]%elem_of_app Hp; [by apply (IH d')|].
      intros Hk. assert (Hin : p ∈ filter (fun p => pd_provides p = k) (md_providers d)).
      { by apply list_elem_of_filter. }
      rewrite Eh in Hin. by apply elem_of_nil in Hin.
Qed.

(** ** The contract *)

Section contract.
Context `{SetIter}.
Implicit Types (ds : list module_descriptor) (global : gset ty).

Lemma check_dep_spec ds roots global d p k :
  import_closure (index_modules ds) roots (md_module d) ->
  index_modules ds !! md_module d = Some d -> p ∈ md_providers d -> k ∈ pd_injects p ->
  match check_dep (provided_by_map ds) global (closure_keys (index_modules ds) [md_module d]) d p k with
  | Ok _ => ~ access_violation ds roots global d p k
  | Err e => access_violation ds roots global d p k /\
      age_module e = md_name d /\ age_consumer e = pd_name p /\
      exists d' p', d' ∈ ds /\ p' ∈ md_providers d' /\ pd_provides p' = k /\
                    age_dependency e = pd_name p' /\ age_owner e = md_name d'
  end.
Proof.
  intros Hreach Hd Hp Hk. unfold check_dep, access_violation.
  pose proof (elem_of_closure_keys (index_modules ds) [md_module d] k) as Hcl.
  case_decide as Hok; [destruct Hok; tauto|].
  pose proof (provided_by_lookup ds k) as Hpb.
  destruct (provided_by_map ds !! k) as [[n o]|].
  - destruct Hpb as (d' & p' & Hd' & Hp' & Hk' & -> & ->). simpl.
    split; [|naive_solver]. do 6 (split; [tauto|]). eauto.
  - intros (_ & _ & _ & _ & _ & _ & d' & p' & Hd' & Hp' & Hk'). by apply (Hpb d' p').
Qed.

Lemma check_module_spec ds roots global m :
  import_closure (index_modules ds) roots m ->
  match check_module (index_modules ds) (provided_by_map ds) global m with
  | Ok _ => forall d p k, md_module d = m -> ~ access_violation ds roots global d p k
  | Err e => exists d p k, access_violation ds roots global d p k /\
      age_module e = md_name d /\ age_consumer e = pd_name p /\
      exists d' p', d' ∈ ds /\ p' ∈ md_providers d' /\ pd_provides p' = k /\
                    age_dependency e = pd_name p' /\ age_owner e = md_name d'
  end.
Proof.
  intros Hm. unfold check_module. destruct (index_modules ds !! m) as [d|] eqn:Ed.
  2:{ intros d p k <- (_ & Hd & _). congruence. }
  destruct (index_modules_key _ _ _ Ed) as [<- _].
  destruct (for_each _ (md_providers d) tt) as [[]|e] eqn:Ef.
  - intros d' p k Hd' Hv. assert (d' = d) as ->.
    { destruct Hv as (_ & Hi & _). rewrite Hd' in Hi. congruence. }
    apply for_each_ok_iff, Forall_forall with (x := p) in Ef; [|by apply Hv].
    apply for_each_ok_iff, Forall_forall with (x := k) in Ef; [|by apply Hv].
    pose proof (check_dep_spec ds roots global d p k Hm Ed) as Hc. rewrite Ef in Hc.
    by destruct Hv as (? & ? & Hp & Hk & ?); apply Hc.
  - apply for_each_err in Ef as (p & Hp & Ef). apply for_each_err in Ef as (k & Hk & Ef).
    pose proof (check_dep_spec ds roots global d p k Hm Ed Hp Hk) as Hc. rewrite Ef in Hc.
    by exists d, p, k.
Qed.

(** [C3] The boot accepts the module graph exactly when no provider of a module reachable from
    the roots injects a key that is neither global nor provided by its module's import
    closure although some linked module provides it; this holds for any [HashSet] order. *)
Theorem access_accepted_iff_no_violation ds roots global :
  validate_access_graph ds roots global = Ok tt <->
  forall d p k, ~ access_violation ds roots global d p k.
Proof.
  unfold validate_access_graph. rewrite for_each_ok_iff, Forall_forall.
  setoid_rewrite elem_of_iter. setoid_rewrite elem_of_reachable. split.
  - intros Hall d p k Hv. pose proof Hv as (Hm & _).
    pose proof (check_module_spec ds roots global _ Hm) as Hc. rewrite (Hall _ Hm) in Hc.
    by apply (Hc d p k).
  - intros Hno m Hm. pose proof (check_module_spec ds roots global _ Hm) as Hc.
    destruct (check_module _ _ _ m) as [[]|e]; [done|].
    destruct Hc as (d & p & k & Hv & _). by destruct (Hno d p k).
Qed.

(** A rejected boot names a genuine violation: the module and provider of the error
    inject, out of reach, a key that the named owner module provides. *)
Lemma access_error_names_violation ds roots global e :
  validate_access_graph ds roots global = Err e ->
  exists d p k, access_violation ds roots global d p k /\
    age_module e = md_name d /\ age_consumer e = pd_name p /\
    exists d' p', d' ∈ ds /\ p' ∈ md_providers d' /\ pd_provides p' = k /\
                  age_dependency e = pd_name p' /\ age_owner e = md_name d'.
Proof.
  unfold validate_access_graph. intros (m & Hm & He)%for_each_err.
  rewrite elem_of_iter, elem_of_reachable in Hm.
  pose proof (check_module_spec ds roots global _ Hm) as Hc. by rewrite He in Hc.
Qed.

(** The boot accepts the resolvers exactly when each one is provided by a module reachable
    from the roots. *)
Lemma resolvers_accepted_iff_members ds roots resolvers :
  validate_resolver_membership ds roots resolvers = Ok tt <->
  forall r, r ∈ resolvers -> exists m, import_closure (index_modules ds) roots m /\
                                module_provides (index_modules ds) m (rd_resolver r).
Proof.
  unfold validate_resolver_membership. rewrite for_each_ok_iff, Forall_forall.
  setoid_rewrite <- elem_of_closure_keys. split; intros Hall r Hr; specialize (Hall r Hr).
  - by case_decide.
  - by rewrite decide_True.
Qed.

End contract.

(** The reachability worklist terminates within its fuel on every graph, cycles and
    duplicate or dangling imports included, and computes exactly the import closure. *)
Lemma reachable_is_import_closure (by_id : gmap ty module_descriptor) roots :
  exists s, reach_loop by_id (reachable_fuel by_id roots) (rev roots) ∅ = Some s /\
    forall m, m ∈ s <-> import_closure by_id roots m.
Proof.
  destruct (reachable_total by_id roots) as [s Hs]. exists s. split; [done|]. intros m.
  rewrite <- elem_of_reachable. unfold reachable. by rewrite Hs.
Qed.

(** ** The graphs of the crate's own tests *)

Module AccessDemo.

#[export] Instance elements_iter : SetIter := {| iter_set := elements; iter_set_perm := fun s => reflexivity _ |}.

Definition users_module : module_descriptor :=
  {| md_module := TNamed "UsersMod"; md_name := "UsersModule"; md_imports := [];
     md_providers := [{| pd_name := "UsersService"; pd_provides := TNamed "UsersService";
                         pd_injects := [TNamed "Db"] |}] |}.

Definition billing_module (imports : list ty) : module_descriptor :=
  {| md_module := TNamed "BillingMod"; md_name := "BillingModule"; md_imports := imports;
     md_providers := [{| pd_name := "BillingService"; pd_provides := TNamed "BillingService";
                         pd_injects := [TNamed "UsersService"] |}] |}.

Definition app_module : module_descriptor :=
  {| md_module := TNamed "AppMod"; md_name := "AppModule";
     md_imports := [TNamed "BillingMod"; TNamed "UsersMod"]; md_providers := [] |}.

Example imported_passes :
  validate_access_graph [app_module; billing_module [TNamed "UsersMod"]; users_module]
    [TNamed "AppMod"] {[TNamed "Db"]} = Ok tt.
Proof. vm_compute. reflexivity. Qed.

Definition sibling_error : access_graph_error :=
  {| age_module := "BillingModule"; age_consumer := "BillingService";
     age_dependency := "UsersService"; age_owner := "UsersModule" |}.

Lemma access_error_names_violation_witness :
  exists d p k,
    access_violation [app_module; billing_module []; users_module] [TNamed "AppMod"] {[TNamed "Db"]} d p k /\
    age_module sibling_error = md_name d /\ age_consumer sibling_error = pd_name p /\
    exists d' p', d' ∈ [app_module; billing_module []; users_module] /\ p' ∈ md_providers d' /\
      pd_provides p' = k /\ age_dependency sibling_error = pd_name p' /\
      age_owner sibling_error = md_name d'.
Proof. apply access_error_names_violation. vm_compute. reflexivity. Defined.

End AccessDemo.
