(* ===== verification/Codegen.v ===== *)
(** The construction code every provider decorator shares: [nestrs-codegen/src/ty.rs] (the
    inspection of a field's syntactic type), [nestrs-codegen/src/inject.rs] (the
    [from_container] constructor and the dependency keys read off the [#[inject]] fields) and
    the decorators that lower a struct to its [Discoverable] impl ([#[injectable]] of
    [nestrs-macros], [#[interceptor]] of [nestrs-http-macros], [#[cron_job]] and
    [#[processor]] of [nestrs-schedule-macros] and [nestrs-queue-macros]).

    A macro is modelled with the meaning of the code it emits: [eval_ctor] runs the emitted
    constructor, and the [d_register] of a decorator is the emitted [register]. *)

From S2P Require Import Prelude Container.

(** ** Syntactic types *)

Inductive syn_type : Type :=
| TyPath (segments : list path_segment)
| TyTraitObject (bounds : list type_bound)
| TyOther (tokens : string)
with path_segment : Type := PathSegment (ident : string) (arguments : path_arguments)
with path_arguments : Type :=
| PathNone
| AngleBracketed (args : list generic_argument)
| Parenthesized
with generic_argument : Type :=
| GType (t : syn_type)
| GOther
with type_bound : Type :=
| BoundTrait (path : list string)
| BoundOther.

Definition seg_ident (s : path_segment) : string := let 'PathSegment i _ := s in i.
Definition seg_arguments (s : path_segment) : path_arguments := let 'PathSegment _ a := s in a.

(** [Arc<Inner>], by its last path segment only. *)
Definition arc_inner (t : syn_type) : option syn_type :=
  match t with
  | TyPath segs =>
      match last segs with
      | Some (PathSegment ident args) =>
          if String.eqb ident "Arc" then
            match args with
            | AngleBracketed [GType inner] => Some inner
            | _ => None
            end
          else None
      | None => None
      end
  | _ => None
  end.

Definition generic_type (a : generic_argument) : option syn_type :=
  match a with
  | GType t => Some t
  | GOther => None
  end.

Definition nth_generic_type (t : syn_type) (name : string) (idx : nat) : option syn_type :=
  match t with
  | TyPath segs =>
      match last segs with
      | Some (PathSegment ident args) =>
          if String.eqb ident name then
            match args with
            | AngleBracketed l => omap generic_type l !! idx
            | _ => None
            end
          else None
      | None => None
      end
  | _ => None
  end.

Definition is_trait_object (t : syn_type) : bool :=
  match t with
  | TyTraitObject _ => true
  | _ => false
  end.

(** What the compiler and the [quote] crate say of a syntactic type: the [TypeId] it
    resolves to, and its token text.  A path ending in [Arc<T>] names the standard [Arc]. *)
Class Compiler := {
  type_id : syn_type -> ty;
  token_text : syn_type -> string;
  type_id_arc : forall t inner, arc_inner t = Some inner -> type_id t = TArc (type_id inner)
}.

Section codegen.
Context `{Compiler}.

Fixpoint first_trait (bounds : list type_bound) : option string :=
  match bounds with
  | [] => None
  | BoundTrait path :: rest =>
      match last path with
      | Some seg => Some seg
      | None => first_trait rest
      end
  | BoundOther :: rest => first_trait rest
  end.

Definition type_label (t : syn_type) : string :=
  match t with
  | TyPath segs => from_option seg_ident (token_text t) (last segs)
  | TyTraitObject bounds =>
      match first_trait bounds with
      | Some name => "dyn " +:+ name
      | None => token_text t
      end
  | TyOther _ => token_text t
  end.

(** ** Fields and the constructor they lower to *)

Record field := Field { f_name : string; f_ty : syn_type; f_inject : bool }.

Inductive fields :=
| FieldsUnit
| FieldsNamed (fs : list field)
| FieldsUnnamed.

Record item_struct := ItemStruct { i_ident : string; i_fields : fields }.

(** The expression one field is initialised with. *)
Inductive field_init :=
| InitDefault                                   (* Default::default() *)
| InitGetExpect (inner : syn_type) (msg : string)     (* container.get().expect(msg) *)
| InitGetDynExpect (inner : syn_type) (msg : string)  (* container.get_dyn::<inner>().expect(msg) *)
| InitGet (inner : syn_type)                          (* container.get() *)
| InitGetDyn (inner : syn_type).                      (* container.get_dyn::<inner>() *)

Inductive ctor :=
| CtorUnit                                      (* Self *)
| CtorFields (inits : list (string * field_init))     (* Self { .. } *)
| CtorDefault.                                  (* <Self as Default>::default() *)

Record injectable_body := InjectableBody {
  ib_ctor : ctor;
  ib_dep_keys : list syn_type;
  ib_dep_names : list string;
  ib_opt_keys : list syn_type
}.

Inductive syn_error :=
| OptionMustWrapArc (t : syn_type)
| InjectRequiresArc (t : syn_type)
| TupleStructUnsupported.

(** The mutable locals of the field loop. *)
Record scan := Scan {
  has_inject : bool;
  field_inits : list (string * field_init);
  dep_keys : list syn_type;
  dep_names : list string;
  opt_keys : list syn_type
}.

Definition scan_field (ident : string) (st : scan) (f : field) : result scan syn_error :=
  let name := f_name f in
  let t := f_ty f in
  if negb (f_inject f) then
    Ok (Scan (has_inject st) (field_inits st ++ [(name, InitDefault)])
          (dep_keys st) (dep_names st) (opt_keys st))
  else
    match nth_generic_type t "Option" 0 with
    | Some opt_inner =>
        match arc_inner opt_inner with
        | None => Err (OptionMustWrapArc t)
        | Some inner =>
            if is_trait_object inner then
              Ok (Scan true (field_inits st ++ [(name, InitGetDyn inner)])
                    (dep_keys st) (dep_names st) (opt_keys st ++ [opt_inner]))
            else
              Ok (Scan true (field_inits st ++ [(name, InitGet inner)])
                    (dep_keys st) (dep_names st) (opt_keys st ++ [inner]))
        end
    | None =>
        match arc_inner t with
        | None => Err (InjectRequiresArc t)
        | Some inner =>
            let msg := ident +:+ "." +:+ name +:+ ": no provider registered for this dependency" in
            let names := dep_names st ++ [type_label inner] in
            if is_trait_object inner then
              Ok (Scan true (field_inits st ++ [(name, InitGetDynExpect inner msg)])
                    (dep_keys st ++ [t]) names (opt_keys st))
            else
              Ok (Scan true (field_inits st ++ [(name, InitGetExpect inner msg)])
                    (dep_keys st ++ [inner]) names (opt_keys st))
        end
    end.

Definition build_injectable_body (item : item_struct) : result injectable_body syn_error :=
  match i_fields item with
  | FieldsUnit => Ok (InjectableBody CtorUnit [] [] [])
  | FieldsNamed fs =>
      let? st := for_each (scan_field (i_ident item)) fs (Scan false [] [] [] []) in
      let c := if has_inject st then CtorFields (field_inits st) else CtorDefault in
      Ok (InjectableBody c (dep_keys st) (dep_names st) (opt_keys st))
  | FieldsUnnamed => Err TupleStructUnsupported
  end.

(** [layer_inject_keys]: the keys of the referenced layers, deduplicated by token text. *)
Fixpoint layer_inject_keys_from (seen : gset string) (items : list syn_type) : list ty :=
  match items with
  | [] => []
  | p :: rest =>
      if decide (token_text p ∈ seen) then layer_inject_keys_from seen rest
      else type_id p :: layer_inject_keys_from ({[token_text p]} ∪ seen) rest
  end.

Definition layer_inject_keys (items : list syn_type) : list ty := layer_inject_keys_from ∅ items.

(** [injected_keys_with_layers] followed by [injected_method_with_layers]: the [injected] of a
    controller or gateway, from its fields, its struct-level layers and its method layers. *)
Definition injected_with_layers (deps : list syn_type) (struct_layers method_layers : list syn_type)
  : list ty :=
  (map type_id deps ++ layer_inject_keys struct_layers) ++ layer_inject_keys method_layers.

End codegen.

(** ** Running the emitted constructor *)

(** A panic, with its message. *)
Inductive panic :=
| PanicExpect (msg : string)
| PanicUnprovided (module : string) (providers : list string)
| PanicCycle (module : string) (providers : list string).

(** What a constructed field holds. *)
Inductive field_value `{Payloads} :=
| FvDefault
| FvArc (v : val)
| FvOption (o : option val).

(** The compiled structs: the instance a field assignment or [Default] yields, the closure a
    request-scoped provider registers, and the wrapping of a value as interceptor metadata. *)
Class Structs `{Payloads} := {
  construct : string -> list (string * field_value) -> val;
  default_value : string -> val;
  scoped_ctor : item_struct -> scoped_fn;
  interceptor_meta : val -> val
}.

Section construct.
Context `{Compiler} `{Structs}.

Definition expect {A} (o : option A) (msg : string) : result A panic := ok_or o (PanicExpect msg).

Definition eval_init (c : container) (i : field_init) : result field_value panic :=
  match i with
  | InitDefault => Ok FvDefault
  | InitGetExpect inner msg => let? v := expect (get (type_id inner) c) msg in Ok (FvArc v)
  | InitGetDynExpect inner msg => let? v := expect (get_dyn (type_id inner) c) msg in Ok (FvArc v)
  | InitGet inner => Ok (FvOption (get (type_id inner) c))
  | InitGetDyn inner => Ok (FvOption (get_dyn (type_id inner) c))
  end.

Definition eval_field (c : container) (fi : string * field_init)
  : result (string * field_value) panic :=
  let? v := eval_init c fi.2 in Ok (fi.1, v).

(** The body of [from_container]. *)
Definition eval_ctor (ident : string) (k : ctor) (c : container) : result val panic :=
  match k with
  | CtorUnit => Ok (construct ident [])
  | CtorFields inits => let? vs := collect_results (eval_field c) inits in Ok (construct ident vs)
  | CtorDefault => Ok (default_value ident)
  end.

(** The [Discoverable] impl of a provider type, with its [from_container].  [d_register] lists
    the registrations the emitted [register] makes on the builder it is given. *)
Record discoverable := Discoverable {
  d_dependencies : list ty;
  d_injected : list ty;
  d_dependency_names : list string;
  d_optional_dependencies : list ty;
  d_from_container : container -> result val panic;
  d_register : container_builder -> result (list registration) panic
}.

(** [#[injectable]], with [scope = request] or not.  [self] is the struct's own type. *)
Definition injectable (self : ty) (request_scoped : bool) (item : item_struct)
  : result discoverable syn_error :=
  let? body := build_injectable_body item in
  let from_container := eval_ctor (i_ident item) (ib_ctor body) in
  let keys := map type_id (ib_dep_keys body) in
  if request_scoped then
    Ok {| d_dependencies := []; d_injected := keys; d_dependency_names := [];
          d_optional_dependencies := []; d_from_container := from_container;
          d_register := fun _ => Ok [RProvideScoped self (scoped_ctor item)] |}
  else
    Ok {| d_dependencies := keys; d_injected := keys; d_dependency_names := ib_dep_names body;
          d_optional_dependencies := map type_id (ib_opt_keys body);
          d_from_container := from_container;
          d_register := fun b => let? value := from_container (snapshot b) in
                                 Ok [RProvide self value] |}.

(** [#[interceptor]]: built eagerly, but only attached as metadata. *)
Definition interceptor (self meta_ty : ty) (item : item_struct) : result discoverable syn_error :=
  let? body := build_injectable_body item in
  let from_container := eval_ctor (i_ident item) (ib_ctor body) in
  let keys := map type_id (ib_dep_keys body) in
  Ok {| d_dependencies := keys; d_injected := keys; d_dependency_names := ib_dep_names body;
        d_optional_dependencies := map type_id (ib_opt_keys body);
        d_from_container := from_container;
        d_register := fun b => let? value := from_container (snapshot b) in
                               Ok [RAttachMeta self meta_ty (interceptor_meta value)] |}.

(** [#[cron_job]]: only a [CronJobMeta] is attached; the job is built at each tick. *)
Definition cron_job (self meta_ty : ty) (meta : val) (item : item_struct)
  : result discoverable syn_error :=
  let? body := build_injectable_body item in
  Ok {| d_dependencies := []; d_injected := map type_id (ib_dep_keys body);
        d_dependency_names := []; d_optional_dependencies := [];
        d_from_container := eval_ctor (i_ident item) (ib_ctor body);
        d_register := fun _ => Ok [RAttachMeta self meta_ty meta] |}.

(** [#[processor]]: likewise with a [ProcessorMeta]; the worker builds it. *)
Definition processor (self meta_ty : ty) (meta : val) (item : item_struct)
  : result discoverable syn_error :=
  let? body := build_injectable_body item in
  Ok {| d_dependencies := []; d_injected := map type_id (ib_dep_keys body);
        d_dependency_names := []; d_optional_dependencies := [];
        d_from_container := eval_ctor (i_ident item) (ib_ctor body);
        d_register := fun _ => Ok [RAttachMeta self meta_ty meta] |}.

End construct.

(** ** Lemmas *)

Section lemmas.
Context `{Compiler} `{Structs}.

(** A required field's constructor expression succeeds as soon as its key is bound. *)
Definition init_covered (keys : list syn_type) (i : field_init) : Prop :=
  match i with
  | InitGetExpect inner _ => inner ∈ keys
  | InitGetDynExpect inner _ => exists t, t ∈ keys /\ arc_inner t = Some inner
  | _ => True
  end.

(** The constructor expression that resolves the dependency key [t]. *)
Definition resolves_key (t : syn_type) (i : field_init) : Prop :=
  match i with
  | InitGetExpect inner _ => inner = t
  | InitGetDynExpect inner _ => arc_inner t = Some inner
  | _ => False
  end.

Definition scan_inv (st : scan) : Prop :=
  Forall (fun fi => init_covered (dep_keys st) fi.2) (field_inits st) /\
  length (dep_names st) = length (dep_keys st) /\
  Forall (fun t => has_inject st = true /\
                   Exists (fun fi => resolves_key t fi.2) (field_inits st)) (dep_keys st).

Lemma init_covered_weaken keys keys' i :
  (forall t, t ∈ keys -> t ∈ keys') -> init_covered keys i -> init_covered keys' i.
Proof. destruct i; simpl; naive_solver. Qed.

Lemma scan_inv_step st name i new newn opts b :
  scan_inv st -> init_covered (dep_keys st ++ new) i -> length newn = length new ->
  (has_inject st = true -> b = true) ->
  Forall (fun t => b = true /\ resolves_key t i) new ->
  scan_inv (Scan b (field_inits st ++ [(name, i)]) (dep_keys st ++ new) (dep_names st ++ newn) opts).
Proof.
  intros (Hf & Hl & Hr) Hi Hn Hb Hnew. split; [|split]; simpl.
  - apply Forall_app. split; [|by repeat constructor].
    eapply Forall_impl; [exact Hf|]. intros fi. apply init_covered_weaken.
    intros t. rewrite elem_of_app. by left.
  - rewrite !length_app. lia.
  - apply Forall_app. split.
    + eapply Forall_impl; [exact Hr|]. intros t [? ?]. split; [auto|]. apply Exists_app. by left.
    + eapply Forall_impl; [exact Hnew|]. intros t [? ?]. split; [done|]. apply Exists_app.
      right. by constructor.
Qed.

Lemma scan_field_inv ident st f st' :
  scan_inv st -> scan_field ident st f = Ok st' -> scan_inv st'.
Proof.
  intros Hinv. unfold scan_field.
  assert (Hskip : forall b i opts, (has_inject st = true -> b = true) -> init_covered (dep_keys st) i ->
    scan_inv (Scan b (field_inits st ++ [(f_name f, i)]) (dep_keys st) (dep_names st) opts)).
  { intros b i opts Hb Hi.
    rewrite <- (app_nil_r (dep_keys st)), <- (app_nil_r (dep_names st)).
    apply scan_inv_step; auto. by rewrite app_nil_r. }
  destruct (f_inject f); simpl; [|intros; simplify_eq; by apply Hskip].
  destruct (nth_generic_type (f_ty f) "Option" 0) as [oi|].
  - destruct (arc_inner oi) as [inner|]; [|done].
    destruct (is_trait_object inner); intros; simplify_eq; by apply Hskip.
  - destruct (arc_inner (f_ty f)) as [inner|] eqn:Ea; [|done].
    destruct (is_trait_object inner); intros; simplify_eq;
      (apply scan_inv_step; simpl; [done| |done|done|by repeat constructor]);
      [exists (f_ty f)|]; rewrite elem_of_app, list_elem_of_singleton; auto.
Qed.

Lemma scan_fields_inv ident fs st st' :
  scan_inv st -> for_each (scan_field ident) fs st = Ok st' -> scan_inv st'.
Proof.
  revert st. induction fs as [|f fs IH]; intros st Hinv; simpl; [intros; by simplify_eq|].
  destruct (scan_field ident st f) as [st1|] eqn:E; simpl; [|done].
  apply IH. by eapply scan_field_inv.
Qed.

Lemma eval_init_ok c keys i :
  init_covered keys i -> (forall t, t ∈ keys -> is_Some (get (type_id t) c)) ->
  exists v, eval_init c i = Ok v.
Proof.
  intros Hi Hk. destruct i as [|inner msg|inner msg|inner|inner]; simpl in *; eauto.
  - destruct (Hk _ Hi) as [v ->]. simpl. eauto.
  - destruct Hi as (t & Ht & Ha). destruct (Hk _ Ht) as [v Hv].
    rewrite (type_id_arc _ _ Ha) in Hv.
    change (get (TArc (type_id inner)) c) with (get_dyn (type_id inner) c) in Hv.
    rewrite Hv. simpl. eauto.
Qed.

(** The constructor never panics once every declared dependency key is bound. *)
Lemma eval_ctor_ok item body c :
  build_injectable_body item = Ok body ->
  (forall k, k ∈ map type_id (ib_dep_keys body) -> is_Some (get k c)) ->
  exists v, eval_ctor (i_ident item) (ib_ctor body) c = Ok v.
Proof.
  intros Hb Hk. unfold build_injectable_body in Hb. destruct (i_fields item) as [|fs|]; simplify_eq/=; eauto.
  destruct (for_each _ fs _) as [st|] eqn:E; simplify_eq/=.
  destruct (has_inject st); simpl; [|eauto].
  assert (Hinv : scan_inv st).
  { eapply scan_fields_inv; [|exact E]. split; [constructor|split; [done|constructor]]. }
  destruct Hinv as [Hf _].
  assert (Hd : forall t, t ∈ dep_keys st -> is_Some (get (type_id t) c)).
  { intros t Ht. apply Hk, list_elem_of_fmap. eauto. }
  assert (exists vs, collect_results (eval_field c) (field_inits st) = Ok vs) as [vs ->]; [|simpl; eauto].
  clear -Hf Hd. induction Hf as [|fi fis Hi Hf IH]; simpl; [eauto|].
  destruct IH as [vs ->]. destruct (eval_init_ok c _ _ Hi Hd) as [v Hv].
  unfold eval_field. rewrite Hv. simpl. eauto.
Qed.

(** ... and it does panic when one of them is missing. *)
Lemma eval_ctor_missing item body c k :
  build_injectable_body item = Ok body -> k ∈ map type_id (ib_dep_keys body) -> get k c = None ->
  exists msg, eval_ctor (i_ident item) (ib_ctor body) c = Err (PanicExpect msg).
Proof.
  intros Hb Hk Hn. unfold build_injectable_body in Hb.
  destruct (i_fields item) as [|fs|]; simplify_eq/=; [by apply elem_of_nil in Hk|].
  destruct (for_each _ fs _) as [st|] eqn:E; simplify_eq/=.
  assert (Hinv : scan_inv st).
  { eapply scan_fields_inv; [|exact E]. split; [constructor|split; [done|constructor]]. }
  destruct Hinv as (_ & _ & Hr). apply list_elem_of_fmap in Hk as (t & -> & Ht).
  rewrite Forall_forall in Hr. destruct (Hr t Ht) as [-> Hex]. simpl.
  assert (exists msg, collect_results (eval_field c) (field_inits st) = Err (PanicExpect msg))
    as [msg ->]; [|simpl; eauto].
  clear E Hr. induction Hex as [fi fis Hi|fi fis Hex IH]; simpl; unfold eval_field at 1.
  - destruct (fi.2) as [|inner msg|inner msg|inner|inner]; simpl in *; try done.
    + subst. rewrite Hn. simpl. eauto.
    + rewrite (type_id_arc _ _ Hi) in Hn. change (get_dyn (type_id inner) c = None) in Hn.
      rewrite Hn. simpl. eauto.
  - destruct (eval_init c fi.2) as [v|p] eqn:Ei; simpl.
    + destruct IH as [msg ->]. simpl. eauto.
    + destruct (fi.2) as [|t' m|t' m|t'|t']; simpl in Ei; [done| | |done|done];
        [destruct (get (type_id t') c)|destruct (get_dyn (type_id t') c)]; simplify_eq/=; eauto.
Qed.

(** The keys of the layers: each one's type, once per text, when a text names one type. *)
Lemma elem_of_layer_keys_from (same : forall a b, token_text a = token_text b -> type_id a = type_id b) seen items k :
  (exists p, p ∈ items /\ type_id p = k /\ token_text p ∉ seen) <-> k ∈ layer_inject_keys_from seen items.
Proof.
  revert seen. induction items as [|q items IH]; intros seen; simpl.
  { split; [intros (p & ?%elem_of_nil & _); done|by intros ?%elem_of_nil]. }
  destruct (decide (token_text q ∈ seen)) as [Hq|Hq].
  - rewrite <- IH. split; intros (p & Hp & Hk & Hs); [|by exists p; split; [right|]].
    apply elem_of_cons in Hp as [->|Hp]; [done|by exists p].
  - rewrite elem_of_cons, <- IH. split.
    + intros (p & Hp & Hk & Hs). destruct (decide (token_text p = token_text q)) as [E|E].
      * left. rewrite <- Hk. by apply same.
      * right. apply elem_of_cons in Hp as [->|Hp]; [done|]. exists p. set_solver.
    + intros [->|(p & Hp & Hk & Hs)]; [by exists q; split; [left|]|].
      exists p. split; [by right|]. set_solver.
Qed.

Lemma elem_of_layer_keys (same : forall a b, token_text a = token_text b -> type_id a = type_id b) items k :
  k ∈ layer_inject_keys items <-> exists p, p ∈ items /\ type_id p = k.
Proof.
  unfold layer_inject_keys. rewrite <- (elem_of_layer_keys_from same). split.
  - intros (p & ? & ? & _). by exists p.
  - intros (p & ? & ?). exists p. set_solver.
Qed.

(** The constructor succeeds exactly when its dependency keys are bound. *)
Lemma eval_ctor_ok_iff item body c : build_injectable_body item = Ok body ->
  (exists v, eval_ctor (i_ident item) (ib_ctor body) c = Ok v) <->
  (forall k, k ∈ map type_id (ib_dep_keys body) -> is_Some (get k c)).
Proof.
  intros Eb. split; [|by apply eval_ctor_ok]. intros [v Hv] k Hk. destruct (get k c) eqn:Eg; [eauto|].
  destruct (eval_ctor_missing _ _ _ _ Eb Hk Eg) as [msg Hm]. congruence.
Qed.

(** A path that resolves in a container. *)
Definition bound c (p : syn_type) : Prop := is_Some (get (type_id p) c).

Lemma bound_keys_iff (same : forall a b, token_text a = token_text b -> type_id a = type_id b) c paths :
  Forall (bound c) paths <-> forall k, k ∈ layer_inject_keys paths -> is_Some (get k c).
Proof.
  rewrite Forall_forall. split.
  - intros Hall k (p & Hp & <-)%(elem_of_layer_keys same). by apply Hall.
  - intros Hk p Hp. apply Hk, (elem_of_layer_keys same). by exists p.
Qed.

End lemmas.

(** The emitted constructor of a decorated struct succeeds exactly when every key its
    [injected] declares is bound in the container it is given: a declared dependency can
    neither be forgotten by the constructor nor be demanded without being declared. *)
Lemma from_container_ok_iff_injected_bound `{Compiler} `{Structs} (self : ty)
    (request_scoped : bool) (item : item_struct) (d : discoverable) (c : container) :
  injectable self request_scoped item = Ok d ->
  (exists v, d_from_container d c = Ok v) <-> (forall k, k ∈ d_injected d -> is_Some (get k c)).
Proof.
  unfold injectable. destruct (build_injectable_body item) as [body|] eqn:Eb; simpl; [|done].
  pose proof (eval_ctor_ok_iff item body c Eb) as Hgoal.
  by destruct request_scoped; intros; simplify_eq/=.
Qed.

(** ** A compiler for the witnesses: the last path segment names the type *)

Module CodegenDemo.

Fixpoint demo_type_id (t : syn_type) : ty :=
  match t with
  | TyPath segs =>
      (fix go (l : list path_segment) : ty :=
        match l with
        | [] => TNamed ""
        | [PathSegment ident (AngleBracketed [GType u])] =>
            if String.eqb ident "Arc" then TArc (demo_type_id u) else TNamed ident
        | [PathSegment ident _] => TNamed ident
        | _ :: l' => go l'
        end) segs
  | TyTraitObject b => TDyn (default "" (first_trait b))
  | TyOther s => TNamed s
  end.

Lemma demo_type_id_arc t inner : arc_inner t = Some inner -> demo_type_id t = TArc (demo_type_id inner).
Proof.
  destruct t as [segs| |]; simpl; [|done|done].
  induction segs as [|[i a] segs IH]; [done|]. destruct segs as [|s segs].
  - simpl. destruct (String.eqb i "Arc") eqn:Ei; [|done].
    destruct a as [|[|[u|] [|]]|]; simpl; try done. by intros [= ->].
  - intros Ha. rewrite <- IH by exact Ha. by destruct a as [|[|[] []]|].
Qed.

#[export] Instance demo_compiler : Compiler :=
  {| type_id := demo_type_id; token_text := fun _ => ""; type_id_arc := demo_type_id_arc |}.

#[export] Existing Instance Demo.payloads.

#[export] Instance demo_structs : Structs :=
  { construct := fun _ vs => length vs : @val Demo.payloads;
    default_value := fun _ => 0 : @val Demo.payloads;
    scoped_ctor := fun _ => 0 : @scoped_fn Demo.payloads; interceptor_meta := fun v => v }.

Definition path (n : string) : syn_type := TyPath [PathSegment n PathNone].
Definition arc (t : syn_type) : syn_type :=
  TyPath [PathSegment "std" PathNone; PathSegment "Arc" (AngleBracketed [GType t])].
Definition opt (t : syn_type) : syn_type := TyPath [PathSegment "Option" (AngleBracketed [GType t])].

(** [struct Svc { #[inject] cfg: Arc<Config>, #[inject] w: Arc<dyn Weather>,
    #[inject] cache: Option<Arc<Cache>>, hits: u64 }] *)
Definition svc : item_struct :=
  {| i_ident := "Svc";
     i_fields := FieldsNamed
       [Field "cfg" (arc (path "Config")) true;
        Field "w" (arc (TyTraitObject [BoundTrait ["crate"; "Weather"]])) true;
        Field "cache" (opt (arc (path "Cache"))) true;
        Field "hits" (path "u64") false] |}.

Example svc_keys :
  match injectable (TNamed "Svc") false svc with
  | Ok d => d_dependencies d = [TNamed "Config"; TArc (TDyn "Weather")] /\
            d_dependency_names d = ["Config"; "dyn Weather"] /\
            d_optional_dependencies d = [TNamed "Cache"]
  | Err _ => False
  end.
Proof. vm_compute. auto. Qed.

Example field_must_be_arc :
  injectable (TNamed "Bad") false
    (ItemStruct "Bad" (FieldsNamed [Field "dep" (path "u32") true])) = Err (InjectRequiresArc (path "u32")).
Proof. reflexivity. Qed.

Definition svc_discoverable : discoverable :=
  match injectable (TNamed "Svc") false svc with
  | Ok d => d
  | Err _ => Discoverable [] [] [] [] (fun _ => Ok 0) (fun _ => Ok [])
  end.

Lemma from_container_ok_iff_injected_bound_witness :
  (exists v, d_from_container svc_discoverable Demo.root = Ok v) <->
  (forall k, k ∈ d_injected svc_discoverable -> is_Some (get k Demo.root)).
Proof. apply (from_container_ok_iff_injected_bound (TNamed "Svc") false svc). reflexivity. Defined.

(** A second compiler, for which a type's text determines it: the binary digits of its code. *)
Fixpoint digits (p : positive) : string :=
  match p with
  | xH => ""
  | xO p' => "0" +:+ digits p'
  | xI p' => "1" +:+ digits p'
  end.

#[local] Instance digits_inj : Inj (=) (=) digits.
Proof. intros p. induction p as [p IH|p IH|]; intros [q|q|] E; try done; injection E as E; f_equal; by apply IH. Qed.

Definition texts : Compiler :=
  {| type_id := demo_type_id; token_text t := digits (encode (demo_type_id t)); type_id_arc := demo_type_id_arc |}.

Lemma texts_same a b : @token_text texts a = @token_text texts b -> @type_id texts a = @type_id texts b.
Proof. simpl. intros E%(inj digits). by apply (inj encode) in E. Qed.

End CodegenDemo.
