(* ===== verification/Register.v ===== *)
(** The [impl Module] that [#[module]] emits ([nestrs-macros/src/module.rs]) and the two
    module traits of [nestrs-core/src/module.rs]: idempotent registration and collection over
    the import tree, the order-independent fixpoint that builds a module's providers, and the
    descriptor submitted for the access contract.

    A module or provider can touch the builder only through its public API, so its emitted
    [register] is modelled by the list of registrations it makes. *)

From S2P Require Import Prelude Container Access Codegen.

Section register.
Context `{Compiler} `{Structs}.

(** ** One provider of a module *)

(** [ProviderBinding]: [Foo], or [Foo as dyn Trait]. *)
Inductive provider_binding_t :=
| BindConcrete (self : ty) (name : string) (d : discoverable)
| BindDyn (self : ty) (name : string) (d : discoverable) (trait_ty : syn_type).

(** What the emitted step reads of a binding: the token streams [step], [key_push] and
    [classify] are built from these. *)
Record plan := Plan {
  pl_name : string;
  pl_key : ty;                       (* the provided key *)
  pl_dependencies : list ty;
  pl_dependency_names : list string;
  pl_optional : list ty;
  pl_register : container_builder -> result (list registration) panic
}.

Definition plan_of (pb : provider_binding_t) : plan :=
  match pb with
  | BindConcrete self name d =>
      {| pl_name := name; pl_key := self; pl_dependencies := d_dependencies d;
         pl_dependency_names := d_dependency_names d; pl_optional := d_optional_dependencies d;
         pl_register := d_register d |}
  | BindDyn self name d trait_ty =>
      {| pl_name := name; pl_key := TArc (type_id trait_ty); pl_dependencies := d_dependencies d;
         pl_dependency_names := d_dependency_names d; pl_optional := d_optional_dependencies d;
         pl_register := fun b =>
           let? provider := d_from_container d (snapshot b) in
           Ok [RProvideDyn (type_id trait_ty) provider] |}
  end.

Definition run_register (p : plan) (b : container_builder) : result container_builder panic :=
  let? rs := pl_register p b in Ok (apply_registrations rs b).

(** ** The fixpoint: providers are registered as their dependencies appear *)

(** Each provider with its [__done] flag. *)
Abbreviation slots := (list (plan * bool)).

Definition pending_keys (ps : slots) : list ty :=
  omap (fun pd : plan * bool => if pd.2 then None else Some (pl_key pd.1)) ps.

Definition ready (pending : list ty) (b : container_builder) (p : plan) : bool :=
  forallb (fun id => contains id b) (pl_dependencies p) &&
  forallb (fun id => contains id b || negb (bool_decide (id ∈ pending))) (pl_optional p).

(** One turn of the emitted [loop] over the steps: the new builder and flags, whether some
    provider is still pending and whether one was built. *)
Fixpoint round (pending : list ty) (ps : slots) (b : container_builder)
  : result (container_builder * slots * bool * bool) panic :=
  match ps with
  | [] => Ok (b, [], false, false)
  | (p, true) :: rest =>
      let? r := round pending rest b in
      let '(b', rest', any, progressed) := r in Ok (b', (p, true) :: rest', any, progressed)
  | (p, false) :: rest =>
      if ready pending b p then
        let? b1 := run_register p b in
        let? r := round pending rest b1 in
        let '(b', rest', any, _) := r in Ok (b', (p, true) :: rest', any, true)
      else
        let? r := round pending rest b in
        let '(b', rest', _, progressed) := r in Ok (b', (p, false) :: rest', true, progressed)
  end.

(** The missing dependencies of a stalled provider, with their labels. *)
Fixpoint missing_from (b : container_builder) (deps : list ty) (names : list string)
  : list (ty * string) :=
  match deps with
  | [] => []
  | d :: deps' =>
      let rest := missing_from b deps' (tail names) in
      if contains d b then rest else (d, default "?" (head names)) :: rest
  end.

(** [inl] is the cyclic diagnosis of a provider, [inr] the unprovided one. *)
Definition classify (pending : list ty) (b : container_builder) (p : plan) : string + string :=
  let missing := missing_from b (pl_dependencies p) (pl_dependency_names p) in
  if negb (bool_decide (missing = [])) && forallb (fun m => bool_decide (m.1 ∈ pending)) missing
  then inl (pl_name p)
  else inr (pl_name p +:+ " (needs " +:+ join ", " (map snd missing) +:+ ")").

Definition stall_panic (module : string) (pending : list ty) (b : container_builder) (ps : slots)
  : panic :=
  let diag := map (fun pd : plan * bool => classify pending b pd.1)
                  (filter (fun pd => pd.2 = false) ps) in
  let cyclic := lefts diag in
  let unprovided := rights diag in
  if negb (bool_decide (unprovided = [])) then PanicUnprovided module unprovided
  else PanicCycle module cyclic.

(** The emitted [loop]; [None] is running out of fuel. *)
Fixpoint fixpoint_loop (module : string) (fuel : nat) (ps : slots) (b : container_builder)
  : option (result container_builder panic) :=
  match fuel with
  | O => None
  | S fuel' =>
      let pending := pending_keys ps in
      match round pending ps b with
      | Err e => Some (Err e)
      | Ok (b', ps', any_pending, progressed) =>
          if negb any_pending then Some (Ok b')
          else if negb progressed then Some (Err (stall_panic module pending b' ps'))
          else fixpoint_loop module fuel' ps' b'
      end
  end.

Definition all_pending (ps : list plan) : slots := map (fun p => (p, false)) ps.

(** Each productive round builds a provider, so one more round than providers is enough. *)
Definition register_providers (module : string) (ps : list plan) (b : container_builder)
  : option (result container_builder panic) :=
  fixpoint_loop module (S (length ps)) (all_pending ps) b.

(** ** What it means for a module's providers to be constructible *)

(** The provider keys a list of registrations binds. *)
Definition bound_keys (rs : list registration) : gset ty :=
  list_to_set (omap (fun r => fst <$> provider_binding r) rs).

(** Building [p] makes the key [k] resolvable. *)
Definition provides (p : plan) (k : ty) : Prop :=
  exists b rs, pl_register p b = Ok rs /\ k ∈ bound_keys rs.

(** The promise a provider makes to the module that lists it: with its dependencies present
    its [register] does not panic, and it binds the same keys whatever the builder, at most
    its own.  Every decorator of [Codegen] keeps it. *)
Class Behaved (p : plan) : Prop := {
  behaved_total : forall b, builder_wf b -> (forall k, k ∈ pl_dependencies p -> contains k b = true) ->
    exists rs, pl_register p b = Ok rs;
  behaved_uniform : forall b b' rs rs', pl_register p b = Ok rs -> pl_register p b' = Ok rs' ->
    bound_keys rs = bound_keys rs';
  behaved_own_key : forall b rs k, pl_register p b = Ok rs -> k ∈ bound_keys rs -> k = pl_key p
}.

(** The order-free specification.  A provider is buildable over the keys [B] present at the
    start when each required key is present or provided by a buildable provider, and each
    optional key is too, or else every provider listed under that key is buildable (so that
    its absence is final). *)
Inductive buildable (ps : list plan) (B : gset ty) : plan -> Prop :=
| buildable_intro p :
    p ∈ ps ->
    (forall k, k ∈ pl_dependencies p ->
       k ∈ B \/ exists q, q ∈ ps /\ buildable ps B q /\ provides q k) ->
    (forall k, k ∈ pl_optional p ->
       (k ∈ B \/ exists q, q ∈ ps /\ buildable ps B q /\ provides q k) \/
       (forall q, q ∈ ps -> pl_key q = k -> buildable ps B q)) ->
    buildable ps B p.

(** [k] cannot be resolved by the providers that can be built. *)
Definition unavailable (ps : list plan) (B : gset ty) (k : ty) : Prop :=
  ~ (k ∈ B) /\ ~ exists q, q ∈ ps /\ buildable ps B q /\ provides q k.

(** A listed provider that cannot be built, and one whose missing keys, some at least, are all
    keys of such providers. *)
Definition stuck (ps : list plan) (B : gset ty) (p : plan) : Prop :=
  p ∈ ps /\ ~ buildable ps B p.

Definition cyclic (ps : list plan) (B : gset ty) (p : plan) : Prop :=
  (exists k, k ∈ pl_dependencies p /\ unavailable ps B k) /\
  forall k, k ∈ pl_dependencies p -> unavailable ps B k -> exists q, stuck ps B q /\ pl_key q = k.

(** ** Modules *)

(** An entry of [imports]: a type path, or an expression evaluating to a [DynamicModule], of
    which the two trait methods are the registrations they make. *)
Inductive import_t :=
| ImportStatic (m : ty)
| ImportDynamic (dyn_register : container_builder -> result (list registration) panic)
                (dyn_collect : container_builder -> list registration).

Record module_def := ModuleDef {
  mod_name : string;
  mod_imports : list import_t;
  mod_providers : list provider_binding_t
}.

(** The [Module] impls of the program: macro-generated, or hand-written. *)
Inductive module_impl :=
| MacroModule (d : module_def)
| HandModule (hand_register : container_builder -> result (list registration) panic)
             (hand_collect : container_builder -> list registration).

Context (impls : gmap ty module_impl).

(** The [import_calls] of the emitted [register]: [<T as Module>::register(builder)] for a path,
    [(expr).register(builder)] for a value. *)
Fixpoint import_calls (register : ty -> container_builder -> option (result container_builder panic))
    (imps : list import_t) (b : container_builder) : option (result container_builder panic) :=
  match imps with
  | [] => Some (Ok b)
  | ImportStatic m' :: imps' =>
      match register m' b with
      | Some (Ok b') => import_calls register imps' b'
      | other => other
      end
  | ImportDynamic reg _ :: imps' =>
      match reg b with
      | Ok rs => import_calls register imps' (apply_registrations rs b)
      | Err e => Some (Err e)
      end
  end.

(** [<M as Module>::register].  A type without an impl does not compile; it is a no-op here. *)
Fixpoint register (fuel : nat) (m : ty) (b : container_builder)
  : option (result container_builder panic) :=
  match fuel with
  | O => None
  | S fuel' =>
      match impls !! m with
      | None => Some (Ok b)
      | Some (HandModule reg _) => Some (let? rs := reg b in Ok (apply_registrations rs b))
      | Some (MacroModule d) =>
          let '(first, b) := mark_registered m b in
          if negb first then Some (Ok b)
          else
            match import_calls (register fuel') (mod_imports d) b with
            | Some (Ok b') => register_providers (mod_name d) (map plan_of (mod_providers d)) b'
            | other => other
            end
      end
  end.

Fixpoint collect_calls (collect : ty -> container_builder -> option container_builder)
    (imps : list import_t) (b : container_builder) : option container_builder :=
  match imps with
  | [] => Some b
  | ImportStatic m' :: imps' =>
      match collect m' b with
      | Some b' => collect_calls collect imps' b'
      | None => None
      end
  | ImportDynamic _ col :: imps' => collect_calls collect imps' (apply_registrations (col b) b)
  end.

(** [<M as Module>::collect]. *)
Fixpoint collect (fuel : nat) (m : ty) (b : container_builder) : option container_builder :=
  match fuel with
  | O => None
  | S fuel' =>
      match impls !! m with
      | None => Some b
      | Some (HandModule _ col) => Some (apply_registrations (col b) b)
      | Some (MacroModule d) =>
          let '(first, b) := mark_collected m b in
          if negb first then Some b
          else
            collect_calls (collect fuel') (mod_imports d) b
      end
  end.

(** Every call below a macro module runs with one more module marked. *)
Definition module_fuel : nat := S (size (dom impls)).

Definition module_register (m : ty) (b : container_builder) : option (result container_builder panic) :=
  register module_fuel m b.

Definition module_collect (m : ty) (b : container_builder) : option container_builder :=
  collect module_fuel m b.

(** ** The descriptor submitted to the link-time registry *)

(** The label of a trait-object type: its first trait bound's last path segment. *)
Definition path_tail_of_type (t : syn_type) : string :=
  match t with
  | TyTraitObject bounds => default (token_text t) (first_trait bounds)
  | _ => token_text t
  end.

Definition binding_descriptor (pb : provider_binding_t) : provider_descriptor :=
  match pb with
  | BindConcrete self name d => ProviderDescriptor name self (d_injected d)
  | BindDyn self name d trait_ty =>
      ProviderDescriptor ("dyn " +:+ path_tail_of_type trait_ty) (TArc (type_id trait_ty)) (d_injected d)
  end.

Definition static_import (i : import_t) : option ty :=
  match i with
  | ImportStatic m => Some m
  | ImportDynamic _ _ => None
  end.

Definition module_descriptor_of (m : ty) (d : module_def) : module_descriptor :=
  {| md_module := m; md_name := mod_name d;
     md_imports := omap static_import (mod_imports d);
     md_providers := map binding_descriptor (mod_providers d) |}.

End register.

Arguments plan {_}.

(** ** Lemmas on the fixpoint *)

Section fixpoint.
Context `{Payloads}.
Implicit Types (p q : plan) (ps : list plan) (b : container_builder) (B : gset ty).

Lemma contains_apply_registrations k rs b :
  contains k (apply_registrations rs b) = true <-> contains k b = true \/ k ∈ bound_keys rs.
Proof.
  revert b. induction rs as [|r rs IH]; intros b; simpl; [set_solver|].
  rewrite IH. unfold bound_keys. simpl.
  rewrite !contains_iff, apply_registration_providers.
  destruct (provider_binding r) as [[k' v]|]; simpl; [|tauto].
  rewrite elem_of_union, elem_of_singleton.
  destruct (decide (k' = k)) as [->|Hne].
  - rewrite lookup_insert_eq. naive_solver.
  - rewrite lookup_insert_ne by done. naive_solver.
Qed.

Lemma provides_own_key p k : Behaved p -> provides p k -> k = pl_key p.
Proof. intros Hp (b & rs & Hr & Hk). by eapply behaved_own_key. Qed.

(** Induction over the nested premises of [buildable]. *)
Lemma buildable_ind' ps B (P : plan -> Prop) :
  (forall p, p ∈ ps ->
    (forall k, k ∈ pl_dependencies p -> k ∈ B \/ exists q, q ∈ ps /\ P q /\ provides q k) ->
    (forall k, k ∈ pl_optional p ->
       (k ∈ B \/ exists q, q ∈ ps /\ P q /\ provides q k) \/
       (forall q, q ∈ ps -> pl_key q = k -> P q)) -> P p) ->
  forall p, buildable ps B p -> P p.
Proof.
  intros Hstep. fix IH 2. intros p [p' Hp Hdeps Hopt]. apply Hstep; [exact Hp| |].
  - intros k Hk. destruct (Hdeps k Hk) as [HB|(q & Hq & Hb & Hpr)]; [by left|].
    right. exists q. split; [exact Hq|]. split; [exact (IH q Hb)|exact Hpr].
  - intros k Hk. destruct (Hopt k Hk) as [[HB|(q & Hq & Hb & Hpr)]|Hall].
    + left. by left.
    + left. right. exists q. split; [exact Hq|]. split; [exact (IH q Hb)|exact Hpr].
    + right. intros q Hq Hk'. exact (IH q (Hall q Hq Hk')).
Qed.

Lemma buildable_elem_of ps B p : buildable ps B p -> p ∈ ps.
Proof. by destruct 1. Qed.

Lemma buildable_perm ps ps' B p : ps ≡ₚ ps' -> buildable ps B p -> buildable ps' B p.
Proof.
  intros Hp Hb. revert p Hb. apply buildable_ind'. intros p Hin Hd Ho.
  constructor; [by rewrite <- Hp| |].
  - intros k Hk. destruct (Hd k Hk) as [?|(q & ? & ?)]; [by left|]. right. exists q.
    split; [by rewrite <- Hp|done].
  - intros k Hk. destruct (Ho k Hk) as [[?|(q & ? & ?)]|Hall]; [by left; left| |].
    + left. right. exists q. split; [by rewrite <- Hp|done].
    + right. intros q Hq. apply Hall. by rewrite Hp.
Qed.

Lemma ready_true pending b p :
  ready pending b p = true <->
  (forall k, k ∈ pl_dependencies p -> contains k b = true) /\
  (forall k, k ∈ pl_optional p -> contains k b = true \/ ~ (k ∈ pending)).
Proof.
  unfold ready. rewrite andb_true_iff, !forallb_forall. setoid_rewrite <- list_elem_of_In.
  setoid_rewrite orb_true_iff. setoid_rewrite negb_true_iff.
  by setoid_rewrite bool_decide_eq_false.
Qed.

Lemma elem_of_pending_keys (ps : list (plan * bool)) k :
  k ∈ pending_keys ps <-> exists p, (p, false) ∈ ps /\ pl_key p = k.
Proof.
  unfold pending_keys. rewrite list_elem_of_omap. split.
  - intros ([p []] & Hp & Hk); simplify_eq/=. eauto.
  - intros (p & Hp & <-). by exists (p, false).
Qed.

(** Providers still to build. *)
Definition n_pending (ps : list (plan * bool)) : nat := length (filter (fun pd => pd.2 = false) ps).

Section round.
Context (ps : list plan) (B : gset ty) (pending : list ty).
Context (Hbehaved : forall p, p ∈ ps -> Behaved p).
Context (Hpending : forall k q, ~ (k ∈ pending) -> q ∈ ps -> pl_key q = k -> buildable ps B q).

(** What holds of the builder between two steps: every bound key is accounted for. *)
Definition accounted (b : container_builder) : Prop :=
  builder_wf b /\ forall k, contains k b = true ->
    k ∈ B \/ exists q, q ∈ ps /\ buildable ps B q /\ provides q k.

Definition covers (l : list (plan * bool)) (b : container_builder) : Prop :=
  forall p k, (p, true) ∈ l -> provides p k -> contains k b = true.

Lemma step_accounted p b :
  p ∈ ps -> accounted b -> ready pending b p = true ->
  exists b1, run_register p b = Ok b1 /\ accounted b1 /\ buildable ps B p /\
    (forall k, contains k b1 = true <-> contains k b = true \/ provides p k).
Proof.
  intros Hp [Hwf Hacc] [Hd Ho]%ready_true.
  destruct (@behaved_total _ p (Hbehaved p Hp) b Hwf Hd) as [rs Hrs].
  assert (Hbuild : buildable ps B p).
  { constructor; [done|by intros k ?%Hd%Hacc|]. intros k [?%Hacc|?]%Ho; [by left|right].
    intros q Hq Hk. by eapply Hpending. }
  assert (Hiff : forall k, k ∈ bound_keys rs <-> provides p k).
  { intros k. split; [by exists b, rs|]. intros (b' & rs' & Hr' & Hk).
    by rewrite (@behaved_uniform _ p (Hbehaved p Hp) _ _ _ _ Hrs Hr'). }
  exists (apply_registrations rs b). unfold run_register. rewrite Hrs. simpl.
  split; [done|]. split; [split|split; [done|]].
  - by apply apply_registrations_wf.
  - intros k [?%Hacc|?%Hiff]%contains_apply_registrations; [done|]. right. by exists p.
  - intros k. by rewrite contains_apply_registrations, Hiff.
Qed.

Record round_post (l : list (plan * bool)) b b' (l' : list (plan * bool)) (any pr : bool) : Prop := {
  rp_same : map fst l' = map fst l;
  rp_accounted : accounted b';
  rp_covers : covers l' b';
  rp_done : forall p, (p, true) ∈ l' -> buildable ps B p;
  rp_mono : forall k, contains k b = true -> contains k b' = true;
  rp_any : any = false -> forall p d, (p, d) ∈ l' -> d = true;
  rp_some : any = true -> exists p, (p, false) ∈ l';
  rp_progress : n_pending l' + (if pr then 1 else 0) <= n_pending l;
  rp_stall : pr = false -> l' = l /\ b' = b /\ forall p, (p, false) ∈ l -> ready pending b p = false
}.

Record round_pre (l : list (plan * bool)) b : Prop := {
  pre_in : forall p d, (p, d) ∈ l -> p ∈ ps;
  pre_accounted : accounted b;
  pre_covers : covers l b;
  pre_done : forall p, (p, true) ∈ l -> buildable ps B p
}.

Lemma n_pending_cons p d (l : list (plan * bool)) :
  n_pending ((p, d) :: l) = (if d then 0 else 1) + n_pending l.
Proof. unfold n_pending. rewrite filter_cons. by destruct d. Qed.

(** Rebuilding the postcondition of a round around its first slot. *)
Lemma round_post_cons p (d d' : bool) l b b1 b' l' (any pr any' pr' : bool) :
  round_post l b1 b' l' any pr ->
  (forall k, contains k b = true -> contains k b1 = true) ->
  (d' = true -> buildable ps B p /\ forall k, provides p k -> contains k b1 = true) ->
  (any' = false -> any = false /\ d' = true) ->
  (any' = true -> any = true \/ d' = false) ->
  (if pr' then 1 else 0) + (if d' then 0 else 1) <= (if pr then 1 else 0) + (if d then 0 else 1) ->
  (pr' = false -> pr = false /\ d' = d /\ b1 = b /\ (d = false -> ready pending b p = false)) ->
  round_post ((p, d) :: l) b b' ((p, d') :: l') any' pr'.
Proof.
  intros [Hs Ha Hc Hd Hm Hany Hsome Hp Hst] Hb1 Hd' Hany' Hsome' Hn Hpr. split; try done.
  - simpl. by rewrite Hs.
  - intros q k [[= -> <-]|Hq]%elem_of_cons Hk; [|by eapply Hc]. by apply Hm, Hd'.
  - intros q [[= -> <-]|Hq]%elem_of_cons; [by apply Hd'|by apply Hd].
  - auto.
  - intros [? ->]%Hany' q e [[= -> ->]|Hq]%elem_of_cons; [done|by eapply Hany].
  - intros [[q Hq]%Hsome | ->]%Hsome'; [exists q; by right|exists p; by left].
  - rewrite !n_pending_cons. lia.
  - intros (->&->&->&Hr)%Hpr. destruct Hst as (->&->&Hf); [done|]. split; [done|]. split; [done|].
    intros q [[= -> <-]|Hq]%elem_of_cons; [by apply Hr|by apply Hf].
Qed.

(** One round never panics, keeps the account, and either builds something or finds that no
    pending provider is ready. *)
Lemma round_spec l b :
  round_pre l b ->
  exists b' l' any pr, round pending l b = Ok (b', l', any, pr) /\ round_post l b b' l' any pr.
Proof.
  revert b. induction l as [|[p d] l IH]; intros b Hpre; simpl.
  { destruct Hpre. exists b, [], false, false. split; [done|]. split; try done.
    - by intros _ p d ?%elem_of_nil.
    - intros _. split; [done|]. split; [done|]. by intros p ?%elem_of_nil. }
  pose proof Hpre as [Hin Hacc Hcov Hdone].
  assert (Hpre' : forall b1, accounted b1 -> (forall k, contains k b = true -> contains k b1 = true) ->
                  round_pre l b1).
  { intros b1 Hb1 Hm. split; [|done| |].
    - intros q e ?. eapply Hin. by right.
    - intros q k Hq Hk. apply Hm. apply (Hcov q); [by right|done].
    - intros q Hq. apply Hdone. by right. }
  destruct d; [|destruct (ready pending b p) eqn:Er].
  - destruct (IH b) as (b' & l' & any & pr & -> & Hpost); [by apply Hpre'|].
    eexists _, _, _, _. split; [done|]. apply (round_post_cons _ _ _ _ _ _ _ _ _ _ _ _ Hpost); try done; auto.
    intros _. split; [apply Hdone; by left|]. intros k. apply Hcov. by left.
  - destruct (step_accounted p b) as (b1 & -> & Hacc1 & Hb & Hiff); [eapply Hin; by left|done|done|].
    assert (Hm : forall k, contains k b = true -> contains k b1 = true) by (intros; apply Hiff; auto).
    simpl. destruct (IH b1) as (b' & l' & any & pr & -> & Hpost); [by apply Hpre'|].
    eexists _, _, _, _. split; [done|]. apply (round_post_cons _ _ _ _ _ _ _ _ _ _ _ _ Hpost); try done; auto; try (destruct pr; lia).
    + intros _. split; [done|]. intros k ?. apply Hiff. by right.
  - destruct (IH b) as (b' & l' & any & pr & -> & Hpost); [by apply Hpre'|].
    eexists _, _, _, _. split; [done|]. apply (round_post_cons _ _ _ _ _ _ _ _ _ _ _ _ Hpost); try done; auto.
Qed.

End round.

(** What the loop knows between two rounds. *)
Record loop_inv ps B (l : list (plan * bool)) b : Prop := {
  li_same : map fst l = ps;
  li_accounted : accounted ps B b;
  li_start : forall k, k ∈ B -> contains k b = true;
  li_covers : covers l b;
  li_done : forall p, (p, true) ∈ l -> buildable ps B p
}.

Lemma slot_of ps (l : list (plan * bool)) p : map fst l = ps -> p ∈ ps <-> exists d, (p, d) ∈ l.
Proof.
  intros <-. rewrite list_elem_of_fmap. split.
  - intros ([q d] & -> & Hq). by exists d.
  - intros [d Hd]. by exists (p, d).
Qed.

Lemma loop_inv_pending ps B l b k q :
  loop_inv ps B l b -> ~ (k ∈ pending_keys l) -> q ∈ ps -> pl_key q = k -> buildable ps B q.
Proof.
  intros [Hs _ _ _ Hd] Hk Hq Hqk. apply (slot_of _ _ _ Hs) in Hq as [[] Hq]; [by apply Hd|].
  exfalso. apply Hk, elem_of_pending_keys. eauto.
Qed.

(** A stalled state: the loop has built exactly the buildable providers. *)
Record stalled ps B (l : list (plan * bool)) b : Prop := {
  st_inv : loop_inv ps B l b;
  st_pending : exists p, (p, false) ∈ l;
  st_ready : forall p, (p, false) ∈ l -> ready (pending_keys l) b p = false
}.

Lemma stalled_contains ps B l b k : loop_inv ps B l b ->
  (forall q, buildable ps B q -> forall d, (q, d) ∈ l -> d = true) ->
  contains k b = true <-> k ∈ B \/ exists q, q ∈ ps /\ buildable ps B q /\ provides q k.
Proof.
  intros Hinv Hall. split; [apply (li_accounted _ _ _ _ Hinv)|].
  intros [?|(q & Hq & Hb & Hk)]; [by apply (li_start _ _ _ _ Hinv)|].
  apply (slot_of _ _ _ (li_same _ _ _ _ Hinv)) in Hq as [d Hq].
  assert (d = true) as -> by (by eapply Hall). by eapply (li_covers _ _ _ _ Hinv).
Qed.

Lemma stalled_built ps B l b q : stalled ps B l b -> buildable ps B q ->
  forall d, (q, d) ∈ l -> d = true.
Proof.
  intros [Hinv _ Hready] Hq. revert q Hq.
  refine (buildable_ind' ps B (fun q => forall d, (q, d) ∈ l -> d = true) _).
  intros p Hp Hdeps Hopt [] Hd; [done|]. exfalso.
  pose proof (li_same _ _ _ _ Hinv) as Hs.
  assert (Havail : forall k, (k ∈ B \/ exists q, q ∈ ps /\
    (forall d, (q, d) ∈ l -> d = true) /\ provides q k) -> contains k b = true).
  { intros k [?|(q & Hq & Hqd & Hk)]; [by apply (li_start _ _ _ _ Hinv)|].
    apply (slot_of _ _ _ Hs) in Hq as [d Hq]. rewrite (Hqd _ Hq) in Hq.
    by eapply (li_covers _ _ _ _ Hinv). }
  assert (Hr : ready (pending_keys l) b p = true); [|by rewrite Hready in Hr].
  apply ready_true. split; [by intros k ?%Hdeps%Havail|].
  intros k [?%Havail|Hall]%Hopt; [by left|right].
  rewrite elem_of_pending_keys. intros (q & Hq & Hk).
  assert (Hin : q ∈ ps) by (apply (slot_of _ _ _ Hs); eauto). by specialize (Hall q Hin Hk _ Hq).
Qed.

Lemma stalled_unavailable ps B l b k : stalled ps B l b ->
  contains k b = false <-> unavailable ps B k.
Proof.
  intros Hst. rewrite <- not_true_iff_false.
  rewrite (stalled_contains ps B l b k (st_inv _ _ _ _ Hst)).
  - unfold unavailable. tauto.
  - intros q Hq d. by apply (stalled_built ps B l b q Hst Hq).
Qed.

Lemma stalled_slot ps B l b p : stalled ps B l b ->
  (p, false) ∈ l <-> p ∈ ps /\ ~ buildable ps B p.
Proof.
  intros Hst. pose proof (slot_of _ _ p (li_same _ _ _ _ (st_inv _ _ _ _ Hst))) as Hs. split.
  - intros Hp. split; [apply Hs; eauto|]. intros Hb. by specialize (stalled_built _ _ _ _ _ Hst Hb _ Hp).
  - intros [[[] Hp]%Hs Hn]; [|done]. exfalso. apply Hn, (li_done _ _ _ _ (st_inv _ _ _ _ Hst)), Hp.
Qed.

Lemma fixpoint_loop_spec module ps B : (forall p, p ∈ ps -> Behaved p) ->
  forall fuel l b, n_pending l < fuel -> loop_inv ps B l b ->
  exists r, fixpoint_loop module fuel l b = Some r /\
    match r with
    | Ok b' => exists l', loop_inv ps B l' b' /\ forall p d, (p, d) ∈ l' -> d = true
    | Err e => exists l' b', stalled ps B l' b' /\ e = stall_panic module (pending_keys l') b' l'
    end.
Proof.
  intros Hbeh. induction fuel as [|fuel IH]; intros l b Hf Hinv; [lia|]. cbn [fixpoint_loop].
  assert (Hpre : round_pre ps B l b).
  { destruct Hinv as [Hs Ha _ Hc Hd]. split; try done. intros p d Hp. apply (slot_of _ _ _ Hs). eauto. }
  destruct (round_spec ps B (pending_keys l) Hbeh (fun k q => loop_inv_pending ps B l b k q Hinv) l b Hpre)
    as (b' & l' & any & pr & -> & [Hs Ha Hc Hd Hm Hany Hsome Hp Hst]).
  assert (Hinv' : loop_inv ps B l' b').
  { split; try done; [by rewrite Hs; apply Hinv|]. intros k Hk. by apply Hm, (li_start _ _ _ _ Hinv). }
  destruct any; simpl.
  - destruct pr; simpl; [apply IH; [lia|done]|].
    destruct Hst as (-> & -> & Hr); [done|]. eexists. split; [done|]. exists l, b. split; [|done].
    by split; [|apply Hsome|].
  - eexists. split; [done|]. exists l'. split; [done|]. intros p d. by apply Hany.
Qed.

Lemma loop_inv_start ps b : builder_wf b -> loop_inv ps (provider_ids b) (all_pending ps) b.
Proof.
  intros Hwf. unfold all_pending. split.
  - rewrite map_map. apply map_id.
  - split; [done|]. intros k Hk. left. by apply contains_dom.
  - intros k Hk. by apply contains_dom.
  - by intros p k (q & ? & ?)%list_elem_of_fmap.
  - by intros p (q & ? & ?)%list_elem_of_fmap.
Qed.

Lemma n_pending_le (l : list (plan * bool)) : n_pending l <= length l.
Proof. unfold n_pending. apply length_filter. Qed.

(** With more rounds than providers the loop ends: in a state where everything is built, or
    in a stalled one. *)
Lemma register_providers_spec module ps b :
  (forall p, p ∈ ps -> Behaved p) -> builder_wf b ->
  exists r, register_providers module ps b = Some r /\
    match r with
    | Ok b' => exists l', loop_inv ps (provider_ids b) l' b' /\ forall p d, (p, d) ∈ l' -> d = true
    | Err e => exists l' b', stalled ps (provider_ids b) l' b' /\
                             e = stall_panic module (pending_keys l') b' l'
    end.
Proof.
  intros Hbeh Hwf. apply fixpoint_loop_spec; [done| |by apply loop_inv_start].
  pose proof (n_pending_le (all_pending ps)) as Hn. unfold all_pending in Hn at 2.
  rewrite length_map in Hn. lia.
Qed.

Lemma all_built ps B l b : loop_inv ps B l b -> (forall p d, (p, d) ∈ l -> d = true) ->
  forall p, p ∈ ps -> buildable ps B p.
Proof.
  intros Hinv Hall p [d Hd]%(slot_of _ _ _ (li_same _ _ _ _ Hinv)).
  rewrite (Hall _ _ Hd) in Hd. by apply (li_done _ _ _ _ Hinv).
Qed.

Lemma all_built_contains ps B l b k : loop_inv ps B l b -> (forall p d, (p, d) ∈ l -> d = true) ->
  contains k b = true <-> k ∈ B \/ exists q, q ∈ ps /\ provides q k.
Proof.
  intros Hinv Hall. rewrite (stalled_contains ps B l b k Hinv) by eauto.
  pose proof (all_built _ _ _ _ Hinv Hall) as Hb. naive_solver.
Qed.

(** Two slot lists over permuted providers with flags decided by [buildable] are permuted. *)
Lemma slots_perm ps ps' B l l' b b' : ps ≡ₚ ps' ->
  stalled ps B l b -> stalled ps' B l' b' -> l ≡ₚ l'.
Proof.
  intros Hp Hs Hs'.
  pose proof (li_same _ _ _ _ (st_inv _ _ _ _ Hs)) as Hm.
  pose proof (li_same _ _ _ _ (st_inv _ _ _ _ Hs')) as Hm'.
  destruct (Permutation_map_inv fst l (l1 := ps')) as (l1 & Hl1 & Hpl); [by rewrite Hm|].
  rewrite Hpl. enough (l1 = l') as -> by done.
  assert (Hfun : forall p d d', (p, d) ∈ l1 -> (p, d') ∈ l' -> d = d').
  { intros p d d'. rewrite <- Hpl. intros Hd Hd'.
    assert (Hb : buildable ps B p <-> buildable ps' B p)
      by (split; apply buildable_perm; [done|by symmetry]).
    destruct d, d'; try done; exfalso.
    - apply (stalled_slot _ _ _ _ _ Hs') in Hd' as [_ Hn]. apply Hn, Hb.
      by apply (li_done _ _ _ _ (st_inv _ _ _ _ Hs)).
    - apply (stalled_slot _ _ _ _ _ Hs) in Hd as [_ Hn]. apply Hn, Hb.
      by apply (li_done _ _ _ _ (st_inv _ _ _ _ Hs')). }
  rewrite <- Hm' in Hl1. clear -Hl1 Hfun. revert l' Hl1 Hfun.
  induction l1 as [|[p d] l1 IH]; intros [|[p' d'] l'] Hl Hfun; simplify_eq/=; [done|].
  match goal with |- (?x, _) :: _ = _ => rewrite (Hfun x d d') by by left end. f_equal. apply IH; [done|].
  intros q e e' ? ?. eapply Hfun; by right.
Qed.

Lemma missing_from_ext b b' deps names : (forall k, contains k b = contains k b') ->
  missing_from b deps names = missing_from b' deps names.
Proof.
  intros He. revert names. induction deps as [|d deps IH]; intros names; simpl; [done|].
  by rewrite IH, He.
Qed.

Lemma classify_ext pending pending' b b' p :
  (forall k, k ∈ pending <-> k ∈ pending') -> (forall k, contains k b = contains k b') ->
  classify pending b p = classify pending' b' p.
Proof.
  intros Hk Hb. unfold classify. rewrite (missing_from_ext b b') by done.
  enough (forall l : list (ty * string), forallb (fun m => bool_decide (m.1 ∈ pending)) l =
                    forallb (fun m => bool_decide (m.1 ∈ pending')) l) as -> by done.
  induction l as [|m l IH]; simpl; [done|]. rewrite IH. f_equal.
  by apply bool_decide_ext.
Qed.

(** Two panics that differ at most in the order of the providers they name. *)
Inductive panic_similar : panic -> panic -> Prop :=
| similar_expect m : panic_similar (PanicExpect m) (PanicExpect m)
| similar_unprovided m l l' : l ≡ₚ l' -> panic_similar (PanicUnprovided m l) (PanicUnprovided m l')
| similar_cycle m l l' : l ≡ₚ l' -> panic_similar (PanicCycle m l) (PanicCycle m l').

Lemma stall_panic_perm module pending pending' b b' l l' :
  l ≡ₚ l' -> (forall k, k ∈ pending <-> k ∈ pending') -> (forall k, contains k b = contains k b') ->
  panic_similar (stall_panic module pending b l) (stall_panic module pending' b' l').
Proof.
  intros Hl Hk Hb. unfold stall_panic.
  rewrite (map_ext (fun pd : plan * bool => classify pending b pd.1) (fun pd => classify pending' b' pd.1))
    by (intros; by apply classify_ext).
  set (d := map _ (filter _ l)). set (d' := map _ (filter _ l')).
  assert (Hd : d ≡ₚ d') by (unfold d, d'; by rewrite Hl).
  assert (Hun : rights d = [] <-> rights d' = []).
  { pose proof (rights_perm d d' Hd) as Hr. split; intros E; rewrite E in Hr.
    - symmetry. by apply Permutation_nil_l.
    - by apply Permutation_nil_r. }
  destruct (bool_decide_reflect (rights d = [])) as [E|E]; simpl.
  - rewrite bool_decide_eq_true_2 by (by apply Hun). simpl. constructor. by rewrite Hd.
  - rewrite bool_decide_eq_false_2 by (by rewrite <- Hun). simpl. constructor. by rewrite Hd.
Qed.

Lemma unavailable_perm ps ps' B k : ps ≡ₚ ps' -> unavailable ps B k -> unavailable ps' B k.
Proof.
  intros Hp [HB Hn]. split; [done|]. intros (q & Hq & Hb & Hk). apply Hn. exists q.
  split; [by rewrite Hp|]. split; [|done]. by eapply buildable_perm; [symmetry|].
Qed.

Lemma elem_of_missing_from k b deps names :
  (exists s, (k, s) ∈ missing_from b deps names) <-> k ∈ deps /\ contains k b = false.
Proof.
  revert names. induction deps as [|d deps IH]; intros names; simpl.
  - setoid_rewrite elem_of_nil. naive_solver.
  - rewrite elem_of_cons. specialize (IH (tail names)). destruct (contains d b) eqn:Ed.
    + rewrite IH. naive_solver congruence.
    + setoid_rewrite elem_of_cons. split.
      * intros [s [[= -> ->]|Hs]]; [auto|]. naive_solver.
      * intros [[->|Hk] Hc]; [eauto|]. destruct IH as [_ [s Hs]]; eauto.
Qed.

Lemma elem_of_diagnosis {X} (f : plan -> X) (l : list (plan * bool)) c :
  c ∈ map (fun pd : plan * bool => f pd.1) (filter (fun pd => pd.2 = false) l) <->
  exists p, (p, false) ∈ l /\ c = f p.
Proof.
  rewrite list_elem_of_fmap. split.
  - intros ([p d] & -> & [Hd Hp]%list_elem_of_filter). simpl in *. subst. eauto.
  - intros (p & Hp & ->). exists (p, false). split; [done|]. by apply list_elem_of_filter.
Qed.

(** The per-provider classification, with the missing keys read off any predicate [U]. *)
Lemma classify_spec pending (stuck : plan -> Prop) b p (U : ty -> Prop) :
  (forall k deps names, (exists s, (k, s) ∈ missing_from b deps names) <-> k ∈ deps /\ U k) ->
  (forall k, k ∈ pending <-> exists q, stuck q /\ pl_key q = k) ->
  let cyclic := (exists k, k ∈ pl_dependencies p /\ U k) /\
                forall k, k ∈ pl_dependencies p -> U k -> exists q, stuck q /\ pl_key q = k in
  match classify pending b p with
  | inl n => n = pl_name p /\ cyclic
  | inr _ => ~ cyclic
  end.
Proof.
  intros Hm Hp. specialize (fun k => Hm k (pl_dependencies p) (pl_dependency_names p)).
  simpl. unfold classify. set (missing := missing_from _ _ _) in *.
  destruct (negb (bool_decide (missing = [])) && forallb _ missing) eqn:E.
  - apply andb_true_iff in E as [En Ef]. split; [done|].
    apply negb_true_iff, bool_decide_eq_false in En. rewrite forallb_forall in Ef. split.
    + destruct missing as [|[k s] m]; [done|]. exists k. apply Hm. exists s. by left.
    + intros k Hk Hu. destruct (proj2 (Hm k) (conj Hk Hu)) as [s Hs].
      apply list_elem_of_In, Ef, bool_decide_eq_true in Hs. by apply Hp.
  - intros [[k Hk] Hall]. apply Hm in Hk as [s Hs].
    apply andb_false_iff in E as [E|E].
    + apply negb_false_iff, bool_decide_eq_true in E. rewrite E in Hs. by apply elem_of_nil in Hs.
    + apply not_true_iff_false in E. apply E, forallb_forall. intros [k' s'] Hin%list_elem_of_In.
      apply bool_decide_eq_true. simpl. apply Hp.
      destruct (proj1 (Hm k')) as [? ?]; [by exists s'|]. by apply Hall.
Qed.
End fixpoint.

(** ** The contract of the fixpoint *)

Section contract.
Context `{Payloads}.
Implicit Types (p q : plan) (ps : list plan) (b : container_builder).

(** [C2] The register loop of a module always ends without panicking in a constructor: it
    succeeds exactly when every provider is constructible from the keys already present and
    the other providers, and then the keys present are the initial ones and those provided. *)
Theorem register_providers_builds_iff_buildable module ps b :
  (forall p, p ∈ ps -> Behaved p) -> builder_wf b ->
  exists r, register_providers module ps b = Some r /\
    (is_ok r = true <-> forall p, p ∈ ps -> buildable ps (provider_ids b) p) /\
    (forall b', r = Ok b' -> builder_wf b' /\
       forall k, contains k b' = true <-> contains k b = true \/ exists q, q ∈ ps /\ provides q k) /\
    (forall msg, r <> Err (PanicExpect msg)).
Proof.
  intros Hbeh Hwf. destruct (register_providers_spec module ps b Hbeh Hwf) as ([b'|e] & -> & Hr).
  - destruct Hr as (l' & Hinv & Hall). eexists. split; [done|]. split; [|split; [|done]].
    + split; [|done]. intros _. by apply (all_built _ _ _ _ Hinv).
    + intros ? [= <-]. split; [apply (li_accounted _ _ _ _ Hinv)|]. intros k.
      rewrite (all_built_contains _ _ _ _ _ Hinv Hall). by rewrite contains_dom.
  - destruct Hr as (l' & b' & Hst & ->). eexists. split; [done|]. split; [|split].
    + split; [done|]. intros Hall. destruct (st_pending _ _ _ _ Hst) as [p Hp].
      apply (stalled_slot _ _ _ _ _ Hst) in Hp as [Hin Hn]. by destruct Hn; auto.
    + by intros.
    + intros msg. unfold stall_panic. by case_match.
Qed.

(** The order in which a module lists its providers is irrelevant: under a permutation
    the same keys end up present, or boot fails with the same diagnosis naming the same
    providers. *)
Lemma register_providers_order_independent module ps ps' b :
  (forall p, p ∈ ps -> Behaved p) -> builder_wf b -> ps ≡ₚ ps' ->
  match register_providers module ps b, register_providers module ps' b with
  | Some (Ok b1), Some (Ok b2) => provider_ids b1 = provider_ids b2
  | Some (Err e1), Some (Err e2) => panic_similar e1 e2
  | _, _ => False
  end.
Proof.
  intros Hbeh Hwf Hp.
  assert (Hbeh' : forall p, p ∈ ps' -> Behaved p) by (intros p; rewrite <- Hp; apply Hbeh).
  destruct (register_providers_spec module ps b Hbeh Hwf) as (r & -> & Hr).
  destruct (register_providers_spec module ps' b Hbeh' Hwf) as (r' & -> & Hr').
  destruct r as [b1|e1], r' as [b2|e2].
  - destruct Hr as (l & Hi & Ha), Hr' as (l' & Hi' & Ha'). apply set_eq. intros k.
    rewrite <- !contains_dom, (all_built_contains _ _ _ _ k Hi Ha), (all_built_contains _ _ _ _ k Hi' Ha').
    by setoid_rewrite Hp.
  - destruct Hr as (l & Hi & Ha), Hr' as (l' & b' & Hst & _).
    destruct (st_pending _ _ _ _ Hst) as [p [Hin Hn]%(stalled_slot _ _ _ _ _ Hst)].
    eapply Hn, buildable_perm; [exact Hp|]. eapply all_built; [done..|]. by rewrite Hp.
  - destruct Hr as (l & b' & Hst & _), Hr' as (l' & Hi & Ha).
    destruct (st_pending _ _ _ _ Hst) as [p [Hin Hn]%(stalled_slot _ _ _ _ _ Hst)].
    eapply Hn, buildable_perm; [symmetry; exact Hp|]. eapply all_built; [done..|]. by rewrite <- Hp.
  - destruct Hr as (l & b1 & Hst & ->), Hr' as (l' & b2 & Hst' & ->).
    pose proof (slots_perm _ _ _ _ _ _ _ Hp Hst Hst') as Hl.
    apply stall_panic_perm; [done| |].
    + intros k. rewrite !elem_of_pending_keys. by setoid_rewrite Hl.
    + intros k. destruct (contains k b2) eqn:E2.
      * apply not_false_is_true. intros E1%(stalled_unavailable _ _ _ _ _ Hst).
        assert (unavailable ps' (provider_ids b) k) as E%(stalled_unavailable _ _ _ _ _ Hst').
        { eapply unavailable_perm; [exact Hp|done]. }
        congruence.
      * apply (stalled_unavailable _ _ _ _ _ Hst). apply (stalled_unavailable _ _ _ _ _ Hst') in E2.
        by eapply unavailable_perm; [symmetry; exact Hp|].
Qed.

(** [C6] The diagnosis of a stalled module is sound.  A reported cycle names exactly the
    providers that cannot be built, each of which misses something and misses only keys of
    other such providers; an "unprovided" report names some provider that does not fit that
    pattern, so that no real cycle is reported as a missing import or conversely. *)
Theorem stall_diagnosis_sound module ps b e :
  (forall p, p ∈ ps -> Behaved p) -> builder_wf b ->
  register_providers module ps b = Some (Err e) ->
  let B := provider_ids b in
  match e with
  | PanicExpect _ => False
  | PanicCycle m names =>
      m = module /\ names <> [] /\ (forall p, stuck ps B p -> cyclic ps B p) /\
      forall n, n ∈ names <-> exists p, stuck ps B p /\ pl_name p = n
  | PanicUnprovided m names => m = module /\ names <> [] /\ exists p, stuck ps B p /\ ~ cyclic ps B p
  end.
Proof.
  intros Hbeh Hwf He. destruct (register_providers_spec module ps b Hbeh Hwf) as (r & Hr & Hspec).
  rewrite He in Hr. injection Hr as <-. destruct Hspec as (l & b' & Hst & ->). simpl.
  set (B := provider_ids b) in *.
  assert (Hstuck : forall p, (p, false) ∈ l <-> stuck ps B p) by (intros p; exact (stalled_slot _ _ _ _ p Hst)).
  assert (Hmiss : forall k deps names, (exists s, (k, s) ∈ missing_from b' deps names) <->
            k ∈ deps /\ unavailable ps B k).
  { intros. by rewrite elem_of_missing_from, (stalled_unavailable _ _ _ _ _ Hst). }
  assert (Hpend : forall k, k ∈ pending_keys l <-> exists q, stuck ps B q /\ pl_key q = k).
  { intros k. rewrite elem_of_pending_keys. by setoid_rewrite Hstuck. }
  assert (Hcl : forall p, match classify (pending_keys l) b' p with
                          | inl n => n = pl_name p /\ cyclic ps B p
                          | inr _ => ~ cyclic ps B p end).
  { intros p. apply (classify_spec _ (stuck ps B) _ _ (fun k => unavailable ps B k)); done. }
  pose proof (st_pending _ _ _ _ Hst) as [p0 Hp0].
  unfold stall_panic. set (diag := map _ _).
  assert (Hdiag : forall c, c ∈ diag <-> exists p, stuck ps B p /\ c = classify (pending_keys l) b' p).
  { intros c. unfold diag. rewrite elem_of_diagnosis. by setoid_rewrite Hstuck. }
  destruct (bool_decide_reflect (rights diag = [])) as [Eun|Eun]; simpl.
  - assert (Hcyc : forall p, stuck ps B p -> classify (pending_keys l) b' p = inl (pl_name p) /\ cyclic ps B p).
    { intros p Hp. specialize (Hcl p).
      destruct (classify (pending_keys l) b' p) as [n|n] eqn:Ec; [by destruct Hcl as [-> ?]|].
      exfalso. apply (not_elem_of_nil n). rewrite <- Eun. apply elem_of_rights, Hdiag. eauto. }
    assert (Hnames : forall n, n ∈ lefts diag <-> exists p, stuck ps B p /\ pl_name p = n).
    { intros n. rewrite elem_of_lefts, Hdiag. split; intros (p & Hp & Hn); exists p;
        destruct (Hcyc p Hp) as [Ec _]; split; try done; rewrite Ec in *; congruence. }
    split; [done|]. split; [|split; [by intros p [_ ?]%Hcyc|done]].
    intros E. apply (not_elem_of_nil (pl_name p0)). rewrite <- E. apply Hnames. exists p0. by rewrite <- Hstuck.
  - split; [done|]. split; [done|]. destruct (rights diag) as [|n names] eqn:Eo; [done|].
    assert (Hn : inr n ∈ diag) by (apply elem_of_rights; rewrite Eo; by left).
    apply Hdiag in Hn as (p & Hp & Hc). exists p. split; [done|]. specialize (Hcl p). by rewrite <- Hc in Hcl.
Qed.

End contract.

(** ** Provider kinds keep the contract *)

Section decorated.
Context `{Compiler} `{Structs}.

(** The discoverables the four provider decorators of [Codegen] emit. *)
Inductive decorated (self : ty) : discoverable -> Prop :=
| decorated_injectable request_scoped item d :
    injectable self request_scoped item = Ok d -> decorated self d
| decorated_interceptor meta_ty item d : interceptor self meta_ty item = Ok d -> decorated self d
| decorated_cron_job meta_ty meta item d : cron_job self meta_ty meta item = Ok d -> decorated self d
| decorated_processor meta_ty meta item d : processor self meta_ty meta item = Ok d -> decorated self d.

Lemma deps_present (b : container_builder) (keys : list ty) :
  builder_wf b -> (forall k, k ∈ keys -> contains k b = true) ->
  forall k, k ∈ keys -> is_Some (get k (snapshot b)).
Proof.
  intros Hwf Hk k Hin. change (snapshot b) with (build b).
  rewrite get_build_eq by apply Hwf. apply fmap_is_Some, contains_iff. auto.
Qed.

(** A plan whose registrations always bind the same key or none. *)
Lemma behaved_const p (keys : gset ty) :
  (forall b, builder_wf b -> (forall k, k ∈ pl_dependencies p -> contains k b = true) ->
     exists rs, pl_register p b = Ok rs) ->
  (forall b rs, pl_register p b = Ok rs -> bound_keys rs = keys) ->
  (forall k, k ∈ keys -> k = pl_key p) -> Behaved p.
Proof.
  intros Ht Hk Ho. split; [exact Ht| |].
  - intros b b' rs rs' E E'. by rewrite (Hk _ _ E), (Hk _ _ E').
  - intros b rs k E. rewrite (Hk _ _ E). apply Ho.
Qed.

Lemma bound_keys_single r :
  bound_keys [r] = match provider_binding r with Some kv => {[kv.1]} | None => ∅ end.
Proof. unfold bound_keys. simpl. destruct (provider_binding r); simpl; set_solver. Qed.

Ltac behaved_by_body Eb :=
  first
  [ (* eager: the constructor runs in [register] *)
    intros b Hwf Hd; simpl in *;
    destruct (eval_ctor_ok _ _ (snapshot b) Eb (deps_present _ _ Hwf Hd)) as [v ->]; simpl; eauto
  | intros b Hwf Hd; simpl; by eauto ].

Lemma decorated_behaved (self : ty) (name : string) (d : discoverable) :
  decorated self d -> Behaved (plan_of (BindConcrete self name d)).
Proof.
  intros [rs item d' Hd|mt item d' Hd|mt mv item d' Hd|mt mv item d' Hd];
    unfold injectable, interceptor, cron_job, processor in Hd;
    destruct (build_injectable_body item) as [body|] eqn:Eb; simpl in Hd; try discriminate;
    [destruct rs|..]; injection Hd as <-.
  - apply (behaved_const _ ∅); [behaved_by_body Eb| |set_solver].
    simpl. intros b rs [= <-]. by rewrite bound_keys_single.
  - apply (behaved_const _ {[self]}); [behaved_by_body Eb| |set_solver].
    simpl. intros b rs E. simpl_results. by rewrite bound_keys_single.
  - apply (behaved_const _ ∅); [behaved_by_body Eb| |set_solver].
    simpl. intros b rs E. simpl_results. by rewrite bound_keys_single.
  - apply (behaved_const _ ∅); [behaved_by_body Eb| |set_solver].
    simpl. intros b rs [= <-]. by rewrite bound_keys_single.
  - apply (behaved_const _ ∅); [behaved_by_body Eb| |set_solver].
    simpl. intros b rs [= <-]. by rewrite bound_keys_single.
Qed.

(** [Foo as dyn Trait] keeps it too, for a singleton [Foo]. *)
Lemma dyn_binding_behaved self name item d trait_ty :
  injectable self false item = Ok d -> Behaved (plan_of (BindDyn self name d trait_ty)).
Proof.
  unfold injectable. destruct (build_injectable_body item) as [body|] eqn:Eb; [|done].
  simpl. intros [= <-]. apply (behaved_const _ {[TArc (type_id trait_ty)]}); [behaved_by_body Eb| |].
  - simpl. intros b rs E. simpl_results. by rewrite bound_keys_single.
  - simpl. set_solver.
Qed.

(** [C21] Every decorator keeps the promise the module fixpoint relies on: once its declared
    dependencies are present its [register] cannot panic, and it binds the same keys whatever
    the builder holds, none but its own; so does a singleton bound [as dyn Trait]. *)
Theorem decorated_provider_behaved (self : ty) (name : string) :
  (forall d, decorated self d -> Behaved (plan_of (BindConcrete self name d))) /\
  (forall item d trait_ty, injectable self false item = Ok d ->
                           Behaved (plan_of (BindDyn self name d trait_ty))).
Proof.
  split; [intros d; apply decorated_behaved|intros item d trait_ty; apply dyn_binding_behaved].
Qed.

End decorated.

(** ** Optional dependencies that wait for each other *)

Section optional.
Context `{Payloads}.

(** Two providers that depend on each other only optionally, a graph with no missing
    import and no required cycle, stall the module all the same: each waits for the other's
    key while it is pending, and the panic calls both unprovided with an empty list of needs. *)
Lemma optional_cycle_reported_unprovided module (p q : plan) (b : container_builder) :
  pl_dependencies p = [] -> pl_dependencies q = [] ->
  pl_optional p = [pl_key q] -> pl_optional q = [pl_key p] ->
  contains (pl_key p) b = false -> contains (pl_key q) b = false ->
  register_providers module [p; q] b =
    Some (Err (PanicUnprovided module [pl_name p +:+ " (needs )"; pl_name q +:+ " (needs )"])).
Proof.
  intros Hp Hq Hop Hoq Hcp Hcq. unfold register_providers, all_pending. cbn [length fixpoint_loop map].
  change (pending_keys [(p, false); (q, false)]) with [pl_key p; pl_key q].
  assert (Hr : ready [pl_key p; pl_key q] b p = false /\ ready [pl_key p; pl_key q] b q = false).
  { unfold ready. rewrite Hp, Hq, Hop, Hoq. simpl. rewrite Hcp, Hcq.
    rewrite !bool_decide_eq_true_2; [done| |]; rewrite !elem_of_cons; auto. }
  destruct Hr as [Hrp Hrq]. cbn [round]. rewrite Hrp, Hrq. simpl.
  unfold stall_panic. rewrite !filter_cons_True by done. simpl. unfold classify.
  by rewrite Hp, Hq.
Qed.

End optional.

(** ** The module tree *)

Section tree.
Context `{Compiler} `{Structs} (impls : gmap ty module_impl).
Implicit Types (m : ty) (b : container_builder).

Lemma registered_apply r b : registered_modules b ⊆ registered_modules (apply_registration r b).
Proof.
  destruct r; simpl; try done; unfold provide, provide_arc, provide_scoped, warn_if_replacing, set_providers; simpl;
    repeat case_match; simpl; set_solver.
Qed.

Lemma collected_apply r b : collected_modules b ⊆ collected_modules (apply_registration r b).
Proof.
  destruct r; simpl; try done; unfold provide, provide_arc, provide_scoped, warn_if_replacing, set_providers; simpl;
    repeat case_match; simpl; set_solver.
Qed.

Lemma registered_applies rs b : registered_modules b ⊆ registered_modules (apply_registrations rs b).
Proof.
  revert b. induction rs as [|r rs IH]; intros b; [done|].
  change (registered_modules b ⊆ registered_modules (apply_registrations rs (apply_registration r b))).
  etrans; [apply registered_apply|apply IH].
Qed.

Lemma collected_applies rs b : collected_modules b ⊆ collected_modules (apply_registrations rs b).
Proof.
  revert b. induction rs as [|r rs IH]; intros b; [done|].
  change (collected_modules b ⊆ collected_modules (apply_registrations rs (apply_registration r b))).
  etrans; [apply collected_apply|apply IH].
Qed.

(** A round that neither panics nor stalls builds a provider, whatever the providers do. *)
Lemma round_progress pending (l l' : list (plan * bool)) b b' any pr :
  round pending l b = Ok (b', l', any, pr) ->
  registered_modules b ⊆ registered_modules b' /\
  n_pending l' + (if pr then 1 else 0) <= n_pending l.
Proof.
  revert b b' l' any pr. induction l as [|[p d] l IH]; intros b b' l' any pr; simpl.
  { intros [= <- <- <- <-]. done. }
  destruct d; [|destruct (ready pending b p)].
  - destruct (round pending l b) as [[[[b1 l1] any1] pr1]|] eqn:E; simpl; [|done].
    intros [= <- <- <- <-]. apply IH in E as [? ?]. rewrite !n_pending_cons. split; [done|lia].
  - unfold run_register. destruct (pl_register p b) as [rs|]; simpl; [|done].
    destruct (round pending l _) as [[[[b1 l1] any1] pr1]|] eqn:E; simpl; [|done].
    intros [= <- <- <- <-]. apply IH in E as [Hs ?]. rewrite !n_pending_cons. split.
    + etrans; [apply (registered_applies rs)|exact Hs].
    + destruct pr1; lia.
  - destruct (round pending l b) as [[[[b1 l1] any1] pr1]|] eqn:E; simpl; [|done].
    intros [= <- <- <- <-]. apply IH in E as [? ?]. rewrite !n_pending_cons. split; [done|lia].
Qed.

Lemma fixpoint_loop_total module fuel (l : list (plan * bool)) b : n_pending l < fuel ->
  exists r, fixpoint_loop module fuel l b = Some r /\
    forall b', r = Ok b' -> registered_modules b ⊆ registered_modules b'.
Proof.
  revert l b. induction fuel as [|fuel IH]; intros l b Hf; [lia|]. simpl.
  destruct (round _ l b) as [[[[b' l'] any] pr]|] eqn:E; [|by eexists].
  apply round_progress in E as [Hs Hn]. destruct any, pr; simpl; try (eexists; split; [done|]; intros ? Hr; by simplify_eq).
  destruct (IH l' b') as (r & -> & Hr); [lia|]. eexists. split; [done|].
  intros b'' ->. etrans; [exact Hs|by apply Hr].
Qed.

Lemma register_providers_total module ps b :
  exists r, register_providers module ps b = Some r /\
    forall b', r = Ok b' -> registered_modules b ⊆ registered_modules b'.
Proof.
  apply fixpoint_loop_total. pose proof (n_pending_le (all_pending ps)) as Hn.
  unfold all_pending in Hn at 2. rewrite length_map in Hn. lia.
Qed.


(** The import calls of one macro module, as the [fix] of [register]. *)
Lemma register_import_calls fuel (imps : list import_t) b :
  (forall m b, size (dom impls ∖ registered_modules b) < fuel ->
     exists r, register impls fuel m b = Some r /\
       forall b', r = Ok b' -> registered_modules b ⊆ registered_modules b') ->
  size (dom impls ∖ registered_modules b) < fuel ->
  exists r, import_calls (register impls fuel) imps b = Some r /\
    forall b', r = Ok b' -> registered_modules b ⊆ registered_modules b'.
Proof.
  intros IH. revert b. induction imps as [|[m'|reg col] imps IHi]; intros b Hs; simpl.
  - eexists. split; [done|]. by intros ? [= <-].
  - destruct (IH m' b Hs) as ([b'|e] & -> & Hm); [|by eexists]. specialize (Hm b' eq_refl).
    destruct (IHi b') as (r & -> & Hr).
    { eapply Nat.le_lt_trans; [|exact Hs]. apply subseteq_size. set_solver. }
    eexists. split; [done|]. intros b'' ->. etrans; [exact Hm|by apply Hr].
  - destruct (reg b) as [rs|e]; [|by eexists].
    destruct (IHi (apply_registrations rs b)) as (r & -> & Hr).
    { eapply Nat.le_lt_trans; [|exact Hs]. apply subseteq_size.
      pose proof (registered_applies rs b). set_solver. }
    eexists. split; [done|]. intros b'' ->. etrans; [apply (registered_applies rs)|by apply Hr].
Qed.

Lemma mark_shrinks (D S : gset ty) m : m ∈ D -> ~ (m ∈ S) -> size (D ∖ ({[m]} ∪ S)) < size (D ∖ S).
Proof. intros. apply subset_size. set_solver. Qed.

Lemma register_total fuel m b : size (dom impls ∖ registered_modules b) < fuel ->
  exists r, register impls fuel m b = Some r /\
    forall b', r = Ok b' -> registered_modules b ⊆ registered_modules b' /\
      (forall d, impls !! m = Some (MacroModule d) -> m ∈ registered_modules b').
Proof.
  revert m b. induction fuel as [|fuel IH]; intros m b Hs; [lia|]. cbn [register].
  destruct (impls !! m) as [[d|reg col]|] eqn:Em.
  - simpl. destruct (bool_decide_reflect (m ∈ registered_modules b)) as [Hin|Hout]; simpl.
    { eexists. split; [done|]. intros b' [= <-]. simpl. split; [set_solver|]. set_solver. }
    set (b1 := ContainerBuilder _ _ _ _ _ _ _).
    destruct (register_import_calls fuel (mod_imports d) b1) as ([b2|e] & -> & Hr); [| | |by eexists].
    + intros m' b' Hs'. destruct (IH m' b' Hs') as (r & -> & Hr). eexists. split; [done|].
      intros b'' ->. by destruct (Hr b'' eq_refl).
    + pose proof (mark_shrinks (dom impls) (registered_modules b) m
        (elem_of_dom_2 _ _ _ Em) Hout). unfold b1. simpl. lia.
    + specialize (Hr b2 eq_refl).
      destruct (register_providers_total (mod_name d) (map plan_of (mod_providers d)) b2) as (r & -> & Hp).
      eexists. split; [done|]. intros b' ->. specialize (Hp b' eq_refl). unfold b1 in Hr. simpl in Hr.
      set_solver.
  - eexists. split; [done|]. intros b' E. destruct (reg b) as [rs|]; simplify_eq/=.
    split; [apply registered_applies|done].
  - eexists. split; [done|]. intros b' E. by simplify_eq.
Qed.

Lemma collect_total fuel m b : size (dom impls ∖ collected_modules b) < fuel ->
  exists b', collect impls fuel m b = Some b' /\ collected_modules b ⊆ collected_modules b'.
Proof.
  revert m b. induction fuel as [|fuel IH]; intros m b Hs; [lia|]. cbn [collect].
  destruct (impls !! m) as [[d|reg col]|] eqn:Em; [|eexists; split; [done|apply collected_applies]|by eauto].
  simpl. destruct (bool_decide_reflect (m ∈ collected_modules b)) as [Hin|Hout]; simpl.
  { eexists. split; [done|]. simpl. set_solver. }
  set (b1 := ContainerBuilder _ _ _ _ _ _ _).
  assert (Hb1 : size (dom impls ∖ collected_modules b1) < fuel).
  { pose proof (mark_shrinks (dom impls) (collected_modules b) m (elem_of_dom_2 _ _ _ Em) Hout).
    unfold b1. simpl. lia. }
  assert (Hsub : collected_modules b ⊆ collected_modules b1) by (unfold b1; simpl; set_solver).
  clearbody b1. revert b1 Hb1 Hsub.
  induction (mod_imports d) as [|[m'|r' col] imps IHi]; intros b1 Hb1 Hsub; simpl; [by eauto| |].
  - destruct (IH m' b1 Hb1) as (b2 & -> & Hb2). apply IHi; [|by etrans].
    eapply Nat.le_lt_trans; [|exact Hb1]. apply subseteq_size. set_solver.
  - pose proof (collected_applies (col b1) b1). apply IHi; [|by etrans].
    eapply Nat.le_lt_trans; [|exact Hb1]. apply subseteq_size. set_solver.
Qed.

(** Registering or collecting a module ends on any import graph, cycles included: the
    marks bound the recursion by the number of modules. *)
Lemma module_tree_terminates m b :
  (exists r, module_register impls m b = Some r) /\ (exists b', module_collect impls m b = Some b').
Proof.
  assert (Hs : forall S : gset ty, size (dom impls ∖ S) < module_fuel impls).
  { intros S. unfold module_fuel. apply Nat.lt_succ_r, subseteq_size. set_solver. }
  split.
  - destruct (register_total _ m b (Hs _)) as (r & Hr & _). by exists r.
  - destruct (collect_total _ m b (Hs _)) as (b' & Hb & _). by exists b'.
Qed.

(** Importing a macro module again is a no-op: whatever other imports registered in
    between, the second [register] returns the builder unchanged. *)
Lemma module_register_idempotent m d b b' rs :
  impls !! m = Some (MacroModule d) -> module_register impls m b = Some (Ok b') ->
  module_register impls m (apply_registrations rs b') = Some (Ok (apply_registrations rs b')).
Proof.
  intros Em Hr. unfold module_register in Hr.
  destruct (register_total (module_fuel impls) m b) as (r & Hr' & Hin).
  { unfold module_fuel. apply Nat.lt_succ_r, subseteq_size. set_solver. }
  rewrite Hr in Hr'. simplify_eq. destruct (Hin b' eq_refl) as [_ Hm]. specialize (Hm d Em).
  pose proof (registered_applies rs b') as Hsub. revert Hsub.
  generalize (apply_registrations rs b'). intros b'' Hsub.
  unfold module_register, module_fuel. cbn [register]. rewrite Em. simpl.
  rewrite bool_decide_eq_true_2 by set_solver. simpl. do 2 f_equal.
  destruct b''; simpl in *. f_equal. set_solver.
Qed.

End tree.

(** ** What a registration leaves behind *)

Section grows.
Context `{Compiler} `{Structs} (impls : gmap ty module_impl).
Implicit Types (m : ty) (b : container_builder).

(** A builder only grows during the register phase. *)
Record grows b b' : Prop := {
  grows_wf : builder_wf b -> builder_wf b';
  grows_contains : forall k, contains k b = true -> contains k b' = true;
  grows_registered : registered_modules b ⊆ registered_modules b'
}.

#[export] Instance grows_preorder : PreOrder grows.
Proof.
  split; [by split|]. intros b1 b2 b3 [? ? ?] [? ? ?]. split; [auto..|by etrans].
Qed.

Lemma grows_applies rs b : grows b (apply_registrations rs b).
Proof.
  split; [apply apply_registrations_wf| |apply registered_applies].
  intros k Hk. apply contains_apply_registrations. by left.
Qed.

(** Registrations by code other than the macros: they never mark a module. *)
Definition unmarked (rs : list registration) : Prop :=
  Forall (fun r => match r with RMarkRegistered _ | RMarkCollected _ => False | _ => True end) rs.

Lemma unmarked_registered rs b : unmarked rs ->
  registered_modules (apply_registrations rs b) = registered_modules b.
Proof.
  intros Hu. revert b. induction Hu as [|r rs Hr _ IH]; intros b; [done|].
  change (registered_modules (apply_registrations rs (apply_registration r b)) = registered_modules b).
  rewrite IH. destruct r; simpl in *; try done;
    unfold provide, provide_arc, provide_scoped, warn_if_replacing, set_providers; simpl; by repeat case_match.
Qed.

(** The program's modules do so. *)
Record honest_impls : Prop := {
  honest_hand m reg col : impls !! m = Some (HandModule reg col) ->
    (forall b rs, reg b = Ok rs -> unmarked rs) /\ (forall b, unmarked (col b));
  honest_dynamic m d reg col : impls !! m = Some (MacroModule d) -> ImportDynamic reg col ∈ mod_imports d ->
    (forall b rs, reg b = Ok rs -> unmarked rs) /\ (forall b, unmarked (col b));
  honest_provider m d pb b rs : impls !! m = Some (MacroModule d) -> pb ∈ mod_providers d ->
    pl_register (plan_of pb) b = Ok rs -> unmarked rs
}.

(** Every declared dependency of [p] is present. *)
Definition supplied b (p : plan) : Prop := forall k, k ∈ pl_dependencies p -> contains k b = true.

Lemma supplied_grows b b' p : grows b b' -> supplied b p -> supplied b' p.
Proof. intros [_ Hc _] Hs k Hk. by apply Hc, Hs. Qed.

Definition plans_unmarked (ps : list plan) : Prop :=
  forall p b rs, p ∈ ps -> pl_register p b = Ok rs -> unmarked rs.

Lemma round_supplied pending (l l' : list (plan * bool)) b b' any pr :
  plans_unmarked (map fst l) -> round pending l b = Ok (b', l', any, pr) ->
  grows b b' /\ registered_modules b' = registered_modules b /\ map fst l' = map fst l /\
  (any = false -> forall p d, (p, d) ∈ l' -> d = true) /\
  ((forall p, (p, true) ∈ l -> supplied b p) -> forall p, (p, true) ∈ l' -> supplied b' p).
Proof.
  revert b b' l' any pr. induction l as [|[p d] l IH]; intros b b' l' any pr Hu; simpl.
  { intros [= <- <- <- <-]. split; [done|]. split; [done|]. split; [done|]. split; [|done].
    by intros _ p d ?%elem_of_nil. }
  assert (Hu' : plans_unmarked (map fst l)) by (intros q ? ? ?; apply Hu; by right).
  destruct d; [|destruct (ready pending b p) eqn:Er].
  - destruct (round pending l b) as [[[[b1 l1] any1] pr1]|] eqn:E; simpl; [|done].
    intros [= <- <- <- <-]. apply (IH _ _ _ _ _ Hu') in E as (Hg & Hreg & Hm & Hany & Hs).
    split; [done|]. split; [done|]. split; [simpl; by f_equal|]. split.
    + intros Ha q d [[= -> ->]|Hq]%elem_of_cons; [done|by eapply Hany].
    + intros Hpre q [[= ->]|Hq]%elem_of_cons.
      * eapply supplied_grows; [exact Hg|]. apply Hpre. by left.
      * apply Hs; [|done]. intros q' Hq'. apply Hpre. by right.
  - unfold run_register. destruct (pl_register p b) as [rs|] eqn:Ep; simpl; [|done].
    assert (Hrs : registered_modules (apply_registrations rs b) = registered_modules b).
    { eapply unmarked_registered, Hu; [by left|exact Ep]. }
    destruct (round pending l (apply_registrations rs b)) as [[[[b1 l1] any1] pr1]|] eqn:E; simpl; [|done].
    intros [= <- <- <- <-]. apply (IH _ _ _ _ _ Hu') in E as (Hg & Hreg & Hm & Hany & Hs).
    assert (Hg' : grows b b1) by (etrans; [apply (grows_applies rs)|exact Hg]).
    split; [done|]. split; [congruence|]. split; [simpl; by f_equal|]. split.
    + intros Ha q d [[= -> ->]|Hq]%elem_of_cons; [done|by eapply Hany].
    + intros Hpre q [[= ->]|Hq]%elem_of_cons.
      * eapply supplied_grows; [exact Hg'|]. by apply ready_true in Er as [Hd _].
      * apply Hs; [|done]. intros q' Hq'. eapply supplied_grows; [apply grows_applies|]. apply Hpre. by right.
  - destruct (round pending l b) as [[[[b1 l1] any1] pr1]|] eqn:E; simpl; [|done].
    intros [= <- <- <- <-]. apply (IH _ _ _ _ _ Hu') in E as (Hg & Hreg & Hm & Hany & Hs).
    split; [done|]. split; [done|]. split; [simpl; by f_equal|]. split; [done|].
    intros Hpre q [[= ->]|Hq]%elem_of_cons. apply Hs; [|done]. intros q' Hq'. apply Hpre. by right.
Qed.

Lemma fixpoint_loop_supplied module fuel (l : list (plan * bool)) b b' :
  plans_unmarked (map fst l) -> (forall p, (p, true) ∈ l -> supplied b p) ->
  fixpoint_loop module fuel l b = Some (Ok b') ->
  grows b b' /\ registered_modules b' = registered_modules b /\ forall p, p ∈ map fst l -> supplied b' p.
Proof.
  revert l b. induction fuel as [|fuel IH]; intros l b Hu Hpre; simpl; [done|].
  destruct (round _ l b) as [[[[b1 l1] any] pr]|] eqn:E; [|done].
  apply round_supplied in E as (Hg & Hreg & Hm & Hany & Hs); [|done]. specialize (Hs Hpre).
  destruct any; simpl; [destruct pr; simpl; [|done]|].
  - intros Hr. apply IH in Hr as (Hg' & Hreg' & Hall); [|by rewrite Hm|done].
    split; [by etrans|]. split; [congruence|]. by rewrite <- Hm.
  - intros [= <-]. split; [done|]. split; [done|]. rewrite <- Hm. intros p Hp.
    apply list_elem_of_fmap in Hp as ([q d] & -> & Hq). apply Hs. by rewrite <- (Hany eq_refl _ _ Hq).
Qed.

Lemma register_providers_supplied module ps b b' : plans_unmarked ps ->
  register_providers module ps b = Some (Ok b') ->
  grows b b' /\ registered_modules b' = registered_modules b /\ forall p, p ∈ ps -> supplied b' p.
Proof.
  intros Hu Hr. apply fixpoint_loop_supplied in Hr.
  - by rewrite (li_same _ _ _ _ (loop_inv_start ps builder_new builder_wf_new)) in Hr.
  - by rewrite (li_same _ _ _ _ (loop_inv_start ps builder_new builder_wf_new)).
  - unfold all_pending. by intros p (q & ? & ?)%list_elem_of_fmap.
Qed.

Definition macro_module m : Prop := exists d, impls !! m = Some (MacroModule d).

(** A module whose registration is complete: its providers are supplied and the macro modules
    it imports are marked. *)
Definition complete b m : Prop := forall d, impls !! m = Some (MacroModule d) ->
  (forall pb, pb ∈ mod_providers d -> supplied b (plan_of pb)) /\
  (forall m', ImportStatic m' ∈ mod_imports d -> macro_module m' -> m' ∈ registered_modules b).

Lemma complete_grows b b' m : grows b b' -> complete b m -> complete b' m.
Proof.
  intros Hg Hc d Hd. destruct (Hc d Hd) as [Hp Hi]. split.
  - intros pb Hpb. eapply supplied_grows; [exact Hg|auto].
  - intros m' Hm' Hmac. apply (grows_registered _ _ Hg). auto.
Qed.

(** What one [register] call establishes: every module it marks is complete. *)
Record registers b b' : Prop := {
  rg_grows : grows b b';
  rg_complete : forall n, n ∈ registered_modules b' -> n ∈ registered_modules b \/ complete b' n
}.

Lemma registers_trans b1 b2 b3 : registers b1 b2 -> registers b2 b3 -> registers b1 b3.
Proof.
  intros [G1 C1] [G2 C2]. split; [by etrans|]. intros n [Hn|?]%C2; [|by right].
  destruct (C1 n Hn) as [?|?]; [by left|right]. by eapply complete_grows.
Qed.

Lemma registers_unmarked rs b : unmarked rs -> registers b (apply_registrations rs b).
Proof. intros Hu. split; [apply grows_applies|]. intros n. rewrite unmarked_registered by done. by left. Qed.

Lemma import_calls_registers (reg : ty -> container_builder -> option (result container_builder panic))
    (imps : list import_t) b b' :
  (forall m b b', reg m b = Some (Ok b') ->
     registers b b' /\ (macro_module m -> m ∈ registered_modules b')) ->
  (forall r c, ImportDynamic r c ∈ imps -> forall b rs, r b = Ok rs -> unmarked rs) ->
  import_calls reg imps b = Some (Ok b') ->
  registers b b' /\ forall m', ImportStatic m' ∈ imps -> macro_module m' -> m' ∈ registered_modules b'.
Proof.
  intros Hreg. revert b. induction imps as [|[m'|r c] imps IH]; intros b Hdyn; simpl.
  - intros [= <-]. split; [split; [done|by left]|by intros ? ?%elem_of_nil].
  - destruct (reg m' b) as [[b1|e]|] eqn:E1; [|done..]. intros Hr.
    destruct (Hreg _ _ _ E1) as [Hg1 Hm]. destruct (IH b1) as [Hg2 Hall]; [|done|].
    { intros ? ? ?. eapply Hdyn. by right. }
    split; [by eapply registers_trans|]. intros m'' [[= ->]|Hin]%elem_of_cons Hmac; [|by apply Hall].
    by apply (grows_registered _ _ (rg_grows _ _ Hg2)), Hm.
  - destruct (r b) as [rs|e] eqn:Er; [|done]. intros Hr.
    destruct (IH (apply_registrations rs b)) as [Hg2 Hall]; [|done|].
    { intros ? ? ?. eapply Hdyn. by right. }
    split; [eapply registers_trans; [|exact Hg2]; apply registers_unmarked; eapply Hdyn; [by left|exact Er]|].
    intros m'' [?|Hin]%elem_of_cons Hmac; [done|by apply Hall].
Qed.

Lemma register_registers (Hhonest : honest_impls) fuel m b b' : register impls fuel m b = Some (Ok b') ->
  registers b b' /\ (macro_module m -> m ∈ registered_modules b').
Proof.
  revert m b b'. induction fuel as [|fuel IH]; intros m b b'; cbn [register]; [done|].
  destruct (impls !! m) as [[d|reg col]|] eqn:Em.
  - simpl. destruct (bool_decide_reflect (m ∈ registered_modules b)) as [Hin|Hout]; simpl.
    { intros [= <-]. split; [|set_solver]. split; [split; [by destruct 1|done|set_solver]|].
      simpl. intros n Hn. left. set_solver. }
    set (b1 := ContainerBuilder _ _ _ _ _ _ _).
    destruct (import_calls _ _ b1) as [[b2|e]|] eqn:Ei; [|done..]. intros Hr.
    apply import_calls_registers in Ei as [Hg2 Hall];
      [|exact IH|intros r c Hrc; by apply (honest_dynamic Hhonest m d r c Em Hrc)].
    apply register_providers_supplied in Hr as (Hg3 & Hreg3 & Hsup).
    2:{ intros p b0 rs (pb & -> & Hpb)%list_elem_of_fmap. by apply (honest_provider Hhonest m d pb b0 rs Em). }
    assert (Hg : grows b b1) by (split; [by destruct 1|done|unfold b1; simpl; set_solver]).
    assert (Hm2 : m ∈ registered_modules b2)
      by (apply (grows_registered _ _ (rg_grows _ _ Hg2)); unfold b1; simpl; set_solver).
    split; [split|intros _; by rewrite Hreg3].
    + etrans; [exact Hg|]. etrans; [apply (rg_grows _ _ Hg2)|done].
    + intros n. rewrite Hreg3. intros Hn. destruct (decide (n = m)) as [->|Hne].
      * right. intros d' Hd'. rewrite Em in Hd'. simplify_eq. split.
        -- intros pb Hpb. apply Hsup, list_elem_of_fmap. eauto.
        -- intros m' Hm' Hmac. rewrite Hreg3. by apply Hall.
      * destruct (rg_complete _ _ Hg2 n Hn) as [Hb1|Hc].
        -- left. unfold b1 in Hb1. simpl in Hb1. set_solver.
        -- right. by eapply complete_grows.
  - intros E. destruct (reg b) as [rs|] eqn:Er; simplify_eq/=.
    split; [apply registers_unmarked; by eapply (honest_hand Hhonest m reg col Em)|].
    intros [d Hd]. congruence.
  - intros [= <-]. split; [split; [done|by left]|]. intros [d Hd]. congruence.
Qed.

Lemma collect_preserves (Hhonest : honest_impls) fuel m b b' : collect impls fuel m b = Some b' ->
  (builder_wf b -> builder_wf b') /\ registered_modules b' = registered_modules b.
Proof.
  revert m b b'. induction fuel as [|fuel IH]; intros m b b'; cbn [collect]; [done|].
  destruct (impls !! m) as [[d|reg col]|] eqn:Em.
  - simpl. destruct (bool_decide_reflect (m ∈ collected_modules b)) as [Hin|Hout]; simpl.
    { intros [= <-]. by split; [destruct 1|]. }
    set (b1 := ContainerBuilder _ _ _ _ _ _ _).
    assert (Hb1 : (builder_wf b -> builder_wf b1) /\ registered_modules b1 = registered_modules b)
      by (by split; [destruct 1|]).
    clearbody b1. assert (Hdyn : forall r c, ImportDynamic r c ∈ mod_imports d -> forall b, unmarked (c b))
      by (intros r c Hrc; by apply (honest_dynamic Hhonest m d r c Em Hrc)).
    revert b1 Hb1. induction (mod_imports d) as [|[m'|r c] imps IHi]; intros b1 [Hwf Hreg]; simpl.
    + by intros [= <-].
    + destruct (collect impls fuel m' b1) as [b2|] eqn:E2; [|done]. apply IH in E2 as [Hwf2 Hreg2].
      apply IHi; [intros r c ?; apply (Hdyn r c); by right|]. split; [auto|congruence].
    + apply IHi; [intros r' c' ?; apply (Hdyn r' c'); by right|]. split.
      * intros Hb. by apply apply_registrations_wf, Hwf.
      * rewrite unmarked_registered; [done|]. apply (Hdyn r c). by left.
  - intros [= <-]. split; [apply apply_registrations_wf|]. apply unmarked_registered.
    by eapply (honest_hand Hhonest m reg col Em).
  - by intros [= <-].
Qed.

End grows.

(** ** Concrete modules for the witnesses *)

Module RegisterDemo.
Import CodegenDemo.

Definition of_item (name : string) (fs : list field) : discoverable :=
  match injectable (TNamed name) false (ItemStruct name (FieldsNamed fs)) with
  | Ok d => d
  | Err _ => svc_discoverable
  end.

Definition requires (n : string) : field := Field "dep" (arc (path n)) true.
Definition maybe (n : string) : field := Field "dep" (opt (arc (path n))) true.

Definition provider (name : string) (fs : list field) : plan :=
  plan_of (BindConcrete (TNamed name) name (of_item name fs)).

Lemma provider_behaved name fs :
  is_ok (injectable (TNamed name) false (ItemStruct name (FieldsNamed fs))) = true ->
  Behaved (provider name fs).
Proof.
  intros Hok. apply decorated_behaved. unfold of_item.
  destruct (injectable _ _ _) as [d|] eqn:E; [|done]. by eapply decorated_injectable.
Qed.

(** A listed before the B it needs. *)
Definition tree_providers : list plan := [provider "A" [requires "B"]; provider "B" [maybe "C"]].
Definition cycle_providers : list plan := [provider "A" [requires "B"]; provider "B" [requires "A"]].

Lemma tree_behaved p : p ∈ tree_providers -> Behaved p.
Proof.
  unfold tree_providers. rewrite !elem_of_cons, elem_of_nil.
  intros [->|[->|[]]]; by apply provider_behaved.
Qed.

Lemma cycle_behaved p : p ∈ cycle_providers -> Behaved p.
Proof.
  unfold cycle_providers. rewrite !elem_of_cons, elem_of_nil.
  intros [->|[->|[]]]; by apply provider_behaved.
Qed.

Lemma register_providers_builds_iff_buildable_witness :
  exists r, register_providers "M" tree_providers builder_new = Some r /\
    (is_ok r = true <-> forall p, p ∈ tree_providers -> buildable tree_providers (provider_ids builder_new) p) /\
    (forall b', r = Ok b' -> builder_wf b' /\
       forall k, contains k b' = true <->
         contains k builder_new = true \/ exists q, q ∈ tree_providers /\ provides q k) /\
    (forall msg, r <> Err (PanicExpect msg)).
Proof.
  exact (register_providers_builds_iff_buildable "M" tree_providers builder_new tree_behaved builder_wf_new).
Defined.

Example tree_registers : exists b,
  register_providers "M" tree_providers builder_new = Some (Ok b) /\
  contains (TNamed "A") b = true /\ contains (TNamed "B") b = true.
Proof. eexists. split; [reflexivity|]. split; reflexivity. Qed.

Lemma register_providers_order_independent_witness :
  match register_providers "M" tree_providers builder_new,
        register_providers "M" (rev tree_providers) builder_new with
  | Some (Ok b1), Some (Ok b2) => provider_ids b1 = provider_ids b2
  | Some (Err e1), Some (Err e2) => panic_similar e1 e2
  | _, _ => False
  end.
Proof.
  apply (register_providers_order_independent "M" tree_providers (rev tree_providers) builder_new);
    [exact tree_behaved|exact builder_wf_new|apply Permutation_rev].
Defined.

Lemma stall_diagnosis_sound_witness :
  "M" = "M" /\ ["A"; "B"] <> [] /\
  (forall p, stuck cycle_providers (provider_ids builder_new) p ->
             cyclic cycle_providers (provider_ids builder_new) p) /\
  forall n, n ∈ ["A"; "B"] <->
    exists p, stuck cycle_providers (provider_ids builder_new) p /\ pl_name p = n.
Proof.
  apply (stall_diagnosis_sound "M" cycle_providers builder_new (PanicCycle "M" ["A"; "B"]));
    [exact cycle_behaved|exact builder_wf_new|reflexivity].
Defined.

Lemma optional_cycle_reported_unprovided_witness :
  register_providers "M" [provider "A" [maybe "B"]; provider "B" [maybe "A"]] builder_new =
    Some (Err (PanicUnprovided "M" ["A (needs )"; "B (needs )"])).
Proof.
  apply (optional_cycle_reported_unprovided "M" (provider "A" [maybe "B"]) (provider "B" [maybe "A"]));
    reflexivity.
Defined.

Lemma decorated_provider_behaved_witness :
  Behaved (provider "A" [requires "B"]).
Proof.
  apply (decorated_provider_behaved (TNamed "A") "A").
  apply (decorated_injectable _ false (ItemStruct "A" (FieldsNamed [requires "B"]))). reflexivity.
Defined.

(** Two modules importing each other. *)
Definition cyclic_impls : gmap ty module_impl :=
  {[ TNamed "M" := MacroModule (ModuleDef "M" [ImportStatic (TNamed "N")]
                     [BindConcrete (TNamed "A") "A" (of_item "A" [requires "B"])]);
     TNamed "N" := MacroModule (ModuleDef "N" [ImportStatic (TNamed "M")]
                     [BindConcrete (TNamed "B") "B" (of_item "B" [maybe "C"])]) ]}.

Definition booted : container_builder :=
  match module_register cyclic_impls (TNamed "M") builder_new with
  | Some (Ok b) => b
  | _ => builder_new
  end.

Example cyclic_boots : contains (TNamed "A") booted = true /\ contains (TNamed "B") booted = true.
Proof. split; vm_compute; reflexivity. Qed.

Lemma module_register_idempotent_witness :
  module_register cyclic_impls (TNamed "M")
      (apply_registrations [RProvide (TNamed "X") (1 : @val Demo.payloads)] booted) =
    Some (Ok (apply_registrations [RProvide (TNamed "X") (1 : @val Demo.payloads)] booted)).
Proof.
  apply (module_register_idempotent cyclic_impls (TNamed "M")
           (ModuleDef "M" [ImportStatic (TNamed "N")]
              [BindConcrete (TNamed "A") "A" (of_item "A" [requires "B"])]) builder_new);
    [reflexivity|vm_compute; reflexivity].
Defined.

End RegisterDemo.
