(* ===== verification/Lifecycle.v ===== *)
(** Lifecycle hooks: the [#[hooks]] attribute ([nestrs-macros/src/hooks.rs]) that submits them,
    and the phases that run them ([nestrs-core/src/lifecycle.rs]).

    The link-time registry is a list in an arbitrary order.  A hook body is application code:
    it is run by the class [HookCode] on a world it may change. *)

From S2P Require Import Prelude Container Codegen.

(** [LifecyclePhase]. *)
Inductive lifecycle_phase :=
| OnModuleInit
| OnApplicationBootstrap
| OnModuleDestroy
| BeforeApplicationShutdown
| OnApplicationShutdown.

#[export] Instance lifecycle_phase_eq_dec : EqDecision lifecycle_phase.
Proof. solve_decision. Defined.

(** [LifecycleHook].  The [run] thunk the macro emits is determined by the provider type, the
    method and whether the method returns a [Result]. *)
Record lifecycle_hook := LifecycleHook {
  hk_phase : lifecycle_phase;
  hk_provider : string;
  hk_method : string;
  hk_self : ty;
  hk_fallible : bool
}.

(** The application's hook methods: [call_hook self method provider world]. *)
Class HookCode `{Payloads} := {
  world : Type;
  call_hook : ty -> string -> val -> world -> result unit failure * world
}.

(** ** The [#[hooks]] attribute *)

Record impl_fn := ImplFn {
  fn_attrs : list string;
  fn_async : bool;
  fn_ident : string;
  fn_returns : bool
}.

Definition hook_attrs : list (string * lifecycle_phase) :=
  [("on_module_init", OnModuleInit);
   ("on_application_bootstrap", OnApplicationBootstrap);
   ("on_module_destroy", OnModuleDestroy);
   ("before_application_shutdown", BeforeApplicationShutdown);
   ("on_application_shutdown", OnApplicationShutdown)].

(** The phase an attribute names. *)
Definition hook_attr (attr : string) : option lifecycle_phase :=
  snd <$> List.find (fun np : string * lifecycle_phase => String.eqb attr np.1) hook_attrs.

(** [find_map] over the attributes: the first recognised one and what is left. *)
Fixpoint take_hook_attr (attrs : list string) : option (lifecycle_phase * list string) :=
  match attrs with
  | [] => None
  | a :: rest =>
      match hook_attr a with
      | Some phase => Some (phase, rest)
      | None => prod_map id (cons a) <$> take_hook_attr rest
      end
  end.

Inductive hooks_error :=
| HooksTakesNoArguments
| HooksRequiresStructPath
| HookMustBeAsync (method : string).

(** [impl_self_ident] *)
Definition impl_self_ident (self_ty : syn_type) : option string :=
  match self_ty with
  | TyPath segs => seg_ident <$> last segs
  | _ => None
  end.

Section hooks_macro.
Context `{Compiler}.

Definition hook_submission (self_ty : syn_type) (base : string) (m : impl_fn)
  : result (option lifecycle_hook) hooks_error :=
  match take_hook_attr (fn_attrs m) with
  | None => Ok None
  | Some (phase, _) =>
      if negb (fn_async m) then Err (HookMustBeAsync (fn_ident m))
      else Ok (Some {| hk_phase := phase; hk_provider := base; hk_method := fn_ident m;
                       hk_self := type_id self_ty; hk_fallible := fn_returns m |})
  end.

Definition hooks (args_empty : bool) (self_ty : syn_type) (items : list impl_fn)
  : result (list lifecycle_hook) hooks_error :=
  if negb args_empty then Err HooksTakesNoArguments
  else
    let? base := ok_or (impl_self_ident self_ty) HooksRequiresStructPath in
    let? submissions := collect_results (hook_submission self_ty base) items in
    Ok (omap id submissions).

End hooks_macro.

(** ** Running a phase *)

Section lifecycle.
Context `{HookCode}.

(** The emitted [run] thunk: a no-op when the provider is not in the container; an infallible
    method's outcome is [Ok]. *)
Definition hook_run (h : lifecycle_hook) (c : container) (w : world) : result unit failure * world :=
  match get (hk_self h) c with
  | Some provider =>
      let '(r, w') := call_hook (hk_self h) (hk_method h) provider w in
      (if hk_fallible h then r else Ok tt, w')
  | None => (Ok tt, w)
  end.

Definition hook_key (h : lifecycle_hook) : string * string := (hk_provider h, hk_method h).

Definition hook_leb (a b : lifecycle_hook) : bool := pair_leb (hook_key a) (hook_key b).

Definition hooks_for (inventory : list lifecycle_hook) (phase : lifecycle_phase) : list lifecycle_hook :=
  stable_sort hook_leb (filter (fun h => hk_phase h = phase) inventory).

(** The error of an init phase, with the context [run_phase] adds. *)
Record hook_error := HookError {
  he_provider : string;
  he_method : string;
  he_phase : lifecycle_phase;
  he_source : failure
}.

(** [run_phase]: the outcome, the world, and the hooks that were run, in order. *)
Fixpoint run_hooks (phase : lifecycle_phase) (c : container) (hs : list lifecycle_hook) (w : world)
  : result unit hook_error * world * list lifecycle_hook :=
  match hs with
  | [] => (Ok tt, w, [])
  | h :: hs' =>
      match hook_run h c w with
      | (Err e, w') => (Err (HookError (hk_provider h) (hk_method h) phase e), w', [h])
      | (Ok _, w') =>
          let '(r, w'', ran) := run_hooks phase c hs' w' in (r, w'', h :: ran)
      end
  end.

Definition run_phase (inventory : list lifecycle_hook) (c : container) (phase : lifecycle_phase)
    (w : world) : result unit hook_error * world * list lifecycle_hook :=
  run_hooks phase c (hooks_for inventory phase) w.

(** [run_phase_lenient]: the world, the hooks run, and the failures logged. *)
Fixpoint run_hooks_lenient (c : container) (hs : list lifecycle_hook) (w : world)
  : world * list lifecycle_hook * list (lifecycle_hook * failure) :=
  match hs with
  | [] => (w, [], [])
  | h :: hs' =>
      let '(r, w') := hook_run h c w in
      let '(w'', ran, logged) := run_hooks_lenient c hs' w' in
      (w'', h :: ran, match r with Ok _ => logged | Err e => (h, e) :: logged end)
  end.

Definition run_phase_lenient (inventory : list lifecycle_hook) (c : container)
    (phase : lifecycle_phase) (w : world)
  : world * list lifecycle_hook * list (lifecycle_hook * failure) :=
  run_hooks_lenient c (hooks_for inventory phase) w.

End lifecycle.

(** ** Lemmas *)

Lemma hook_leb_total a b : hook_leb a b = true \/ hook_leb b a = true.
Proof. apply pair_leb_total. Qed.

Lemma hook_leb_trans a b c : hook_leb a b = true -> hook_leb b c = true -> hook_leb a c = true.
Proof. apply pair_leb_trans. Qed.

Lemma hooks_for_perm inventory phase :
  hooks_for inventory phase ≡ₚ filter (fun h => hk_phase h = phase) inventory.
Proof. apply stable_sort_perm. Qed.

Lemma elem_of_hooks_for inventory phase h :
  h ∈ hooks_for inventory phase <-> h ∈ inventory /\ hk_phase h = phase.
Proof. rewrite hooks_for_perm, list_elem_of_filter. tauto. Qed.

(** Distinct hooks of one phase have distinct names. *)
Definition distinct_names (inventory : list lifecycle_hook) (phase : lifecycle_phase) : Prop :=
  forall a b, a ∈ inventory -> b ∈ inventory -> hk_phase a = phase -> hk_phase b = phase ->
              hook_key a = hook_key b -> a = b.

Lemma hooks_for_link_order inventory inventory' phase :
  inventory ≡ₚ inventory' -> distinct_names inventory phase ->
  hooks_for inventory phase = hooks_for inventory' phase.
Proof.
  intros Hp Hd. apply (sorted_perm_unique (fun a b => hook_leb a b = true)).
  - intros a b [Ha Hpa]%elem_of_hooks_for [Hb Hpb]%elem_of_hooks_for Hab Hba.
    apply Hd; [done..|]. by apply pair_leb_antisym.
  - apply stable_sort_sorted; [apply hook_leb_total|apply hook_leb_trans].
  - apply stable_sort_sorted; [apply hook_leb_total|apply hook_leb_trans].
  - by rewrite !hooks_for_perm, Hp.
Qed.

Lemma take_hook_attr_spec attrs phase :
  (exists rest, take_hook_attr attrs = Some (phase, rest)) <->
  exists pre a post, attrs = pre ++ a :: post /\ Forall (fun a' => hook_attr a' = None) pre /\
                     hook_attr a = Some phase.
Proof.
  induction attrs as [|a attrs IH]; simpl.
  - split; [by intros []|]. by intros ([] & ? & ? & ? & _).
  - destruct (hook_attr a) as [ph|] eqn:Ea.
    + split.
      * intros [rest [= -> ->]]. by exists [], a, rest.
      * intros ([|b pre] & a' & post & Heq & Hall & Ha); simplify_eq/=; [eauto|].
        inversion Hall; congruence.
    + transitivity (exists rest, take_hook_attr attrs = Some (phase, rest)).
      { split.
        - intros [rest Hr]. destruct (take_hook_attr attrs) as [[ph r]|]; simplify_eq/=. eauto.
        - intros [rest ->]. simpl. eauto. }
      rewrite IH. split.
      * intros (pre & b & post & -> & Hall & Hb). exists (a :: pre), b, post. by repeat constructor.
      * intros ([|b pre] & a' & post & Heq & Hall & Ha); simplify_eq/=.
        inversion Hall; subst. by exists pre, a', post.
Qed.

Section phases.
Context `{HookCode}.

(** The worlds between the hooks of a list. *)
Fixpoint world_after (c : container) (hs : list lifecycle_hook) (w : world) : world :=
  match hs with
  | [] => w
  | h :: hs' => world_after c hs' (hook_run h c w).2
  end.

Lemma run_hooks_spec phase c hs w :
  let '(r, w', ran) := run_hooks phase c hs w in
  w' = world_after c ran w /\
  match r with
  | Ok _ => ran = hs
  | Err e => exists done h rest,
      hs = done ++ h :: rest /\ ran = done ++ [h] /\
      (hook_run h c (world_after c done w)).1 = Err (he_source e) /\
      he_provider e = hk_provider h /\ he_method e = hk_method h /\ he_phase e = phase
  end.
Proof.
  revert w. induction hs as [|h hs IH]; intros w; simpl; [done|].
  destruct (hook_run h c w) as [[[]|e] w1] eqn:Er.
  - specialize (IH w1). destruct (run_hooks phase c hs w1) as [[r w2] ran].
    destruct IH as [-> Hr]. split; [simpl; by rewrite Er|]. destruct r as [[]|e']; [by subst|].
    destruct Hr as (pre & h' & rest & -> & -> & Hh & Hrest).
    exists (h :: pre), h', rest. simpl. rewrite Er. done.
  - split; [simpl; by rewrite Er|]. exists [], h, hs. simpl. by rewrite Er.
Qed.

Lemma run_hooks_lenient_spec c hs w :
  let '(w', ran, logged) := run_hooks_lenient c hs w in
  w' = world_after c hs w /\ ran = hs /\
  forall h e, (h, e) ∈ logged <-> exists done rest, hs = done ++ h :: rest /\
                                    (hook_run h c (world_after c done w)).1 = Err e.
Proof.
  revert w. induction hs as [|h hs IH]; intros w; simpl.
  { split; [done|split; [done|]]. intros h e. split; [by intros ?%elem_of_nil|].
    by intros ([] & ? & ? & _). }
  destruct (hook_run h c w) as [r w1] eqn:Er. specialize (IH w1).
  destruct (run_hooks_lenient c hs w1) as [[w2 ran] logged]. destruct IH as (-> & -> & Hl).
  split; [done|split; [done|]]. intros g e.
  transitivity ((g = h /\ r = Err e) \/ (g, e) ∈ logged).
  { destruct r as [[]|e']; [naive_solver|]. rewrite elem_of_cons. naive_solver. }
  rewrite Hl. split.
  - intros [[-> ->]|(pre & rest & -> & Hg)].
    + exists [], hs. simpl. by rewrite Er.
    + exists (h :: pre), rest. simpl. by rewrite Er.
  - intros ([|h' pre] & rest & Heq & Hg); simplify_eq/=.
    + left. by rewrite Er in Hg.
    + right. exists pre, rest. by rewrite Er in Hg.
Qed.

End phases.

Section properties.
Context `{HookCode}.

(** An init phase runs the hooks of that phase, sorted by provider and method, up to and
    including the first failing one: success means every hook ran exactly once, an error names
    the hook that failed and no later hook ran.  A shutdown phase always runs all of them. *)
Lemma phases_run_sorted_hooks (inventory : list lifecycle_hook) (phase : lifecycle_phase)
    (c : container) (w : world) :
  let hs := hooks_for inventory phase in
  hs ≡ₚ filter (fun h => hk_phase h = phase) inventory /\
  StronglySorted (fun a b => hook_leb a b = true) hs /\
  (let '(r, w', ran) := run_phase inventory c phase w in
   w' = world_after c ran w /\
   match r with
   | Ok _ => ran = hs
   | Err e => exists done h rest, hs = done ++ h :: rest /\ ran = done ++ [h] /\
       (hook_run h c (world_after c done w)).1 = Err (he_source e) /\
       he_provider e = hk_provider h /\ he_method e = hk_method h /\ he_phase e = phase
   end) /\
  (run_phase_lenient inventory c phase w).1 = (world_after c hs w, hs).
Proof.
  intros hs. split; [apply hooks_for_perm|]. split.
  { apply stable_sort_sorted; [apply hook_leb_total|apply hook_leb_trans]. }
  split; [apply run_hooks_spec|]. unfold run_phase_lenient.
  pose proof (run_hooks_lenient_spec c hs w) as Hl. fold hs.
  destruct (run_hooks_lenient c hs w) as [[w' ran] logged]. by destruct Hl as (-> & -> & _).
Qed.

(** The link-time order of the registry does not matter: when the hooks of a phase have
    distinct names, both runners behave identically on any permutation of the registry. *)
Lemma phases_link_order_independent (inventory inventory' : list lifecycle_hook)
    (phase : lifecycle_phase) (c : container) (w : world) :
  inventory ≡ₚ inventory' -> distinct_names inventory phase ->
  run_phase inventory c phase w = run_phase inventory' c phase w /\
  run_phase_lenient inventory c phase w = run_phase_lenient inventory' c phase w.
Proof.
  intros Hp Hd. unfold run_phase, run_phase_lenient. by rewrite (hooks_for_link_order _ _ _ Hp Hd).
Qed.

(** The submissions of an impl block: exactly the methods carrying a phase attribute, each
    under the phase of its first one; an untagged method is left alone, and a tagged method
    that is not [async] rejects the block. *)
Lemma hooks_submits_tagged_methods `{Compiler} (self_ty : syn_type) (items : list impl_fn) base :
  impl_self_ident self_ty = Some base ->
  match hooks true self_ty items with
  | Ok hs => forall h, h ∈ hs <-> exists m, m ∈ items /\ fn_async m = true /\
      (exists pre a post, fn_attrs m = pre ++ a :: post /\ Forall (fun a' => hook_attr a' = None) pre /\
                          hook_attr a = Some (hk_phase h)) /\
      h = LifecycleHook (hk_phase h) base (fn_ident m) (type_id self_ty) (fn_returns m)
  | Err e => exists m, m ∈ items /\ e = HookMustBeAsync (fn_ident m) /\ fn_async m = false /\
               Exists (fun a => is_Some (hook_attr a)) (fn_attrs m)
  end.
Proof.
  intros Hbase. unfold hooks. rewrite Hbase. simpl.
  assert (Htake : forall attrs phase, (exists rest, take_hook_attr attrs = Some (phase, rest)) <->
    exists pre a post, attrs = pre ++ a :: post /\ Forall (fun a' => hook_attr a' = None) pre /\
                       hook_attr a = Some phase) by apply take_hook_attr_spec.
  destruct (collect_results _ items) as [subs|e] eqn:Ec; simpl.
  - apply collect_results_ok in Ec. intros h. rewrite list_elem_of_omap. split.
    + intros (o & Ho & Hoh). unfold id in Hoh. subst o.
      apply list_elem_of_lookup in Ho as [i Hi]. destruct (Forall2_lookup_r _ _ _ _ _ Ec Hi) as (m & Hm & Hs).
      apply list_elem_of_lookup_2 in Hm. exists m. split; [done|]. unfold hook_submission in Hs.
      destruct (take_hook_attr (fn_attrs m)) as [[ph rest]|] eqn:Et; [|done].
      destruct (fn_async m); simplify_eq/=. split; [done|]. split; [|done]. apply Htake. eauto.
    + intros (m & Hm & Has & [rest Ht]%Htake & Hh).
      apply list_elem_of_lookup in Hm as [i Hi]. destruct (Forall2_lookup_l _ _ _ _ _ Ec Hi) as (o & Ho & Hs).
      apply list_elem_of_lookup_2 in Ho. exists o. split; [done|]. unfold hook_submission in Hs.
      rewrite Ht, Has in Hs. simpl in Hs. simplify_eq. unfold id. by rewrite <- Hh.
  - apply collect_results_err in Ec as (l1 & m & l2 & -> & Hm & _). exists m.
    split; [apply elem_of_app; right; by left|]. unfold hook_submission in Hm.
    destruct (take_hook_attr (fn_attrs m)) as [[ph rest]|] eqn:Et; [|done].
    destruct (fn_async m) eqn:Ea; simplify_eq/=. split; [done|]. split; [done|].
    destruct (Htake (fn_attrs m) ph) as [(pre & a & post & -> & _ & Ha) _]; [eauto|].
    apply Exists_app. right. left. eauto.
Qed.

End properties.

(** ** Witnesses *)

Module LifecycleDemo.
Import CodegenDemo.

(** Hook methods append their name to the world. *)
#[export] Instance hook_code : HookCode :=
  {| world := list string;
     call_hook := fun self m _ w =>
       ((if String.eqb m "fail" then Err "boom" else Ok tt) : result unit (@failure Demo.payloads),
        (w ++ [m])%list) |}.

Definition hook (provider self : string) (m : string) : lifecycle_hook :=
  LifecycleHook OnModuleInit provider m (TNamed self) true.

Definition demo_container : container :=
  build (apply_registrations [RProvide (TNamed "a::Cache") (1 : @val Demo.payloads);
                              RProvide (TNamed "b::Cache") (2 : @val Demo.payloads)] builder_new).

Definition distinct : list lifecycle_hook := [hook "Pool" "b::Cache" "open"; hook "Cache" "a::Cache" "warm"].

Lemma phases_link_order_independent_witness :
  run_phase distinct demo_container OnModuleInit [] =
    run_phase (rev distinct) demo_container OnModuleInit [] /\
  run_phase_lenient distinct demo_container OnModuleInit [] =
    run_phase_lenient (rev distinct) demo_container OnModuleInit [].
Proof.
  apply (phases_link_order_independent distinct (rev distinct)); [apply Permutation_rev|].
  intros a b Ha Hb _ _. unfold distinct in *. rewrite !elem_of_cons, elem_of_nil in *.
  destruct Ha as [->|[->|[]]], Hb as [->|[->|[]]]; done.
Defined.

(** Two providers of one name, in different modules: the order of their hooks follows the link. *)
Definition namesakes : list lifecycle_hook := [hook "Cache" "a::Cache" "warm"; hook "Cache" "b::Cache" "warm"].

Example equal_names_leave_link_order :
  hooks_for namesakes OnModuleInit = namesakes /\
  hooks_for (rev namesakes) OnModuleInit = rev namesakes.
Proof. split; reflexivity. Qed.

Example failing_hook_stops_the_phase :
  run_phase [hook "Z" "a::Cache" "late"; hook "B" "a::Cache" "fail"; hook "A" "b::Cache" "early"]
    demo_container OnModuleInit [] =
  (Err (HookError "B" "fail" OnModuleInit "boom"), ["early"; "fail"],
   [hook "A" "b::Cache" "early"; hook "B" "a::Cache" "fail"]).
Proof. vm_compute. reflexivity. Qed.

Definition tagged : list impl_fn :=
  [ImplFn ["doc"; "on_module_init"] true "warm" true; ImplFn ["inline"] false "helper" false].

Lemma hooks_submits_tagged_methods_witness :
  match hooks true (path "Cache") tagged with
  | Ok hs => forall h, h ∈ hs <-> exists m, m ∈ tagged /\ fn_async m = true /\
      (exists pre a post, fn_attrs m = pre ++ a :: post /\ Forall (fun a' => hook_attr a' = None) pre /\
                          hook_attr a = Some (hk_phase h)) /\
      h = LifecycleHook (hk_phase h) "Cache" (fn_ident m) (type_id (path "Cache")) (fn_returns m)
  | Err e => exists m, m ∈ tagged /\ e = HookMustBeAsync (fn_ident m) /\ fn_async m = false /\
               Exists (fun a => is_Some (hook_attr a)) (fn_attrs m)
  end.
Proof. apply (hooks_submits_tagged_methods (path "Cache") tagged "Cache"). reflexivity. Defined.

End LifecycleDemo.
