(* ===== verification/App.v ===== *)
(** The application: [App] and [AppBuilder] of [nestrs-core/src/app.rs].  Building runs the
    seed, collect, factory, register and override phases and then the two boot validations;
    running configures the transports, runs the init phases, awaits the transports and runs
    the shutdown phases.

    [None] is running out of the module recursion's fuel, which does not happen; a panic of the
    register phase is a [panic] value. *)

From S2P Require Import Prelude Container Access Codegen Register Lifecycle.

(** Boot errors [build] returns. *)
Inductive boot_error `{Payloads} :=
| FactoryFailed (e : failure)
| AccessRejected (e : access_graph_error)
| MembershipRejected (e : resolver_membership_error).

Section build.
Context `{SetIter} `{Compiler} `{Structs} `{!UserCode}.

(** The program: its module impls and the link-time registries. *)
Context (impls : gmap ty module_impl).
Context (descriptors : list module_descriptor) (resolvers : list resolver_descriptor).

(** [AppBuilder].  A module's hooks are its [TypeId] and its two trait functions, looked up in
    the program; an override is the registration its closure makes. *)
Record app_builder := AppBuilder {
  ab_builder : container_builder;
  ab_modules : list ty;
  ab_overrides : list registration
}.

Definition app_builder_new : app_builder := AppBuilder builder_new [] [].

Definition on_builder (f : container_builder -> container_builder) (a : app_builder) : app_builder :=
  AppBuilder (f (ab_builder a)) (ab_modules a) (ab_overrides a).

Definition app_provide (t : ty) (v : val) : app_builder -> app_builder := on_builder (provide t v).
Definition app_provide_arc (t : ty) (v : val) : app_builder -> app_builder := on_builder (provide_arc t v).
Definition app_provide_dyn (t : ty) (v : val) : app_builder -> app_builder := on_builder (provide_dyn t v).
Definition app_provide_factory (t : ty) (f : factory_fn) : app_builder -> app_builder :=
  on_builder (provide_factory t f).

Definition override_value (t : ty) (v : val) (a : app_builder) : app_builder :=
  AppBuilder (ab_builder a) (ab_modules a) (ab_overrides a ++ [RReplace t v]).
Definition override_dyn (t : ty) (v : val) (a : app_builder) : app_builder :=
  AppBuilder (ab_builder a) (ab_modules a) (ab_overrides a ++ [RProvideDyn t v]).
Definition app_module (m : ty) (a : app_builder) : app_builder :=
  AppBuilder (ab_builder a) (ab_modules a ++ [m]) (ab_overrides a).

(** ** The phases of [build] *)

Fixpoint collect_phase (ms : list ty) (b : container_builder) : option container_builder :=
  match ms with
  | [] => Some b
  | m :: ms' => b' ← module_collect impls m b; collect_phase ms' b'
  end.

(** One factory of the loop: skipped when its type is present, else awaited and its registrar
    applied. *)
Definition run_factory (b : container_builder) (tf : ty * factory_fn)
  : result container_builder boot_error :=
  if contains tf.1 b then Ok b
  else let? v := map_err FactoryFailed (call_factory tf.2 (snapshot b)) in Ok (provide tf.1 v b).

Definition factory_phase (b : container_builder) : result container_builder boot_error :=
  let '(fs, b) := take_factories b in for_each run_factory fs b.

Fixpoint register_phase (ms : list ty) (b : container_builder)
  : option (result container_builder panic) :=
  match ms with
  | [] => Some (Ok b)
  | m :: ms' =>
      match module_register impls m b with
      | Some (Ok b') => register_phase ms' b'
      | other => other
      end
  end.

(** [validate_from_inventory] and [validate_resolver_membership_from_inventory]. *)
Definition validate_boot (roots : list ty) (global : gset ty) : result unit boot_error :=
  let? _ := map_err AccessRejected (validate_access_graph descriptors roots global) in
  map_err MembershipRejected (validate_resolver_membership descriptors roots resolvers).

(** [AppBuilder::build]: the built container; the transports start empty. *)
Definition app_build (a : app_builder) : option (result (result container boot_error) panic) :=
  b1 ← collect_phase (ab_modules a) (ab_builder a);
  match factory_phase b1 with
  | Err e => Some (Ok (Err e))
  | Ok b2 =>
      let global := provider_ids b2 in
      match register_phase (ab_modules a) b2 with
      | None => None
      | Some (Err p) => Some (Err p)
      | Some (Ok b3) =>
          let b4 := apply_registrations (ab_overrides a) b3 in
          Some (Ok (let? _ := validate_boot (ab_modules a) global in Ok (build b4)))
      end
  end.

(** [App::new], the synchronous path: no seeds, no factories. *)
Definition app_new (m : ty) : option (result (result container boot_error) panic) :=
  match module_register impls m builder_new with
  | None => None
  | Some (Err p) => Some (Err p)
  | Some (Ok b) => Some (Ok (let? _ := validate_boot [m] ∅ in Ok (build b)))
  end.

End build.

Arguments app_builder {_}.

(** ** Running the application *)

Section run.
Context `{HookCode}.

(** A transport, by what its [configure] returns. *)
Class Transports := {
  transport : Type;
  configure : transport -> container -> result unit failure
}.
Context `{!Transports}.

(** How a spawned [serve] task ends: normally, with an error, or by a panic ([JoinError]). *)
Inductive served :=
| ServedOk
| ServedErr (e : failure)
| ServedPanic.

Inductive run_error :=
| ConfigureFailed (e : failure)
| InitFailed (e : hook_error)
| ServeFailed (e : failure)
| ServePanicked (task : nat).

(** What [run] does, in order. *)
Inductive run_event :=
| EvConfigured (task : nat)
| EvHook (h : lifecycle_hook)
| EvSpawned (task : nat)
| EvEnded (task : nat)
| EvCancel.

Fixpoint configure_all (i : nat) (ts : list transport) (c : container)
  : result unit run_error * list run_event :=
  match ts with
  | [] => (Ok tt, [])
  | t :: ts' =>
      match configure t c with
      | Err e => (Err (ConfigureFailed e), [EvConfigured i])
      | Ok _ => let '(r, ev) := configure_all (S i) ts' c in (r, EvConfigured i :: ev)
      end
  end.

(** The [join_next] loop over the tasks in completion order. *)
Fixpoint join_loop (completions : list (nat * served)) (first_err : option run_error)
  : option run_error * list run_event :=
  match completions with
  | [] => (first_err, [])
  | (i, res) :: rest =>
      let failed := match res with
                    | ServedOk => None
                    | ServedErr e => Some (ServeFailed e)
                    | ServedPanic => Some (ServePanicked i)
                    end in
      match failed, first_err with
      | Some e, None => let '(r, ev) := join_loop rest (Some e) in (r, EvEnded i :: EvCancel :: ev)
      | _, _ => let '(r, ev) := join_loop rest first_err in (r, EvEnded i :: ev)
      end
  end.

Definition shutdown_phases : list lifecycle_phase :=
  [OnModuleDestroy; BeforeApplicationShutdown; OnApplicationShutdown].

Fixpoint run_shutdown (inventory : list lifecycle_hook) (c : container) (ps : list lifecycle_phase)
    (w : world) : world * list lifecycle_hook :=
  match ps with
  | [] => (w, [])
  | p :: ps' =>
      let '(w1, ran, _) := run_phase_lenient inventory c p w in
      let '(w2, ran') := run_shutdown inventory c ps' w1 in (w2, ran ++ ran')
  end.

(** [App::init] *)
Definition app_init (inventory : list lifecycle_hook) (c : container) (w : world)
  : result unit hook_error * world * list lifecycle_hook :=
  let '(r, w1, ran) := run_phase inventory c OnModuleInit w in
  match r with
  | Err e => (Err e, w1, ran)
  | Ok _ =>
      let '(r', w2, ran') := run_phase inventory c OnApplicationBootstrap w1 in (r', w2, ran ++ ran')
  end.

(** [App::run].  [completions] lists the spawned tasks in the order they end, each with how. *)
Definition app_run (inventory : list lifecycle_hook) (c : container) (ts : list transport)
    (completions : list (nat * served)) (w : world)
  : result unit run_error * world * list run_event :=
  match configure_all 0 ts c with
  | (Err e, ev) => (Err e, w, ev)
  | (Ok _, ev1) =>
      let '(r, w1, init) := app_init inventory c w in
      let ev2 := (ev1 ++ map EvHook init)%list in
      match r with
      | Err e => (Err (InitFailed e), w1, ev2)
      | Ok _ =>
          let '(first_err, ev3) := join_loop completions None in
          let '(w2, down) := run_shutdown inventory c shutdown_phases w1 in
          (match first_err with Some e => Err e | None => Ok tt end, w2,
           (ev2 ++ map EvSpawned (seq 0 (length ts)) ++ ev3 ++ map EvHook down)%list)
      end
  end.

End run.

(** ** The factory phase *)

Section factories.
Context `{UserCode}.
Implicit Types (b : container_builder) (l : list (ty * factory_fn)).

Lemma b_providers_provide t v b : b_providers (provide t v b) = <[t := AnyArc t v]> (b_providers b).
Proof. unfold provide; simpl. by rewrite b_providers_warn. Qed.

Lemma run_factory_ok b tf b' : run_factory b tf = Ok b' ->
  b_providers b ⊆ b_providers b' /\
  (forall t, contains t b' = true <-> contains t b = true \/ t = tf.1) /\
  (contains tf.1 b = false -> exists v, call_factory tf.2 (snapshot b) = Ok v /\
                                        b_providers b' !! tf.1 = Some (AnyArc tf.1 v)).
Proof.
  destruct tf as [t f]. unfold run_factory. simpl. destruct (contains t b) eqn:Ec.
  { intros [= <-]. split; [done|]. split; [|done]. naive_solver. }
  destruct (call_factory f (snapshot b)) as [v|e]; simpl; [|done]. intros [= <-].
  rewrite b_providers_provide. split; [|split].
  - apply insert_subseteq. apply not_true_iff_false in Ec. rewrite contains_iff in Ec.
    by apply eq_None_not_Some.
  - intros t'. rewrite contains_provide, orb_true_iff, bool_decide_eq_true. tauto.
  - intros _. exists v. by rewrite lookup_insert_eq.
Qed.

Lemma run_factories_ok l b b' : for_each run_factory l b = Ok b' ->
  b_providers b ⊆ b_providers b' /\
  (forall t, contains t b' = true <-> contains t b = true \/ t ∈ map fst l).
Proof.
  revert b. induction l as [|tf l IH]; intros b; cbn [for_each].
  - intros [= <-]. split; [done|]. intros t. simpl. rewrite elem_of_nil. tauto.
  - destruct (run_factory b tf) as [b1|e] eqn:E1; [|done]. simpl. intros E.
    apply run_factory_ok in E1 as (Hs1 & Hc1 & _). destruct (IH _ E) as [Hs Hc].
    split; [by etrans|]. intros t. rewrite Hc, Hc1, elem_of_cons. tauto.
Qed.

(** Factories run in the order they were queued, each against the container so far.  A type
    already present is left as it is (the seed wins); otherwise the first factory of that type
    supplies it and later ones are skipped.  The first failing factory aborts the build with
    its error, and only if every factory before it succeeded. *)
Lemma factory_phase_seed_wins (b : container_builder) :
  let start := (take_factories b).2 in
  match factory_phase b with
  | Ok b' =>
      (forall t, contains t b = true -> b_providers b' !! t = b_providers b !! t) /\
      (forall t, contains t b' = true <-> contains t b = true \/ t ∈ map fst (factories b)) /\
      (forall l1 t f l2, factories b = l1 ++ (t, f) :: l2 -> contains t b = false ->
         ~ (t ∈ map fst l1) ->
         exists b1 v, for_each run_factory l1 start = Ok b1 /\
           call_factory f (snapshot b1) = Ok v /\ b_providers b' !! t = Some (AnyArc t v))
  | Err e =>
      exists l1 t f l2 b1 e0, factories b = l1 ++ (t, f) :: l2 /\
        for_each run_factory l1 start = Ok b1 /\ contains t b1 = false /\
        call_factory f (snapshot b1) = Err e0 /\ e = FactoryFailed e0
  end.
Proof.
  intros start. change (factory_phase b) with (for_each run_factory (factories b) start).
  assert (Hstart : b_providers start = b_providers b) by done.
  assert (Hcs : forall t, contains t start = contains t b) by done.
  destruct (for_each run_factory (factories b) start) as [b'|e] eqn:E.
  - destruct (run_factories_ok _ _ _ E) as [Hsub Hc]. rewrite Hstart in Hsub. split; [|split].
    + intros t Ht. apply contains_iff in Ht as [a Ha]. rewrite Ha. by eapply lookup_weaken.
    + intros t. by rewrite Hc, Hcs.
    + intros l1 t f l2 Hf Hct Ht. rewrite Hf, for_each_app in E.
      destruct (for_each run_factory l1 start) as [b1|] eqn:E1; [|done]. cbn [result_bind for_each] in E.
      destruct (run_factory b1 (t, f)) as [b2|] eqn:E2; [|done]. simpl in E.
      destruct (run_factories_ok _ _ _ E1) as [_ Hc1]. destruct (run_factories_ok _ _ _ E) as [Hs2 _].
      destruct (run_factory_ok _ _ _ E2) as (_ & _ & Hv). simpl in Hv.
      destruct Hv as (v & Hv & Hl).
      { apply not_true_iff_false. rewrite Hc1, Hcs. intros [?|?]; congruence. }
      exists b1, v. split; [done|]. split; [done|]. by eapply lookup_weaken.
  - clear Hstart Hcs. clearbody start. revert start e E. induction (factories b) as [|[t f] l IH]; intros start e E; [done|].
    cbn [for_each] in E. destruct (run_factory start (t, f)) as [b1|e1] eqn:E1; simpl in E.
    + destruct (IH _ _ E) as (l1 & t' & f' & l2 & b2 & e0 & -> & Hl1 & Hrest).
      exists ((t, f) :: l1), t', f', l2, b2, e0. split; [done|]. split; [|done].
      cbn [for_each]. by rewrite E1.
    + simplify_eq. unfold run_factory in E1. simpl in E1. destruct (contains t start) eqn:Ec; [done|].
      destruct (call_factory f (snapshot start)) as [v|e0] eqn:Ef; simplify_eq/=.
      by exists [], t, f, l, start, e0.
Qed.

End factories.

(** ** The transports *)

Section join.
Context `{HookCode} `{!Transports}.

(** The failure of one task, and the first of a run. *)
Definition failure_of (t : nat * served) : option run_error :=
  match t.2 with
  | ServedOk => None
  | ServedErr e => Some (ServeFailed e)
  | ServedPanic => Some (ServePanicked t.1)
  end.

Definition is_cancel (e : run_event) : bool := match e with EvCancel => true | _ => false end.
Definition ended_task (e : run_event) : option nat := match e with EvEnded i => Some i | _ => None end.

Lemma join_loop_spec cs first :
  let '(r, ev) := join_loop cs first in
  r = match first with Some e => Some e | None => head (omap failure_of cs) end /\
  omap ended_task ev = map fst cs /\
  length (List.filter is_cancel ev) =
    (if first is Some _ then 0 else if head (omap failure_of cs) is Some _ then 1 else 0).
Proof.
  revert first. induction cs as [|[i res] cs IH]; intros first; simpl; [by destruct first|].
  unfold failure_of at 1. simpl.
  destruct res as [|e|]; destruct first as [e0|]; simpl;
    match goal with |- context [join_loop cs ?f] => specialize (IH f) end;
    destruct (join_loop cs _) as [r ev]; simpl in *; destruct IH as (-> & Ho & Hn);
    (split; [done|split; [by f_equal|first [exact Hn|congruence]]]).
Qed.

Lemma configure_all_ok i ts c : (forall t, t ∈ ts -> configure t c = Ok tt) ->
  configure_all i ts c = (Ok tt, map EvConfigured (seq i (length ts))).
Proof.
  revert i. induction ts as [|t ts IH]; intros i Hall; simpl; [done|].
  rewrite Hall by (by left). rewrite IH; [done|]. intros t' ?. apply Hall. by right.
Qed.

Lemma configure_all_err i ts1 t ts2 c e : (forall t, t ∈ ts1 -> configure t c = Ok tt) ->
  configure t c = Err e ->
  configure_all i (ts1 ++ t :: ts2) c =
    (Err (ConfigureFailed e), map EvConfigured (seq i (S (length ts1)))).
Proof.
  revert i. induction ts1 as [|t1 ts1 IH]; intros i Hall He; simpl; [by rewrite He|].
  rewrite Hall by (by left). rewrite IH; [done| |done]. intros t' ?. apply Hall. by right.
Qed.

Lemma configure_cases ts c :
  (forall t, t ∈ ts -> configure t c = Ok tt) \/
  exists ts1 t ts2 e, ts = ts1 ++ t :: ts2 /\ (forall t, t ∈ ts1 -> configure t c = Ok tt) /\
                      configure t c = Err e.
Proof.
  induction ts as [|t ts IH]; [left; by intros t ?%elem_of_nil|].
  destruct (configure t c) as [[]|e] eqn:Et.
  - destruct IH as [IH|(ts1 & t' & ts2 & e & -> & Hts1 & He)].
    + left. intros t'. rewrite elem_of_cons. intros [->|?]; auto.
    + right. exists (t :: ts1), t', ts2, e. split; [done|]. split; [|done].
      intros t''. rewrite elem_of_cons. intros [->|?]; auto.
  - right. exists [], t, ts, e. split; [done|]. split; [|done]. by intros t' ?%elem_of_nil.
Qed.

Lemma run_shutdown_ran inventory c ps w :
  (run_shutdown inventory c ps w).2 = concat (map (hooks_for inventory) ps).
Proof.
  revert w. induction ps as [|p ps IH]; intros w; simpl; [done|].
  unfold run_phase_lenient. pose proof (run_hooks_lenient_spec c (hooks_for inventory p) w) as Hl.
  destruct (run_hooks_lenient c (hooks_for inventory p) w) as [[w1 ran] logged].
  destruct Hl as (_ & -> & _). specialize (IH w1).
  destruct (run_shutdown inventory c ps w1) as [w2 ran']. simpl in *. by rewrite IH.
Qed.

(** [C25] A configured and initialised application awaits every transport, in whatever order they
    end; it returns the first failure in that order, cancels the others exactly once when
    there is one, and runs every shutdown hook whatever happened. *)
Theorem app_run_serves_then_shuts_down (inventory : list lifecycle_hook) (c : container)
    (ts : list transport) (completions : list (nat * served)) (w w1 : world) (init : list lifecycle_hook) :
  (forall t, t ∈ ts -> configure t c = Ok tt) ->
  app_init inventory c w = (Ok tt, w1, init) ->
  exists ev, app_run inventory c ts completions w =
    (match head (omap failure_of completions) with Some e => Err e | None => Ok tt end,
     (run_shutdown inventory c shutdown_phases w1).1,
     (map EvConfigured (seq 0 (length ts)) ++ map EvHook init ++ map EvSpawned (seq 0 (length ts)) ++
      ev ++ map EvHook (concat (map (hooks_for inventory) shutdown_phases)))%list) /\
    omap ended_task ev = map fst completions /\
    length (List.filter is_cancel ev) = (if head (omap failure_of completions) is Some _ then 1 else 0).
Proof.
  intros Hc Hi. unfold app_run. rewrite (configure_all_ok 0 ts c Hc), Hi.
  pose proof (join_loop_spec completions None) as Hj.
  destruct (join_loop completions None) as [r ev]. destruct Hj as (-> & He & Hn).
  pose proof (run_shutdown_ran inventory c shutdown_phases w1) as Hr.
  destruct (run_shutdown inventory c shutdown_phases w1) as [w2 down]. simpl in Hr. subst down.
  exists ev. split; [|done]. by rewrite <- !(assoc_L (++)).
Qed.

(** A failing [configure] or init hook aborts the run before any transport is spawned, and
    no shutdown hook runs: the world is the one the failure left. *)
Lemma app_run_aborts_before_serving (inventory : list lifecycle_hook) (c : container)
    (ts : list transport) (completions : list (nat * served)) (w : world) :
  let '(r, w', ev) := app_run inventory c ts completions w in
  (forall e, r = Err (ConfigureFailed e) ->
     w' = w /\ exists n, ev = map EvConfigured (seq 0 n)) /\
  (forall e, r = Err (InitFailed e) ->
     exists init, app_init inventory c w = (Err e, w', init) /\
                  ev = (map EvConfigured (seq 0 (length ts)) ++ map EvHook init)%list).
Proof.
  unfold app_run.
  destruct (configure_cases ts c) as [Hall|(ts1 & t & ts2 & e & -> & Hts1 & Ec)].
  - rewrite (configure_all_ok 0 ts c Hall).
    destruct (app_init inventory c w) as [[[[]|e0] w1] init] eqn:Ei.
    + pose proof (join_loop_spec completions None) as Hj.
      destruct (join_loop completions None) as [r ev]. destruct Hj as (-> & _).
      destruct (run_shutdown inventory c shutdown_phases w1) as [w2 down].
      assert (forall e, e ∈ omap failure_of completions -> (exists e', e = ServeFailed e') \/ (exists i, e = ServePanicked i)) as Hf.
      { intros e (t & _ & Ht)%list_elem_of_omap. destruct t as [i []]; unfold failure_of in Ht; simplify_eq/=; eauto. }
      destruct (omap failure_of completions) as [|e l]; simpl; [done|].
      destruct (Hf e) as [[e' ->]|[i ->]]; [by left|done|done].
    + split; [done|]. intros e [= ->]. eauto.
  - rewrite (configure_all_err 0 ts1 t ts2 c e) by done. split; [|done].
    intros e' _. split; [done|]. by exists (S (length ts1)).
Qed.

End join.

(** ** What a booted application guarantees *)

Section boot.
Context `{SetIter} `{Compiler} `{Structs} `{!UserCode} (impls : gmap ty module_impl).
Context (descriptors : list module_descriptor) (resolvers : list resolver_descriptor).
Implicit Types (b : container_builder).

Lemma collect_phase_preserves (Hhonest : honest_impls impls) ms b b' : collect_phase impls ms b = Some b' ->
  (builder_wf b -> builder_wf b') /\ registered_modules b' = registered_modules b.
Proof.
  revert b. induction ms as [|m ms IH]; intros b; simpl; [by intros [= <-]|].
  destruct (module_collect impls m b) as [b1|] eqn:E1; simpl; [|done]. intros Hb.
  apply (collect_preserves impls Hhonest) in E1 as [Hw1 Hr1]. apply IH in Hb as [Hw Hr].
  split; [auto|congruence].
Qed.

Lemma factory_phase_preserves b b' : factory_phase b = Ok b' ->
  (builder_wf b -> builder_wf b') /\ registered_modules b' = registered_modules b.
Proof.
  change (factory_phase b) with (for_each run_factory (factories b) (take_factories b).2).
  assert (Hs : (builder_wf b -> builder_wf (take_factories b).2) /\
               registered_modules (take_factories b).2 = registered_modules b) by (by split; [destruct 1|]).
  revert Hs. generalize (take_factories b).2 as s. induction (factories b) as [|[t f] l IH]; intros s Hs.
  { by intros [= <-]. }
  cbn [for_each]. unfold run_factory at 1. simpl. destruct (contains t s) eqn:Ec; simpl; [by apply IH|].
  destruct (call_factory f (snapshot s)) as [v|e]; simpl; [|done]. apply IH.
  destruct Hs as [Hw Hr]. split.
  - intros Hb. by apply (apply_registration_wf (RProvide t v)), Hw.
  - rewrite <- Hr. apply (unmarked_registered [RProvide t v]). by repeat constructor.
Qed.

Lemma register_phase_registers (Hhonest : honest_impls impls) ms b b' :
  register_phase impls ms b = Some (Ok b') ->
  registers impls b b' /\ forall m, m ∈ ms -> macro_module impls m -> m ∈ registered_modules b'.
Proof.
  revert b. induction ms as [|m ms IH]; intros b; simpl.
  { intros [= <-]. split; [split; [done|by left]|by intros ? ?%elem_of_nil]. }
  destruct (module_register impls m b) as [[b1|e]|] eqn:E1; [|done..]. intros Hr.
  apply (register_registers impls Hhonest) in E1 as [Hg1 Hm]. apply IH in Hr as [Hg2 Hall].
  split; [by eapply registers_trans|]. intros m' [->|?]%elem_of_cons Hmac; [|by apply Hall].
  by apply (grows_registered _ _ (rg_grows _ _ _ Hg2)), Hm.
Qed.

(** The modules in the static import closure of the roots. *)
Inductive import_reach (roots : list ty) : ty -> Prop :=
| reach_root m : m ∈ roots -> import_reach roots m
| reach_import m d m' : import_reach roots m -> impls !! m = Some (MacroModule d) ->
    ImportStatic m' ∈ mod_imports d -> import_reach roots m'.

(** The phases behind a successful build. *)
Lemma app_build_ok a c : app_build impls descriptors resolvers a = Some (Ok (Ok c)) ->
  exists b1 b2 b3, collect_phase impls (ab_modules a) (ab_builder a) = Some b1 /\
    factory_phase b1 = Ok b2 /\ register_phase impls (ab_modules a) b2 = Some (Ok b3) /\
    validate_boot descriptors resolvers (ab_modules a) (provider_ids b2) = Ok tt /\
    c = build (apply_registrations (ab_overrides a) b3).
Proof.
  unfold app_build. destruct (collect_phase _ _ _) as [b1|] eqn:E1; simpl; [|done].
  destruct (factory_phase b1) as [b2|] eqn:E2; [|done].
  destruct (register_phase _ _ b2) as [[b3|]|] eqn:E3; [|done..].
  destruct (validate_boot _ _ _ _) as [[]|] eqn:E4; simpl; [|done].
  intros [= <-]. by exists b1, b2, b3.
Qed.

(** [C1] Boot safety: if building returns an application, every dependency that an eager
    provider of any module in the import closure of the roots declares resolves in the
    application's container, whatever the import graph, the seeds and the factories. *)
Theorem boot_leaves_no_dangling_dependency (seeds overrides : list registration) (roots : list ty)
    (c : container) (m : ty) (d : module_def) (pb : provider_binding_t) (k : ty) :
  honest_impls impls -> unmarked seeds ->
  app_build impls descriptors resolvers
    (AppBuilder (apply_registrations seeds builder_new) roots overrides) = Some (Ok (Ok c)) ->
  import_reach roots m -> impls !! m = Some (MacroModule d) ->
  pb ∈ mod_providers d -> k ∈ pl_dependencies (plan_of pb) ->
  is_Some (get k c).
Proof.
  intros Hhonest Hseeds Hb Hreach Hm Hpb Hk.
  apply app_build_ok in Hb as (b1 & b2 & b3 & E1 & E2 & E3 & _ & ->). simpl in E1, E3 |- *.
  apply (collect_phase_preserves Hhonest) in E1 as [Hw1 Hr1].
  apply factory_phase_preserves in E2 as [Hw2 Hr2].
  apply (register_phase_registers Hhonest) in E3 as [Hg Hroots].
  assert (Hnone : registered_modules b2 = ∅) by (by rewrite Hr2, Hr1, unmarked_registered).
  assert (Hcomplete : forall n, n ∈ registered_modules b3 -> complete impls b3 n).
  { intros n Hn. destruct (rg_complete _ _ _ Hg n Hn) as [Hin|?]; [|done]. rewrite Hnone in Hin. set_solver. }
  assert (Hin : m ∈ registered_modules b3).
  { assert (Hmac : macro_module impls m) by (by exists d). clear Hm Hpb Hk.
    induction Hreach as [m Hroot|m0 d0 m' Hr0 IH Hm0 Himp]; [by apply Hroots|].
    assert (Hin0 : m0 ∈ registered_modules b3) by (apply IH; by exists d0).
    destruct (Hcomplete m0 Hin0 d0 Hm0) as [_ Hi]. by apply Hi. }
  assert (Hwf : builder_wf (apply_registrations overrides b3)).
  { apply apply_registrations_wf, (grows_wf _ _ (rg_grows _ _ _ Hg)), Hw2, Hw1, apply_registrations_wf, builder_wf_new. }
  rewrite get_build_eq by apply Hwf. apply fmap_is_Some, contains_iff.
  apply contains_apply_registrations. left.
  destruct (Hcomplete m Hin d Hm) as [Hsup _]. by apply (Hsup pb Hpb).
Qed.

(** Overrides win over seeds, factories and the modules' own registrations: in a built
    application the last override of a key is what that key resolves to. *)
Lemma override_wins_over_modules (a : app_builder) (c : container) (t : ty) (v : val) :
  app_build impls descriptors resolvers a = Some (Ok (Ok c)) ->
  last_binding t (ab_overrides a) = Some v ->
  get t c = Some v.
Proof.
  intros Hb Hl. apply app_build_ok in Hb as (b1 & b2 & b3 & _ & _ & _ & _ & ->).
  unfold get. simpl. rewrite (providers_last_binding_from _ _ _ v Hl). simpl. apply downcast_same.
Qed.

End boot.

(** ** Witnesses *)

Module AppDemo.
Import CodegenDemo RegisterDemo LifecycleDemo AccessDemo.

#[export] Existing Instance Demo.user_code.

(** [M] imports [N] and back; the seed supplies nothing of theirs. *)
Definition boot : option (result (result container boot_error) panic) :=
  app_build cyclic_impls [] [] (AppBuilder
    (apply_registrations [RProvide (TNamed "Config") (7 : @val Demo.payloads)] builder_new)
    [TNamed "M"] [RReplace (TNamed "B") (99 : @val Demo.payloads)]).

Definition booted_app : container :=
  match boot with
  | Some (Ok (Ok c)) => c
  | _ => build builder_new
  end.

Lemma boot_ok : boot = Some (Ok (Ok booted_app)).
Proof. vm_compute. reflexivity. Qed.

Lemma cyclic_honest : honest_impls cyclic_impls.
Proof.
  assert (Hcase : forall m i, cyclic_impls !! m = Some i -> exists d, i = MacroModule d /\
    (forall r c, ~ (ImportDynamic r c ∈ mod_imports d)) /\
    forall pb, pb ∈ mod_providers d ->
      pb = BindConcrete (TNamed "A") "A" (of_item "A" [requires "B"]) \/
      pb = BindConcrete (TNamed "B") "B" (of_item "B" [maybe "C"])).
  { unfold cyclic_impls. intros m i Hi. apply lookup_insert_Some in Hi as [[<- <-]|[_ Hi]];
      [|apply lookup_singleton_Some in Hi as [<- <-]];
      (eexists; split; [reflexivity|]; simpl; split;
       [intros r c; rewrite list_elem_of_singleton; discriminate
       |intros pb; rewrite list_elem_of_singleton; tauto]). }
  split.
  - intros m reg col Hm. by apply Hcase in Hm as (d & ? & _).
  - intros m d reg col Hm Hin. apply Hcase in Hm as (d' & [= <-] & Hn & _). by destruct (Hn reg col).
  - intros m d pb b rs Hm Hin Hr. apply Hcase in Hm as (d' & [= <-] & _ & Hp).
    destruct (Hp pb Hin) as [-> | ->].
    + change (of_item "A" [requires "B"]) with
        (match injectable (TNamed "A") false (ItemStruct "A" (FieldsNamed [requires "B"])) with
         | Ok d => d | Err _ => svc_discoverable end) in Hr.
      simpl in Hr. simpl_results. by repeat constructor.
    + change (of_item "B" [maybe "C"]) with
        (match injectable (TNamed "B") false (ItemStruct "B" (FieldsNamed [maybe "C"])) with
         | Ok d => d | Err _ => svc_discoverable end) in Hr.
      simpl in Hr. simpl_results. by repeat constructor.
Qed.

Lemma boot_leaves_no_dangling_dependency_witness : is_Some (get (TNamed "B") booted_app).
Proof.
  apply (boot_leaves_no_dangling_dependency cyclic_impls [] []
           [RProvide (TNamed "Config") (7 : @val Demo.payloads)]
           [RReplace (TNamed "B") (99 : @val Demo.payloads)] [TNamed "M"] booted_app (TNamed "M")
           (ModuleDef "M" [ImportStatic (TNamed "N")]
              [BindConcrete (TNamed "A") "A" (of_item "A" [requires "B"])])
           (BindConcrete (TNamed "A") "A" (of_item "A" [requires "B"])) (TNamed "B")).
  - exact cyclic_honest.
  - by repeat constructor.
  - exact boot_ok.
  - apply reach_root. by left.
  - reflexivity.
  - by left.
  - by left.
Defined.

Lemma override_wins_over_modules_witness : get (TNamed "B") booted_app = Some 99.
Proof.
  apply (override_wins_over_modules cyclic_impls [] []
           (AppBuilder
              (apply_registrations [RProvide (TNamed "Config") (7 : @val Demo.payloads)] builder_new)
              [TNamed "M"] [RReplace (TNamed "B") (99 : @val Demo.payloads)])).
  - exact boot_ok.
  - reflexivity.
Defined.

(** The second factory of a type is skipped without a warning. *)
Example first_factory_wins :
  match factory_phase (provide_factory (TNamed "Pool") (2 : @factory_fn Demo.payloads)
          (provide_factory (TNamed "Pool") (1 : @factory_fn Demo.payloads)
             (provide (TNamed "Config") (7 : @val Demo.payloads) builder_new))) with
  | Ok b => get (TNamed "Pool") (build b) = Some 8 /\ log b = []
  | Err _ => False
  end.
Proof. vm_compute. auto. Qed.

#[export] Instance transports : Transports :=
  {| transport := bool;
     configure := fun ok _ => if ok then Ok tt else (Err "bind failed" : result unit (@failure Demo.payloads)) |}.

Definition servers : list (@transport _ transports) := [true; true; true].

Definition tasks : list (nat * @served Demo.payloads) :=
  [(1, ServedOk); (0, ServedErr ("io" : @failure Demo.payloads)); (2, ServedPanic)].

Definition w0 : @world _ hook_code := ([] : list string).
Definition w1 : @world _ hook_code := (["warm"; "open"] : list string).

Lemma app_run_serves_then_shuts_down_witness :
  exists ev, app_run distinct demo_container servers tasks w0 =
    (Err (ServeFailed ("io" : @failure Demo.payloads)), w1,
     (map EvConfigured [0; 1; 2] ++ map EvHook (rev distinct) ++ map EvSpawned [0; 1; 2] ++ ev ++ [])%list) /\
    omap ended_task ev = [1; 0; 2] /\ length (List.filter is_cancel ev) = 1.
Proof.
  apply (app_run_serves_then_shuts_down distinct demo_container servers tasks w0
           w1 (rev distinct)).
  - intros t. unfold servers. rewrite !elem_of_cons, elem_of_nil. by intros [->|[->|[->|[]]]].
  - vm_compute. reflexivity.
Defined.

End AppDemo.
