(* ===== verification/Events.v ===== *)
(** The in-process event bus: the registry and its dispatch ([nestrs-events/src/bus.rs]), the module
    that registers it and wires the discovered handlers at bootstrap ([module.rs]) and the decorator of
    a handler ([nestrs-events-macros/src/on_event.rs]).

    A handler is application code, and may itself emit: it is a [program] over the application's
    world.  A bus is passed as state; the value of type [EventBus] in the container is the reference to
    it.  The calls made are logged, oldest first. *)

From S2P Require Import Prelude Container Codegen Lifecycle App.

(** ** Application code *)

Section programs.
Context `{Payloads} {W : Type}.

(** What a handler or a hook does: act on the world, emit an event and go on, return or panic. *)
Inductive program :=
| Return
| Panics
| Step (f : W -> W) (k : W -> program)
| EmitThen (event_ty : ty) (event : val) (k : program).

End programs.
Arguments program {_} W.

(** The application: the [Event] type of each handler type, its [from_container] (which [#[on_event]]
    emits, see [on_event]) and its [handle]. *)
Class EventCode `{Payloads} (W : Type) := {
  event_of : ty -> ty;
  from_container_of : ty -> container -> result val panic;
  handle : ty -> val -> val -> program W
}.

(** [EventHandlerMeta], the metadata [#[on_event]] attaches: its [wire] thunk is determined by the handler
    type.  Its passage through the container as a [val]. *)
Record event_handler_meta := EventHandlerMeta { eh_name : string; eh_self : ty }.

Class EventMetas `{Payloads} := {
  event_meta : event_handler_meta -> val;
  event_meta_of : val -> option event_handler_meta;
  event_meta_of_meta m : event_meta_of (event_meta m) = Some m
}.

Definition t_event_bus : ty := TNamed "EventBus".
Definition t_event_module : ty := TNamed "EventModule".
Definition t_event_handler_meta : ty := TNamed "EventHandlerMeta".

Section bus.
Context `{EventCode W} `{!EventMetas}.

(** [HandlerFn]: the event type it downcasts to, and the handler it shares. *)
Record handler_fn := HandlerFn { hf_event : ty; hf_self : ty; hf_handler : val }.

(** [EventBus]. *)
Record event_bus := EventBus { handlers : gmap ty (list handler_fn) }.
Definition event_bus_new : event_bus := EventBus ∅.

Definition subscribe (e : ty) (h : handler_fn) (bus : event_bus) : event_bus :=
  EventBus (<[e := default [] (handlers bus !! e) ++ [h]]> (handlers bus)).

(** A call of a handler: its type, the event's type and the event. *)
Record call := Call { cl_self : ty; cl_event_ty : ty; cl_event : val }.

(** The world and the log; [Err] is the state a panic leaves, [None] is fuel spent. *)
Definition state : Type := W * list call.
Definition run_result : Type := option (result state state).

Definition and_then (r : run_result) (k : state -> run_result) : run_result :=
  match r with Some (Ok s) => k s | other => other end.

Fixpoint run_program (emit : ty -> val -> state -> run_result) (p : program W) (s : state) : run_result :=
  match p with
  | Return => Some (Ok s)
  | Panics => Some (Err s)
  | Step f k => run_program emit (k (f s.1)) (f s.1, s.2)
  | EmitThen e ev k => and_then (emit e ev s) (run_program emit k)
  end.

(** The erased closure on a boxed event of type [e]. *)
Definition call_handler (emit : ty -> val -> state -> run_result) (h : handler_fn) (e : ty) (ev : val) (s : state)
  : run_result :=
  match downcast (hf_event h) (AnyArc e ev) with
  | Some event => run_program emit (handle (hf_self h) (hf_handler h) event) (s.1, s.2 ++ [Call (hf_self h) e ev])
  | None => Some (Err s)
  end.

Fixpoint run_handlers (emit : ty -> val -> state -> run_result) (hs : list handler_fn) (e : ty) (ev : val) (s : state)
  : run_result :=
  match hs with
  | [] => Some (Ok s)
  | h :: hs' => and_then (call_handler emit h e ev s) (run_handlers emit hs' e ev)
  end.

(** [emit]: a handler may emit in turn. *)
Fixpoint emit (fuel : nat) (bus : event_bus) (e : ty) (ev : val) (s : state) : run_result :=
  match fuel with
  | O => None
  | S fuel =>
      match handlers bus !! e with
      | Some hs => run_handlers (emit fuel bus) hs e ev s
      | None => Some (Ok s)
      end
  end.

(** ** The module *)

(** [EventModule::register]. *)
Definition event_module_register (bus_value : val) (b : container_builder) : container_builder :=
  let '(newly, b) := mark_registered t_event_module b in
  if newly then provide_arc t_event_bus bus_value b else b.

(** The emitted [wire] thunk. *)
Definition wire (m : event_handler_meta) (c : container) (bus : event_bus) : result event_bus panic :=
  let? handler := from_container_of (eh_self m) c in
  Ok (subscribe (event_of (eh_self m)) (HandlerFn (event_of (eh_self m)) (eh_self m) handler) bus).

(** The handlers discovery finds, in the order they were attached. *)
Definition discovered_handlers (c : container) : list event_handler_meta :=
  omap (fun d : val * option ty => event_meta_of d.1) (discovery_meta t_event_handler_meta c).

Definition wire_handlers (c : container) (bus : event_bus) : result event_bus panic :=
  match get t_event_bus c with
  | None => Ok bus
  | Some _ => for_each (fun bus m => wire m c bus) (discovered_handlers c) bus
  end.

End bus.

Inductive on_event_error :=
| OnEventTakesNoArguments
| OnEventBody (e : syn_error).

(** [#[on_event]]: nothing is built at registration; [injected] is declared for the access graph. *)
Definition on_event `{Compiler} `{Structs} `{!EventMetas} (self : ty) (args_empty : bool) (item : item_struct)
  : result discoverable on_event_error :=
  if negb args_empty then Err OnEventTakesNoArguments else
  let? body := map_err OnEventBody (build_injectable_body item) in
  Ok {| d_dependencies := []; d_injected := map type_id (ib_dep_keys body); d_dependency_names := [];
        d_optional_dependencies := []; d_from_container := eval_ctor (i_ident item) (ib_ctor body);
        d_register := fun _ => Ok [RAttachMeta self t_event_handler_meta
          (event_meta (EventHandlerMeta (i_ident item) self))] |}.

(** The hook the module submits: its thunk is a no-op without the bus in the container. *)
Definition wire_hook : lifecycle_hook :=
  LifecycleHook OnApplicationBootstrap "EventModule" "wire_handlers" t_event_bus true.

(** ** Dispatch *)

Section dispatch.
Context `{EventCode W} `{!EventMetas}.

(** Every handler sits under the type it downcasts to, which is its [Event]. *)
Definition bus_typed (bus : event_bus) : Prop :=
  forall e hs, handlers bus !! e = Some hs -> Forall (fun h => hf_event h = e /\ event_of (hf_self h) = e) hs.

Lemma subscribe_typed e h bus : hf_event h = e /\ event_of (hf_self h) = e -> bus_typed bus -> bus_typed (subscribe e h bus).
Proof.
  intros Hh Hbus e' hs'. unfold subscribe. cbn [handlers]. destruct (decide (e = e')) as [<-|]; [rewrite lookup_insert_eq|
    rewrite lookup_insert_ne by done; apply Hbus].
  intros [= <-]. apply Forall_app. split; [|by apply Forall_singleton].
  destruct (handlers bus !! e) as [hs|] eqn:E; [|done]. by apply (Hbus e hs).
Qed.

Lemma wire_typed m c bus bus' : wire m c bus = Ok bus' -> bus_typed bus -> bus_typed bus'.
Proof. unfold wire. intros Hw Hb. simpl_results. by apply subscribe_typed. Qed.

(** [p] emits only events ranked below [n]. *)
Fixpoint emits_below (rank : ty -> nat) (n : nat) (p : program W) : Prop :=
  match p with
  | Return | Panics => True
  | Step f k => forall w, emits_below rank n (k w)
  | EmitThen e _ k => (rank e < n)%nat /\ emits_below rank n k
  end.

(** No cycle of events: what handles an event emits lower ones. *)
Definition ranked (rank : ty -> nat) (bus : event_bus) : Prop :=
  forall e hs h, handlers bus !! e = Some hs -> h ∈ hs -> forall ev, emits_below rank (rank e) (handle (hf_self h) (hf_handler h) ev).

(** The calls of a log that deliver an event of type [e]. *)
Definition calls_of (e : ty) (log : list call) : list call := filter (fun c => cl_event_ty c = e) log.

(** The state a run leaves, whether it returned or panicked. *)
Definition left_by (o : result (state (W := W)) (state (W := W))) : state (W := W) :=
  match o with Ok s | Err s => s end.

(** A run that ends, and adds no delivery of the events ranked [n] or more. *)
Definition settles (rank : ty -> nat) (n : nat) (s : state (W := W)) (r : run_result (W := W)) : Prop :=
  exists o, r = Some o /\ forall e, (n <= rank e)%nat -> calls_of e (left_by o).2 = calls_of e s.2.

Lemma settles_and_then rank n s r k : settles rank n s r -> (forall s', settles rank n s' (k s')) ->
  settles rank n s (and_then r k).
Proof.
  intros ([s1|s1] & -> & Hr) Hk; [|by exists (Err s1)]. cbn.
  destruct (Hk s1) as (o & Ho & Hs). exists o. split; [done|]. intros e He. rewrite Hs by done. by apply Hr.
Qed.

Lemma run_program_settles rank n emit p s : emits_below rank n p ->
  (forall e ev s, (rank e < n)%nat -> settles rank n s (emit e ev s)) -> settles rank n s (run_program emit p s).
Proof.
  intros Hp Hemit. revert s. induction p as [| |f k IH|e ev k IH]; intros s; cbn [run_program].
  - by exists (Ok s).
  - by exists (Err s).
  - destruct (IH (f s.1) (Hp _) (f s.1, s.2)) as (o & Ho & Hs). exists o. by split.
  - destruct Hp as [He Hk]. apply settles_and_then; [by apply Hemit|]. intros s'. by apply IH.
Qed.

Lemma calls_of_snoc e log c : calls_of e (log ++ [c]) = calls_of e log ++ (if decide (cl_event_ty c = e) then [c] else []).
Proof. unfold calls_of. by rewrite filter_app. Qed.

(** The deliveries of [e] a dispatch over [hs] makes: to all of them, or up to the one that panics. *)
Definition delivers (e : ty) (ev : val) (hs : list handler_fn) (s : state (W := W)) (o : result (state (W := W)) (state (W := W)))
  : Prop :=
  exists k, calls_of e (left_by o).2 = calls_of e s.2 ++ map (fun h => Call (hf_self h) e ev) (take k hs) /\
    match o with Ok _ => k = length hs | Err _ => (0 < k <= length hs)%nat end.

Lemma run_handlers_spec rank emit hs e ev s :
  Forall (fun h => hf_event h = e /\ event_of (hf_self h) = e) hs ->
  (forall h, h ∈ hs -> emits_below rank (rank e) (handle (hf_self h) (hf_handler h) ev)) ->
  (forall e' ev' s', (rank e' < rank e)%nat -> settles rank (rank e) s' (emit e' ev' s')) ->
  exists o, run_handlers emit hs e ev s = Some o /\ delivers e ev hs s o /\
    forall e', (rank e <= rank e')%nat -> e' <> e -> calls_of e' (left_by o).2 = calls_of e' s.2.
Proof.
  intros Hty Hbelow Hemit. revert s. induction Hty as [|h hs [Hh _] Hty IH]; intros s.
  { exists (Ok s). split; [done|]. split; [|done]. exists 0%nat. by rewrite app_nil_r. }
  cbn [run_handlers]. unfold call_handler. rewrite Hh, downcast_same.
  destruct (run_program_settles rank (rank e) emit (handle (hf_self h) (hf_handler h) ev)
    (s.1, s.2 ++ [Call (hf_self h) e ev])) as (o1 & -> & Hs1); [apply Hbelow; left|done|].
  assert (Hfirst : calls_of e (left_by o1).2 = calls_of e s.2 ++ [Call (hf_self h) e ev]).
  { rewrite Hs1 by done. cbn [snd]. by rewrite calls_of_snoc, decide_True. }
  assert (Hothers : forall e', (rank e <= rank e')%nat -> e' <> e -> calls_of e' (left_by o1).2 = calls_of e' s.2).
  { intros e' Hle Hne. rewrite Hs1 by done. cbn [snd].
    by rewrite calls_of_snoc, decide_False, app_nil_r by (cbn; congruence). }
  destruct o1 as [s1|s1]; cbn [and_then].
  - destruct (IH (fun h' Hin => Hbelow h' (list_elem_of_further _ _ _ Hin)) s1) as (o & Ho & (k & Hk & Hend) & Hs).
    exists o. split; [done|]. split.
    + exists (S k). cbn in Hfirst. rewrite Hk, Hfirst, <-app_assoc. split; [done|]. destruct o; cbn [length]; lia.
    + intros e' Hle Hne. rewrite Hs by done. by apply Hothers.
  - exists (Err s1). split; [done|]. split; [|done]. exists 1%nat. split; [done|]. cbn [length]. lia.
Qed.

Lemma emit_settles rank bus fuel e ev s : bus_typed bus -> ranked rank bus -> (rank e < fuel)%nat ->
  exists o, emit fuel bus e ev s = Some o /\ delivers e ev (default [] (handlers bus !! e)) s o /\
    forall e', (rank e <= rank e')%nat -> e' <> e -> calls_of e' (left_by o).2 = calls_of e' s.2.
Proof.
  intros Hty Hrank. revert e ev s. induction fuel as [|fuel IH]; intros e ev s Hlt; [lia|]. cbn [emit].
  destruct (handlers bus !! e) as [hs|] eqn:E; cbn [default from_option id].
  - apply run_handlers_spec; [by apply (Hty e hs)|intros h Hh; by apply (Hrank e hs)|].
    intros e' ev' s' He'. destruct (IH e' ev' s') as (o & Ho & _ & Hs); [lia|]. exists o. split; [done|].
    intros e1 He1. apply Hs; [lia|]. intros ->. lia.
  - exists (Ok s). split; [done|]. split; [|done]. exists 0%nat. by rewrite app_nil_r.
Qed.

(** ** Wiring *)

Lemma subscribe_lookup e h bus e' :
  default [] (handlers (subscribe e h bus) !! e') = default [] (handlers bus !! e') ++ (if decide (e = e') then [h] else []).
Proof.
  unfold subscribe. cbn [handlers]. destruct (decide (e = e')) as [->|].
  - by rewrite lookup_insert_eq.
  - by rewrite lookup_insert_ne, app_nil_r.
Qed.

(** The subscriptions a successful wiring makes for [e]: one per handler of that event, in order. *)
Lemma wired_lookup c ms bus bus' : for_each (fun bus m => wire m c bus) ms bus = Ok bus' ->
  (bus_typed bus -> bus_typed bus') /\
  forall e, map hf_self (default [] (handlers bus' !! e))
    = map hf_self (default [] (handlers bus !! e)) ++ map eh_self (filter (fun m => event_of (eh_self m) = e) ms).
Proof.
  revert bus. induction ms as [|m ms IH]; intros bus; cbn [for_each].
  { intros [= <-]. split; [done|]. intros e. by rewrite app_nil_r. }
  intros Hw. destruct (wire m c bus) as [bus1|] eqn:E; [|done]. destruct (IH _ Hw) as [Hty Hl]. split.
  { intros Hb. eapply Hty, wire_typed; eauto. }
  intros e. rewrite Hl. unfold wire in E. simpl_results. rewrite subscribe_lookup, map_app, <-app_assoc. f_equal.
  destruct (decide (event_of (eh_self m) = e)).
  - by rewrite filter_cons_True.
  - by rewrite filter_cons_False.
Qed.

Lemma event_bus_new_typed : bus_typed event_bus_new.
Proof. intros e hs. unfold event_bus_new. cbn [handlers]. by rewrite lookup_empty. Qed.

(** Handlers none of which can set off its own event again. *)
Definition acyclic (rank : ty -> nat) : Prop := forall self v ev, emits_below rank (rank (event_of self)) (handle self v ev).

Lemma acyclic_ranked rank bus : acyclic rank -> bus_typed bus -> ranked rank bus.
Proof.
  intros Ha Hb e hs h Hl Hh ev. destruct (proj1 (Forall_forall _ _) (Hb e hs Hl) h Hh) as [_ <-]. apply Ha.
Qed.

(** [C20] An emitted event reaches the handlers the application listed.  Once the bootstrap hook has wired
    a container that binds the bus, [emit] terminates when no handler can set its own event off again, and
    it delivers the event to each [#[on_event]] provider of that type exactly once per attachment, in the
    order they were attached; it stops early only where a handler panics. *)
Theorem event_reaches_every_listed_handler (rank : ty -> nat) (rs : list registration) (bus_value : val)
    (bus : event_bus) (e : ty) (ev : val) (s : state (W := W)) (fuel : nat) :
  acyclic rank ->
  get t_event_bus (build (apply_registrations rs builder_new)) = Some bus_value ->
  wire_handlers (build (apply_registrations rs builder_new)) event_bus_new = Ok bus ->
  (rank e < fuel)%nat ->
  let listed := filter (fun m => event_of (eh_self m) = e)
                  (omap (fun d => event_meta_of d.1) (meta_bindings t_event_handler_meta rs)) in
  exists o k, emit fuel bus e ev s = Some o /\
    calls_of e (left_by o).2 = calls_of e s.2 ++ map (fun m => Call (eh_self m) e ev) (take k listed) /\
    match o with Ok _ => k = length listed | Err _ => (0 < k <= length listed)%nat end.
Proof.
  intros Ha Hget Hwire Hfuel. unfold wire_handlers in Hwire. rewrite Hget in Hwire.
  unfold discovered_handlers in Hwire. rewrite discovery_meta_bindings in Hwire.
  destruct (wired_lookup _ _ _ _ Hwire) as [Hty Hsubs]. specialize (Hty event_bus_new_typed). specialize (Hsubs e).
  destruct (emit_settles rank bus fuel e ev s Hty (acyclic_ranked _ _ Ha Hty) Hfuel) as (o & Ho & (k & Hk & Hend) & _).
  assert (Hnew : default [] (handlers event_bus_new !! e) = []) by (unfold event_bus_new; cbn [handlers]; by rewrite lookup_empty).
  rewrite Hnew in Hsubs. cbn [map app] in Hsubs. intros listed. fold listed in Hsubs. exists o, k. split; [done|].
  assert (Hlen : length (default [] (handlers bus !! e)) = length listed).
  { rewrite <-(length_map hf_self), Hsubs. by rewrite length_map. }
  split; [|by rewrite <-Hlen].
  rewrite Hk. f_equal. rewrite <-!firstn_map. f_equal.
  by rewrite <-(map_map hf_self (fun t => Call t e ev)), Hsubs, map_map.
Qed.

End dispatch.

(** ** Two events: a registration sends a mail, whose sending is audited *)

Module EventsDemo.

#[export] Instance event_payloads : Payloads :=
  {| val := nat + event_handler_meta; scoped_fn := nat; factory_fn := nat; failure := string |}.

#[export] Instance event_compiler : Compiler := CodegenDemo.demo_compiler.

#[export] Instance event_structs : @Structs event_payloads :=
  { construct := fun _ vs => inl (length vs) : @val event_payloads;
    default_value := fun _ => inl 0 : @val event_payloads;
    scoped_ctor := fun _ => 0 : @scoped_fn event_payloads; interceptor_meta := fun v => v }.

#[export] Instance event_metas : EventMetas :=
  {| event_meta := fun m => inr m : @val event_payloads;
     event_meta_of := fun v : @val event_payloads => match v with inr m => Some m | inl _ => None end;
     event_meta_of_meta := fun m => eq_refl |}.

Definition unit_struct (n : string) : item_struct := ItemStruct n FieldsUnit.

(** Handlers of [UserRegistered]: [Welcome] emits [MailSent]; a mail of 13 makes [Deliver] panic. *)
#[export] Instance event_code : EventCode (list string) :=
  {| event_of := fun self => TNamed (if decide (self = TNamed "Deliver") then "MailSent" else "UserRegistered");
     from_container_of := fun self => eval_ctor "unit" (CtorUnit);
     handle := fun self _ ev =>
       if decide (self = TNamed "Welcome") then EmitThen (TNamed "MailSent") ev (Step (fun w => w ++ ["welcomed"]) (fun _ => Return))
       else if decide (self = TNamed "Deliver") then
         match ev with inl 13 => Panics | _ => Step (fun w => w ++ ["delivered"]) (fun _ => Return) end
       else Step (fun w => w ++ ["counted"]) (fun _ => Return) |}.

Definition listed (n : string) : list registration :=
  match on_event (TNamed n) true (unit_struct n) with
  | Ok d => match d_register d builder_new with Ok rs => rs | Err _ => [] end
  | Err _ => []
  end.

(** [#[module(imports = [EventModule], providers = [Count, Welcome, Deliver])]] *)
Definition app_registrations : list registration :=
  [RMarkRegistered t_event_module; RProvideArc t_event_bus (inl 0)] ++ listed "Count" ++ listed "Welcome" ++ listed "Deliver".
Definition app_container : container := build (apply_registrations app_registrations builder_new).
Definition wired : event_bus := match wire_handlers app_container event_bus_new with Ok bus => bus | Err _ => event_bus_new end.

Definition event_rank (e : ty) : nat := if decide (e = TNamed "UserRegistered") then 1 else 0.

Definition registered : ty := TNamed "UserRegistered".
Definition mail_sent : ty := TNamed "MailSent".
Definition start : state (W := list string) := ([], []).

Example registration_welcomes_and_delivers :
  emit 2 wired registered (inl 5) start =
  Some (Ok (["counted"; "delivered"; "welcomed"],
            [Call (TNamed "Count") registered (inl 5); Call (TNamed "Welcome") registered (inl 5);
             Call (TNamed "Deliver") mail_sent (inl 5)])).
Proof. vm_compute. reflexivity. Qed.

Definition listed_for (e : ty) : list event_handler_meta :=
  filter (fun m => event_of (eh_self m) = e)
    (omap (fun d : val * option ty => event_meta_of d.1) (meta_bindings t_event_handler_meta app_registrations)).

Example listed_for_registered :
  listed_for registered = [EventHandlerMeta "Count" (TNamed "Count"); EventHandlerMeta "Welcome" (TNamed "Welcome")].
Proof. vm_compute. reflexivity. Qed.

Lemma event_reaches_every_listed_handler_witness :
  exists o k, emit 2 wired registered (inl 13) start = Some o /\
    calls_of registered (left_by o).2 = calls_of registered start.2 ++ map (fun m => Call (eh_self m) registered (inl 13)) (take k (listed_for registered)) /\
    match o with Ok _ => k = length (listed_for registered) | Err _ => (0 < k <= length (listed_for registered))%nat end.
Proof.
  apply (event_reaches_every_listed_handler event_rank app_registrations (inl 0) wired registered (inl 13) start 2).
  - intros self v ev. cbn.
    destruct (decide (self = TNamed "Welcome")) as [->|]; [vm_compute; split; [lia|done]|].
    destruct (decide (self = TNamed "Deliver")) as [->|]; [|done].
    destruct ev as [k|]; [|done]. by do 14 (destruct k as [|k]; try done).
  - reflexivity.
  - reflexivity.
  - vm_compute. lia.
Defined.

(** The hooks of the phase: the module's own, and an application hook that emits. *)
#[export] Instance event_hooks : HookCode :=
  {| world := event_bus * state (W := list string);
     call_hook := fun self m _ w =>
       if decide (m = "wire_handlers") then
         match wire_handlers app_container w.1 with Ok bus => (Ok tt, (bus, w.2)) | Err _ => (Err "panic" : result unit failure, w) end
       else match emit 2 w.1 registered (inl 5) w.2 with
            | Some (Ok s) => (Ok tt, (w.1, s))
            | _ => (Err "panic", w)
            end |}.

(** A bootstrap hook that emits [UserRegistered]. *)
Definition announcing (provider : string) : lifecycle_hook :=
  LifecycleHook OnApplicationBootstrap provider "announce" t_event_bus true.

Definition delivered_after (inventory : list lifecycle_hook) (inits : nat) : list string :=
  (Nat.iter inits (fun w => (app_init inventory app_container w).1.2) (event_bus_new, start)).2.1.

(** Hooks run by provider name: what a provider before "EventModule" emits at bootstrap is lost. *)
Example event_before_wiring_is_lost :
  delivered_after [wire_hook; announcing "Outbox"] 1 = ["counted"; "delivered"; "welcomed"] /\
  delivered_after [wire_hook; announcing "Announcer"] 1 = [].
Proof. split; vm_compute; reflexivity. Qed.

(** A second bootstrap ([init] and then [run]) subscribes every handler again. *)
Example second_bootstrap_doubles_deliveries :
  delivered_after [wire_hook; announcing "Outbox"] 2 =
  ["counted"; "delivered"; "welcomed"; "counted"; "delivered"; "delivered"; "welcomed"; "counted"; "delivered"; "delivered"; "welcomed"].
Proof. vm_compute. reflexivity. Qed.

End EventsDemo.
