(* ===== verification/Authz.v ===== *)
(** Authorization: the transport-agnostic engine of [nestrs-authz] — predicates
    ([predicate.rs]), the rule builder ([builder.rs]) and the compiled [Ability] with its three
    layers ([ability.rs]), and the ambient ability ([context.rs]).

    The ORM is a parameter: [Orm] names the operations of sea-orm and sea-query the code calls,
    [SqlSemantics] what is documented of the WHERE clauses they build, in SQL's three-valued
    logic. *)

From S2P Require Import Prelude Container.

(** ** Vocabulary *)

Inductive action := Read | Create | Update | Delete | Manage.

#[export] Instance action_eq_dec : EqDecision action.
Proof. solve_decision. Defined.

Definition action_code (a : action) : nat :=
  match a with Read => 0 | Create => 1 | Update => 2 | Delete => 3 | Manage => 4 end.

Definition action_decode (n : nat) : action :=
  match n with 0 => Read | 1 => Create | 2 => Update | 3 => Delete | _ => Manage end.

#[export] Instance action_countable : Countable action.
Proof. apply (inj_countable' action_code action_decode). by intros []. Defined.

(** The ORM's types and operations. *)
Class Orm := {
  column : Type;
  value : Type;
  model : Type;
  as_str : column -> string;                    (* [IdenStatic::as_str] *)
  model_get : model -> column -> value;         (* [ModelTrait::get] *)
  value_eqb : value -> value -> bool;           (* [PartialEq for Value] *)
  to_value : model -> option json;              (* [serde_json::to_value] *)
  condition : Type;
  sql_expr : Type;
  condition_all : condition;
  condition_any : condition;
  condition_add : condition -> condition -> condition;
  condition_add_expr : condition -> sql_expr -> condition;
  condition_not : condition -> condition;
  condition_is_empty : condition -> bool;
  col_eq : column -> value -> sql_expr;
  col_is_in : column -> list value -> sql_expr;
  expr_cust : string -> sql_expr
}.

(** ** Predicates *)

Inductive predicate `{Orm} :=
| Always
| PEq (c : column) (v : value)
| PIn (c : column) (vs : list value)
| PAnd (parts : list predicate)
| POr (parts : list predicate)
| PNot (inner : predicate).

Section predicates.
Context `{Orm}.

Fixpoint to_condition (p : predicate) : condition :=
  match p with
  | Always => condition_all
  | PEq col v => condition_add_expr condition_all (col_eq col v)
  | PIn col vs => condition_add_expr condition_all (col_is_in col vs)
  | PAnd parts => foldl condition_add condition_all (map to_condition parts)
  | POr parts => foldl condition_add condition_any (map to_condition parts)
  | PNot inner => condition_not (to_condition inner)
  end.

Fixpoint matches (p : predicate) (m : model) : bool :=
  match p with
  | Always => true
  | PEq col v => value_eqb (model_get m col) v
  | PIn col vs => let actual := model_get m col in existsb (fun v => value_eqb v actual) vs
  | PAnd parts => forallb (fun p => matches p m) parts
  | POr parts => existsb (fun p => matches p m) parts
  | PNot inner => negb (matches inner m)
  end.

End predicates.

(** ** Rules and abilities *)

Inductive field_set :=
| AllFields
| OnlyFields (cols : gset string).

Section ability.
Context `{Orm}.

(** The type-erased [Box<dyn Any>] holding a [Predicate<E>]. *)
Record any_predicate := AnyPredicate { ap_entity : ty; ap_predicate : predicate }.

Record rule := Rule {
  inverted : bool;
  rule_condition : condition;
  rule_predicate : any_predicate;
  rule_fields : field_set
}.

Record ability := Ability { rules : gmap (action * ty) (list rule) }.

Definition ability_default : ability := Ability ∅.

Definition add_rule (a : action) (subject : ty) (r : rule) (ab : ability) : ability :=
  Ability (<[(a, subject) := default [] (rules ab !! (a, subject)) ++ [r]]> (rules ab)).

Definition rules_for (ab : ability) (a : action) (subject : ty) : list rule :=
  let specific := default [] (rules ab !! (a, subject)) in
  let wildcard := if decide (a = Manage) then None else rules ab !! (Manage, subject) in
  specific ++ default [] wildcard.

(** Layer 1. *)
Definition can_class (ab : ability) (a : action) (subject : ty) : bool :=
  existsb (fun r => negb (inverted r)) (rules_for ab a subject).

(** Layer 2. *)
Definition condition_for (ab : ability) (a : action) (e : ty) : condition :=
  let '(grant, deny) :=
    foldl (fun gd r =>
      if inverted r then (gd.1, condition_add gd.2 (rule_condition r))
      else (condition_add gd.1 (rule_condition r), gd.2))
      (condition_any, condition_any) (rules_for ab a e) in
  if condition_is_empty grant then condition_add_expr condition_all (expr_cust "1 = 0")
  else
    let out := condition_add condition_all grant in
    if negb (condition_is_empty deny) then condition_add out (condition_not deny) else out.

(** [predicate_of]: [None] is the [expect] failing. *)
Definition predicate_of (e : ty) (r : rule) : option predicate :=
  if decide (ap_entity (rule_predicate r) = e) then Some (ap_predicate (rule_predicate r)) else None.

(** The loop of [can]; [None] is a panic. *)
Fixpoint can_loop (e : ty) (m : model) (rs : list rule) (allowed : bool) : option bool :=
  match rs with
  | [] => Some allowed
  | r :: rs' =>
      p ← predicate_of e r;
      if matches p m then if inverted r then Some false else can_loop e m rs' true
      else can_loop e m rs' allowed
  end.

(** Layer 3. *)
Definition can (ab : ability) (a : action) (e : ty) (m : model) : option bool :=
  can_loop e m (rules_for ab a e) false.

Fixpoint permitted_loop (e : ty) (m : model) (rs : list rule) (acc : gset string)
  : option field_set :=
  match rs with
  | [] => Some (OnlyFields acc)
  | r :: rs' =>
      p ← predicate_of e r;
      if negb (matches p m) then permitted_loop e m rs' acc
      else
        match rule_fields r with
        | AllFields => Some AllFields
        | OnlyFields cols => permitted_loop e m rs' (acc ∪ cols)
        end
  end.

Definition permitted_fields (ab : ability) (a : action) (e : ty) (m : model) : option field_set :=
  permitted_loop e m (filter (fun r => inverted r = false) (rules_for ab a e)) ∅.

Definition mask (ab : ability) (a : action) (e : ty) (m : model) : option json :=
  let j := default JNull (to_value m) in
  fs ← permitted_fields ab a e m;
  Some (match fs, j with
        | OnlyFields allowed, JObject members => JObject (filter (fun kv => kv.1 ∈ allowed) members)
        | _, _ => j
        end).

Fixpoint mask_many (ab : ability) (a : action) (e : ty) (models : list model) : option (list json) :=
  match models with
  | [] => Some []
  | m :: models' =>
      ok ← can ab a e m;
      if ok : bool then
        j ← mask ab a e m; rest ← mask_many ab a e models'; Some (j :: rest)
      else mask_many ab a e models'
  end.

(** ** The builder *)

(** A statement [ab.can(action, Subject).when(..).fields(..);] of a factory's [define]; the
    [RuleSpec] commits when it is dropped at the end of the statement. *)
Record rule_spec := RuleSpec {
  rs_action : action;
  rs_subject : ty;
  rs_inverted : bool;
  rs_predicate : predicate;
  rs_fields : field_set
}.

Definition spec_can (a : action) (e : ty) : rule_spec := RuleSpec a e false Always AllFields.
Definition spec_cannot (a : action) (e : ty) : rule_spec := RuleSpec a e true Always AllFields.

Definition spec_when (p : predicate) (s : rule_spec) : rule_spec :=
  RuleSpec (rs_action s) (rs_subject s) (rs_inverted s) p (rs_fields s).

Definition spec_fields (columns : list column) (s : rule_spec) : rule_spec :=
  RuleSpec (rs_action s) (rs_subject s) (rs_inverted s) (rs_predicate s)
    (OnlyFields (list_to_set (map as_str columns))).

Definition spec_drop (s : rule_spec) (ab : ability) : ability :=
  add_rule (rs_action s) (rs_subject s)
    {| inverted := rs_inverted s; rule_condition := to_condition (rs_predicate s);
       rule_predicate := AnyPredicate (rs_subject s) (rs_predicate s); rule_fields := rs_fields s |} ab.

(** [AbilityFactory::define] on a new builder, then [build]. *)
Definition define (specs : list rule_spec) : ability :=
  foldl (fun ab s => spec_drop s ab) ability_default specs.

(** The declarations that bear on [a] and [e]. *)
Definition relevant (specs : list rule_spec) (a : action) (e : ty) (s : rule_spec) : Prop :=
  s ∈ specs /\ rs_subject s = e /\ (rs_action s = a \/ rs_action s = Manage).

(** ** The ambient ability: the task-local of [context.rs] *)

Definition current_ability (ambient : option ability) : option ability := ambient.

(** [with_ability ab fut]: the inner future runs with the task-local set, the outer value is
    back afterwards. *)
Definition with_ability {A} (ab : ability) (fut : option ability -> A) (ambient : option ability) : A :=
  fut (Some ab).

End ability.

(** ** SQL's three-valued logic *)

Inductive tri := TTrue | TFalse | TUnknown.

#[export] Instance tri_eq_dec : EqDecision tri.
Proof. solve_decision. Defined.

Definition tri_of (b : bool) : tri := if b then TTrue else TFalse.

Definition tri_not (t : tri) : tri :=
  match t with TTrue => TFalse | TFalse => TTrue | TUnknown => TUnknown end.

Definition tri_and (s t : tri) : tri :=
  match s, t with
  | TFalse, _ | _, TFalse => TFalse
  | TTrue, TTrue => TTrue
  | _, _ => TUnknown
  end.

Definition tri_or (s t : tri) : tri := tri_not (tri_and (tri_not s) (tri_not t)).

Definition tri_all (l : list tri) : tri := foldr tri_and TTrue l.
Definition tri_any (l : list tri) : tri := foldr tri_or TFalse l.

(** What the database makes of a condition on a row (given by its model), as documented: an
    [all] is the conjunction of what was added, an [any] the disjunction, a comparison is
    unknown when either side is NULL, [IN] is the disjunction of the comparisons.  Two values
    that are not NULL are equal to the database when they are to Rust where they are [comparable]:
    the same variant of [Value], whose equality the column type and its collation do not coarsen.
    Nothing is assumed of the others, which [Predicate::eq] accepts as well. *)
Class SqlSemantics `{Orm} := {
  is_null : value -> bool;
  holds : condition -> model -> tri;
  sql_eq : value -> value -> tri;
  comparable : value -> value -> bool;
  sql_eq_null u v : is_null u || is_null v = true -> sql_eq u v = TUnknown;
  sql_eq_value u v : comparable u v = true -> is_null u = false -> is_null v = false -> sql_eq u v = tri_of (value_eqb u v);
  value_eqb_sym u v : value_eqb u v = value_eqb v u;
  holds_all l m : holds (foldl condition_add condition_all l) m = tri_all (map (fun c => holds c m) l);
  holds_any l m : holds (foldl condition_add condition_any l) m = tri_any (map (fun c => holds c m) l);
  holds_not c m : holds (condition_not c) m = tri_not (holds c m);
  holds_eq c v m : holds (condition_add_expr condition_all (col_eq c v)) m = sql_eq (model_get m c) v;
  holds_in c vs m : holds (condition_add_expr condition_all (col_is_in c vs)) m =
                      tri_any (map (sql_eq (model_get m c)) vs);
  holds_never m : holds (condition_add_expr condition_all (expr_cust "1 = 0")) m = TFalse;
  any_is_empty l : condition_is_empty (foldl condition_add condition_any l) = bool_decide (l = [])
}.

(** A WHERE clause keeps the rows it is true of. *)
Definition selects `{SqlSemantics} (c : condition) (m : model) : Prop := holds c m = TTrue.

#[export] Instance selects_dec `{SqlSemantics} c m : Decision (selects c m).
Proof. unfold selects. apply _. Defined.

(** ** Lemmas on predicates *)

Section predicate_lemmas.
Context `{Orm}.

(** Induction through the nested lists. *)
Lemma predicate_ind' (P : predicate -> Prop) :
  P Always -> (forall c v, P (PEq c v)) -> (forall c vs, P (PIn c vs)) ->
  (forall ps, Forall P ps -> P (PAnd ps)) -> (forall ps, Forall P ps -> P (POr ps)) ->
  (forall p, P p -> P (PNot p)) -> forall p, P p.
Proof.
  intros H0 H1 H2 H3 H4 H5. fix IH 1. intros [|c v|c vs|ps|ps|p]; [exact H0|apply H1|apply H2| | |apply H5, IH].
  - apply H3. induction ps as [|p ps IHps]; constructor; [apply IH|exact IHps].
  - apply H4. induction ps as [|p ps IHps]; constructor; [apply IH|exact IHps].
Qed.

(** A truth value whose definite cases agree with a boolean. *)
Definition refines (t : tri) (b : bool) : Prop :=
  match t with TTrue => b = true | TFalse => b = false | TUnknown => True end.

Lemma refines_not t b : refines t b -> refines (tri_not t) (negb b).
Proof. destruct t; simpl; intros; by subst. Qed.

Lemma refines_and s t b c : refines s b -> refines t c -> refines (tri_and s t) (b && c).
Proof. destruct s, t, b, c; simpl; congruence. Qed.

Lemma refines_or s t b c : refines s b -> refines t c -> refines (tri_or s t) (b || c).
Proof. destruct s, t, b, c; simpl; congruence. Qed.

Lemma refines_all {X} (f : X -> tri) (g : X -> bool) l :
  Forall (fun x => refines (f x) (g x)) l -> refines (tri_all (map f l)) (forallb g l).
Proof. induction 1; simpl; [done|by apply refines_and]. Qed.

Lemma refines_any {X} (f : X -> tri) (g : X -> bool) l :
  Forall (fun x => refines (f x) (g x)) l -> refines (tri_any (map f l)) (existsb g l).
Proof. induction 1; simpl; [done|by apply refines_or]. Qed.

Lemma tri_of_and b c : tri_and (tri_of b) (tri_of c) = tri_of (b && c).
Proof. by destruct b, c. Qed.

Lemma tri_of_or b c : tri_or (tri_of b) (tri_of c) = tri_of (b || c).
Proof. by destruct b, c. Qed.

Lemma tri_of_not b : tri_not (tri_of b) = tri_of (negb b).
Proof. by destruct b. Qed.

Lemma tri_all_of {X} (f : X -> tri) (g : X -> bool) l :
  Forall (fun x => f x = tri_of (g x)) l -> tri_all (map f l) = tri_of (forallb g l).
Proof. induction 1 as [|x l Hx _ IH]; simpl; [done|]. by rewrite Hx, IH, tri_of_and. Qed.

Lemma tri_any_of {X} (f : X -> tri) (g : X -> bool) l :
  Forall (fun x => f x = tri_of (g x)) l -> tri_any (map f l) = tri_of (existsb g l).
Proof. induction 1 as [|x l Hx _ IH]; simpl; [done|]. by rewrite Hx, IH, tri_of_or. Qed.

End predicate_lemmas.

Section semantics.
Context `{SqlSemantics}.

(** A comparison whose answer is documented. *)
Definition compares (u v : value) : bool := is_null u || is_null v || comparable u v.

(** Every comparison [p] makes on [m] is. *)
Fixpoint typed (m : model) (p : predicate) : bool :=
  match p with
  | Always => true
  | PEq c v => compares (model_get m c) v
  | PIn c vs => forallb (compares (model_get m c)) vs
  | PAnd ps => forallb (typed m) ps
  | POr ps => forallb (typed m) ps
  | PNot p => typed m p
  end.

(** The rules that bear on [a] and [e] are, on [m]. *)
Definition well_typed (specs : list rule_spec) (a : action) (e : ty) (m : model) : Prop :=
  forall s, relevant specs a e s -> typed m (rs_predicate s) = true.

Lemma sql_eq_refines u v : compares u v = true -> refines (sql_eq u v) (value_eqb u v).
Proof.
  unfold compares. destruct (is_null u || is_null v) eqn:E; [by rewrite sql_eq_null|]. intros Hc.
  apply orb_false_iff in E as [? ?]. rewrite sql_eq_value by done. by destruct (value_eqb u v).
Qed.

(** The two readings of a predicate: SQL's verdict, when definite, is the in-memory one. *)
Lemma to_condition_refines p m : typed m p = true -> refines (holds (to_condition p) m) (matches p m).
Proof.
  assert (Hall : forall ps, forallb (typed m) ps = true ->
    Forall (fun p => typed m p = true -> refines (holds (to_condition p) m) (matches p m)) ps ->
    Forall (fun p => refines (holds (to_condition p) m) (matches p m)) ps).
  { intros ps Ht IH. rewrite Forall_forall in IH |- *. intros q Hq. apply IH; [done|].
    rewrite forallb_forall in Ht. by apply Ht, list_elem_of_In. }
  induction p as [|c v|c vs|ps IH|ps IH|p IH] using predicate_ind'; simpl; intros Ht.
  - pose proof (holds_all [] m) as E. simpl in E. by rewrite E.
  - rewrite holds_eq. by apply sql_eq_refines.
  - rewrite holds_in. apply refines_any, Forall_forall. intros v Hin%list_elem_of_In. rewrite forallb_forall in Ht.
    rewrite value_eqb_sym. by apply sql_eq_refines, Ht.
  - rewrite holds_all, map_map. by apply refines_all, Hall.
  - rewrite holds_any, map_map. by apply refines_any, Hall.
  - rewrite holds_not. by apply refines_not, IH.
Qed.

(** Every comparison of [p] is between non-NULL values on [m]. *)
Fixpoint definite (m : model) (p : predicate) : bool :=
  match p with
  | Always => true
  | PEq c v => negb (is_null (model_get m c)) && negb (is_null v)
  | PIn c vs => negb (is_null (model_get m c)) && forallb (fun v => negb (is_null v)) vs
  | PAnd ps => forallb (definite m) ps
  | POr ps => forallb (definite m) ps
  | PNot p => definite m p
  end.

Lemma to_condition_definite p m : definite m p = true -> typed m p = true -> holds (to_condition p) m = tri_of (matches p m).
Proof.
  induction p as [|c v|c vs|ps IH|ps IH|p IH] using predicate_ind'; simpl; intros Hd Ht.
  - pose proof (holds_all [] m) as E. simpl in E. by rewrite E.
  - apply andb_true_iff in Hd as [Hc%negb_true_iff Hv%negb_true_iff]. unfold compares in Ht. rewrite Hc, Hv in Ht.
    by rewrite holds_eq, sql_eq_value.
  - apply andb_true_iff in Hd as [Hc%negb_true_iff Hv]. rewrite holds_in.
    apply tri_any_of, Forall_forall. intros v Hin%list_elem_of_In. rewrite forallb_forall in Hv, Ht.
    specialize (Ht v Hin). apply Hv, negb_true_iff in Hin. unfold compares in Ht. rewrite Hc, Hin in Ht.
    by rewrite value_eqb_sym, sql_eq_value.
  - rewrite holds_all, map_map. apply tri_all_of. rewrite Forall_forall in IH |- *.
    intros q Hq. rewrite forallb_forall in Hd, Ht. by apply IH; [|apply Hd, list_elem_of_In|apply Ht, list_elem_of_In].
  - rewrite holds_any, map_map. apply tri_any_of. rewrite Forall_forall in IH |- *.
    intros q Hq. rewrite forallb_forall in Hd, Ht. by apply IH; [|apply Hd, list_elem_of_In|apply Ht, list_elem_of_In].
  - rewrite holds_not, IH by done. apply tri_of_not.
Qed.

End semantics.

(** ** Lemmas on abilities *)

Section ability_lemmas.
Context `{Orm}.
Implicit Types (r : rule) (s : rule_spec) (specs : list rule_spec) (m : model).

(** The rule a declaration commits. *)
Definition rule_of s : rule :=
  {| inverted := rs_inverted s; rule_condition := to_condition (rs_predicate s);
     rule_predicate := AnyPredicate (rs_subject s) (rs_predicate s); rule_fields := rs_fields s |}.

Lemma define_lookup specs a e :
  default [] (rules (define specs) !! (a, e)) =
    map rule_of (filter (fun s => rs_action s = a /\ rs_subject s = e) specs).
Proof.
  unfold define. induction specs as [|s specs IH] using rev_ind; [done|].
  rewrite foldl_app. simpl. rewrite filter_app, map_app, <- IH.
  destruct (decide (rs_action s = a /\ rs_subject s = e)) as [[<- <-]|Hne].
  - rewrite lookup_insert_eq, filter_cons_True by done. done.
  - rewrite lookup_insert_ne by (intros [=]; tauto). rewrite filter_cons_False by done.
    by rewrite app_nil_r.
Qed.

(** The declarations read for [a] on [e], in the order [rules_for] visits them. *)
Definition specs_for specs a e : list rule_spec :=
  filter (fun s => rs_action s = a /\ rs_subject s = e) specs ++
  (if decide (a = Manage) then []
   else filter (fun s => rs_action s = Manage /\ rs_subject s = e) specs).

Lemma rules_for_define specs a e : rules_for (define specs) a e = map rule_of (specs_for specs a e).
Proof.
  unfold rules_for, specs_for. rewrite map_app, define_lookup. f_equal.
  case_decide; [done|]. by rewrite <- define_lookup.
Qed.

Lemma elem_of_specs_for specs a e s : s ∈ specs_for specs a e <-> relevant specs a e s.
Proof.
  unfold specs_for, relevant. rewrite elem_of_app, list_elem_of_filter.
  case_decide as Ha; [|rewrite list_elem_of_filter]; [rewrite elem_of_nil|]; naive_solver.
Qed.

Lemma can_loop_spec e m (l : list rule_spec) allowed : Forall (fun s => rs_subject s = e) l ->
  can_loop e m (map rule_of l) allowed =
    Some ((allowed || existsb (fun s => negb (rs_inverted s) && matches (rs_predicate s) m) l) &&
          negb (existsb (fun s => rs_inverted s && matches (rs_predicate s) m) l)).
Proof.
  intros Hl. revert allowed. induction Hl as [|s l Hs _ IH]; intros allowed; simpl.
  - by rewrite orb_false_r, andb_true_r.
  - unfold predicate_of. simpl. rewrite decide_True by done. simpl.
    destruct (matches (rs_predicate s) m), (rs_inverted s); simpl; rewrite ?IH; simpl; try done;
      rewrite ?andb_false_r, ?orb_true_r; done.
Qed.

Lemma specs_for_subject specs a e : Forall (fun s => rs_subject s = e) (specs_for specs a e).
Proof. apply Forall_forall. intros s Hs. apply elem_of_specs_for in Hs. apply Hs. Qed.

Lemma can_define specs a e m :
  can (define specs) a e m =
    Some (existsb (fun s => negb (rs_inverted s) && matches (rs_predicate s) m) (specs_for specs a e) &&
          negb (existsb (fun s => rs_inverted s && matches (rs_predicate s) m) (specs_for specs a e))).
Proof. unfold can. rewrite rules_for_define. by rewrite can_loop_spec by apply specs_for_subject. Qed.

Lemma permitted_loop_spec e m (l : list rule_spec) acc : Forall (fun s => rs_subject s = e) l ->
  exists fs, permitted_loop e m (map rule_of l) acc = Some fs /\
    forall k, (match fs with AllFields => True | OnlyFields cols => k ∈ cols end) <->
      k ∈ acc \/ exists s, s ∈ l /\ matches (rs_predicate s) m = true /\
                     match rs_fields s with AllFields => True | OnlyFields cols => k ∈ cols end.
Proof.
  intros Hl. revert acc. induction Hl as [|s l Hs _ IH]; intros acc; simpl.
  { eexists. split; [done|]. intros k. simpl. setoid_rewrite elem_of_nil. naive_solver. }
  unfold predicate_of. simpl. rewrite decide_True by done. simpl. setoid_rewrite elem_of_cons.
  destruct (matches (rs_predicate s) m) eqn:Em; simpl.
  - destruct (rs_fields s) as [|cols] eqn:Ef.
    + eexists. split; [done|]. intros k. simpl. split; [|done]. intros _. right. exists s.
      split; [by left|]. by rewrite Ef.
    + destruct (IH (acc ∪ cols)) as (fs & -> & Hfs). eexists. split; [done|]. intros k.
      rewrite Hfs, elem_of_union. split.
      * intros [[?|?]|(s' & ? & ?)]; [by left| |]; right; [exists s|exists s'; tauto].
        rewrite Ef. tauto.
      * intros [?|(s' & [->|?] & ? & Hk)]; [tauto| |right; by exists s'].
        rewrite Ef in Hk. tauto.
  - destruct (IH acc) as (fs & -> & Hfs). eexists. split; [done|]. intros k. rewrite Hfs.
    split; [naive_solver|]. intros [?|(s' & [->|?] & ? & ?)]; [tauto|congruence|naive_solver].
Qed.

(** Whether the field [k] of [m] may be read back. *)
Definition field_permitted specs a e m (k : string) : Prop :=
  exists s, relevant specs a e s /\ rs_inverted s = false /\ matches (rs_predicate s) m = true /\
            match rs_fields s with AllFields => True | OnlyFields cols => k ∈ cols end.

Lemma permitted_fields_define specs a e m :
  exists fs, permitted_fields (define specs) a e m = Some fs /\
    forall k, (match fs with AllFields => True | OnlyFields cols => k ∈ cols end) <->
              field_permitted specs a e m k.
Proof.
  unfold permitted_fields. rewrite rules_for_define.
  assert (Hf : forall l : list rule_spec, filter (fun r => inverted r = false) (map rule_of l) =
            map rule_of (filter (fun s => rs_inverted s = false) l)).
  { induction l as [|s l IH]; simpl; [done|]. rewrite !filter_cons. simpl.
    case_decide; simpl; by rewrite IH. }
  rewrite Hf. destruct (permitted_loop_spec e m (filter (fun s => rs_inverted s = false) (specs_for specs a e)) ∅)
    as (fs & -> & Hfs).
  { apply Forall_forall. intros s [_ Hs]%list_elem_of_filter. by apply elem_of_specs_for in Hs as (_ & ? & _). }
  exists fs. split; [done|]. intros k. rewrite Hfs. unfold field_permitted.
  setoid_rewrite list_elem_of_filter. setoid_rewrite elem_of_specs_for. set_solver.
Qed.

(** The pair of conditions [condition_for] accumulates. *)
Lemma condition_for_fold (l : list rule_spec) (gd : list condition * list condition) :
  foldl (fun gd r =>
      if inverted r then (gd.1, condition_add gd.2 (rule_condition r))
      else (condition_add gd.1 (rule_condition r), gd.2))
    (foldl condition_add condition_any gd.1, foldl condition_add condition_any gd.2) (map rule_of l) =
  (foldl condition_add condition_any
     (gd.1 ++ map (fun s => to_condition (rs_predicate s)) (filter (fun s => rs_inverted s = false) l)),
   foldl condition_add condition_any
     (gd.2 ++ map (fun s => to_condition (rs_predicate s)) (filter (fun s => rs_inverted s = true) l))).
Proof.
  assert (Hsnoc : forall cs c, condition_add (foldl condition_add condition_any cs) c =
                               foldl condition_add condition_any (cs ++ [c])).
  { intros cs c. by rewrite foldl_app. }
  revert gd. induction l as [|s l IH]; intros [g d]; simpl; [by rewrite !app_nil_r|].
  rewrite !filter_cons. destruct (rs_inverted s) eqn:Es; simpl; rewrite Hsnoc.
  - specialize (IH (g, d ++ [to_condition (rs_predicate s)])). simpl in IH. rewrite IH. by rewrite <- (assoc_L (++)).
  - specialize (IH (g ++ [to_condition (rs_predicate s)], d)). simpl in IH. rewrite IH. by rewrite <- (assoc_L (++)).
Qed.

End ability_lemmas.

Section conditions.
Context `{SqlSemantics}.
Implicit Types (s : rule_spec) (specs : list rule_spec) (m : model).

(** SQL's verdict on the grants and on the denials of a declaration list. *)
Definition verdict (l : list rule_spec) (inv : bool) m : tri :=
  tri_any (map (fun s => holds (to_condition (rs_predicate s)) m)
             (filter (fun s => rs_inverted s = inv) l)).

Lemma holds_condition_for specs a e m :
  holds (condition_for (define specs) a e) m =
    tri_and (verdict (specs_for specs a e) false m) (tri_not (verdict (specs_for specs a e) true m)).
Proof.
  unfold condition_for, verdict. rewrite rules_for_define.
  pose proof (condition_for_fold (specs_for specs a e) ([], [])) as Hf. simpl in Hf. rewrite Hf.
  set (g := filter (fun s => rs_inverted s = false) _). set (d := filter (fun s => rs_inverted s = true) _).
  rewrite !any_is_empty. case_bool_decide as Eg.
  { apply fmap_nil_inv in Eg. rewrite holds_never, Eg. done. }
  set (cg := foldl condition_add condition_any (map _ g)).
  set (cd := foldl condition_add condition_any (map _ d)).
  assert (Hcg : holds cg m = tri_any (map (fun s => holds (to_condition (rs_predicate s)) m) g))
    by (unfold cg; by rewrite holds_any, map_map).
  assert (Hcd : holds cd m = tri_any (map (fun s => holds (to_condition (rs_predicate s)) m) d))
    by (unfold cd; by rewrite holds_any, map_map).
  rewrite <- Hcg, <- Hcd. case_bool_decide as Ed; simpl.
  - pose proof (holds_all [cg] m) as E. simpl in E. rewrite E.
    apply fmap_nil_inv in Ed. rewrite Hcd, Ed. simpl. by destruct (holds cg m).
  - pose proof (holds_all [cg; condition_not cd] m) as E. simpl in E. rewrite E, holds_not.
    by destruct (holds cg m), (tri_not (holds cd m)).
Qed.

Lemma existsb_filter_inverted (l : list rule_spec) inv m :
  existsb (fun s => matches (rs_predicate s) m) (filter (fun s => rs_inverted s = inv) l) =
  existsb (fun s => eqb (rs_inverted s) inv && matches (rs_predicate s) m) l.
Proof.
  induction l as [|s l IH]; simpl; [done|]. rewrite filter_cons.
  destruct (decide (rs_inverted s = inv)) as [->|Hne]; simpl; rewrite IH.
  - by rewrite eqb_reflx.
  - by rewrite (proj2 (eqb_false_iff _ _) Hne).
Qed.

Lemma can_verdicts specs a e m :
  can (define specs) a e m =
    Some (existsb (fun s => matches (rs_predicate s) m) (filter (fun s => rs_inverted s = false) (specs_for specs a e)) &&
          negb (existsb (fun s => matches (rs_predicate s) m) (filter (fun s => rs_inverted s = true) (specs_for specs a e)))).
Proof.
  rewrite can_define, !existsb_filter_inverted.
  assert (Hext : forall inv, existsb (fun s => eqb (rs_inverted s) inv && matches (rs_predicate s) m) (specs_for specs a e) =
    existsb (fun s => (if inv then rs_inverted s else negb (rs_inverted s)) && matches (rs_predicate s) m) (specs_for specs a e)).
  { intros inv. induction (specs_for specs a e) as [|s l IH]; simpl; [done|]. rewrite IH.
    by destruct inv, (rs_inverted s). }
  by rewrite !Hext.
Qed.

End conditions.

(** ** Properties *)

Section properties.
Context `{Orm}.
Implicit Types (specs : list rule_spec) (m : model).

(** The class gate: some relevant declaration grants. *)
Lemma can_class_define specs (a : action) (e : ty) :
  can_class (define specs) a e = true <-> exists s, relevant specs a e s /\ rs_inverted s = false.
Proof.
  unfold can_class. rewrite rules_for_define, existsb_exists. setoid_rewrite <- list_elem_of_In.
  setoid_rewrite list_elem_of_fmap. setoid_rewrite negb_true_iff. split.
  - intros (r & (s & -> & Hs%elem_of_specs_for) & Hi). by exists s.
  - intros (s & Hs%elem_of_specs_for & Hi). exists (rule_of s). split; [by exists s|done].
Qed.

(** [C13] The instance check grants exactly when some relevant grant matches the model and no
    relevant denial does, whatever the order of the declarations ([Manage] rules bear on every
    action); it never panics, and a granted instance passes the class gate. *)
Theorem can_iff_granted_and_not_denied specs (a : action) (e : ty) m :
  exists b, can (define specs) a e m = Some b /\
    (b = true <->
      (exists s, relevant specs a e s /\ rs_inverted s = false /\ matches (rs_predicate s) m = true) /\
      ~ (exists s, relevant specs a e s /\ rs_inverted s = true /\ matches (rs_predicate s) m = true)) /\
    (can_class (define specs) a e = true <-> exists s, relevant specs a e s /\ rs_inverted s = false).
Proof.
  rewrite can_define. eexists. split; [done|]. split.
  - rewrite andb_true_iff, negb_true_iff, <- not_true_iff_false, !existsb_exists.
    setoid_rewrite <- list_elem_of_In. setoid_rewrite elem_of_specs_for.
    setoid_rewrite andb_true_iff. setoid_rewrite negb_true_iff. done.
  - apply can_class_define.
Qed.

(** Masking one instance, and a collection. *)
Lemma mask_define specs (a : action) (e : ty) m :
  exists j, mask (define specs) a e m = Some j /\
    match default JNull (to_value m) with
    | JObject members => exists kept, j = JObject kept /\ kept `sublist_of` members /\
        forall kv, kv ∈ kept <-> kv ∈ members /\ field_permitted specs a e m kv.1
    | other => j = other
    end.
Proof.
  destruct (permitted_fields_define specs a e m) as (fs & Hfs & Hk).
  unfold mask. rewrite Hfs. simpl. eexists. split; [done|].
  destruct (default JNull (to_value m)) as [| | | | |members]; destruct fs as [|cols]; try done.
  - exists members. split; [done|]. split; [done|]. intros kv. rewrite <- Hk. tauto.
  - eexists. split; [done|]. split; [apply sublist_filter|]. intros kv.
    rewrite list_elem_of_filter, <- Hk. tauto.
Qed.

Lemma mask_many_define specs (a : action) (e : ty) (models : list model) :
  exists js, mask_many (define specs) a e models = Some js /\
    Some <$> js = (fun m => mask (define specs) a e m) <$>
                    filter (fun m => can (define specs) a e m = Some true) models.
Proof.
  induction models as [|m models (js & Hjs & IH)]; [by exists []|]. cbn [mask_many].
  rewrite filter_cons. destruct (can (define specs) a e m) as [b|] eqn:Eb; [|by rewrite can_define in Eb].
  cbn [mbind option_bind]. destruct b.
  - rewrite decide_True by done. destruct (mask_define specs a e m) as (j & Hj & _).
    rewrite Hj, Hjs. cbn [mbind option_bind]. exists (j :: js). split; [done|]. by rewrite !fmap_cons, IH, Hj.
  - rewrite decide_False by done. by exists js.
Qed.

(** Field masking: on an object only the members some matching relevant grant permits
    remain, in order and unchanged; a non-object is returned as it is; nothing panics.  Over a
    collection, exactly the instances the check grants are kept, each masked. *)
Lemma mask_keeps_permitted_fields specs (a : action) (e : ty) (models : list model) :
  (forall m, exists j, mask (define specs) a e m = Some j /\
     match default JNull (to_value m) with
     | JObject members => exists kept, j = JObject kept /\ kept `sublist_of` members /\
         forall kv, kv ∈ kept <-> kv ∈ members /\ field_permitted specs a e m kv.1
     | other => j = other
     end) /\
  (exists js, mask_many (define specs) a e models = Some js /\
     Some <$> js = (fun m => mask (define specs) a e m) <$>
                     filter (fun m => can (define specs) a e m = Some true) models).
Proof. split; [intros m; apply mask_define|apply mask_many_define]. Qed.

End properties.

Section layers.
Context `{SqlSemantics}.
Implicit Types (specs : list rule_spec) (m : model).

(** What the pre-filter selects, the instance check grants. *)
Lemma prefilter_sound specs (a : action) (e : ty) m : well_typed specs a e m ->
  selects (condition_for (define specs) a e) m -> can (define specs) a e m = Some true.
Proof.
  intros Ht. unfold selects. rewrite holds_condition_for, can_verdicts. intros Hh. f_equal.
  assert (Hr : forall inv, refines (verdict (specs_for specs a e) inv m)
    (existsb (fun s => matches (rs_predicate s) m) (filter (fun s => rs_inverted s = inv) (specs_for specs a e)))).
  { intros inv. apply refines_any, Forall_forall. intros s [_ Hs]%list_elem_of_filter.
    apply to_condition_refines, Ht. by apply elem_of_specs_for. }
  pose proof (refines_and _ _ _ _ (Hr false) (refines_not _ _ (Hr true))) as Hand. by rewrite Hh in Hand.
Qed.

(** [C7] Defence in depth: a row the query pre-filter selects is one the instance check grants,
    NULLs included, so no query returns a row the response check would have refused.  The rules
    compare a column with values of its own type: one that does not may be read differently by the
    database. *)
Theorem prefilter_implies_instance_check specs (a : action) (e : ty) m :
  well_typed specs a e m ->
  selects (condition_for (define specs) a e) m -> can (define specs) a e m = Some true.
Proof. apply prefilter_sound. Qed.

(** The two layers agree on a row when every comparison the relevant rules make is between
    non-NULL values: the pre-filter selects it exactly when the instance check grants it. *)
Lemma prefilter_agrees_without_nulls specs (a : action) (e : ty) m : well_typed specs a e m ->
  (forall s, relevant specs a e s -> definite m (rs_predicate s) = true) ->
  selects (condition_for (define specs) a e) m <-> can (define specs) a e m = Some true.
Proof.
  intros Ht Hd. unfold selects. rewrite holds_condition_for, can_verdicts.
  assert (Hv : forall inv, verdict (specs_for specs a e) inv m = tri_of
    (existsb (fun s => matches (rs_predicate s) m) (filter (fun s => rs_inverted s = inv) (specs_for specs a e)))).
  { intros inv. apply tri_any_of, Forall_forall. intros s [_ Hs]%list_elem_of_filter.
    apply elem_of_specs_for in Hs. by apply to_condition_definite; [apply Hd|apply Ht]. }
  rewrite !Hv, tri_of_not, tri_of_and.
  destruct (_ && _); simpl; split; congruence.
Qed.

End layers.

(** ** A concrete ORM for the witnesses: rows of nullable integers, conditions by their meaning *)

Module AuthzDemo.

Definition row := list (string * option Z).

Definition field (m : row) (c : string) : option Z :=
  default None (snd <$> List.find (fun kv : string * option Z => String.eqb kv.1 c) m).

Record demo_condition := DemoCondition { dc_any : bool; dc_parts : list (row -> tri) }.

Definition demo_holds (c : demo_condition) (m : row) : tri :=
  (if dc_any c then tri_any else tri_all) (map (fun f => f m) (dc_parts c)).

Definition demo_value_eqb (u v : option Z) : bool := bool_decide (u = v).

Definition demo_sql_eq (u v : option Z) : tri :=
  match u, v with
  | Some x, Some y => tri_of (bool_decide (x = y))
  | _, _ => TUnknown
  end.

#[export] Instance demo_orm : Orm := {|
  column := string; value := option Z; model := row;
  as_str := fun c => c; model_get := field; value_eqb := demo_value_eqb;
  to_value := fun m => Some (JObject (map (fun kv : string * option Z =>
                         (kv.1, match kv.2 with Some z => JNumber z | None => JNull end)) m));
  condition := demo_condition; sql_expr := row -> tri;
  condition_all := DemoCondition false []; condition_any := DemoCondition true [];
  condition_add := fun c d => DemoCondition (dc_any c) (dc_parts c ++ [demo_holds d]);
  condition_add_expr := fun c e => DemoCondition (dc_any c) (dc_parts c ++ [e]);
  condition_not := fun c => DemoCondition false [fun m => tri_not (demo_holds c m)];
  condition_is_empty := fun c => match dc_parts c with [] => true | _ => false end;
  col_eq := fun c v m => demo_sql_eq (field m c) v;
  col_is_in := fun c vs m => tri_any (map (demo_sql_eq (field m c)) vs);
  expr_cust := fun _ _ => TFalse |}.

Lemma demo_fold (a : bool) (l : list demo_condition) parts :
  foldl condition_add (DemoCondition a parts) l = DemoCondition a (parts ++ map demo_holds l).
Proof.
  revert parts. induction l as [|c l IH]; intros parts; simpl; [by rewrite app_nil_r|].
  rewrite IH. simpl. by rewrite <- (assoc_L (++)).
Qed.

Lemma tri_and_true t : tri_and t TTrue = t.
Proof. by destruct t. Qed.

Lemma demo_fold_holds (a : bool) (l : list demo_condition) m :
  demo_holds (foldl condition_add (DemoCondition a []) l) m =
    (if a then tri_any else tri_all) (map (fun c => demo_holds c m) l).
Proof. rewrite demo_fold. unfold demo_holds at 1. simpl. by rewrite map_map. Qed.

#[export] Instance demo_semantics : SqlSemantics.
Proof.
  refine {| is_null := fun v : @value demo_orm => match v with None => true | Some _ => false end;
            holds := demo_holds; sql_eq := demo_sql_eq; comparable _ _ := true |}.
  - by intros [|] [|].
  - intros [x|] [y|]; try done. intros _ _ _. simpl. unfold demo_value_eqb.
    f_equal. apply bool_decide_ext. split; congruence.
  - intros u v. apply bool_decide_ext. split; congruence.
  - intros l m. exact (demo_fold_holds false l m).
  - intros l m. exact (demo_fold_holds true l m).
  - intros c m. apply tri_and_true.
  - intros c v m. apply tri_and_true.
  - intros c vs m. apply tri_and_true.
  - done.
  - intros l. pose proof (demo_fold true l []) as E. change (condition_is_empty (foldl condition_add (DemoCondition true []) l) = bool_decide (l = [])).
    rewrite E. simpl. by destruct l.
Defined.

Definition users : ty := TNamed "users::Entity".

(** Members of organisation 1 are readable, by id and name only; banned ones are not. *)
Definition specs : list rule_spec :=
  [spec_fields ["id"; "name"] (spec_when (PEq "org" (Some 1%Z)) (spec_can Read users));
   spec_when (PEq "banned" (Some 1%Z)) (spec_cannot Manage users)].

Definition ada : row := [("id", Some 7%Z); ("name", Some 3%Z); ("org", Some 1%Z); ("banned", Some 0%Z)].

Example ada_masked :
  mask (define specs) Read users ada = Some (JObject [("id", JNumber 7); ("name", JNumber 3)]) /\
  can (define specs) Read users ada = Some true /\ can (define specs) Delete users ada = Some false.
Proof. split; [|split]; vm_compute; reflexivity. Qed.

(** Every comparison of the demo is documented. *)
Lemma demo_typed (m : row) (p : predicate) : typed m p = true.
Proof.
  assert (Hall : forall ps, Forall (fun p => typed m p = true) ps -> forallb (typed m) ps = true).
  { intros ps Hps. apply forallb_forall. rewrite Forall_forall in Hps. intros q Hq. by apply Hps, list_elem_of_In. }
  assert (Hc : forall u v : option Z, compares u v = true) by (intros u v; apply orb_true_r).
  induction p using predicate_ind'; simpl; auto. apply forallb_forall. intros. apply Hc.
Qed.

Lemma demo_well_typed (l : list rule_spec) a e (m : row) : well_typed l a e m.
Proof. intros s _. apply demo_typed. Qed.

Lemma prefilter_implies_instance_check_witness :
  well_typed specs Read users ada /\ can (define specs) Read users ada = Some true.
Proof.
  split; [apply demo_well_typed|]. apply prefilter_implies_instance_check; [apply demo_well_typed|]. vm_compute. reflexivity.
Defined.

Lemma prefilter_agrees_without_nulls_witness :
  selects (condition_for (define specs) Read users) ada <-> can (define specs) Read users ada = Some true.
Proof.
  apply prefilter_agrees_without_nulls; [apply demo_well_typed|]. intros s (Hs & _). unfold specs in Hs.
  rewrite !elem_of_cons, elem_of_nil in Hs. destruct Hs as [->|[->|[]]]; vm_compute; reflexivity.
Defined.

(** On a NULL column the layers part: the instance check grants a row the query never returns. *)
Example null_row_diverges :
  let specs := [spec_when (PNot (PEq "org" (Some 1%Z))) (spec_can Read users)] in
  let m : row := [("org", None)] in
  can (define specs) Read users m = Some true /\
  holds (condition_for (define specs) Read users) m = TUnknown.
Proof. split; vm_compute; reflexivity. Qed.

(** The fields of a denial are not read: denying one field denies the whole instance. *)
Example denial_of_a_field_denies_the_row :
  can (define [spec_can Read users; spec_fields ["name"] (spec_cannot Read users)]) Read users ada = Some false.
Proof. vm_compute. reflexivity. Qed.

End AuthzDemo.

(** ** Values of another variant

    A table with one [BigInt] column, compared with an [Int]: [sea_query::Value] tells the two apart, the
    database does not. *)

Module VariantDemo.

Inductive int_value := Int (z : Z) | BigInt (z : Z).

#[export] Instance int_value_eq_dec : EqDecision int_value.
Proof. solve_decision. Defined.

Definition number (v : int_value) : Z := match v with Int z | BigInt z => z end.

(** A condition by whether something was added to it, and by its meaning. *)
Record variant_condition := VariantCondition { vc_any : bool; vc_parts : list (Z -> tri) }.

Definition variant_holds (c : variant_condition) (m : Z) : tri :=
  (if vc_any c then tri_any else tri_all) (map (fun f => f m) (vc_parts c)).

#[export] Instance variant_orm : Orm := {|
  column := unit; value := int_value; model := Z;
  as_str _ := "tenant"; model_get m _ := BigInt m; value_eqb u v := bool_decide (u = v);
  to_value m := Some (JObject [("tenant", JNumber m)]);
  condition := variant_condition; sql_expr := Z -> tri;
  condition_all := VariantCondition false []; condition_any := VariantCondition true [];
  condition_add c d := VariantCondition (vc_any c) (vc_parts c ++ [variant_holds d]);
  condition_add_expr c e := VariantCondition (vc_any c) (vc_parts c ++ [e]);
  condition_not c := VariantCondition false [fun m => tri_not (variant_holds c m)];
  condition_is_empty c := match vc_parts c with [] => true | _ => false end;
  col_eq _ v m := tri_of (bool_decide (m = number v));
  col_is_in _ vs m := tri_any (map (fun v => tri_of (bool_decide (m = number v))) vs);
  expr_cust _ _ := TFalse |}.

(** The query returns a row the instance check refuses. *)
Example variant_diverges :
  let specs := [spec_when (PEq () (Int 1)) (spec_can Read (TNamed "tenants::Entity"))] in
  variant_holds (condition_for (define specs) Read (TNamed "tenants::Entity")) 1%Z = TTrue /\
  can (define specs) Read (TNamed "tenants::Entity") 1%Z = Some false.
Proof. split; vm_compute; reflexivity. Qed.

End VariantDemo.
