(* ===== verification/Schedule.v ===== *)
(** Scheduled jobs: the trigger arguments of [#[cron_job]] ([nestrs-schedule-macros/src/cron_job.rs]),
    the [Scheduler] transport ([nestrs-schedule/src/scheduler.rs]) and the job-context seam
    ([nestrs-core/src/job.rs]).

    Strings are ASCII.  A duration is a number of milliseconds for the macro, of nanoseconds for
    the clock.  [croner] and [chrono-tz] are parameters. *)

From S2P Require Import Prelude Container Codegen.

(** [croner::Cron] and [chrono_tz::Tz]. *)
Class CronLib := {
  cron : Type;
  tz : Type;
  cron_from_str : string -> option cron;
  tz_parse : string -> option tz;
  (** [find_next_occurrence(now, false)] in the timezone, as an instant. *)
  find_next_occurrence : cron -> option tz -> Z -> option Z
}.

(** ** The attribute's arguments *)

(** An argument value: a string literal, or another expression with the text it denotes. *)
Inductive arg_expr :=
| ArgStr (s : string)
| ArgOther (value : string).

Inductive macro_trigger :=
| MInterval (ms : Z)
| MTimeout (ms : Z)
| MCron (e : arg_expr) (tz : option string).

Inductive trigger_error :=
| NotAStringLiteral (key : string)
| UnknownArgument (key : string)
| NoTrigger
| SeveralTriggers
| TzWithoutCron
| BadDuration
| ZeroDuration
| DurationOverflow
| InvalidCronLiteral (expr : string).

Definition as_str_lit (value : arg_expr) (key : string) : result string trigger_error :=
  match value with
  | ArgStr s => Ok s
  | ArgOther _ => Err (NotAStringLiteral key)
  end.

(** The suffixes [period_millis] tries, in order, with their multipliers. *)
Definition duration_units : list (string * Z) :=
  [("ms", 1%Z); ("s", 1000%Z); ("m", 60000%Z); ("h", 3600000%Z)].

Fixpoint strip_unit (units : list (string * Z)) (s : string) : option (string * Z) :=
  match units with
  | [] => None
  | (u, mult) :: units' =>
      match strip_suffix u s with
      | Some n => Some (n, mult)
      | None => strip_unit units' s
      end
  end.

Definition period_millis (lit : string) : result Z trigger_error :=
  let s := trim lit in
  match strip_unit duration_units s with
  | None => Err BadDuration
  | Some (number, multiplier) =>
      let? value := ok_or (parse_u64 (trim number)) BadDuration in
      if Z.eqb value 0 then Err ZeroDuration
      else ok_or (checked_mul_u64 value multiplier) DurationOverflow
  end.

(** The four options the argument loop fills. *)
Record trigger_args := TriggerArgs {
  ta_every : option string;
  ta_after : option string;
  ta_cron : option arg_expr;
  ta_tz : option string
}.

Definition trigger_arg (st : trigger_args) (kv : string * arg_expr)
  : result trigger_args trigger_error :=
  let '(key, value) := kv in
  if String.eqb key "every" then
    let? s := as_str_lit value "every" in
    Ok (TriggerArgs (Some s) (ta_after st) (ta_cron st) (ta_tz st))
  else if String.eqb key "after" then
    let? s := as_str_lit value "after" in
    Ok (TriggerArgs (ta_every st) (Some s) (ta_cron st) (ta_tz st))
  else if String.eqb key "tz" then
    let? s := as_str_lit value "tz" in
    Ok (TriggerArgs (ta_every st) (ta_after st) (ta_cron st) (Some s))
  else if String.eqb key "cron" then
    Ok (TriggerArgs (ta_every st) (ta_after st) (Some value) (ta_tz st))
  else Err (UnknownArgument key).

Definition count_some {A} (o : option A) : nat := match o with Some _ => 1 | None => 0 end.

(** [CronExpression]: the presets by name. *)
Definition cron_presets : list (string * string) :=
  [("EVERY_SECOND", "* * * * * *");
   ("EVERY_5_SECONDS", "*/5 * * * * *");
   ("EVERY_10_SECONDS", "*/10 * * * * *");
   ("EVERY_30_SECONDS", "*/30 * * * * *");
   ("EVERY_MINUTE", "0 * * * * *");
   ("EVERY_5_MINUTES", "0 */5 * * * *");
   ("EVERY_10_MINUTES", "0 */10 * * * *");
   ("EVERY_30_MINUTES", "0 */30 * * * *");
   ("EVERY_HOUR", "0 0 * * * *");
   ("EVERY_2_HOURS", "0 0 */2 * * *");
   ("EVERY_3_HOURS", "0 0 */3 * * *");
   ("EVERY_6_HOURS", "0 0 */6 * * *");
   ("EVERY_12_HOURS", "0 0 */12 * * *");
   ("EVERY_DAY_AT_1AM", "0 0 1 * * *");
   ("EVERY_DAY_AT_6AM", "0 0 6 * * *");
   ("EVERY_DAY_AT_NOON", "0 0 12 * * *");
   ("EVERY_DAY_AT_MIDNIGHT", "0 0 0 * * *");
   ("EVERY_WEEKDAY", "0 0 0 * * 1-5");
   ("EVERY_WEEKEND", "0 0 0 * * 6,0");
   ("EVERY_WEEK", "0 0 0 * * 0");
   ("EVERY_1ST_DAY_OF_MONTH_AT_MIDNIGHT", "0 0 0 1 * *");
   ("EVERY_QUARTER", "0 0 0 1 */3 *");
   ("EVERY_YEAR", "0 0 0 1 1 *")].

Definition cron_preset (name : string) : option string := snd <$> List.find (fun p => String.eqb p.1 name) cron_presets.

(** Every preset has a name of its own and the six fields that fire it at a defined second. *)
Lemma cron_presets_have_six_fields :
  NoDup (map fst cron_presets) /\
  Forall (fun p => length (split (Ascii.ascii_of_nat 32) p.2) = 6 /\ Forall (fun f => f <> "") (split (Ascii.ascii_of_nat 32) p.2)) cron_presets.
Proof. split; apply (bool_decide_unpack _); by vm_compute. Qed.

Section macro.
Context `{CronLib}.

(** [Trigger::parse] *)
Definition trigger_parse (metas : list (string * arg_expr)) : result macro_trigger trigger_error :=
  let? st := for_each trigger_arg metas (TriggerArgs None None None None) in
  let chosen := count_some (ta_every st) + count_some (ta_after st) + count_some (ta_cron st) in
  if Nat.eqb chosen 0 then Err NoTrigger
  else if Nat.ltb 1 chosen then Err SeveralTriggers
  else if (if ta_tz st is Some _ then true else false) && (if ta_cron st is Some _ then false else true)
  then Err TzWithoutCron
  else
    match ta_every st, ta_after st, ta_cron st with
    | Some lit, _, _ => result_map MInterval (period_millis lit)
    | None, Some lit, _ => result_map MTimeout (period_millis lit)
    | None, None, Some expr =>
        match expr with
        | ArgStr s => if cron_from_str s is Some _ then Ok (MCron expr (ta_tz st)) else Err (InvalidCronLiteral s)
        | ArgOther _ => Ok (MCron expr (ta_tz st))
        end
    | None, None, None => Err NoTrigger
    end.

(** [Trigger], the runtime enum, and the tokens the macro emits for it. *)
Inductive trigger :=
| Interval (ms : Z)
| Timeout (ms : Z)
| Cron (expr : string) (tz_name : option string).

Definition to_tokens (t : macro_trigger) : trigger :=
  match t with
  | MInterval ms => Interval ms
  | MTimeout ms => Timeout ms
  | MCron (ArgStr s) tz => Cron s tz
  | MCron (ArgOther s) tz => Cron s tz
  end.

End macro.

(** ** The scheduler *)

Section scheduler.
Context `{CronLib} `{Payloads}.

(** [RunFn]: an opaque handle to the thunk; [CronJobMeta] and its place among the payloads. *)
Class Thunks := {
  run_fn : Type;
  cron_meta_name : val -> string;
  cron_meta_trigger : val -> trigger;
  cron_meta_run : val -> run_fn
}.
Context `{!Thunks}.

Inductive job :=
| JInterval (name : string) (period : Z) (run : run_fn)
| JTimeout (name : string) (delay : Z) (run : run_fn)
| JCron (name : string) (schedule : cron) (zone : option tz) (run : run_fn).

Definition job_name (j : job) : string :=
  match j with JInterval n _ _ | JTimeout n _ _ | JCron n _ _ _ => n end.

Inductive schedule_error :=
| InvalidCron (job expr : string)
| InvalidTimezone (job name : string).

(** [Scheduler::resolve] *)
Definition resolve (meta : val) : result job schedule_error :=
  let name := cron_meta_name meta in
  let run := cron_meta_run meta in
  match cron_meta_trigger meta with
  | Interval period => Ok (JInterval name period run)
  | Timeout delay => Ok (JTimeout name delay run)
  | Cron expr zone =>
      let? schedule := ok_or (cron_from_str expr) (InvalidCron name expr) in
      let? zone :=
        match zone with
        | None => Ok None
        | Some s => result_map Some (ok_or (tz_parse s) (InvalidTimezone name s))
        end in
      Ok (JCron name schedule zone run)
  end.

(** [configure]: [meta_ty] is the [CronJobMeta] type. *)
Definition scheduler_configure (meta_ty : ty) (c : container) : result (list job) schedule_error :=
  collect_results (fun d : val * option ty => resolve d.1) (discovery_meta meta_ty c).

(** [next_delay], at the clock reading [now]. *)
Definition next_delay (schedule : cron) (zone : option tz) (now : Z) : option Z :=
  next_utc ← find_next_occurrence schedule zone now;
  Some (Z.max 0 (next_utc - now)).

(** What one run of a job's thunk does, and what happens to a job's task, in order. *)
Inductive fired :=
| FireOk
| FireErr (e : failure)
| FirePanic.

Inductive job_event :=
| EvTick (now : Z) (outcome : fired)
| EvCancelled.

Inductive job_end :=
| JobStopped
| JobPanicked
| JobWaiting.

(** The interval loop: every tick fires, an error is logged and the loop goes on. *)
Fixpoint interval_loop (evs : list job_event) : list fired * job_end :=
  match evs with
  | [] => ([], JobWaiting)
  | EvCancelled :: _ => ([], JobStopped)
  | EvTick _ FirePanic :: _ => ([FirePanic], JobPanicked)
  | EvTick _ o :: evs' => let '(fs, e) := interval_loop evs' in (o :: fs, e)
  end.

(** [token.cancelled().await] *)
Fixpoint idle (evs : list job_event) : job_end :=
  match evs with
  | [] => JobWaiting
  | EvCancelled :: _ => JobStopped
  | EvTick _ _ :: evs' => idle evs'
  end.

Fixpoint cron_loop (schedule : cron) (zone : option tz) (now : Z) (evs : list job_event)
  : list fired * job_end :=
  match next_delay schedule zone now with
  | None => ([], idle evs)
  | Some _ =>
      match evs with
      | [] => ([], JobWaiting)
      | EvCancelled :: _ => ([], JobStopped)
      | EvTick _ FirePanic :: _ => ([FirePanic], JobPanicked)
      | EvTick now' o :: evs' => let '(fs, e) := cron_loop schedule zone now' evs' in (o :: fs, e)
      end
  end.

(** [run_job]: the runs of one job's task and how the task ends. *)
Definition run_job (j : job) (now : Z) (evs : list job_event) : list fired * job_end :=
  match j with
  | JInterval _ _ _ => interval_loop evs
  | JTimeout _ _ _ =>
      match evs with
      | [] => ([], JobWaiting)
      | EvCancelled :: _ => ([], JobStopped)
      | EvTick _ FirePanic :: _ => ([FirePanic], JobPanicked)
      | EvTick _ o :: evs' => ([o], idle evs')
      end
  | JCron _ schedule zone _ => cron_loop schedule zone now evs
  end.

(** [serve]: with no job it idles until cancelled; otherwise it returns when every task has
    ended, whatever their ends ([None]: still running). *)
Definition scheduler_serve (jobs : list (job * list job_event)) (now : Z) (cancelled : bool) : option unit :=
  if bool_decide (jobs = []) then if cancelled then Some tt else None
  else if forallb (fun je => match (run_job je.1 now je.2).2 with JobWaiting => false | _ => true end) jobs
  then Some tt else None.

(** The runs that take place before the task is cancelled. *)
Fixpoint ticks_before_cancel (evs : list job_event) : list fired :=
  match evs with
  | EvTick _ o :: evs' => o :: ticks_before_cancel evs'
  | _ => []
  end.

End scheduler.

(** ** The job-context seam *)

(** A bound [JobContext]: it wraps the unit-returning future of a job, over any state. *)
Record job_context (W : Type) := JobContext { jc_scope : forall X, (W * X -> W * X) -> W * X -> W * X }.
Arguments jc_scope {W} _ {X}.

(** [run_in_job_context]: the output is captured in a slot across the seam. *)
Definition run_in_job_context {W T} (ctx : option (job_context W)) (fut : W -> W * T) (w : W)
  : result (W * T) panic :=
  match ctx with
  | None => Ok (fut w)
  | Some ctx =>
      let '(w', out) := jc_scope ctx (fun s : W * option T => let '(w1, t) := fut s.1 in (w1, Some t)) (w, None) in
      let? t := expect out "the job-context scope ran the inner future" in Ok (w', t)
  end.

(** ** Lemmas on durations *)

Lemma strip_unit_some units s n mult :
  strip_unit units s = Some (n, mult) -> exists u, (u, mult) ∈ units /\ s = n +:+ u.
Proof.
  induction units as [|[u m] units IH]; simpl; [done|].
  destruct (strip_suffix u s) as [n'|] eqn:E.
  - intros [= -> ->]. exists u. split; [by left|]. by apply strip_suffix_some.
  - intros Hs. destruct (IH Hs) as (u' & ? & ?). exists u'. split; [by right|done].
Qed.

Lemma period_millis_ok lit ms : period_millis lit = Ok ms ->
  exists n u mult, (u, mult) ∈ duration_units /\ (exists number, trim lit = number +:+ u /\ parse_u64 (trim number) = Some n) /\
    ms = (n * mult)%Z /\ (0 < ms <= u64_max)%Z.
Proof.
  unfold period_millis. destruct (strip_unit _ _) as [[number mult]|] eqn:Es; [|done].
  apply strip_unit_some in Es as (u & Hu & Hs).
  destruct (parse_u64 (trim number)) as [n|] eqn:Ep; simpl; [|done].
  destruct (Z.eqb_spec n 0); [done|]. unfold checked_mul_u64.
  destruct (Z.leb_spec (n * mult) u64_max); simpl; [|done]. intros [= <-].
  exists n, u, mult. split; [done|]. split; [by exists number|]. split; [done|].
  apply parse_u64_range in Ep as [? _].
  assert (0 < mult)%Z; [|lia].
  unfold duration_units in Hu. rewrite !elem_of_cons, elem_of_nil in Hu.
  destruct Hu as [[= -> ->]|[[= -> ->]|[[= -> ->]|[[= -> ->]|[]]]]]; lia.
Qed.

(** The unit a printed number carries is the one found: no shorter suffix hides it. *)
Lemma strip_unit_show n u mult : (u, mult) ∈ duration_units ->
  strip_unit duration_units (show_u64 n +:+ u) = Some (show_u64 n, mult).
Proof.
  assert (Hown : forall p, strip_suffix p (show_u64 n +:+ p) = Some (show_u64 n)).
  { intros p. by apply strip_suffix_some. }
  assert (Hno : forall p l, p <> [] -> (forall c, c ∈ p -> is_digit c = false) ->
            strip_chars (p ++ l) (rev (chars (show_u64 n))) = None).
  { intros p l Hp Hc. destruct (strip_chars _ _) as [r|] eqn:E; [|done]. apply strip_chars_some in E.
    destruct p as [|c p]; [done|]. assert (Hd := show_u64_digits n).
    rewrite <- (rev_involutive (chars (show_u64 n))), E in Hd. simpl in Hd.
    apply Forall_app in Hd as [_ Hd]. inversion Hd. rewrite Hc in *; [done|by left]. }
  unfold duration_units. rewrite !elem_of_cons, elem_of_nil. intros Hu.
  destruct Hu as [[= -> ->]|[[= -> ->]|[[= -> ->]|[[= -> ->]|[]]]]];
    cbn [strip_unit]; rewrite ?Hown; try done.
  - (* s *) replace (strip_suffix "ms" _) with (@None string); [done|].
    unfold strip_suffix. rewrite chars_app, rev_app_distr.
    change (None = (fun l => of_chars (rev l)) <$> strip_chars (chars "m" ++ []) (rev (chars (show_u64 n)))).
    rewrite Hno; [done|done|]. by intros c ->%list_elem_of_singleton.
  - (* m *) replace (strip_suffix "ms" _) with (@None string);
      [replace (strip_suffix "s" _) with (@None string); [done|]|];
      unfold strip_suffix; by rewrite chars_app, rev_app_distr.
  - (* h *) replace (strip_suffix "ms" _) with (@None string);
      [replace (strip_suffix "s" _) with (@None string); [replace (strip_suffix "m" _) with (@None string); [done|]|]|];
      unfold strip_suffix; by rewrite chars_app, rev_app_distr.
Qed.

Lemma unit_tight u mult : (u, mult) ∈ duration_units ->
  (forall c l', chars u = l' ++ [c] -> is_space c = false) /\ chars u <> [].
Proof.
  unfold duration_units. rewrite !elem_of_cons, elem_of_nil.
  assert (Hlast : forall l (d : Ascii.ascii), is_space d = false ->
            forall c l', l ++ [d] = l' ++ [c] -> is_space c = false).
  { intros l d Hd c l' Heq. apply app_inj_tail in Heq as [_ <-]. done. }
  intros [[= -> ->]|[[= -> ->]|[[= -> ->]|[[= -> ->]|[]]]]]; (split; [|done]).
  - by apply (Hlast (chars "m")).
  - by apply (Hlast []).
  - by apply (Hlast []).
  - by apply (Hlast []).
Qed.

Lemma show_unit_tight n u mult : (u, mult) ∈ duration_units -> tight (chars (show_u64 n +:+ u)).
Proof.
  intros Hu. apply unit_tight in Hu as [Hlast Hne]. rewrite chars_app.
  pose proof (digits_tight _ (show_u64_digits n)) as [Hfirst _]. split.
  - intros c l' Heq. destruct (chars (show_u64 n)) as [|d l] eqn:E.
    + exfalso. apply (show_u64_nonempty n). by rewrite <- (of_chars_chars (show_u64 n)), E.
    + injection Heq as -> _. by eapply Hfirst.
  - intros c l' Heq. destruct (exists_last Hne) as (l & d & Hl). rewrite Hl, (assoc_L (++)) in Heq.
    apply app_inj_tail in Heq as [_ <-]. by apply (Hlast d l).
Qed.

(** ** Properties *)

(** Durations: an accepted literal denotes a positive number of milliseconds that fits 64
    bits, the number times its unit; and every such duration is accepted when written in decimal
    with any unit, spaces around it or not. *)
Lemma period_millis_exact :
  (forall lit ms, period_millis lit = Ok ms ->
     (0 < ms <= u64_max)%Z /\
     exists n u mult number, (u, mult) ∈ duration_units /\ trim lit = number +:+ u /\
       parse_u64 (trim number) = Some n /\ ms = (n * mult)%Z) /\
  (forall n u mult, (0 < n)%Z -> (u, mult) ∈ duration_units ->
     period_millis (show_u64 n +:+ u) =
       if Z.leb (n * mult) u64_max then Ok (n * mult)%Z
       else if Z.leb n u64_max then Err DurationOverflow else Err BadDuration).
Proof.
  split.
  - intros lit ms Hms. apply period_millis_ok in Hms as (n & u & mult & Hu & (number & Hs & Hp) & -> & Hr).
    split; [done|]. by exists n, u, mult, number.
  - intros n u mult Hn Hu. unfold period_millis.
    rewrite (trim_tight _ (show_unit_tight n u mult Hu)), (strip_unit_show n u mult Hu).
    rewrite (trim_tight (show_u64 n)) by (apply digits_tight, show_u64_digits).
    assert (Hmult : (1 <= mult)%Z).
    { unfold duration_units in Hu. rewrite !elem_of_cons, elem_of_nil in Hu.
      destruct Hu as [[= -> ->]|[[= -> ->]|[[= -> ->]|[[= -> ->]|[]]]]]; lia. }
    destruct (Z.leb_spec n u64_max) as [Hle|Hgt].
    + rewrite parse_show_u64 by (unfold u64; lia). simpl. destruct (Z.eqb_spec n 0); [lia|].
      unfold checked_mul_u64. by destruct (Z.leb (n * mult) u64_max).
    + rewrite parse_show_u64_overflow by lia. simpl.
      destruct (Z.leb_spec (n * mult) u64_max); [nia|done].
Qed.

Section scheduler_properties.
Context `{CronLib} `{Payloads} `{!Thunks}.

Lemma collect_results_is_ok {X A E} (f : X -> result A E) l :
  is_ok (collect_results f l) = forallb (fun x => is_ok (f x)) l.
Proof.
  induction l as [|x l IH]; simpl; [done|]. rewrite <- IH.
  destruct (f x); simpl; [|done]. by destruct (collect_results f l).
Qed.

(** The runs of a job are a prefix of the ticks before cancellation. *)
Lemma interval_loop_runs evs :
  let '(fs, e) := interval_loop evs in
  match e with
  | JobPanicked => exists fs' rest, fs = fs' ++ [FirePanic] /\ ticks_before_cancel evs = fs ++ rest /\ ~ (FirePanic ∈ fs')
  | _ => fs = ticks_before_cancel evs /\ ~ (FirePanic ∈ fs)
  end.
Proof.
  induction evs as [|[now o|] evs IH]; simpl; try (split; [done|by intros ?%elem_of_nil]).
  destruct o as [|e|]; [| |exists [], (ticks_before_cancel evs); split; [done|split; [done|by intros ?%elem_of_nil]]];
    destruct (interval_loop evs) as [fs e']; destruct e';
    try (destruct IH as [-> Hn]; split; [done|]; by intros [?|?]%elem_of_cons);
    (destruct IH as (fs' & rest & -> & -> & Hn); eexists (_ :: fs'), rest; split; [done|split; [done|]];
     by intros [?|?]%elem_of_cons).
Qed.

Lemma cron_loop_runs schedule zone now evs :
  let '(fs, e) := cron_loop schedule zone now evs in
  exists rest, ticks_before_cancel evs = fs ++ rest /\
    (e = JobPanicked -> exists fs', fs = fs' ++ [FirePanic]) /\ (FirePanic ∈ fs -> e = JobPanicked).
Proof.
  assert (Hidle : forall evs, idle evs <> JobPanicked).
  { clear. intros evs. induction evs as [|[? ?|] evs IH]; simpl; done. }
  revert now. induction evs as [|[t o|] evs IH]; intros now; simpl;
    destruct (next_delay schedule zone now).
  1-2,5-6: eexists; (split; [reflexivity|split; [done|by intros ?%elem_of_nil]]).
  - specialize (IH t). destruct o as [|er|].
    + destruct (cron_loop schedule zone t evs) as [fs e]. destruct IH as (rest & -> & He & Hp).
      exists rest. split; [done|]. split; [|by intros [?|?]%elem_of_cons; auto].
      intros [fs' ->]%He. by exists (FireOk :: fs').
    + destruct (cron_loop schedule zone t evs) as [fs e]. destruct IH as (rest & -> & He & Hp).
      exists rest. split; [done|]. split; [|by intros [?|?]%elem_of_cons; auto].
      intros [fs' ->]%He. by exists (FireErr er :: fs').
    + eexists. split; [reflexivity|]. split; [|done]. by exists [].
  - eexists. split; [reflexivity|]. split; [intros E; by apply Hidle in E|by intros ?%elem_of_nil].
Qed.

(** A job's task runs its thunk only on ticks before the cancellation, in order: an error
    never stops the schedule, so an interval job runs on every such tick; a one-shot runs at
    most once; only a panic ends the task early, as its last run. *)
Lemma job_runs_until_cancelled_or_panic (j : job) (now : Z) (evs : list job_event) :
  let '(fs, e) := run_job j now evs in
  (exists rest, ticks_before_cancel evs = fs ++ rest) /\
  (e = JobPanicked <-> exists fs', fs = fs' ++ [FirePanic]) /\
  match j with
  | JInterval _ _ _ => e <> JobPanicked -> fs = ticks_before_cancel evs
  | JTimeout _ _ _ => length fs <= 1
  | JCron _ _ _ _ => True
  end.
Proof.
  assert (Hidle : forall evs, idle evs <> JobPanicked).
  { clear. intros evs. induction evs as [|[? ?|] evs IH]; simpl; done. }
  assert (Hnil : forall fs', [] <> fs' ++ [@FirePanic H0]) by (by intros []).
  destruct j as [name p run|name d run|name sch zone run]; simpl.
  - pose proof (interval_loop_runs evs) as Hr. destruct (interval_loop evs) as [fs e].
    assert (Hno : ~ (FirePanic ∈ fs) -> ~ exists fs', fs = fs' ++ [FirePanic]).
    { intros Hn [fs' ->]. apply Hn, elem_of_app. right. by left. }
    destruct e.
    + destruct Hr as [-> Hn]. split; [exists []; by rewrite app_nil_r|]. split; [|done].
      split; [done|]. intros Hx. by apply Hno in Hn.
    + destruct Hr as (fs' & rest & -> & -> & Hn). split; [by exists rest|]. split; [|done].
      split; [by exists fs'|done].
    + destruct Hr as [-> Hn]. split; [exists []; by rewrite app_nil_r|]. split; [|done].
      split; [done|]. intros Hx. by apply Hno in Hn.
  - destruct evs as [|[t o|] evs]; simpl.
    1,3: split; [by eexists|]; split; [|simpl; lia]; split; [done|]; intros [fs' E]; by apply Hnil in E.
    destruct o as [|er|]; (split; [by eexists|]; split; [|simpl; lia]).
    1-2: split; [intros E; by apply Hidle in E|]; intros [[|? []] E]; by simplify_eq.
    split; [by exists []|done].
  - pose proof (cron_loop_runs sch zone now evs) as Hr. destruct (cron_loop sch zone now evs) as [fs e].
    destruct Hr as (rest & Hrest & He & Hp). split; [by exists rest|]. split; [|done].
    split; [exact He|]. intros [fs' ->]. apply Hp, elem_of_app. right. by left.
Qed.

(** Configuring the scheduler succeeds exactly when every discovered job resolves, and keeps
    them in registration order; a malformed cron expression or timezone fails the boot with an
    error naming the first such job. *)
Lemma configure_fails_on_first_malformed_job (meta_ty : ty) (rs : list registration) :
  let metas := meta_bindings meta_ty rs in
  match scheduler_configure meta_ty (build (apply_registrations rs builder_new)) with
  | Ok jobs => Forall2 (fun m j => resolve m.1 = Ok j /\ job_name j = cron_meta_name m.1) metas jobs
  | Err e => exists before m after, metas = before ++ m :: after /\
      Forall (fun m => is_ok (resolve m.1) = true) before /\
      exists expr zone, cron_meta_trigger m.1 = Cron expr zone /\
        ((e = InvalidCron (cron_meta_name m.1) expr /\ cron_from_str expr = None) \/
         (exists s, zone = Some s /\ e = InvalidTimezone (cron_meta_name m.1) s /\ tz_parse s = None))
  end.
Proof.
  intros metas. unfold scheduler_configure. rewrite (discovery_meta_bindings meta_ty rs). fold metas.
  destruct (collect_results _ metas) as [jobs|e] eqn:E.
  - apply collect_results_ok in E. eapply Forall2_impl; [exact E|]. intros [m p] j Hj. simpl in *.
    split; [done|]. unfold resolve in Hj. destruct (cron_meta_trigger m) as [ms|ms|expr zone]; simplify_eq/=; [done..|].
    destruct (cron_from_str expr); simplify_eq/=. destruct zone as [s|]; [destruct (tz_parse s)|]; by simplify_eq/=.
  - apply collect_results_err in E as (l1 & [m p] & l2 & Hl & Hm & Hok).
    exists l1, (m, p), l2. split; [done|]. split; [done|]. simpl in *. unfold resolve in Hm.
    destruct (cron_meta_trigger m) as [ms|ms|expr zone]; [done..|]. exists expr, zone. split; [done|].
    destruct (cron_from_str expr) as [sch|] eqn:Ec; simplify_eq/=; [|by left].
    destruct zone as [s|]; simpl in Hm; [|done]. destruct (tz_parse s) as [z|] eqn:Et; simplify_eq/=.
    right. by exists s.
Qed.

End scheduler_properties.

(** ** Witnesses *)

Module ScheduleDemo.

Lemma period_millis_exact_witness : period_millis "90s" = Ok 90000%Z.
Proof. apply (proj2 period_millis_exact 90%Z "s" 1000%Z); [lia|right; by left]. Defined.

Example literals :
  period_millis "500ms" = Ok 500%Z /\ period_millis "  2 h " = Ok 7200000%Z /\
  period_millis "0s" = Err ZeroDuration /\ period_millis "5" = Err BadDuration /\
  period_millis "18446744073709551615m" = Err DurationOverflow.
Proof. vm_compute. auto. Qed.

#[export] Existing Instance Demo.payloads.

(** Every expression but one parses; the only timezone is UTC. *)
#[export] Instance cron_lib : CronLib :=
  {| cron := string; tz := unit;
     cron_from_str := fun s => if String.eqb s "bad" then None else Some s;
     tz_parse := fun s => if String.eqb s "UTC" then Some tt else None;
     find_next_occurrence := fun _ _ now => Some (now + 60)%Z |}.

Definition demo_trigger (v : nat) : trigger :=
  match v with 0 => Interval 1000 | 1 => Cron "bad" None | _ => Cron "* * * * *" (Some "Mars") end.

#[export] Instance thunks : Thunks :=
  {| run_fn := unit; cron_meta_name := fun _ : @val Demo.payloads => "job";
     cron_meta_trigger := fun v : @val Demo.payloads => demo_trigger v; cron_meta_run := fun _ => tt |}.

Definition with_jobs (vs : list nat) : container :=
  build (apply_registrations
    (map (fun v : @val Demo.payloads => RAttachMeta (TNamed "Job") (TNamed "CronJobMeta") v) vs) builder_new).

Example bad_jobs_fail_the_boot :
  scheduler_configure (TNamed "CronJobMeta") (with_jobs [0; 1; 2]) = Err (InvalidCron "job" "bad") /\
  scheduler_configure (TNamed "CronJobMeta") (with_jobs [0; 2]) = Err (InvalidTimezone "job" "Mars") /\
  is_ok (scheduler_configure (TNamed "CronJobMeta") (with_jobs [0; 0])) = true.
Proof. split; [|split]; vm_compute; reflexivity. Qed.

(** An error is survived, a panic is not: later ticks run nothing and nothing is reported. *)
Example a_panic_ends_the_job :
  let tick o := EvTick 0 o in
  run_job (JInterval "job" 1000 tt) 0 [tick (FireErr "io"); tick FireOk; tick FirePanic; tick FireOk; EvCancelled] =
  ([FireErr "io"; FireOk; FirePanic], JobPanicked).
Proof. reflexivity. Qed.

Example trigger_arguments :
  trigger_parse [("cron", ArgStr "bad")] = Err (InvalidCronLiteral "bad") /\
  trigger_parse [("every", ArgStr "1s"); ("tz", ArgStr "UTC")] = Err TzWithoutCron /\
  trigger_parse [("every", ArgStr "1s"); ("after", ArgStr "1s")] = Err SeveralTriggers /\
  trigger_parse [("every", ArgStr "1s")] = Ok (MInterval 1000).
Proof. vm_compute. auto. Qed.

End ScheduleDemo.
