(* ===== verification/Queue.v ===== *)
(** Job queues: the arguments of [#[processor]] ([nestrs-queue-macros/src/processor.rs]), the shared
    connection and its storages ([nestrs-queue/src/connection.rs]), the worker of a processor and its
    job handler ([processor.rs]), the [QueueWorker] transport ([worker.rs]) and the module that queues
    the connection ([module.rs]).

    apalis is a parameter: a storage is what it is configured with, a monitor the workers registered
    on it, and running it is the application's. *)

From S2P Require Import Prelude Container Codegen Schedule.

(** ** The attribute *)

Inductive literal := LitStr (s : string) | LitInt (n : Z) | LitOther.

Inductive processor_error :=
| UnknownKey (key : string)
| ExpectedString
| ExpectedInteger
| IntegerOverflow
| MissingQueue.

Record processor_args := ProcessorArgs { pa_queue : string; pa_concurrency : Z; pa_retries : Z }.

Definition as_string (l : literal) : result string processor_error :=
  match l with LitStr s => Ok s | _ => Err ExpectedString end.

(** [parse::<LitInt>()?.base10_parse::<usize>()]. *)
Definition as_usize (l : literal) : result Z processor_error :=
  match l with
  | LitInt n => if (0 <=? n)%Z && (n <=? u64_max)%Z then Ok n else Err IntegerOverflow
  | _ => Err ExpectedInteger
  end.

(** [key = literal], one at a time; a repeated key overwrites. *)
Definition parse_pair (st : option string * Z * Z) (kv : string * literal) : result (option string * Z * Z) processor_error :=
  let '(queue, concurrency, retries) := st in
  if String.eqb kv.1 "queue" then let? q := as_string kv.2 in Ok (Some q, concurrency, retries)
  else if String.eqb kv.1 "concurrency" then let? n := as_usize kv.2 in Ok (queue, n, retries)
  else if String.eqb kv.1 "retries" then let? n := as_usize kv.2 in Ok (queue, concurrency, n)
  else Err (UnknownKey kv.1).

Definition parse_processor_args (args : list (string * literal)) : result processor_args processor_error :=
  let? (queue, concurrency, retries) := for_each parse_pair args (None, 1%Z, 0%Z) in
  let? queue := ok_or queue MissingQueue in
  Ok (ProcessorArgs queue concurrency retries).

(** ** The connection *)

(** An apalis Redis [Config]: the namespace, and the fetch buffer when it is set. *)
Record redis_storage := RedisStorage { rs_namespace : string; rs_buffer_size : option Z }.

Definition storage (queue : string) : redis_storage := RedisStorage queue None.
Definition consumer_storage (queue : string) (concurrency : Z) : redis_storage :=
  RedisStorage queue (Some (Z.max concurrency 1)).

(** [QueueConnection::of], a [Queue] by its storage. *)
Definition queue_of (queue : string) : redis_storage := storage queue.

(** [Queue::push], on a clone of the storage; apalis writes the job to the namespace. *)
Definition queue_push {J W E} (storage_push : redis_storage -> J -> W -> result unit E * W) (queue : redis_storage) (job : J) (w : W)
  : result unit E * W := storage_push queue job w.

Definition t_queue_connection : ty := TNamed "QueueConnection".
Definition t_processor_meta : ty := TNamed "ProcessorMeta".
Definition t_job_context : ty := TDyn "JobContext".

Record queue_options := QueueOptions { qo_url : string }.
Definition queue_options_default : queue_options := QueueOptions "redis://127.0.0.1/".

Section queue.
Context `{Payloads}.

(** [QueueSetup::collect]; [connect] is the factory that connects to a URL. *)
Definition queue_setup_collect (connect : string -> factory_fn) (options : queue_options) (b : container_builder)
  : container_builder := provide_factory t_queue_connection (connect (qo_url options)) b.

(** ** Workers *)

(** [ProcessorMeta]: its [register] thunk is [register_worker] at the processor's type. *)
Record processor_meta := ProcessorMeta {
  pm_name : string;
  pm_queue : string;
  pm_concurrency : Z;
  pm_retries : Z;
  pm_self : ty
}.

(** What travels through the container as a [val]: the metadata, and the [JobContext] of a worker. *)
Class ProcessorMetas (W : Type) := {
  processor_meta_of : val -> option processor_meta;
  job_context_of : val -> job_context W
}.

(** The application: [FromContainer] and [Processor] of each processor type. *)
Class ProcessorCode (W : Type) := {
  job : Type;
  job_from_container : ty -> container -> result val panic;
  process : ty -> val -> job -> W -> W * result unit failure
}.

Context {W : Type} `{!ProcessorMetas W} `{!ProcessorCode W}.

Record worker := Worker {
  wk_name : string;
  wk_retries : Z;
  wk_container : container;
  wk_job_context : option (job_context W);
  wk_backend : redis_storage;
  wk_processor : ty
}.

Definition register_worker (monitor : list worker) (c : container) (meta : processor_meta) : list worker :=
  monitor ++ [Worker (pm_queue meta) (pm_retries meta) c (job_context_of <$> get_dyn t_job_context c)
                (consumer_storage (pm_queue meta) (pm_concurrency meta)) (pm_self meta)].

(** [handler]: one attempt at a job. *)
Definition job_handler (wk : worker) (j : job) (w : W) : result (W * result unit failure) panic :=
  let? processor := job_from_container (wk_processor wk) (wk_container wk) in
  run_in_job_context (wk_job_context wk) (process (wk_processor wk) processor j) w.

(** ** The transport *)

Record queue_worker := QueueWorker { qw_processors : list processor_meta; qw_container : option container }.
Definition queue_worker_new : queue_worker := QueueWorker [] None.

Definition no_connection : string := "QueueWorker found #[processor]s but no QueueConnection in the container — seed one with App::builder().provide_factory(|_| QueueConnection::connect(url))".

Definition discovered_processors (c : container) : list processor_meta :=
  omap (fun d : val * option ty => processor_meta_of d.1) (discovery_meta t_processor_meta c).

Definition queue_worker_configure (c : container) (t : queue_worker) : result queue_worker string :=
  let processors := discovered_processors c in
  let? _ := match processors with
            | [] => Ok tt
            | _ => result_map (fun _ => tt) (ok_or (get t_queue_connection c) no_connection)
            end in
  Ok (QueueWorker processors (Some c)).

(** [serve]; [run] is [Monitor::run_with_signal], until it ends.  Without processors it idles until the
    transport is cancelled. *)
Definition queue_worker_serve (run : list worker -> result unit failure) (t : queue_worker)
  : result (result unit failure) panic :=
  match qw_processors t with
  | [] => Ok (Ok tt)
  | processors =>
      let? c := expect (qw_container t) "QueueWorker::configure must run before serve" in
      let? _ := expect (get t_queue_connection c) "QueueConnection presence is verified in configure" in
      Ok (run (foldl (fun monitor meta => register_worker monitor c meta) [] processors))
  end.

(** ** What is served *)

Definition worker_for (c : container) (meta : processor_meta) : worker :=
  Worker (pm_queue meta) (pm_retries meta) c (job_context_of <$> get_dyn t_job_context c)
    (consumer_storage (pm_queue meta) (pm_concurrency meta)) (pm_self meta).

Lemma registered_workers c metas monitor :
  foldl (fun monitor meta => register_worker monitor c meta) monitor metas = monitor ++ map (worker_for c) metas.
Proof.
  revert monitor. induction metas as [|m metas IH]; intros monitor; cbn; [by rewrite app_nil_r|].
  rewrite IH. unfold register_worker. by rewrite <-app_assoc.
Qed.

(** The worker of a processor consumes the namespace a producer of its queue pushes to, with room for at
    least one job and for as many as the processor asks. *)
Definition consumes (meta : processor_meta) (wk : worker) : Prop :=
  rs_namespace (wk_backend wk) = rs_namespace (queue_of (pm_queue meta)) /\
  rs_buffer_size (wk_backend wk) = Some (Z.max (pm_concurrency meta) 1) /\ wk_processor wk = pm_self meta /\
  wk_retries wk = pm_retries meta.

Lemma workers_consume c metas : Forall2 consumes metas (map (worker_for c) metas).
Proof. induction metas as [|m metas IH]; constructor; [|done]. by split_and!. Qed.

(** A container is refused exactly when it has processors and no connection.  What [configure] accepts
    is served without a panic: the monitor runs one worker for each attached processor, in order. *)
Lemma queue_worker_serves_every_processor (rs : list registration) (run : list worker -> result unit failure) :
  let c := build (apply_registrations rs builder_new) in
  let metas := omap (fun d : val * option ty => processor_meta_of d.1) (meta_bindings t_processor_meta rs) in
  match queue_worker_configure c queue_worker_new with
  | Err msg => msg = no_connection /\ metas <> [] /\ get t_queue_connection c = None
  | Ok t => (metas = [] \/ is_Some (get t_queue_connection c)) /\
      exists workers, Forall2 consumes metas workers /\
        queue_worker_serve run t = Ok (match metas with [] => Ok tt | _ => run workers end)
  end.
Proof.
  intros c metas. unfold queue_worker_configure, discovered_processors.
  assert (omap (fun d : val * option ty => processor_meta_of d.1) (discovery_meta t_processor_meta c) = metas) as ->
    by (unfold c; by rewrite discovery_meta_bindings).
  pose proof (workers_consume c metas) as Hw. unfold queue_worker_serve.
  destruct metas as [|m metas]; [split; [by left|]; by eexists|].
  destruct (get t_queue_connection c) as [conn|] eqn:Ec; [|done]. cbn [result_map ok_or result_bind qw_processors qw_container expect].
  rewrite Ec, registered_workers. split; [by right|]. by eexists.
Qed.

End queue.

(** The literal a key was given last. *)
Definition last_of (key : string) (args : list (string * literal)) : option literal :=
  foldl (fun acc kv => if String.eqb kv.1 key then Some kv.2 else acc) None args.

Definition int_or (d : Z) (l : option literal) : Z := match l with Some (LitInt n) => n | _ => d end.

(** Accepted arguments are the last ones given, with their defaults; integers are in range. *)
Lemma parse_processor_args_ok args a : parse_processor_args args = Ok a ->
  last_of "queue" args = Some (LitStr (pa_queue a)) /\
  pa_concurrency a = int_or 1 (last_of "concurrency" args) /\ pa_retries a = int_or 0 (last_of "retries" args) /\
  u64 (pa_concurrency a) /\ u64 (pa_retries a).
Proof.
  unfold parse_processor_args.
  assert (forall q n r, for_each parse_pair args (None, 1%Z, 0%Z) = Ok (q, n, r) ->
    last_of "queue" args = LitStr <$> q /\ n = int_or 1 (last_of "concurrency" args) /\ r = int_or 0 (last_of "retries" args) /\
    u64 n /\ u64 r) as Hst.
  { induction args as [|[k l] args IH] using rev_ind; intros q n r.
    { intros [= <- <- <-]. unfold u64, u64_max. split_and!; first [reflexivity|lia]. }
    rewrite for_each_app. unfold last_of. rewrite !foldl_app. cbn [foldl fst snd]. fold (last_of "queue" args).
    fold (last_of "concurrency" args). fold (last_of "retries" args).
    destruct (for_each _ args _) as [[[q0 n0] r0]|]; [|done]. destruct (IH _ _ _ eq_refl) as (Hq & Hn & Hr & Hn' & Hr').
    cbn [for_each result_bind]. unfold parse_pair. cbn [fst snd].
    destruct (String.eqb_spec k "queue") as [->|]; [|destruct (String.eqb_spec k "concurrency") as [->|];
      [|destruct (String.eqb_spec k "retries") as [->|]; [|done]]]; destruct l as [s|z|]; cbn; try done.
    - by intros [= <- <- <-].
    - destruct (Z.leb_spec 0 z), (Z.leb_spec z u64_max); try done. by intros [= <- <- <-].
    - destruct (Z.leb_spec 0 z), (Z.leb_spec z u64_max); try done. by intros [= <- <- <-]. }
  destruct (for_each _ _ _) as [[[q n] r]|]; [|done]. destruct (Hst _ _ _ eq_refl) as (Hq & Hrest). cbn.
  destruct q as [q|]; [|done]. intros [= <-]. by split.
Qed.

(** ** A worker of two processors *)

Module QueueDemo.

#[export] Instance queue_payloads : Payloads :=
  {| val := nat + processor_meta; scoped_fn := nat; factory_fn := string; failure := string |}.

#[export] Instance queue_metas : ProcessorMetas (list string) :=
  {| processor_meta_of := fun v : @val queue_payloads => match v with inr m => Some m | inl _ => None end;
     job_context_of := fun _ => {| jc_scope := fun X inner s => inner (s.1 ++ ["scoped"], s.2) |} |}.

#[export] Instance queue_code : ProcessorCode (list string) :=
  {| job := string; job_from_container := fun self c => expect (get self c) "no dependency";
     process := fun _ _ j w => (w ++ [j], if String.eqb j "bad" then (Err "boom" : result unit (@failure queue_payloads)) else Ok tt) |}.

Definition mail : processor_meta := ProcessorMeta "Mail" "mail" 0 3 (TNamed "Mail").

Definition app (connected : bool) : container :=
  build (apply_registrations
    ([RProvide (TNamed "Mail") (inl 1 : @val queue_payloads); RProvideDyn (TDyn "JobContext") (inl 2 : @val queue_payloads);
      RAttachMeta (TNamed "Mail") t_processor_meta (inr mail : @val queue_payloads)]
     ++ if connected then [RProvide t_queue_connection (inl 0 : @val queue_payloads)] else []) builder_new).

Example unconnected_worker_fails_the_boot : queue_worker_configure (app false) queue_worker_new = Err no_connection.
Proof. vm_compute. reflexivity. Qed.

(** Each attempt is a processor of its own, run in the context; a concurrency of zero still has room for one. *)
Example attempts :
  let wk := worker_for (app true) mail in
  job_handler wk "hi" [] = Ok (["scoped"; "hi"], Ok tt) /\ job_handler wk "bad" [] = Ok (["scoped"; "bad"], Err "boom") /\
  rs_buffer_size (wk_backend wk) = Some 1%Z.
Proof. split_and!; vm_compute; reflexivity. Qed.

Example arguments :
  parse_processor_args [("retries", LitInt 3); ("queue", LitStr "a"); ("queue", LitStr "b")] = Ok (ProcessorArgs "b" 1 3) /\
  parse_processor_args [("retries", LitInt 3)] = Err MissingQueue /\
  parse_processor_args [("queue", LitStr "a"); ("retry", LitInt 3)] = Err (UnknownKey "retry").
Proof. split_and!; vm_compute; reflexivity. Qed.

End QueueDemo.
