(* ===== verification/Throttler.v ===== *)
(** Rate limiting: the fixed-window counter ([nestrs-throttler/src/store.rs]), the limits
    ([throttle.rs]) and the per-route guard ([guard.rs]).

    The clock is a monotone count of nanoseconds; durations are non-negative.  The window
    counter is a [u32] and wraps, as in a release build. *)

From S2P Require Import Prelude.

(** [Throttle]; the window is in nanoseconds. *)
Record throttle := Throttle { limit : Z; window : Z }.

Definition second : Z := 1000000000.

Definition throttle_new (l w : Z) : throttle := Throttle l w.
Definition per_minute (l : Z) : throttle := throttle_new l (60 * second).
Definition per_second (l : Z) : throttle := throttle_new l second.

Record decision := Decision { allowed : bool; retry_after : Z }.

Record window_t := Window { w_start : Z; w_count : Z }.

(** [InMemoryThrottler]: the default limit and the window of each key. *)
Record throttler := Throttler { t_default : throttle; t_windows : gmap string window_t }.

Definition throttler_new (default : throttle) : throttler := Throttler default ∅.

Definition default_limit (t : throttler) : throttle := t_default t.

(** [hit], with the clock reading [now]. *)
Definition hit (now : Z) (key : string) (lim : throttle) (t : throttler) : decision * throttler :=
  let w := default (Window now 0) (t_windows t !! key) in
  let w := if Z.leb (window lim) (now - w_start w) then Window now 0 else w in
  let w := Window (w_start w) (wrap_u32 (w_count w + 1)) in
  let t' := Throttler (t_default t) (<[key := w]> (t_windows t)) in
  if Z.ltb (limit lim) (w_count w) then
    (Decision false (saturating_sub (window lim) (now - w_start w)), t')
  else (Decision true 0, t').

(** ** The guard *)

(** What the guard reads of a request: the first [X-Forwarded-For] value when it is visible
    ASCII, and the peer's IP address. *)
Record client := Client { forwarded_for : option string; peer_ip : option string }.

Definition comma : Ascii.ascii := Ascii.ascii_of_nat 44.

Definition client_key (req : client) : string :=
  let first_hop :=
    chain ← forwarded_for req;
    hop ← head (split comma chain);
    let ip := trim hop in
    if String.eqb ip "" then None else Some ip in
  match first_hop with
  | Some ip => ip
  | None => match peer_ip req with Some ip => ip | None => "global" end
  end.

(** The rejection: [429] with the [Retry-After] seconds. *)
Record too_many_requests := TooManyRequests { retry_after_secs : Z }.

Definition throttler_check (now : Z) (req : client) (route_meta : option throttle) (t : throttler)
  : result unit too_many_requests * throttler :=
  let lim := match route_meta with Some l => l | None => default_limit t end in
  let '(d, t') := hit now (client_key req) lim t in
  if allowed d then (Ok tt, t') else (Err (TooManyRequests (retry_after d / second)), t').

(** A history of hits by any clients under any limits, with the decisions. *)
Fixpoint hits (l : list (Z * string * throttle)) (t : throttler) : list decision * throttler :=
  match l with
  | [] => ([], t)
  | (now, key, lim) :: l' =>
      let '(d, t1) := hit now key lim t in
      let '(ds, t2) := hits l' t1 in (d :: ds, t2)
  end.

(** ** Lemmas *)

Lemma hit_other_key now key key' lim t : key <> key' ->
  t_windows (hit now key lim t).2 !! key' = t_windows t !! key'.
Proof. intros. unfold hit. case_match; simpl; by rewrite lookup_insert_ne. Qed.

(** A hit that lands in an open window counts in it. *)
Lemma hit_in_window now key lim t s c :
  t_windows t !! key = Some (Window s c) -> (now - s < window lim)%Z -> (0 <= c)%Z -> (c < u32_max)%Z ->
  hit now key lim t =
    (if Z.ltb (limit lim) (c + 1) then Decision false (window lim - (now - s)) else Decision true 0,
     Throttler (t_default t) (<[key := Window s (c + 1)]> (t_windows t))).
Proof.
  intros Hw Hn Hc Hm. unfold hit. rewrite Hw. simpl. rewrite (proj2 (Z.leb_gt _ _)) by done. simpl.
  rewrite wrap_u32_small by (unfold u32; lia).
  destruct (Z.ltb (limit lim) (c + 1)); [|done]. do 2 f_equal. unfold saturating_sub. lia.
Qed.

(** The hits of one key in a history, with their decisions. *)
Fixpoint decisions_of (key : string) (l : list (Z * string * throttle)) (ds : list decision)
  : list decision :=
  match l, ds with
  | (_, k, _) :: l', d :: ds' =>
      if String.eqb k key then d :: decisions_of key l' ds' else decisions_of key l' ds'
  | _, _ => []
  end.

Definition hits_of (key : string) (l : list (Z * string * throttle)) : list (Z * string * throttle) :=
  List.filter (fun h => String.eqb h.1.2 key) l.

Lemma hits_in_window key lim s (l : list (Z * string * throttle)) : forall t c,
  t_windows t !! key = Some (Window s c) -> (0 <= c)%Z ->
  (c + Z.of_nat (length (hits_of key l)) <= u32_max)%Z ->
  Forall (fun h => h.1.2 = key -> h.2 = lim /\ (h.1.1 - s < window lim)%Z) l ->
  map allowed (decisions_of key l (hits l t).1) =
    map (fun i => Z.leb (c + Z.of_nat i) (limit lim)) (seq 1 (length (hits_of key l))).
Proof.
  induction l as [|[[now k] lm] l IH]; intros t c Hw Hc Hm Hall; [done|]. cbn [hits].
  destruct (hit now k lm t) as [d t1] eqn:Eh. specialize (IH t1).
  destruct (hits l t1) as [ds t2] eqn:El. simpl in IH |- *. unfold hits_of in *. simpl in *.
  apply Forall_cons in Hall as [Hh Hall]. simpl in Hh.
  destruct (String.eqb_spec k key) as [->|Hne]; simpl in *.
  - destruct Hh as [-> Hn]; [done|]. rewrite (hit_in_window _ _ _ _ s c) in Eh by (done || lia).
    injection Eh as <- <-.
    rewrite (IH (c + 1)%Z); [|simpl; by rewrite lookup_insert_eq|lia|lia|done].
    rewrite <- (seq_shift _ 1), map_map. f_equal.
    + destruct (Z.ltb_spec (limit lim) (c + 1)); simpl; symmetry; [apply Z.leb_gt|apply Z.leb_le]; lia.
    + apply map_ext. intros i. f_equal. lia.
  - apply IH; [|done..]. pose proof (hit_other_key now k key lm t Hne) as Ho. by rewrite Eh, Hw in Ho.
Qed.

(** [C36] Fixed window: from the hit that opens a client's window, and as long as its hits stay
    within it, under one limit, exactly the first [limit] of them are allowed, whatever other
    clients do in between; fewer than 2^32 hits are assumed. *)
Theorem fixed_window_allows_exactly_limit (t : throttler) (key : string) (lim : throttle) (now : Z)
    (l : list (Z * string * throttle)) :
  (0 < window lim)%Z ->
  match t_windows t !! key with None => True | Some w => (window lim <= now - w_start w)%Z end ->
  Forall (fun h => h.1.2 = key -> h.2 = lim /\ (h.1.1 - now < window lim)%Z) l ->
  (1 + Z.of_nat (length (hits_of key l)) <= u32_max)%Z ->
  let history := (now, key, lim) :: l in
  map allowed (decisions_of key history (hits history t).1) =
    map (fun i => Z.leb (Z.of_nat i) (limit lim)) (seq 1 (S (length (hits_of key l)))).
Proof.
  intros Hpos Hopen Hall Hlen. cbn [hits].
  assert (Hh : hit now key lim t =
    (if Z.ltb (limit lim) 1 then Decision false (window lim) else Decision true 0,
     Throttler (t_default t) (<[key := Window now 1]> (t_windows t)))).
  { unfold hit. destruct (t_windows t !! key) as [[s c]|] eqn:Ew; simpl in *.
    - rewrite (proj2 (Z.leb_le _ _)) by done. simpl. rewrite wrap_u32_small by (unfold u32, u32_max; lia).
      change (0 + 1)%Z with 1%Z. destruct (Z.ltb (limit lim) 1); [|done]. do 2 f_equal. unfold saturating_sub. lia.
    - rewrite (proj2 (Z.leb_gt _ _)) by lia. simpl. rewrite wrap_u32_small by (unfold u32, u32_max; lia).
      change (0 + 1)%Z with 1%Z. destruct (Z.ltb (limit lim) 1); [|done]. do 2 f_equal. unfold saturating_sub. lia. }
  rewrite Hh. set (t1 := Throttler _ _).
  pose proof (hits_in_window key lim now l t1 1%Z) as Hrest.
  destruct (hits l t1) as [ds t2] eqn:El. cbn [fst decisions_of] in Hrest |- *. rewrite String.eqb_refl.
  cbn [seq map]. rewrite Hrest; [|by apply lookup_insert_eq|lia|done|done]. f_equal.
  - destruct (Z.ltb_spec (limit lim) 1); simpl; symmetry; [apply Z.leb_gt|apply Z.leb_le]; lia.
  - rewrite <- (seq_shift _ 1), map_map. apply map_ext. intros i. f_equal. lia.
Qed.

(** The window is shared by all the routes of a client, and its reset follows the limit of
    the route being hit.  So a request to a route with a short window reopens a stricter
    route before that route's own window has elapsed: however many requests the client has
    made there, the next [limit - 1] are allowed again. *)
Lemma short_window_route_reopens_strict_route (t : throttler) (key : string)
    (strict short : throttle) (s c now : Z) :
  t_windows t !! key = Some (Window s c) ->
  (limit strict <= c < u32_max)%Z -> (2 <= limit strict)%Z ->
  (now - s < window strict)%Z -> (0 < window short <= now - s)%Z -> (0 < limit short)%Z ->
  allowed (hit now key strict t).1 = false /\
  (let '(d, t') := hit now key short t in
   allowed d = true /\ allowed (hit now key strict t').1 = true).
Proof.
  intros Hw Hc Hl Hin Hshort Hls. split.
  - rewrite (hit_in_window _ _ _ _ s c) by (done || lia). simpl.
    by rewrite (proj2 (Z.ltb_lt _ _)) by lia.
  - assert (Hd : hit now key short t = (Decision true 0, Throttler (t_default t) (<[key := Window now 1]> (t_windows t)))).
    { unfold hit. rewrite Hw. simpl. rewrite (proj2 (Z.leb_le _ _)) by lia. simpl.
      rewrite wrap_u32_small by (unfold u32, u32_max; lia).
      by rewrite (proj2 (Z.ltb_ge _ _)) by lia. }
    rewrite Hd. split; [done|].
    rewrite (hit_in_window _ _ _ _ now 1); [|simpl; by rewrite lookup_insert_eq|lia|lia|unfold u32_max; lia].
    simpl. by rewrite (proj2 (Z.ltb_ge _ _)) by lia.
Qed.

(** The counter is 32 bits wide: the hit after 2^32 - 1 of them wraps to zero and is allowed. *)
Lemma counter_wraps_open (t : throttler) (key : string) (lim : throttle) (s now : Z) :
  t_windows t !! key = Some (Window s u32_max) -> (now - s < window lim)%Z -> (0 <= limit lim)%Z ->
  allowed (hit now key lim t).1 = true.
Proof.
  intros Hw Hn Hl. unfold hit. rewrite Hw. simpl. rewrite (proj2 (Z.leb_gt _ _)) by done. simpl.
  change (wrap_u32 (u32_max + 1)) with 0%Z. by rewrite (proj2 (Z.ltb_ge _ _)).
Qed.

(** ** Witnesses *)

Module ThrottlerDemo.

Definition now0 : Z := 5 * second.
Definition three : throttle := throttle_new 2 (60 * second).

Definition others : list (Z * string * throttle) :=
  [(6 * second, "k", three); (7 * second, "other", per_second 1); (8 * second, "k", three)]%Z.

Lemma fixed_window_allows_exactly_limit_witness :
  map allowed (decisions_of "k" ((now0, "k", three) :: others)
                 (hits ((now0, "k", three) :: others) (throttler_new (per_minute 60))).1) =
  [true; true; false].
Proof.
  apply (fixed_window_allows_exactly_limit (throttler_new (per_minute 60)) "k" three now0 others).
  - done.
  - exact I.
  - unfold others. repeat (apply Forall_cons; split; [done|]). done.
  - done.
Defined.

(** A client that used up 100 a minute is let in again by one hit on a per-second route. *)
Definition exhausted : throttler := Throttler (per_minute 100) {[ "k" := Window 0 100 ]}.

Lemma short_window_route_reopens_strict_route_witness :
  allowed (hit second "k" (per_minute 100) exhausted).1 = false /\
  (let '(d, t') := hit second "k" (per_second 10) exhausted in
   allowed d = true /\ allowed (hit second "k" (per_minute 100) t').1 = true).
Proof.
  apply (short_window_route_reopens_strict_route exhausted "k" (per_minute 100) (per_second 10) 0 100 second);
    [reflexivity|split; [discriminate|reflexivity]|discriminate|reflexivity
    |split; [reflexivity|discriminate]|reflexivity].
Defined.

Example keys :
  client_key (Client (Some " 10.0.0.1 , 10.0.0.2") (Some "192.168.0.9")) = "10.0.0.1" /\
  client_key (Client (Some " ,10.0.0.2") (Some "192.168.0.9")) = "192.168.0.9" /\
  client_key (Client None None) = "global".
Proof. vm_compute. auto. Qed.

(** Less than a second left: the header says [0]. *)
Example retry_after_rounds_to_zero :
  (throttler_check (59 * second + 1)%Z (Client None (Some "k")) (Some (per_minute 1))
     (Throttler (per_minute 1) {[ "k" := Window 0 1 ]})).1 = Err (TooManyRequests 0).
Proof. vm_compute. reflexivity. Qed.

End ThrottlerDemo.
