(* ===== verification/Ws.v ===== *)
(** WebSockets: the connection registry ([nestrs-ws/src/server.rs]), the per-message guards
    ([guard.rs]), the connection loop ([gateway.rs]) and the dispatch that [#[messages]] emits
    ([nestrs-ws-macros/src/messages.rs]).

    An outbox is a channel of a shared store: sending to it succeeds while its receiver, the
    writer task of the socket, is alive.  Serialization is a parameter; application handlers
    act on the world they are given. *)

From S2P Require Import Prelude.

(** ** The registry *)

(** An unbounded channel: whether its receiver is alive, and what was queued. *)
Record channel := Channel { ch_alive : bool; ch_queue : list string }.

(** [UnboundedSender::send] *)
Definition send (ch : nat) (frame : string) (chans : gmap nat channel) : bool * gmap nat channel :=
  match chans !! ch with
  | Some c =>
      if ch_alive c then (true, <[ch := Channel true (ch_queue c ++ [frame])]> chans) else (false, chans)
  | None => (false, chans)
  end.

Record conn := Conn { cn_outbox : nat; cn_rooms : gset string }.

(** [WsServer]; [ConnId] is a [u64]. *)
Record ws_server := WsServer { conns : gmap Z conn; next_id : Z }.

Definition ws_server_default : ws_server := WsServer ∅ 0.

Definition connect (outbox : nat) (s : ws_server) : Z * ws_server :=
  (next_id s, WsServer (<[next_id s := Conn outbox ∅]> (conns s)) (wrap_u64 (next_id s + 1))).

Definition disconnect (id : Z) (s : ws_server) : ws_server :=
  WsServer (delete id (conns s)) (next_id s).

Definition join (id : Z) (room : string) (s : ws_server) : ws_server :=
  match conns s !! id with
  | Some c => WsServer (<[id := Conn (cn_outbox c) ({[room]} ∪ cn_rooms c)]> (conns s)) (next_id s)
  | None => s
  end.

Definition leave (id : Z) (room : string) (s : ws_server) : ws_server :=
  match conns s !! id with
  | Some c => WsServer (<[id := Conn (cn_outbox c) (cn_rooms c ∖ {[room]})]> (conns s)) (next_id s)
  | None => s
  end.

Definition connection_count (s : ws_server) : nat := size (conns s).

(** The wire format: [WsEnvelope::encode] on a value, and [serde_json::from_str]. *)
Class Wire := {
  encode : string -> json -> option string;
  decode : string -> result (string * json) string
}.

(** Sending one frame to each connection of a list, counting the outboxes that accept it. *)
Fixpoint send_all (frame : string) (cs : list conn) (chans : gmap nat channel)
  : nat * gmap nat channel :=
  match cs with
  | [] => (0, chans)
  | c :: cs' =>
      let '(ok, chans1) := send (cn_outbox c) frame chans in
      let '(n, chans2) := send_all frame cs' chans1 in
      ((if ok then S n else n), chans2)
  end.

Section registry.
Context `{Wire}.

Definition broadcast_value (event : string) (data : json) (s : ws_server) (chans : gmap nat channel)
  : nat * gmap nat channel :=
  match encode event data with
  | None => (0, chans)
  | Some frame => send_all frame (map snd (map_to_list (conns s))) chans
  end.

Definition emit_to_value (room event : string) (data : json) (s : ws_server)
    (chans : gmap nat channel) : nat * gmap nat channel :=
  match encode event data with
  | None => (0, chans)
  | Some frame =>
      send_all frame (filter (fun c => room ∈ cn_rooms c) (map snd (map_to_list (conns s)))) chans
  end.

Definition emit_value (id : Z) (event : string) (data : json) (s : ws_server)
    (chans : gmap nat channel) : bool * gmap nat channel :=
  match encode event data with
  | None => (false, chans)
  | Some frame =>
      match conns s !! id with
      | Some c => send (cn_outbox c) frame chans
      | None => (false, chans)
      end
  end.

(** The public wrappers: the payload of type [T] is serialized first, and nothing is sent when that
    fails. *)
Definition broadcast {T E} (to_value : T -> result json E) (event : string) (data : T) (s : ws_server)
    (chans : gmap nat channel) : result nat E * gmap nat channel :=
  match to_value data with
  | Err e => (Err e, chans)
  | Ok v => let '(n, chans1) := broadcast_value event v s chans in (Ok n, chans1)
  end.

Definition emit_to {T E} (to_value : T -> result json E) (room event : string) (data : T)
    (s : ws_server) (chans : gmap nat channel) : result nat E * gmap nat channel :=
  match to_value data with
  | Err e => (Err e, chans)
  | Ok v => let '(n, chans1) := emit_to_value room event v s chans in (Ok n, chans1)
  end.

Definition emit {T E} (to_value : T -> result json E) (id : Z) (event : string) (data : T)
    (s : ws_server) (chans : gmap nat channel) : result bool E * gmap nat channel :=
  match to_value data with
  | Err e => (Err e, chans)
  | Ok v => let '(ok, chans1) := emit_value id event v s chans in (Ok ok, chans1)
  end.

End registry.

(** ** Message guards *)

(** [MessageGuard]: a verdict on the client, the event and the payload. *)
Definition message_guard : Type := Z -> string -> json -> result unit string.

Definition guard_table_new : gmap string (list message_guard) := ∅.

Definition guard_insert (event : string) (guards : list message_guard)
    (t : gmap string (list message_guard)) : gmap string (list message_guard) := <[event := guards]> t.

Definition check (t : gmap string (list message_guard)) (client : Z) (event : string) (data : json)
  : result unit string :=
  match t !! event with
  | None => Ok tt
  | Some guards => for_each (fun _ g => g client event data) guards tt
  end.

(** ** Dispatch *)

(** [WsReply] *)
Inductive ws_reply :=
| Reply (data : json)
| NoReply
| ErrorReply (message : string).

(** [WsReply::reply] on the outcome of serializing the handler's return value. *)
Definition reply (value : result json string) : ws_reply :=
  match value with
  | Ok data => Reply data
  | Err err => ErrorReply ("failed to serialize reply: " +:+ err)
  end.

Definition unknown (event : string) : ws_reply := ErrorReply ("unknown event `" +:+ event +:+ "`").

(** The world a handler acts on: the registry, the channels, and the application's own state.
    [Err w] is a panic that leaves the world [w]. *)
Section gateway.
Context `{Wire} {A : Type}.

Record world := World { w_server : ws_server; w_chans : gmap nat channel; w_app : A }.

(** A [#[subscribe_message]] handler as the macro sees it, its body included: deserializing the
    payload (when it takes one) may fail with a message, and so may serializing what it returns. *)
Record handler := Handler {
  h_event : string;
  h_guards : list message_guard;
  h_payload : option (json -> result json string);
  h_returns_unit : bool;
  h_body : Z -> json -> world -> result (result json string * world) world
}.

(** The emitted match arm of one handler. *)
Definition handler_arm (h : handler) (client : Z) (data : json) (w : world)
  : result (ws_reply * world) world :=
  match (match h_payload h with Some from_value => from_value data | None => Ok data end) with
  | Err e => Ok (ErrorReply ("invalid payload for `" +:+ h_event h +:+ "`: " +:+ e), w)
  | Ok payload =>
      let? r := h_body h client payload w in
      Ok (if h_returns_unit h then NoReply else reply r.1, r.2)
  end.

(** The emitted [dispatch]: the first arm whose literal is the event. *)
Fixpoint dispatch (hs : list handler) (client : Z) (event : string) (data : json)
  : world -> result (ws_reply * world) world :=
  match hs with
  | [] => fun w => Ok (unknown event, w)
  | h :: hs' =>
      if String.eqb (h_event h) event then handler_arm h client data
      else dispatch hs' client event data
  end.

(** The emitted table: one insert per handler that has guards, in order. *)
Definition messages_guards (hs : list handler) : gmap string (list message_guard) :=
  foldl (fun t h => match h_guards h with [] => t | gs => guard_insert (h_event h) gs t end)
    guard_table_new hs.

Definition quoted (s : string) : string :=
  let dq := String (Ascii.ascii_of_nat 34) EmptyString in dq +:+ s +:+ dq.

Definition error_frame (event message : string) : string :=
  default ("{" +:+ quoted "event" +:+ ":" +:+ quoted "error" +:+ "," +:+ quoted "data" +:+ ":{" +:+
           quoted "error" +:+ ":" +:+ quoted "internal" +:+ "}}")
    (encode event (JObject [("error", JString message)])).

(** A message dispatch, and a bound [SocketContext] with its captured state wrapping one. *)
Definition dispatching : Type := world -> result (ws_reply * world) world.
Definition socket_context : Type := dispatching -> dispatching.

(** [handle_text]: the reply frame, if any. *)
Definition handle_text (hs : list handler) (guards : gmap string (list message_guard))
    (ambient : option socket_context) (client : Z) (text : string) (w : world)
  : result (option string * world) world :=
  match decode text with
  | Err err => Ok (Some (error_frame "error" ("invalid envelope: " +:+ err)), w)
  | Ok (event, data) =>
      match check guards client event data with
      | Err reason => Ok (Some (error_frame event reason), w)
      | Ok _ =>
          let inner := dispatch hs client event data in
          let? r := match ambient with Some around => around inner w | None => inner w end in
          Ok (match r.1 with
              | Reply data => encode event data
              | NoReply => None
              | ErrorReply message => Some (error_frame event message)
              end, r.2)
      end
  end.

(** What the read half of the socket yields. *)
Inductive incoming :=
| InText (text : string)
| InClose
| InOther
| InError.

(** The gateway of one connection loop; a hook may panic too. *)
Record gateway := Gateway {
  gw_handlers : list handler;
  gw_guards : gmap string (list message_guard);
  gw_ambient : option socket_context;
  gw_on_connect : Z -> world -> result world world;
  gw_on_disconnect : Z -> world -> result world world
}.

(** The read loop: the world when it ends. *)
Fixpoint read_loop (g : gateway) (id : Z) (outbox : nat) (msgs : list incoming) (w : world)
  : result world world :=
  match msgs with
  | [] => Ok w
  | InClose :: _ | InError :: _ => Ok w
  | InOther :: msgs' => read_loop g id outbox msgs' w
  | InText text :: msgs' =>
      let? r := handle_text (gw_handlers g) (gw_guards g) (gw_ambient g) id text w in
      match r.1 with
      | None => read_loop g id outbox msgs' r.2
      | Some reply =>
          let '(ok, chans) := send outbox reply (w_chans r.2) in
          let w' := World (w_server r.2) chans (w_app r.2) in
          if ok : bool then read_loop g id outbox msgs' w' else Ok w'
      end
  end.

(** [serve_connection], on a socket whose outbox channel is [outbox]. *)
Definition serve_connection (g : gateway) (outbox : nat) (msgs : list incoming) (w : world)
  : result world world :=
  let '(id, srv) := connect outbox (w_server w) in
  let? w1 := gw_on_connect g id (World srv (w_chans w) (w_app w)) in
  let? w2 := read_loop g id outbox msgs w1 in
  let? w3 := gw_on_disconnect g id w2 in
  Ok (World (disconnect id (w_server w3)) (w_chans w3) (w_app w3)).

End gateway.

Arguments world : clear implicits.
Arguments handler : clear implicits.
Arguments gateway : clear implicits.
Arguments socket_context : clear implicits.
Arguments dispatching : clear implicits.

(** ** The registry's invariant: connections have their own outboxes and past identifiers *)

Record server_wf (s : ws_server) : Prop := {
  wf_next : u64 (next_id s);
  wf_ids : forall id c, conns s !! id = Some c -> (0 <= id < next_id s)%Z;
  wf_outboxes : forall id1 id2 c1 c2, conns s !! id1 = Some c1 -> conns s !! id2 = Some c2 ->
    cn_outbox c1 = cn_outbox c2 -> id1 = id2
}.

(** A connection's operations on the registry, for statements over any sequence of them. *)
Inductive ws_op :=
| OpConnect (outbox : nat)
| OpDisconnect (id : Z)
| OpJoin (id : Z) (room : string)
| OpLeave (id : Z) (room : string).

Definition apply_op (s : ws_server) (o : ws_op) : ws_server :=
  match o with
  | OpConnect ch => (connect ch s).2
  | OpDisconnect id => disconnect id s
  | OpJoin id room => join id room s
  | OpLeave id room => leave id room s
  end.

Definition apply_ops (ops : list ws_op) : ws_server := foldl apply_op ws_server_default ops.

Fixpoint outboxes (ops : list ws_op) : list nat :=
  match ops with
  | [] => []
  | OpConnect ch :: ops' => ch :: outboxes ops'
  | _ :: ops' => outboxes ops'
  end.

Section registry_lemmas.
Implicit Types (s : ws_server) (ops : list ws_op).

Lemma apply_ops_snoc ops o : apply_ops (ops ++ [o]) = apply_op (apply_ops ops) o.
Proof. unfold apply_ops. by rewrite foldl_app. Qed.

Lemma outboxes_app ops1 ops2 : outboxes (ops1 ++ ops2) = outboxes ops1 ++ outboxes ops2.
Proof. induction ops1 as [|[] ops1 IH]; simpl; by rewrite ?IH. Qed.

(** The state after a history that opens fewer than 2^64 connections, each with its own channel. *)
Lemma apply_ops_spec ops : NoDup (outboxes ops) -> (Z.of_nat (length (outboxes ops)) <= u64_max)%Z ->
  server_wf (apply_ops ops) /\ next_id (apply_ops ops) = Z.of_nat (length (outboxes ops)) /\
  forall id c, conns (apply_ops ops) !! id = Some c -> outboxes ops !! Z.to_nat id = Some (cn_outbox c).
Proof.
  induction ops as [|o ops IH] using rev_ind; intros Hnd Hlen.
  { split; [split; [unfold u64, u64_max; simpl; lia| |]|split; [done|]]; intros *; simpl; by rewrite lookup_empty. }
  rewrite apply_ops_snoc. rewrite outboxes_app in *. apply NoDup_app in Hnd as (Hnd & Hdis & _).
  rewrite length_app in Hlen. destruct IH as (Hwf & Hnext & Hch); [done|lia|].
  set (s := apply_ops ops) in *.
  (* an operation that only changes rooms or removes a connection *)
  assert (Hkeep : forall s', next_id s' = next_id s ->
    (forall id c, conns s' !! id = Some c -> exists c0, conns s !! id = Some c0 /\ cn_outbox c = cn_outbox c0) ->
    server_wf s' /\ next_id s' = Z.of_nat (length (outboxes ops)) /\
    forall id c, conns s' !! id = Some c -> outboxes ops !! Z.to_nat id = Some (cn_outbox c)).
  { intros s' Hn Hs. split; [split|].
    - rewrite Hn. apply Hwf.
    - intros id c (c0 & Hc0 & _)%Hs. rewrite Hn. by apply (wf_ids _ Hwf) in Hc0.
    - intros id1 id2 c1 c2 (c01 & H1 & E1)%Hs (c02 & H2 & E2)%Hs Heq.
      apply (wf_outboxes _ Hwf _ _ _ _ H1 H2). congruence.
    - split; [by rewrite Hn|]. intros id c (c0 & Hc0 & ->)%Hs. by apply Hch. }
  destruct o as [ch|id0|id0 room|id0 room]; simpl outboxes; rewrite ?app_nil_r; simpl.
  - assert (Hfresh : ch ∉ outboxes ops) by (intros Hin; apply (Hdis ch Hin); by left).
    simpl in Hlen. rewrite wrap_u64_small by (unfold u64, u64_max in *; lia).
    rewrite length_app. simpl. split; [split; simpl|split; simpl; [lia|]].
    + unfold u64, u64_max in *. lia.
    + intros id c [[<- <-]|[_ Hc%(wf_ids _ Hwf)]]%lookup_insert_Some; lia.
    + intros id1 id2 c1 c2 [[<- <-]|[Hne1 H1]]%lookup_insert_Some [[<- <-]|[Hne2 H2]]%lookup_insert_Some; simpl; intros Heq; try done.
      * apply Hch, list_elem_of_lookup_2 in H2. by rewrite <- Heq in H2.
      * apply Hch, list_elem_of_lookup_2 in H1. by rewrite Heq in H1.
      * by apply (wf_outboxes _ Hwf _ _ _ _ H1 H2).
    + intros id c [[<- <-]|[Hne Hc]]%lookup_insert_Some; simpl.
      * rewrite Hnext, Nat2Z.id, lookup_app_r, Nat.sub_diag by done. done.
      * apply lookup_app_l_Some. by apply Hch.
  - apply Hkeep; [done|]. simpl. intros id c [_ Hc]%lookup_delete_Some. eauto.
  - unfold join. destruct (conns s !! id0) as [c0|] eqn:E; [|apply Hkeep; eauto].
    apply Hkeep; [done|]. simpl. intros id c [[<- <-]|[_ Hc]]%lookup_insert_Some; eauto.
  - unfold leave. destruct (conns s !! id0) as [c0|] eqn:E; [|apply Hkeep; eauto].
    apply Hkeep; [done|]. simpl. intros id c [[<- <-]|[_ Hc]]%lookup_insert_Some; eauto.
Qed.

End registry_lemmas.

(** ** Deliveries *)

Definition live (chans : gmap nat channel) (ch : nat) : bool :=
  match chans !! ch with Some c => ch_alive c | None => false end.

Lemma send_spec ch frame chans :
  let '(ok, chans') := send ch frame chans in
  ok = live chans ch /\
  forall ch', chans' !! ch' =
    (if decide (ch' = ch) then
       if live chans ch then (fun c => Channel true (ch_queue c ++ [frame])) <$> chans !! ch else chans !! ch
     else chans !! ch').
Proof.
  unfold send, live. destruct (chans !! ch) as [[[] q]|] eqn:E; simpl; (split; [done|]); intros ch'.
  - case_decide as Hd; [subst; by rewrite lookup_insert_eq|by rewrite lookup_insert_ne].
  - case_decide; by subst.
  - case_decide; by subst.
Qed.

Lemma send_all_spec frame (cs : list conn) chans : NoDup (map cn_outbox cs) ->
  let '(n, chans') := send_all frame cs chans in
  n = length (filter (fun c => live chans (cn_outbox c) = true) cs) /\
  forall ch, chans' !! ch =
    (if bool_decide (ch ∈ map cn_outbox cs) && live chans ch
     then (fun c => Channel true (ch_queue c ++ [frame])) <$> chans !! ch else chans !! ch).
Proof.
  revert chans. induction cs as [|c cs IH]; intros chans Hnd; simpl; [done|].
  apply NoDup_cons in Hnd as [Hnin Hnd]. pose proof (send_spec (cn_outbox c) frame chans) as Hs.
  destruct (send (cn_outbox c) frame chans) as [ok chans1]. destruct Hs as [-> Hs].
  specialize (IH chans1 Hnd). destruct (send_all frame cs chans1) as [n chans2].
  destruct IH as [-> IH].
  assert (Hlive : forall ch, ch <> cn_outbox c -> live chans1 ch = live chans ch).
  { intros ch Hne. unfold live. by rewrite Hs, decide_False. }
  assert (Hlen : filter (fun c => live chans1 (cn_outbox c) = true) cs =
                 filter (fun c => live chans (cn_outbox c) = true) cs).
  { clear -Hnin Hlive. induction cs as [|d cs IH]; [done|]. rewrite !filter_cons, IH.
    - rewrite Hlive; [done|]. intros E. apply Hnin. simpl. rewrite E. by left.
    - intros Hin. apply Hnin. by right. }
  split.
  - rewrite Hlen, filter_cons. destruct (live chans (cn_outbox c)); by simpl.
  - intros ch. rewrite IH. destruct (decide (ch = cn_outbox c)) as [->|Hne].
    + rewrite (bool_decide_eq_false_2 (_ ∈ map _ _)) by done. simpl.
      rewrite (bool_decide_eq_true_2 (_ ∈ _ :: _)) by by left. simpl. by rewrite Hs, decide_True.
    + rewrite Hlive by done. rewrite Hs, decide_False by done.
      rewrite (bool_decide_ext (ch ∈ cn_outbox c :: map cn_outbox cs) (ch ∈ map cn_outbox cs)); [done|].
      rewrite elem_of_cons. tauto.
Qed.

Section deliveries.
Context `{Wire}.

(** A push of one frame to the connections satisfying [P]: every live outbox of the audience
    gets it once, no other outbox changes, and the count is the number of those. *)
Definition pushes (P : conn -> Prop) `{!forall c, Decision (P c)} (frame : string) (s : ws_server)
    (chans : gmap nat channel) (r : nat * gmap nat channel) : Prop :=
  r.1 = length (filter (fun c => P c /\ live chans (cn_outbox c) = true) (map snd (map_to_list (conns s)))) /\
  forall ch,
    ((exists id c, conns s !! id = Some c /\ P c /\ cn_outbox c = ch) -> live chans ch = true ->
       r.2 !! ch = (fun c => Channel true (ch_queue c ++ [frame])) <$> chans !! ch) /\
    (~ (exists id c, conns s !! id = Some c /\ P c /\ cn_outbox c = ch) \/ live chans ch = false ->
       r.2 !! ch = chans !! ch).

Lemma conns_outboxes_nodup s : server_wf s -> NoDup (map cn_outbox (map snd (map_to_list (conns s)))).
Proof.
  intros Hwf. rewrite map_map. apply (NoDup_fmap_2_strong (fun x : Z * conn => cn_outbox x.2)).
  - intros [i c] [i' c'] Hc Hc' Heq. simpl in Heq.
    apply elem_of_map_to_list in Hc, Hc'. assert (i = i') as <- by (by eapply (wf_outboxes _ Hwf)).
    congruence.
  - apply NoDup_map_to_list.
Qed.

Lemma send_all_pushes (P : conn -> Prop) `{!forall c, Decision (P c)} frame s chans : server_wf s ->
  pushes P frame s chans (send_all frame (filter P (map snd (map_to_list (conns s)))) chans).
Proof.
  intros Hwf. set (all := map snd (map_to_list (conns s))).
  assert (Hnd : NoDup (map cn_outbox (filter P all))).
  { eapply sublist_NoDup; [exact (conns_outboxes_nodup s Hwf)|].
    apply (fmap_sublist cn_outbox), sublist_filter. }
  pose proof (send_all_spec frame (filter P all) chans Hnd) as Hsend.
  destruct (send_all frame (filter P all) chans) as [n chans']. destruct Hsend as [-> Hch].
  unfold pushes. simpl. split.
  - fold all. clear. induction all as [|c all IH]; [done|]. rewrite !filter_cons.
    destruct (decide (P c)) as [Hp|Hp]; [rewrite filter_cons|]; repeat case_decide; simpl; try tauto; lia.
  - assert (Hin : forall ch, ch ∈ map cn_outbox (filter P all) <->
      exists id c, conns s !! id = Some c /\ P c /\ cn_outbox c = ch).
    { intros ch. rewrite list_elem_of_fmap. setoid_rewrite list_elem_of_filter.
      unfold all. setoid_rewrite list_elem_of_fmap. split.
      - intros (c & -> & HP & [id c'] & -> & Hc%elem_of_map_to_list). eauto.
      - intros (id & c & Hc & HP & <-). exists c. split; [done|]. split; [done|].
        exists (id, c). split; [done|]. by apply elem_of_map_to_list. }
    intros ch. rewrite Hch. split.
    + intros Hc Hl. by rewrite Hl, bool_decide_eq_true_2 by (by apply Hin).
    + intros [Hn|Hl]; [|by rewrite Hl, andb_false_r].
      by rewrite bool_decide_eq_false_2 by (by rewrite Hin).
Qed.

(** After any history of connections, disconnections and room changes, a broadcast reaches
    every live connection and a room emit exactly the live members of the room, each once, and
    reports how many; an emit to one connection reaches it alone, and says whether it did. *)
Lemma pushes_reach_their_audience (ops : list ws_op) (event frame : string) (data : json)
    (chans : gmap nat channel) :
  NoDup (outboxes ops) -> (Z.of_nat (length (outboxes ops)) <= u64_max)%Z ->
  encode event data = Some frame ->
  let s := apply_ops ops in
  pushes (fun _ => True) frame s chans (broadcast_value event data s chans) /\
  (forall room, pushes (fun c => room ∈ cn_rooms c) frame s chans (emit_to_value room event data s chans)) /\
  (forall id, let '(ok, chans') := emit_value id event data s chans in
     ok = (if conns s !! id is Some c then live chans (cn_outbox c) else false) /\
     forall ch, chans' !! ch =
       (if ok && bool_decide ((cn_outbox <$> conns s !! id) = Some ch)
        then (fun c => Channel true (ch_queue c ++ [frame])) <$> chans !! ch else chans !! ch)).
Proof.
  intros Hnd Hlen He s. destruct (apply_ops_spec ops Hnd Hlen) as (Hwf & _). fold s in Hwf.
  split; [|split].
  - unfold broadcast_value. rewrite He. pose proof (send_all_pushes (fun _ => True) frame s chans Hwf) as Hp.
    assert (Hf : forall l : list conn, filter (fun _ => True) l = l).
    { induction l as [|c l IH]; [done|]. by rewrite filter_cons_True, IH. }
    by rewrite Hf in Hp.
  - intros room. unfold emit_to_value. rewrite He.
    exact (send_all_pushes (fun c => room ∈ cn_rooms c) frame s chans Hwf).
  - intros id. unfold emit_value. rewrite He. destruct (conns s !! id) as [c|]; simpl; [|done].
    pose proof (send_spec (cn_outbox c) frame chans) as Hs.
    destruct (send (cn_outbox c) frame chans) as [ok chans']. destruct Hs as [-> Hs]. split; [done|].
    intros ch. rewrite Hs. destruct (decide (ch = cn_outbox c)) as [->|Hne].
    + rewrite bool_decide_eq_true_2 by done. by rewrite andb_true_r.
    + rewrite bool_decide_eq_false_2 by congruence. by rewrite andb_false_r.
Qed.

End deliveries.

(** ** Messages *)

Section messages.
Context `{Wire} {A : Type}.
Implicit Types (hs : list (handler A)) (w : world A) (g : gateway A).

Definition find_handler hs (event : string) : option (handler A) :=
  List.find (fun h => String.eqb (h_event h) event) hs.

(** The guards a handler registers: none when it declares none. *)
Definition declared_guards (h : handler A) : option (list message_guard) :=
  match h_guards h with [] => None | gs => Some gs end.

Lemma find_handler_none hs event : event ∉ map h_event hs -> find_handler hs event = None.
Proof.
  induction hs as [|h hs IH]; simpl; [done|]. intros Hn. unfold find_handler. simpl.
  destruct (String.eqb_spec (h_event h) event) as [<-|Hne]; [by destruct Hn; left|].
  apply IH. intros Hin. apply Hn. by right.
Qed.

Lemma find_handler_some hs h : NoDup (map h_event hs) -> h ∈ hs -> find_handler hs (h_event h) = Some h.
Proof.
  induction hs as [|h0 hs IH]; simpl; [by intros _ ?%elem_of_nil|].
  intros [Hnin Hnd]%NoDup_cons [->|Hin]%elem_of_cons; unfold find_handler; simpl.
  - by rewrite String.eqb_refl.
  - destruct (String.eqb_spec (h_event h0) (h_event h)) as [E|_]; [|by apply IH].
    destruct Hnin. rewrite E. apply list_elem_of_fmap. eauto.
Qed.

Lemma dispatch_find hs client event data :
  dispatch hs client event data =
    match find_handler hs event with
    | Some h => handler_arm h client data
    | None => fun w => Ok (unknown event, w)
    end.
Proof.
  unfold find_handler. induction hs as [|h hs IH]; simpl; [done|]. by destruct (String.eqb (h_event h) event).
Qed.

(** The frame a reply is rendered to. *)
Definition render_reply (event : string) (r : ws_reply) : option string :=
  match r with
  | Reply data => encode event data
  | NoReply => None
  | ErrorReply message => Some (error_frame event message)
  end.

Lemma messages_guards_lookup hs event : NoDup (map h_event hs) ->
  messages_guards hs !! event = find_handler hs event ≫= declared_guards.
Proof.
  unfold messages_guards. enough (Hgen : forall t, NoDup (map h_event hs) ->
    foldl (fun t h => match h_guards h with [] => t | gs => guard_insert (h_event h) gs t end) t hs !! event =
    match find_handler hs event ≫= declared_guards with Some gs => Some gs | None => t !! event end).
  { intros Hnd. rewrite Hgen by done. by destruct (find_handler hs event ≫= declared_guards). }
  induction hs as [|h hs IH]; intros t Hnd; [done|]. simpl.
  apply NoDup_cons in Hnd as [Hnin Hnd]. rewrite IH by done. unfold find_handler. simpl.
  destruct (String.eqb_spec (h_event h) event) as [<-|Hne].
  - fold (find_handler hs (h_event h)). rewrite find_handler_none by done. simpl.
    unfold declared_guards, guard_insert. destruct (h_guards h); [done|]. by rewrite lookup_insert_eq.
  - fold (find_handler hs event). destruct (find_handler hs event ≫= declared_guards); [done|].
    unfold guard_insert. destruct (h_guards h); [done|]. by rewrite lookup_insert_ne.
Qed.

(** A well-formed message of a handler's event: its guards in order, then the handler in the context. *)
Lemma handle_text_handler hs (ambient : option (socket_context A)) client text event data h w :
  NoDup (map h_event hs) -> decode text = Ok (event, data) -> h ∈ hs -> h_event h = event ->
  handle_text hs (messages_guards hs) ambient client text w =
    match for_each (fun _ guard => guard client event data) (h_guards h) tt with
    | Err reason => Ok (Some (error_frame event reason), w)
    | Ok _ =>
        let? r := (match ambient with
                   | Some around => around (handler_arm h client data) w
                   | None => handler_arm h client data w
                   end) in
        Ok (render_reply event r.1, r.2)
    end.
Proof.
  intros Hnd Hd Hin <-. unfold handle_text. rewrite Hd. unfold check.
  rewrite messages_guards_lookup, dispatch_find by done. rewrite find_handler_some by done. simpl. unfold declared_guards.
  destruct (h_guards h) as [|gd gds]; [done|].
  by destruct (for_each (fun _ guard => guard client (h_event h) data) (gd :: gds) tt).
Qed.

(** With at most one handler per event, a well-formed message is judged by the guards of its own
    handler, in order: the first rejection is answered with an error frame and nothing runs;
    otherwise that handler alone runs, inside the bound context.  A message of an unknown event is
    answered with an error frame, and a frame that does not decode never reaches a guard. *)
Lemma message_reaches_its_guarded_handler hs (ambient : option (socket_context A)) client text w :
  NoDup (map h_event hs) ->
  match decode text with
  | Err err =>
      handle_text hs (messages_guards hs) ambient client text w =
        Ok (Some (error_frame "error" ("invalid envelope: " +:+ err)), w)
  | Ok (event, data) =>
      (forall h, h ∈ hs -> h_event h = event ->
         handle_text hs (messages_guards hs) ambient client text w =
           match for_each (fun _ guard => guard client event data) (h_guards h) tt with
           | Err reason => Ok (Some (error_frame event reason), w)
           | Ok _ =>
               let? r := (match ambient with
                          | Some around => around (handler_arm h client data) w
                          | None => handler_arm h client data w
                          end) in
               Ok (render_reply event r.1, r.2)
           end) /\
      (event ∉ map h_event hs -> ambient = None ->
         handle_text hs (messages_guards hs) ambient client text w =
           Ok (Some (error_frame event ("unknown event `" +:+ event +:+ "`")), w))
  end.
Proof.
  intros Hnd. destruct (decode text) as [[event data]|err] eqn:Ed; [|unfold handle_text; by rewrite Ed].
  split; [intros; by eapply handle_text_handler|]. intros Hnin ->. unfold handle_text, check. rewrite Ed.
  rewrite messages_guards_lookup, dispatch_find by done. by rewrite find_handler_none by done.
Qed.

(** Whether a connection is registered in a world, and the world an outcome leaves. *)
Definition registered (id : Z) w : Prop := is_Some (conns (w_server w) !! id).

Definition final_world {B} (r : result (B * world A) (world A)) : world A :=
  match r with Ok (_, w) => w | Err w => w end.

Definition final_hook (r : result (world A) (world A)) : world A :=
  match r with Ok w => w | Err w => w end.

(** Application code cannot unregister a connection: [disconnect] is private to the crate, and only
    the connection loop calls it. *)
Record keeps_registered (id : Z) g : Prop := {
  kr_handlers : forall h client data w, h ∈ gw_handlers g -> registered id w ->
    registered id (final_world (h_body h client data w));
  kr_around : forall around inner w, gw_ambient g = Some around ->
    (forall w', registered id w' -> registered id (final_world (inner w'))) ->
    registered id w -> registered id (final_world (around inner w));
  kr_connect : forall w, registered id w -> registered id (final_hook (gw_on_connect g id w));
  kr_disconnect : forall w, registered id w -> registered id (final_hook (gw_on_disconnect g id w))
}.

Lemma handler_arm_registered id (h : handler A) client data w :
  (forall payload, registered id (final_world (h_body h client payload w))) -> registered id w ->
  registered id (final_world (handler_arm h client data w)).
Proof.
  intros Hb Hw. unfold handler_arm.
  destruct (match h_payload h with Some f => f data | None => Ok data end) as [p|e]; [|done].
  specialize (Hb p). by destruct (h_body h client p w) as [[v w']|w'].
Qed.

Lemma find_handler_in hs event h : find_handler hs event = Some h -> h ∈ hs.
Proof. intros [Hin _]%List.find_some. by apply list_elem_of_In. Qed.

Lemma handle_text_registered id g client text w : keeps_registered id g -> registered id w ->
  registered id (final_world (handle_text (gw_handlers g) (gw_guards g) (gw_ambient g) client text w)).
Proof.
  intros Hg Hw. unfold handle_text. destruct (decode text) as [[event data]|err]; [|done].
  destruct (check _ _ _ _) as [u|reason]; [|done].
  assert (Hin : forall w', registered id w' ->
    registered id (final_world (dispatch (gw_handlers g) client event data w'))).
  { intros w' Hw'. rewrite dispatch_find. destruct (find_handler _ event) as [h|] eqn:Eh; [|done].
    apply find_handler_in in Eh. apply handler_arm_registered; [|done]. intros p. by apply Hg. }
  set (run := match gw_ambient g with Some around => _ | None => _ end).
  assert (Hrun : registered id (final_world run)).
  { unfold run. destruct (gw_ambient g) as [around|] eqn:Ea; [by apply (kr_around _ _ Hg)|by apply Hin]. }
  by destruct run as [[v w']|w'].
Qed.

Lemma read_loop_registered id g outbox msgs w : keeps_registered id g -> registered id w ->
  registered id (final_hook (read_loop g id outbox msgs w)).
Proof.
  intros Hg. revert w. induction msgs as [|m msgs IH]; intros w Hw; simpl; [done|].
  destruct m as [text| | |]; try done; [|by apply IH].
  pose proof (handle_text_registered id g id text w Hg Hw) as Ht.
  destruct (handle_text _ _ _ _ _ w) as [[[reply|] w']|w']; simpl in *; [|by apply IH|done].
  destruct (send outbox reply (w_chans w')) as [[] chans]; [|done]. by apply IH.
Qed.

(** A connection is registered for its life, and only a connection that ends normally is
    reclaimed: its leave hook runs while it is still registered and the identifier is then gone.
    When a handler or a hook panics, the connection stays registered for good. *)
Lemma connection_reclaimed_unless_panic g outbox msgs w :
  let id := next_id (w_server w) in
  keeps_registered id g ->
  match serve_connection g outbox msgs w with
  | Ok w' => ~ registered id w' /\
      exists w2 w3, read_loop g id outbox msgs
          (final_hook (gw_on_connect g id (World (connect outbox (w_server w)).2 (w_chans w) (w_app w)))) = Ok w2 /\
        registered id w2 /\ gw_on_disconnect g id w2 = Ok w3 /\
        w' = World (disconnect id (w_server w3)) (w_chans w3) (w_app w3)
  | Err w' => registered id w'
  end.
Proof.
  intros id Hg. unfold serve_connection. simpl. fold id.
  set (w0 := World _ (w_chans w) (w_app w)).
  assert (Hw0 : registered id w0) by (unfold registered; simpl; rewrite lookup_insert_eq; eauto).
  pose proof (kr_connect _ _ Hg w0 Hw0) as Hw1.
  destruct (gw_on_connect g id w0) as [w1|w1]; simpl in *; [|done].
  pose proof (read_loop_registered id g outbox msgs w1 Hg Hw1) as Hw2.
  destruct (read_loop g id outbox msgs w1) as [w2|w2]; simpl in *; [|done].
  pose proof (kr_disconnect _ _ Hg w2 Hw2) as Hw3.
  destruct (gw_on_disconnect g id w2) as [w3|w3] eqn:Ed; simpl in *; [|done]. split.
  - unfold registered. simpl. rewrite lookup_delete_eq. by intros [? ?].
  - by exists w2, w3.
Qed.

End messages.

(** ** A concrete gateway *)

Module WsDemo.

(** A wire format of its own: a frame is the event, and the payload follows a colon. *)
#[export] Instance wire : Wire := {
  encode event data := Some (event +:+ ":" +:+ match data with JString s => s | _ => "" end);
  decode text := if String.eqb text "" then Err "empty" else Ok (text, JNull)
}.

Definition deny (reason : string) : message_guard := fun _ _ _ => Err reason.
Definition allow : message_guard := fun _ _ _ => Ok tt.

(** The application counts the calls. *)
Definition body (answer : string) (_ : Z) (_ : json) (w : world nat)
  : result (result json string * world nat) (world nat) :=
  Ok (Ok (JString answer), World (w_server w) (w_chans w) (S (w_app w))).

Definition say : handler nat := Handler "say" [allow] None false (body "said").
Definition admin : handler nat := Handler "admin" [allow; deny "forbidden"] None false (body "done").
Definition boom : handler nat := Handler "boom" [] None true (fun _ _ w => Err w).

Definition handlers : list (handler nat) := [say; admin; boom].

Definition gw : gateway nat :=
  Gateway handlers (messages_guards handlers) None (fun id w => Ok (World (join id "lobby" (w_server w)) (w_chans w) (w_app w)))
    (fun _ w => Ok w).

Definition start : world nat := World ws_server_default {[0 := Channel true []]} 0.

Lemma handlers_distinct : NoDup (map h_event handlers).
Proof. apply (bool_decide_unpack _). by vm_compute. Qed.

Lemma message_reaches_its_guarded_handler_witness :
  handle_text handlers (messages_guards handlers) None 0 "admin" start =
    Ok (Some "admin:", start) /\
  handle_text handlers (messages_guards handlers) None 0 "say" start =
    Ok (Some "say:said", World ws_server_default {[0 := Channel true []]} 1).
Proof.
  split.
  - refine (eq_trans (proj1 (message_reaches_its_guarded_handler handlers None 0 "admin" start
      handlers_distinct) admin _ _) _); [apply (bool_decide_unpack (admin ∈ handlers)) || (right; left)|done|by vm_compute].
  - refine (eq_trans (proj1 (message_reaches_its_guarded_handler handlers None 0 "say" start
      handlers_distinct) say _ _) _); [left|done|by vm_compute].
Defined.

Lemma gw_keeps id : keeps_registered id gw.
Proof.
  split; simpl.
  - intros h client data w Hin Hw. unfold handlers in Hin.
    repeat (apply elem_of_cons in Hin as [->|Hin]; [done|]). by apply elem_of_nil in Hin.
  - done.
  - unfold registered, join. intros w [c Hc]. simpl. rewrite Hc. simpl. rewrite lookup_insert_eq. eauto.
  - done.
Qed.

(** A connection that says something and closes is gone; one whose handler panics stays. *)
Lemma connection_reclaimed_unless_panic_witness :
  (exists w, serve_connection gw 0 [InText "say"; InClose] start = Ok w /\ ~ registered 0 w /\
     connection_count (w_server w) = 0) /\
  (exists w, serve_connection gw 0 [InText "boom"] start = Err w /\ registered 0 w /\
     connection_count (w_server w) = 1).
Proof.
  pose proof (connection_reclaimed_unless_panic gw 0 [InText "say"; InClose] start (gw_keeps 0)) as Hok.
  pose proof (connection_reclaimed_unless_panic gw 0 [InText "boom"] start (gw_keeps 0)) as Hboom.
  split.
  - destruct (serve_connection gw 0 [InText "say"; InClose] start) as [w|w] eqn:E;
      [|by vm_compute in E]. exists w. split; [done|]. split; [exact (proj1 Hok)|].
    injection E as <-. by vm_compute.
  - destruct (serve_connection gw 0 [InText "boom"] start) as [w|w] eqn:E; [by vm_compute in E|].
    exists w. split; [done|]. split; [exact Hboom|]. injection E as <-. by vm_compute.
Defined.

Definition history : list ws_op := [OpConnect 0; OpConnect 1; OpJoin 0 "lobby"; OpConnect 2; OpDisconnect 2].

Definition three : gmap nat channel := {[0 := Channel true []; 1 := Channel false []; 2 := Channel true []]}.

Lemma pushes_reach_their_audience_witness :
  encode "ping" (JString "hi") = Some "ping:hi" /\
  pushes (fun _ => True) "ping:hi" (apply_ops history) three
    (broadcast_value "ping" (JString "hi") (apply_ops history) three) /\
  (broadcast_value "ping" (JString "hi") (apply_ops history) three).1 = 1.
Proof.
  split; [done|]. split; [|by vm_compute].
  apply (pushes_reach_their_audience history "ping" "ping:hi" (JString "hi") three);
    [apply (bool_decide_unpack _); by vm_compute|by vm_compute|done].
Defined.

(** Two handlers under one event: the first one runs, under the guards of the last. *)
Example duplicate_event_takes_the_last_guards :
  let hs := [Handler "admin" [deny "forbidden"] None false (body "done"); Handler "admin" [allow] None false (body "other")] in
  handle_text hs (messages_guards hs) None 0 "admin" start =
    Ok (Some "admin:done", World ws_server_default {[0 := Channel true []]} 1).
Proof. by vm_compute. Qed.

End WsDemo.
