(* ===== verification/Http.v ===== *)
(** The HTTP pipeline: the three categories of middleware ([nestrs-middleware]: guard, filter,
    interceptor), the response shaper ([nestrs-http/src/shaper.rs]), the layers that [#[routes]]
    and [#[controller]] emit around a handler ([nestrs-http-macros/src/routes.rs],
    [controller.rs]) and the assembly of the transport ([nestrs-http/src/transport.rs]).

    An endpoint acts on a world and reads an ambient environment, the task-locals; poem's router
    and its CORS middleware are parameters. *)

From S2P Require Import Prelude Container.

(** ** Requests and responses *)

Inductive http_method := GET | HEAD | OPTIONS | TRACE | POST | PUT | PATCH | DELETE | CONNECT.

#[export] Instance http_method_eq_dec : EqDecision http_method.
Proof. solve_decision. Defined.

Record response := Response {
  status : Z;
  content_type : option string;
  resp_headers : list (string * string);
  resp_body : string
}.

Definition is_success (s : Z) : bool := (200 <=? s)%Z && (s <? 300)%Z.
Definition is_redirection (s : Z) : bool := (300 <=? s)%Z && (s <? 400)%Z.

(** [poem::Error], by the response it renders to. *)
Record http_error := HttpError { into_response : response }.

Definition error_from_status (s : Z) : http_error := HttpError (Response s None [] "").
Definition error_from_string (msg : string) (s : Z) : http_error :=
  HttpError (Response s (Some "text/plain; charset=utf-8") [] msg).

(** What a value of type [A] needs to travel in the extensions of a request, which are keyed by
    its [TypeId]: erasing to [X] and recovering. *)
Class Extension (X A : Type) := {
  ext_key : ty;
  erase : A -> X;
  recover : X -> option A;
  recover_erase a : recover (erase a) = Some a
}.

(** ** Paths *)

Definition slash : Ascii.ascii := Ascii.ascii_of_N 47.

Fixpoint drop_slashes (l : list Ascii.ascii) : list Ascii.ascii :=
  match l with
  | c :: l' => if Ascii.eqb c slash then drop_slashes l' else l
  | [] => []
  end.

Definition trim_start_slashes (s : string) : string := of_chars (drop_slashes (chars s)).
Definition trim_end_slashes (s : string) : string := of_chars (rev (drop_slashes (rev (chars s)))).

Definition join_path (prefix rest : string) : string :=
  let p := trim_end_slashes prefix in
  let r := trim_start_slashes rest in
  match String.eqb p "", String.eqb r "" with
  | true, true => "/"
  | false, true => p
  | true, false => "/" +:+ r
  | false, false => p +:+ "/" +:+ r
  end.

Definition version_path (version : option string) (path : string) : string :=
  match version with
  | Some v => join_path ("/v" +:+ v) path
  | None => path
  end.

Section middleware.
Context {X W Env : Type}.

Record request := Request {
  rq_method : http_method;
  rq_uri : string;
  rq_headers : list (string * string);
  rq_params : list (string * string);      (* the captures of the matched route *)
  rq_body : string;
  rq_extensions : gmap ty X
}.

Definition set_extensions (m : gmap ty X) (req : request) : request :=
  Request (rq_method req) (rq_uri req) (rq_headers req) (rq_params req) (rq_body req) m.

(** [extensions_mut().insert] and [extensions().get] *)
Definition ext_insert {A} `{Extension X A} (a : A) (req : request) : request :=
  set_extensions (<[ext_key (A:=A) := erase a]> (rq_extensions req)) req.

Definition ext_get {A} `{Extension X A} (req : request) : option A :=
  rq_extensions req !! ext_key (A:=A) ≫= recover.

Definition outcome : Type := result response http_error * W.
Definition endpoint : Type := Env -> request -> W -> outcome.

(** *** The three categories *)

(** A guard may attach context to the request it lets through. *)
Definition guard : Type := Env -> request -> W -> result unit response * request * W.

(** [RequestSnapshot] *)
Record snapshot := Snapshot {
  sn_method : http_method;
  sn_uri : string;
  sn_headers : list (string * string)
}.

Definition from_req (req : request) : snapshot :=
  Snapshot (rq_method req) (rq_uri req) (rq_headers req).

Definition exception_filter : Type := Env -> snapshot -> http_error -> W -> response * W.

(** An interceptor is handed the rest of the chain. *)
Definition interceptor : Type := endpoint -> endpoint.

Definition guard_endpoint (g : guard) (inner : endpoint) : endpoint := fun env req w =>
  let '(verdict, req1, w1) := g env req w in
  match verdict with
  | Ok _ => inner env req1 w1
  | Err response => (Ok response, w1)
  end.

Definition filter_endpoint (f : exception_filter) (inner : endpoint) : endpoint := fun env req w =>
  let snap := from_req req in
  let '(out, w1) := inner env req w in
  match out with
  | Ok resp => (Ok resp, w1)
  | Err err => let '(resp, w2) := f env snap err w1 in (Ok resp, w2)
  end.

Definition interceptor_endpoint (i : interceptor) (inner : endpoint) : endpoint := i inner.

(** poem's [EndpointExt::data]. *)
Definition data_endpoint (kx : ty * X) (inner : endpoint) : endpoint := fun env req w =>
  inner env (set_extensions (<[kx.1 := kx.2]> (rq_extensions req)) req) w.

(** [Ctx<T>] and [Reflector]: what a guard or the route's metadata attached, by type. *)
Definition ctx_from_request {A} `{Extension X A} (type_name : string) (req : request) : result A http_error :=
  ok_or (ext_get req) (error_from_string
    ("missing request context `" +:+ type_name +:+
     "` — is the guard or interceptor that sets it applied to this route?") 500).

Definition reflector_get {A} `{Extension X A} (req : request) : option A := ext_get req.

(** [Scoped<T>]: the provider resolved in the scope of the request, which [get] is. *)
Definition scoped_from_request {S V} `{Extension X S} (get : S -> W -> option V * W) (type_name : string)
    (req : request) (w : W) : result V http_error * W :=
  match ext_get req with
  | None => (Err (error_from_string "request scope not installed — RequestScopeEndpoint must wrap the route tree" 500), w)
  | Some scope =>
      let '(value, w1) := get scope w in
      (ok_or value (error_from_string
         ("no provider registered for `" +:+ type_name +:+ "` — add it to a module's providers") 500), w1)
  end.

(** *** The response shaper *)

Record shaper := Shaper {
  captured : Type;
  capture : request -> captured;
  run_shaped : captured -> (Env -> W -> outcome) -> Env -> W -> outcome
}.

Definition shaped (s : shaper) (inner : endpoint) : endpoint := fun env req w =>
  let c := capture s req in
  run_shaped s c (fun env1 w1 => inner env1 req w1) env w.

(** *** The layers of a route and of a controller *)

(** A layer is resolved from the container when the route is mounted; [None] is the [expect] of a
    layer that is not registered.  Walking the reversed list leaves the first one outermost. *)
Definition wrap_layer {L} (get_layer : ty -> option L) (wrap : L -> endpoint -> endpoint)
    (paths : list ty) (expr : endpoint) : option endpoint :=
  foldl (fun acc p => ep ← acc; l ← get_layer p; Some (wrap l ep)) (Some expr) (rev paths).

(** The container's view of the layers. *)
Record layer_providers := LayerProviders {
  get_guard : ty -> option guard;
  get_filter : ty -> option exception_filter;
  get_interceptor : ty -> option interceptor
}.

Definition guarded_handler (lp : layer_providers) (wrapper : endpoint)
    (guards filters interceptors : list ty) (sh : option shaper) (metas : list (ty * X))
  : option endpoint :=
  let expr := match sh with Some s => shaped s wrapper | None => wrapper end in
  expr ← wrap_layer (get_interceptor lp) interceptor_endpoint interceptors expr;
  expr ← wrap_layer (get_guard lp) guard_endpoint guards expr;
  expr ← wrap_layer (get_filter lp) filter_endpoint filters expr;
  Some (foldl (fun e m => data_endpoint m e) expr metas).

Definition controller_layers (lp : layer_providers) (guards filters interceptors : list ty)
    (ep : endpoint) : option endpoint :=
  ep ← wrap_layer (get_interceptor lp) interceptor_endpoint interceptors ep;
  ep ← wrap_layer (get_guard lp) guard_endpoint guards ep;
  wrap_layer (get_filter lp) filter_endpoint filters ep.

(** *** The transport *)

Section transport.
Context {C Route : Type}.

Record http_transport := HttpTransport {
  ht_interceptors : list interceptor;
  ht_guards : list guard;
  ht_filters : list exception_filter;
  ht_mounts : list (C -> Route -> Route);
  ht_cors : option (endpoint -> endpoint)
}.

Definition transport_new : http_transport := HttpTransport [] [] [] [] None.

Definition add_interceptor (i : interceptor) (t : http_transport) : http_transport :=
  HttpTransport (ht_interceptors t ++ [i]) (ht_guards t) (ht_filters t) (ht_mounts t) (ht_cors t).
Definition add_guard (g : guard) (t : http_transport) : http_transport :=
  HttpTransport (ht_interceptors t) (ht_guards t ++ [g]) (ht_filters t) (ht_mounts t) (ht_cors t).
Definition add_filter (f : exception_filter) (t : http_transport) : http_transport :=
  HttpTransport (ht_interceptors t) (ht_guards t) (ht_filters t ++ [f]) (ht_mounts t) (ht_cors t).
Definition add_mount (m : C -> Route -> Route) (t : http_transport) : http_transport :=
  HttpTransport (ht_interceptors t) (ht_guards t) (ht_filters t) (ht_mounts t ++ [m]) (ht_cors t).
Definition set_cors (c : endpoint -> endpoint) (t : http_transport) : http_transport :=
  HttpTransport (ht_interceptors t) (ht_guards t) (ht_filters t) (ht_mounts t) (Some c).

(** poem's router: an empty route, and the endpoint a route is. *)
Context (route_new : Route) (route_endpoint : Route -> endpoint).

(** What discovery finds in the container, in registration order: the mounts of controllers and
    of opaque endpoints, and the global interceptors. *)
Record discovered := Discovered {
  d_controllers : list (C -> Route -> Route);
  d_endpoints : list (C -> Route -> Route);
  d_interceptors : list interceptor
}.

(** [RequestScopeEndpoint]: a fresh scope over the container travels with each request. *)
Definition request_scope_endpoint {S} `{!Extension X S} (new_scope : C -> W -> S * W) (c : C)
    (inner : endpoint) : endpoint := fun env req w =>
  let '(scope, w1) := new_scope c w in inner env (ext_insert scope req) w1.

(** The body of [configure]; the request scope goes outermost. *)
Definition configure {S} `{!Extension X S} (new_scope : C -> W -> S * W) (t : http_transport) (c : C)
    (d : discovered) : endpoint :=
  let route := foldl (fun r mount => mount c r) route_new (d_controllers d) in
  let route := foldl (fun r mount => mount c r) route (d_endpoints d) in
  let route := foldl (fun r mount => mount c r) route (ht_mounts t) in
  let ep := route_endpoint route in
  let ep := foldl (fun ep f => filter_endpoint f ep) ep (ht_filters t) in
  let ep := foldl (fun ep g => guard_endpoint g ep) ep (ht_guards t) in
  let ep := foldl (fun ep i => interceptor_endpoint i ep) ep (d_interceptors d) in
  let ep := foldl (fun ep i => interceptor_endpoint i ep) ep (ht_interceptors t) in
  let ep := match ht_cors t with Some cors => cors ep | None => ep end in
  request_scope_endpoint new_scope c ep.

End transport.

End middleware.

Arguments request : clear implicits.
Arguments endpoint : clear implicits.
Arguments outcome : clear implicits.
Arguments guard : clear implicits.
Arguments exception_filter : clear implicits.
Arguments interceptor : clear implicits.
Arguments shaper : clear implicits.
Arguments layer_providers : clear implicits.

(** ** What a stack of layers does *)

Section layers.
Context {X W Env : Type}.
Implicit Types (g : guard X W Env) (f : exception_filter W Env) (i : interceptor X W Env)
  (inner : endpoint X W Env) (req : request X) (env : Env) (w : W).

(** Guards in sequence: each sees what the previous ones attached; the first denial ends. *)
Fixpoint run_guards (gs : list (guard X W Env)) env req w : result unit response * request X * W :=
  match gs with
  | [] => (Ok tt, req, w)
  | g :: gs' =>
      let '(verdict, req1, w1) := g env req w in
      match verdict with
      | Ok _ => run_guards gs' env req1 w1
      | Err denial => (Err denial, req1, w1)
      end
  end.

(** The contract of the layers around an inner endpoint: guards first, a denial is the answer as
    it is; otherwise one filter at most turns an error of the inner endpoint into an answer, and
    is shown the request as it came in. *)
Definition layered (gs : list (guard X W Env)) (ofl : option (exception_filter W Env)) inner
  : endpoint X W Env := fun env req w =>
  match run_guards gs env req w with
  | (Err denial, _, w1) => (Ok denial, w1)
  | (Ok _, req1, w1) =>
      match inner env req1 w1, ofl with
      | (Err err, w2), Some f => let '(resp, w3) := f env (from_req req) err w2 in (Ok resp, w3)
      | out, _ => out
      end
  end.

Lemma wrap_layer_registered {L} (get_layer : ty -> option L) (wrap : L -> endpoint X W Env -> endpoint X W Env)
    paths ls inner :
  mapM get_layer paths = Some ls -> wrap_layer get_layer wrap paths inner = Some (foldr wrap inner ls).
Proof.
  unfold wrap_layer. rewrite mapM_Some. intros Hls. induction Hls as [|p l paths ls Hp _ IH]; simpl; [done|].
  rewrite foldl_app, IH. simpl. by rewrite Hp.
Qed.

Lemma wrap_layer_unregistered {L} (get_layer : ty -> option L) (wrap : L -> endpoint X W Env -> endpoint X W Env)
    paths inner :
  mapM get_layer paths = None -> wrap_layer get_layer wrap paths inner = None.
Proof.
  unfold wrap_layer. induction paths as [|p paths IH]; simpl; [done|]. rewrite foldl_app. simpl.
  destruct (get_layer p) as [l|] eqn:Hp; simpl.
  - destruct (mapM get_layer paths); simpl; [done|]. intros _. by rewrite IH.
  - intros _. by destruct (foldl _ _ _).
Qed.

Lemma foldr_guards gs inner env req w :
  foldr guard_endpoint inner gs env req w =
    match run_guards gs env req w with
    | (Err denial, _, w1) => (Ok denial, w1)
    | (Ok _, req1, w1) => inner env req1 w1
    end.
Proof.
  revert req w. induction gs as [|g gs IH]; intros req w; simpl; [done|].
  unfold guard_endpoint. destruct (g env req w) as [[[u|denial] req1] w1]; [apply IH|done].
Qed.

(** Only the innermost of several filters can see an error. *)
Lemma foldr_filters fs inner env req w :
  foldr filter_endpoint inner fs env req w =
    match last fs with Some f => filter_endpoint f inner env req w | None => inner env req w end.
Proof.
  induction fs as [|f fs IH]; simpl; [done|]. destruct fs as [|f' fs]; [done|].
  change (last (f :: f' :: fs)) with (last (f' :: fs)).
  unfold filter_endpoint at 1. rewrite IH. destruct (last (f' :: fs)) as [fl|] eqn:El.
  - unfold filter_endpoint. destruct (inner env req w) as [[resp|err] w1]; [done|].
    by destruct (fl env (from_req req) err w1).
  - by apply last_None in El.
Qed.

Lemma filters_around_guards gs fs inner env req w :
  foldr filter_endpoint (foldr guard_endpoint inner gs) fs env req w =
    layered gs (last fs) inner env req w.
Proof.
  rewrite foldr_filters. unfold layered. destruct (last fs) as [f|]; unfold filter_endpoint;
    rewrite foldr_guards; destruct (run_guards gs env req w) as [[[u|denial] req1] w1];
    try done; by destruct (inner env req1 w1) as [[resp|err] w2].
Qed.

(** The request with a route's metadata attached. *)
Definition with_metas (metas : list (ty * X)) req : request X :=
  foldr (fun kx r => set_extensions (<[kx.1 := kx.2]> (rq_extensions r)) r) req metas.

Lemma foldl_data metas inner env req w :
  foldl (fun e m => data_endpoint m e) inner metas env req w = inner env (with_metas metas req) w.
Proof.
  revert inner. induction metas as [|m metas IH]; intros inner; simpl; [done|]. by rewrite IH.
Qed.

Lemma from_req_with_metas metas req : from_req (with_metas metas req) = from_req req.
Proof. by induction metas. Qed.

Lemma guarded_handler_layered (lp : layer_providers X W Env) (wrapper : endpoint X W Env)
    (guards filters interceptors : list ty) (sh : option (shaper X W Env)) (metas : list (ty * X)) gs fs ints :
  mapM (get_guard lp) guards = Some gs -> mapM (get_filter lp) filters = Some fs ->
  mapM (get_interceptor lp) interceptors = Some ints ->
  exists ep, guarded_handler lp wrapper guards filters interceptors sh metas = Some ep /\
    forall env req w, ep env req w =
      layered gs (last fs)
        (foldr interceptor_endpoint (match sh with Some s => shaped s wrapper | None => wrapper end) ints)
        env (with_metas metas req) w.
Proof.
  intros Eg Ef Ei. unfold guarded_handler. rewrite (wrap_layer_registered _ _ _ _ _ Ei). simpl.
  rewrite (wrap_layer_registered _ _ _ _ _ Eg). simpl. rewrite (wrap_layer_registered _ _ _ _ _ Ef). simpl.
  eexists. split; [done|]. intros env req w. by rewrite foldl_data, filters_around_guards.
Qed.

(** [C12] The layers of a route run in the order the framework promises: metadata is attached, the
    guards run first listed first, then the interceptors around the shaped handler, and an error
    of these is mapped by the last listed filter alone.  A guard's denial is the answer as it is:
    nothing inside runs and no filter sees it.  The route mounts exactly when every layer it
    names is registered. *)
Theorem route_layers_in_order (lp : layer_providers X W Env) (wrapper : endpoint X W Env)
    (guards filters interceptors : list ty) (sh : option (shaper X W Env)) (metas : list (ty * X)) :
  match mapM (get_guard lp) guards, mapM (get_filter lp) filters, mapM (get_interceptor lp) interceptors with
  | Some gs, Some fs, Some ints =>
      exists ep, guarded_handler lp wrapper guards filters interceptors sh metas = Some ep /\
        forall env req w, ep env req w =
          layered gs (last fs)
            (foldr interceptor_endpoint (match sh with Some s => shaped s wrapper | None => wrapper end) ints)
            env (with_metas metas req) w
  | _, _, _ => guarded_handler lp wrapper guards filters interceptors sh metas = None
  end.
Proof.
  destruct (mapM (get_interceptor lp) interceptors) as [ints|] eqn:Ei.
  - destruct (mapM (get_guard lp) guards) as [gs|] eqn:Eg; [destruct (mapM (get_filter lp) filters) as [fs|] eqn:Ef|].
    + by apply guarded_handler_layered.
    + unfold guarded_handler. rewrite (wrap_layer_registered _ _ _ _ _ Ei). simpl.
      rewrite (wrap_layer_registered _ _ _ _ _ Eg). simpl. by rewrite (wrap_layer_unregistered _ _ _ _ Ef).
    + unfold guarded_handler. rewrite (wrap_layer_registered _ _ _ _ _ Ei). simpl.
      by rewrite (wrap_layer_unregistered _ _ _ _ Eg).
  - unfold guarded_handler. rewrite (wrap_layer_unregistered _ _ _ _ Ei). simpl.
    by destruct (mapM (get_guard lp) guards), (mapM (get_filter lp) filters).
Qed.

(** The same for the layers of a controller, around its whole subtree. *)
Lemma controller_layers_in_order (lp : layer_providers X W Env) guards filters interceptors gs fs ints
    (inner : endpoint X W Env) :
  mapM (get_guard lp) guards = Some gs -> mapM (get_filter lp) filters = Some fs ->
  mapM (get_interceptor lp) interceptors = Some ints ->
  exists ep, controller_layers lp guards filters interceptors inner = Some ep /\
    forall env req w, ep env req w = layered gs (last fs) (foldr interceptor_endpoint inner ints) env req w.
Proof.
  intros Eg Ef Ei. unfold controller_layers.
  rewrite (wrap_layer_registered _ _ _ _ _ Ei). simpl. rewrite (wrap_layer_registered _ _ _ _ _ Eg). simpl.
  rewrite (wrap_layer_registered _ _ _ _ _ Ef). eexists. split; [done|].
  intros env req w. apply filters_around_guards.
Qed.

Lemma foldl_rev_foldr {L} (wrap : L -> endpoint X W Env -> endpoint X W Env) (ls : list L) inner :
  foldl (fun ep l => wrap l ep) inner ls = foldr wrap inner (rev ls).
Proof.
  induction ls as [|l ls IH] using rev_ind; [done|]. rewrite foldl_app, rev_app_distr. simpl. by rewrite IH.
Qed.

Context {C Route : Type} (route_new : Route) (route_endpoint : Route -> endpoint X W Env).

(** The transport's own layers run the other way round: the guard registered last runs first,
    the filter registered first is the only one that can see an error of the routes, and filters
    sit inside the guards; the interceptors, discovered ones inside explicit ones, wrap both and
    so see a denial as an ordinary answer. *)
Lemma global_layers_in_order {S} `{!Extension X S} (new_scope : C -> W -> S * W)
    (t : http_transport) (c : C) (d : discovered) :
  exists core, configure route_new route_endpoint new_scope t c d =
      request_scope_endpoint new_scope c (default (fun ep => ep) (ht_cors t)
        (foldr interceptor_endpoint core (rev (d_interceptors d ++ ht_interceptors t)))) /\
    forall env req w, core env req w =
      match run_guards (rev (ht_guards t)) env req w with
      | (Err denial, _, w1) => (Ok denial, w1)
      | (Ok _, req1, w1) =>
          layered [] (head (ht_filters t))
            (route_endpoint (foldl (fun r mount => mount c r) route_new
               (d_controllers d ++ d_endpoints d ++ ht_mounts t))) env req1 w1
      end.
Proof.
  unfold configure. rewrite <- !foldl_app. set (routes := route_endpoint _).
  set (core := foldl (fun ep g => guard_endpoint g ep) _ (ht_guards t)). exists core. split.
  - rewrite <- !(foldl_rev_foldr interceptor_endpoint). rewrite foldl_app.
    by destruct (ht_cors t).
  - intros env req w. unfold core. rewrite foldl_rev_foldr, foldr_guards.
    destruct (run_guards (rev (ht_guards t)) env req w) as [[[u|denial] req1] w1]; [|done].
    rewrite foldl_rev_foldr, foldr_filters. unfold layered. simpl.
    assert (Hl : last (rev (ht_filters t)) = head (ht_filters t)).
    { destruct (ht_filters t) as [|f fs]; [done|]. simpl. by rewrite last_snoc. }
    rewrite Hl. destruct (head (ht_filters t)); unfold filter_endpoint;
      by destruct (routes env req1 w1) as [[resp|err] w2].
Qed.

End layers.

(** ** A route with a guard and a filter *)

Module HttpDemo.

Definition deny : guard unit nat unit := fun _ req w => (Err (Response 403 None [] "denied"), req, w).
Definition allow : guard unit nat unit := fun _ req w => (Ok tt, req, S w).
Definition fail : endpoint unit nat unit := fun _ _ w => (Err (error_from_status 500), w).
Definition envelope : exception_filter nat unit := fun _ snap err w =>
  (Response (status (into_response err)) (Some "application/problem+json") [] (sn_uri snap), w).

Definition t_deny : ty := TNamed "Deny".
Definition t_allow : ty := TNamed "Allow".
Definition t_filter : ty := TNamed "Envelope".

Definition lp : layer_providers unit nat unit := {|
  get_guard t := if decide (t = t_deny) then Some deny else if decide (t = t_allow) then Some allow else None;
  get_filter t := if decide (t = t_filter) then Some envelope else None;
  get_interceptor _ := None |}.

Definition call (guards filters : list ty) : option (result response http_error * nat) :=
  ep ← guarded_handler lp fail guards filters [] None [];
  Some (ep tt (Request GET "/users" [] [] "" ∅) 0).

(** A filter maps the error of the handler, but never a guard's denial. *)
Example filter_sees_handler_errors_only :
  call [t_allow] [t_filter] = Some (Ok (Response 500 (Some "application/problem+json") [] "/users"), 1) /\
  call [t_allow; t_deny] [t_filter] = Some (Ok (Response 403 None [] "denied"), 1) /\
  call [t_allow] [TNamed "Unregistered"] = None.
Proof. split; [|split]; vm_compute; reflexivity. Qed.

Example joined_paths :
  join_path "/health" "/live" = "/health/live" /\ join_path "/" "/" = "/" /\
  version_path (Some "1") "/users" = "/v1/users" /\ version_path None "/users" = "/users".
Proof. by vm_compute. Qed.

End HttpDemo.
