(* ===== verification/OpenApi.v ===== *)
(** The OpenAPI document: the route metadata a controller carries
    ([nestrs-http/src/controller.rs]), the table of mounts and metadata that [#[routes]] emits from
    the same declarations ([nestrs-http-macros/src/routes.rs]) and the document rendered from what
    discovery finds ([nestrs-openapi/src/document.rs]).

    The schema generator is a parameter: a schema function threads its state.  A [serde_json::Map]
    is a list of members sorted by key, keys distinct. *)

From S2P Require Import Prelude Container Http.

(** ** [serde_json::Map] *)

Fixpoint map_insert {A} (k : string) (v : A) (m : list (string * A)) : list (string * A) :=
  match m with
  | [] => [(k, v)]
  | (k', v') :: m' =>
      if String.eqb k k' then (k, v) :: m'
      else if str_leb k k' then (k, v) :: m else (k', v') :: map_insert k v m'
  end.

Fixpoint map_get {A} (k : string) (m : list (string * A)) : option A :=
  match m with
  | [] => None
  | (k', v) :: m' => if String.eqb k k' then Some v else map_get k m'
  end.

(** [json!({ .. })]. *)
Definition json_object (l : list (string * json)) : json :=
  JObject (foldl (fun m kv => map_insert kv.1 kv.2 m) [] l).

(** ** Route metadata *)

Inductive http_verb := Get | Post | Put | Delete | Patch.

#[export] Instance http_verb_eq_dec : EqDecision http_verb.
Proof. solve_decision. Defined.

Definition as_str (v : http_verb) : string :=
  match v with Get => "GET" | Post => "POST" | Put => "PUT" | Delete => "DELETE" | Patch => "PATCH" end.

Definition ascii_lower (c : Ascii.ascii) : Ascii.ascii :=
  let n := Ascii.nat_of_ascii c in if (65 <=? n)%nat && (n <=? 90)%nat then Ascii.ascii_of_nat (n + 32) else c.
Definition to_ascii_lowercase (s : string) : string := of_chars (map ascii_lower (chars s)).

(** [schemars::SchemaGenerator]: its settings, and the definitions it has gathered. *)
Class SchemaGenerator := {
  generator : Type;
  into_generator : generator;
  take_definitions : generator -> list (string * json)
}.

Section document.
Context `{SchemaGenerator}.

Definition schema_fn : Type := generator -> json * generator.

Record http_route_meta := HttpRouteMeta {
  rm_verb : http_verb;
  rm_path : string;
  rm_handler : string;
  rm_summary : option string;
  rm_description : option string;
  rm_tags : list string;
  rm_request_body : option schema_fn;
  rm_response : option schema_fn
}.

Record http_controller_meta := HttpControllerMeta {
  cm_path : string;
  cm_version : option string;
  cm_routes : list http_route_meta
}.

Definition effective_prefix (c : http_controller_meta) : string := version_path (cm_version c) (cm_path c).

(** *** What [#[routes]] emits *)

(** A method of the block with a verb attribute: what the attributes and the signature say. *)
Record route_fn := RouteFn {
  rf_ident : string;
  rf_verb : http_verb;
  rf_path : string;
  rf_summary : option string;
  rf_description : option string;
  rf_tags : list string;
  rf_request_payload : option schema_fn;
  rf_response_payload : option schema_fn;
  rf_shaped : bool
}.

(** One [.at(path, ..)] per path: a later verb chains onto the entry of its path. *)
Fixpoint push_route {A} (path : string) (h : A) (routes_by_path : list (string * list A)) : list (string * list A) :=
  match routes_by_path with
  | [] => [(path, [h])]
  | (p, hs) :: rest => if String.eqb p path then (p, hs ++ [h]) :: rest else (p, hs) :: push_route path h rest
  end.

Definition routes_by_path (fns : list route_fn) : list (string * list (http_verb * string)) :=
  foldl (fun acc f => push_route (rf_path f) (rf_verb f, rf_ident f) acc) [] fns.

(** The tags fall back to the controller; a shaped response has no static schema. *)
Definition route_meta (ctrl_tag : string) (f : route_fn) : http_route_meta :=
  HttpRouteMeta (rf_verb f) (rf_path f) (rf_ident f) (rf_summary f) (rf_description f)
    (match rf_tags f with [] => [ctrl_tag] | tags => tags end)
    (rf_request_payload f) (if rf_shaped f then None else rf_response_payload f).

(** What [register] attaches. *)
Definition controller_meta (path : string) (version : option string) (ctrl_tag : string) (fns : list route_fn)
  : http_controller_meta := HttpControllerMeta path version (map (route_meta ctrl_tag) fns).

(** *** The document *)

Definition colon : Ascii.ascii := Ascii.ascii_of_N 58.

Definition path_parameter (name : string) : json :=
  json_object [("name", JString name); ("in", JString "path"); ("required", JBool true);
               ("schema", json_object [("type", JString "string")])].

Definition path_parameters (path : string) : list json :=
  map path_parameter (omap (strip_prefix ":") (split slash path)).

Definition openapi_path (path : string) : string :=
  join "/" (map (fun seg => match strip_prefix ":" seg with
    | Some name => "{" +:+ name +:+ "}"
    | None => seg
    end) (split slash path)).

(** [json!({ "application/json": { "schema": .. } })], as [content]. *)
Definition json_content (schema : json) : json :=
  json_object [("application/json", json_object [("schema", schema)])].

Definition operation_object (route : http_route_meta) (parameters : list json) (g : generator) : json * generator :=
  let op := map_insert "operationId" (JString (rm_handler route)) [] in
  let op := map_insert "tags" (JArray (map JString (rm_tags route))) op in
  let op := match rm_summary route with Some s => map_insert "summary" (JString s) op | None => op end in
  let op := match rm_description route with Some d => map_insert "description" (JString d) op | None => op end in
  let op := match parameters with [] => op | _ => map_insert "parameters" (JArray parameters) op end in
  let '(op, g) := match rm_request_body route with
    | Some f => let '(schema, g) := f g in
        (map_insert "requestBody" (json_object [("required", JBool true); ("content", json_content schema)]) op, g)
    | None => (op, g)
    end in
  let ok := map_insert "description" (JString "OK") [] in
  let '(ok, g) := match rm_response route with
    | Some f => let '(schema, g) := f g in (map_insert "content" (json_content schema) ok, g)
    | None => (ok, g)
    end in
  (JObject (map_insert "responses" (json_object [("200", JObject ok)]) op), g).

(** The body of the inner loop. *)
Definition add_route (prefix : string) (st : list (string * json) * generator) (route : http_route_meta)
  : list (string * json) * generator :=
  let '(paths, g) := st in
  let full := join_path prefix (rm_path route) in
  let '(operation, g) := operation_object route (path_parameters full) g in
  let item := default (JObject []) (map_get (openapi_path full) paths) in
  let item := match item with
    | JObject methods => JObject (map_insert (to_ascii_lowercase (as_str (rm_verb route))) operation methods)
    | other => other
    end in
  (map_insert (openapi_path full) item paths, g).

Definition add_controller (st : list (string * json) * generator) (c : http_controller_meta)
  : list (string * json) * generator :=
  let prefix := effective_prefix c in foldl (add_route prefix) st (cm_routes c).

Definition build_document (controllers : list http_controller_meta) (title version : string)
    (description : option string) : json :=
  let '(paths, g) := foldl add_controller ([], into_generator) controllers in
  let schemas := take_definitions g in
  let info := map_insert "version" (JString version) (map_insert "title" (JString title) []) in
  let info := match description with Some d => map_insert "description" (JString d) info | None => info end in
  json_object [("openapi", JString "3.1.2"); ("info", JObject info); ("paths", JObject paths);
               ("components", json_object [("schemas", JObject schemas)])].

(** The options of the module, and the document it serves. *)
Record open_api_options := OpenApiOptions { oa_title : string; oa_version : string; oa_description : option string }.
Definition open_api_options_default : open_api_options := OpenApiOptions "nestrs API" "0.1.0" None.

Definition t_http_endpoint_meta : ty := TNamed "HttpEndpointMeta".

(** [register], and the two ways the module is imported; [endpoint] is the [HttpEndpointMeta] whose
    mount serves the document of the options. *)
Definition open_api_register `{Payloads} (endpoint : open_api_options -> val) (b : container_builder)
    (options : open_api_options) : container_builder := provide_meta t_http_endpoint_meta (endpoint options) b.
Definition open_api_module_register `{Payloads} (endpoint : open_api_options -> val) (b : container_builder)
  : container_builder := open_api_register endpoint b open_api_options_default.
Definition open_api_setup_register `{Payloads} (endpoint : open_api_options -> val) (options : open_api_options)
    (b : container_builder) : container_builder := open_api_register endpoint b options.

End document.

(** ** Maps *)

Lemma map_get_insert {A} k k' (v : A) m :
  map_get k (map_insert k' v m) = if String.eqb k k' then Some v else map_get k m.
Proof.
  induction m as [|[k1 v1] m IH]; [done|]. simpl. destruct (String.eqb_spec k' k1) as [<-|Hne]; simpl.
  { by destruct (String.eqb k k'). }
  destruct (str_leb k' k1); simpl; [done|]. rewrite IH.
  destruct (String.eqb_spec k k1), (String.eqb_spec k k'); congruence.
Qed.

Create Rewrite HintDb maps.
#[export] Hint Rewrite @map_get_insert : maps.

Lemma map_get_elem {A} k (v : A) m : map_get k m = Some v -> (k, v) ∈ m.
Proof.
  induction m as [|[k1 v1] m IH]; [done|]. simpl. destruct (String.eqb_spec k k1) as [->|].
  - intros [= ->]. left.
  - intros. right. auto.
Qed.

(** ** What a document says of a path and a method *)

Definition members (v : json) : list (string * json) := match v with JObject m => m | _ => [] end.

Definition documented (doc : json) (path method : string) : option json :=
  paths ← map_get "paths" (members doc);
  item ← map_get path (members paths);
  map_get method (members item).

Definition operation_id (op : json) : option string :=
  match map_get "operationId" (members op) with Some (JString s) => Some s | _ => None end.

Definition parameter_names (op : json) : list string :=
  match map_get "parameters" (members op) with
  | Some (JArray l) => omap (fun p => match map_get "name" (members p) with Some (JString s) => Some s | _ => None end) l
  | _ => []
  end.

(** The names a templated path mentions: its segments in braces. *)
Definition template_names (path : string) : list string :=
  omap (fun seg => strip_prefix "{" seg ≫= strip_suffix "}") (split slash path).

Section documents.
Context `{SchemaGenerator}.

Definition route_key (pr : string * http_route_meta) : string * string :=
  (openapi_path (join_path pr.1 (rm_path pr.2)), to_ascii_lowercase (as_str (rm_verb pr.2))).

(** The routes in the order the document meets them, each with its prefix. *)
Definition routes_of (cs : list http_controller_meta) : list (string * http_route_meta) :=
  cs ≫= fun c => pair (effective_prefix c) <$> cm_routes c.

Definition items_are_objects (paths : list (string * json)) : Prop :=
  forall p item, map_get p paths = Some item -> item = JObject (members item).

Definition paths_get (paths : list (string * json)) (p m : string) : option json :=
  item ← map_get p paths; map_get m (members item).

Lemma operation_object_members r params g :
  operation_id (operation_object r params g).1 = Some (rm_handler r) /\
  map_get "parameters" (members (operation_object r params g).1)
  = match params with [] => None | _ => Some (JArray params) end.
Proof.
  unfold operation_object, operation_id.
  destruct (rm_request_body r) as [fb|]; [destruct (fb g) as [sb gb]|];
    destruct (rm_response r) as [fr|]; try match goal with |- context [fr ?g] => destruct (fr g) as [sr gr] end;
    cbn [fst members]; destruct params, (rm_summary r), (rm_description r);
    autorewrite with maps; split; reflexivity.
Qed.

Lemma add_route_get pr paths g paths' g' : items_are_objects paths -> add_route pr.1 (paths, g) pr.2 = (paths', g') ->
  items_are_objects paths' /\
  forall p m, paths_get paths' p m
    = if decide ((p, m) = route_key pr)
      then Some (operation_object pr.2 (path_parameters (join_path pr.1 (rm_path pr.2))) g).1
      else paths_get paths p m.
Proof.
  destruct pr as [prefix r]. intros Hobj. unfold add_route, route_key. cbn [fst snd].
  set (full := join_path prefix (rm_path r)). set (verb := to_ascii_lowercase _).
  destruct (operation_object r (path_parameters full) g) as [op g1] eqn:Eop. intros [= <- <-].
  assert (exists ms, default (JObject []) (map_get (openapi_path full) paths) = JObject ms /\
    forall m, map_get m ms = paths_get paths (openapi_path full) m) as (ms & -> & Hms).
  { unfold paths_get. destruct (map_get (openapi_path full) paths) as [item|] eqn:E; [|by exists []].
    exists (members item). cbn. split; [by eapply Hobj|done]. }
  split.
  - intros p item. rewrite map_get_insert. destruct (String.eqb p (openapi_path full)); [by intros [= <-]|apply Hobj].
  - intros p m. unfold paths_get. rewrite map_get_insert. destruct (String.eqb_spec p (openapi_path full)) as [->|Hp].
    + cbn [mbind option_bind members]. rewrite map_get_insert, Hms. destruct (String.eqb_spec m verb) as [->|Hm].
      * by rewrite decide_True.
      * rewrite decide_False by congruence. done.
    + rewrite decide_False by congruence. done.
Qed.

Lemma add_controllers_routes cs st :
  foldl add_controller st cs = foldl (fun st pr => add_route pr.1 st pr.2) st (routes_of cs).
Proof.
  revert st. induction cs as [|c cs IH]; intros st; [done|]. unfold routes_of in *.
  cbn [foldl]. rewrite bind_cons, foldl_app, IH. f_equal. unfold add_controller.
  generalize (effective_prefix c) st. induction (cm_routes c) as [|r rs IHr]; intros prefix st'; [done|]. apply IHr.
Qed.

Lemma paths_of_routes prs paths g : foldl (fun st pr => add_route pr.1 st pr.2) ([], into_generator) prs = (paths, g) ->
  items_are_objects paths /\
  forall p m, match last (filter (fun pr => route_key pr = (p, m)) prs) with
    | None => paths_get paths p m = None
    | Some pr => exists g, paths_get paths p m
        = Some (operation_object pr.2 (path_parameters (join_path pr.1 (rm_path pr.2))) g).1
    end.
Proof.
  revert paths g. induction prs as [|pr prs IH] using rev_ind; intros paths g.
  { intros [= <- <-]. by split. }
  rewrite foldl_snoc. destruct (foldl _ _ prs) as [paths0 g0] eqn:E. intros Hadd.
  destruct (IH _ _ eq_refl) as [Hobj Hget]. destruct (add_route_get _ _ _ _ _ Hobj Hadd) as [Hobj' Hget'].
  split; [done|]. intros p m. rewrite filter_app, Hget'. cbn [filter list_filter].
  destruct (decide (route_key pr = (p, m))) as [Hk|Hk].
  - rewrite decide_True by done. cbn. rewrite last_snoc. by exists g0.
  - rewrite decide_False by congruence. rewrite app_nil_r. apply Hget.
Qed.

(** The document, by the last route of each path and method. *)
Lemma documented_last_route cs title version description p m :
  match last (filter (fun pr => route_key pr = (p, m)) (routes_of cs)) with
  | None => documented (build_document cs title version description) p m = None
  | Some pr => exists g, documented (build_document cs title version description) p m
      = Some (operation_object pr.2 (path_parameters (join_path pr.1 (rm_path pr.2))) g).1
  end.
Proof.
  unfold build_document. rewrite add_controllers_routes.
  destruct (foldl _ _ (routes_of cs)) as [paths g] eqn:E. destruct (paths_of_routes _ _ _ E) as [_ Hget].
  unfold documented, json_object. cbn [members foldl fst snd]. autorewrite with maps. cbn. apply Hget.
Qed.

End documents.

(** ** Splitting and joining segments *)

Definition slashless (s : string) : Prop := slash ∉ chars s.

Lemma split_join segs : segs <> [] -> Forall slashless segs -> split slash (join "/" segs) = segs.
Proof. apply (split_join_char slash). Qed.

Lemma split_chars_slashless l acc : slash ∉ acc -> Forall (fun s => slash ∉ s) (split_chars slash l acc).
Proof.
  revert acc. induction l as [|c l IH]; intros acc Ha; cbn [split_chars].
  - apply Forall_singleton. by rewrite elem_of_rev.
  - destruct (Ascii.eqb_spec slash c) as [<-|].
    + apply Forall_cons. split; [by rewrite elem_of_rev|]. apply IH. by apply not_elem_of_nil.
    + apply IH. by apply not_elem_of_cons.
Qed.

Lemma split_slashless s : Forall slashless (split slash s).
Proof.
  unfold split. apply Forall_fmap. eapply Forall_impl; [apply split_chars_slashless, not_elem_of_nil|].
  intros l. cbn. unfold slashless. by rewrite chars_of_chars.
Qed.

Lemma split_nonempty s : split slash s <> [].
Proof. unfold split. generalize (@nil Ascii.ascii). induction (chars s) as [|c l IH]; intros acc; simpl; [done|]. by case_match. Qed.

Lemma strip_prefix_some p s r : strip_prefix p s = Some r <-> s = p +:+ r.
Proof.
  unfold strip_prefix. split.
  - intros (l & Hl%strip_chars_some & ->)%fmap_Some. apply (f_equal of_chars) in Hl. rewrite of_chars_chars in Hl.
    by rewrite Hl, <-(of_chars_chars (p +:+ _)), chars_app, chars_of_chars.
  - intros ->. rewrite chars_app, strip_chars_app. cbn. by rewrite of_chars_chars.
Qed.

Lemma omap_map_ext {A B C} (f : A -> B) (g : B -> option C) (h : A -> option C) l :
  Forall (fun x => g (f x) = h x) l -> omap g (map f l) = omap h l.
Proof.
  induction 1 as [|x l Hx _ IH]; [done|]. cbn [map]. change (omap g (f x :: map f l)) with
    (match g (f x) with Some c => c :: omap g (map f l) | None => omap g (map f l) end).
  rewrite Hx, IH. by cbn.
Qed.

(** The name a segment of a template mentions, when it is in braces. *)
Definition braced (seg : string) : option string := strip_prefix "{" seg ≫= strip_suffix "}".

(** What a template of the document mentions of each segment of the route: the captures of the router,
    and the segments the route itself has in braces. *)
Lemma template_names_openapi path : template_names (openapi_path path)
  = omap (fun seg => match strip_prefix ":" seg with Some name => Some name | None => braced seg end) (split slash path).
Proof.
  unfold template_names, openapi_path. rewrite split_join.
  - apply omap_map_ext. apply Forall_true. intros seg. cbv beta.
    destruct (strip_prefix ":" seg) as [name|]; [|done].
    rewrite (proj2 (strip_prefix_some _ _ _) eq_refl). exact (proj2 (strip_suffix_some _ _ _) eq_refl).
  - pose proof (split_nonempty path). by destruct (split slash path).
  - apply Forall_fmap. eapply Forall_impl; [apply split_slashless|]. intros seg Hseg. unfold compose.
    destruct (strip_prefix ":" seg) as [name|] eqn:E; [|exact Hseg]. apply strip_prefix_some in E as ->.
    unfold slashless in *. rewrite !chars_app in *. cbn [chars String.list_ascii_of_string] in *. set_solver.
Qed.

Lemma braced_not_captured seg name : braced seg = Some name -> strip_prefix ":" seg = None.
Proof.
  unfold braced. destruct (strip_prefix "{" seg) as [r|] eqn:E; [|done]. apply strip_prefix_some in E as ->. done.
Qed.

(** The captures are among the names, and are all of them unless a segment is written in braces. *)
Lemma captures_among_names (segs : list string) :
  let captures := omap (strip_prefix ":") segs in
  let names := omap (fun seg => match strip_prefix ":" seg with Some name => Some name | None => braced seg end) segs in
  captures `sublist_of` names /\ (captures = names <-> omap braced segs = []).
Proof.
  cbv zeta. induction segs as [|seg segs [Hsub Heq]]; [by split|].
  pose proof (braced_not_captured seg) as Hb. cbn [omap list_omap].
  destruct (strip_prefix ":" seg) as [name|], (braced seg) as [name'|].
  - by specialize (Hb _ eq_refl).
  - split; [by constructor|]. rewrite <-Heq. split; [by intros [= ?]|by intros ->].
  - split; [by constructor|]. split; [|done]. intros E%(f_equal length). apply sublist_length in Hsub. simpl in E. lia.
  - by split.
Qed.

Lemma parameter_object_names names :
  omap (fun p => match map_get "name" (members p) with Some (JString s) => Some s | _ => None end)
    (map path_parameter names) = names.
Proof.
  rewrite (omap_map_ext _ _ Some) by (apply Forall_true; reflexivity).
  induction names as [|n names IH]; [done|]. exact (f_equal (cons n) IH).
Qed.

(** ** Properties *)

Section properties.
Context `{SchemaGenerator}.

(** A controller as declared: the arguments of [#[controller]] and the block under [#[routes]]. *)
Record declaration := Declaration {
  dc_path : string;
  dc_version : option string;
  dc_tag : string;
  dc_fns : list (route_fn)
}.

Definition meta_of (d : declaration) : http_controller_meta :=
  controller_meta (dc_path d) (dc_version d) (dc_tag d) (dc_fns d).

(** The endpoint a declaration mounts under its prefix: one per path, with a handler per verb. *)
Definition routed (rs : list (string * list (http_verb * string))) (path : string) (h : http_verb * string) : Prop :=
  exists hs, (path, hs) ∈ rs /\ h ∈ hs.

Definition mounted (d : declaration) (path : string) (v : http_verb) (handler : string) : Prop :=
  routed (routes_by_path (dc_fns d)) path (v, handler).

Lemma routed_nil p h : ~ routed [] p h.
Proof. by intros (hs & ?%elem_of_nil & _). Qed.

Lemma routed_cons p1 hs1 rs p h : routed ((p1, hs1) :: rs) p h <-> (p = p1 /\ h ∈ hs1) \/ routed rs p h.
Proof.
  unfold routed. setoid_rewrite elem_of_cons. split.
  - intros (hs & [[= -> ->]|Hin] & Hh); [by left|right; eauto].
  - intros [[-> Hh]|(hs & Hin & Hh)]; eauto.
Qed.

Lemma push_route_routed path h rs p h' :
  routed (push_route path h rs) p h' <-> routed rs p h' \/ (p = path /\ h' = h).
Proof.
  induction rs as [|[p1 hs1] rs IH]; simpl.
  - rewrite routed_cons, list_elem_of_singleton. pose proof (routed_nil p h'). tauto.
  - destruct (String.eqb_spec p1 path) as [->|].
    + rewrite !routed_cons, elem_of_app, list_elem_of_singleton. tauto.
    + rewrite !routed_cons, IH. tauto.
Qed.

Lemma mounted_declared d path v handler :
  mounted d path v handler <-> exists f, f ∈ dc_fns d /\ rf_path f = path /\ rf_verb f = v /\ rf_ident f = handler.
Proof.
  unfold mounted, routes_by_path. induction (dc_fns d) as [|f fs IH] using rev_ind.
  - split; [by intros ?%routed_nil|by intros (? & ?%elem_of_nil & _)].
  - rewrite foldl_snoc, push_route_routed, IH. setoid_rewrite elem_of_app. setoid_rewrite list_elem_of_singleton.
    split; [intros [(f' & ? & ?)|[-> [= -> ->]]]; eauto 10|].
    intros (f' & [?| ->] & <- & <- & <-); [left; eauto|by right].
Qed.

Lemma routes_of_declared ds pr : pr ∈ routes_of (map meta_of ds) <->
  exists d f, d ∈ ds /\ f ∈ dc_fns d /\ pr = (effective_prefix (meta_of d), route_meta (dc_tag d) f).
Proof.
  unfold routes_of. rewrite list_elem_of_bind. split.
  - intros (c & (r & -> & Hr)%list_elem_of_fmap & (d & -> & Hd)%list_elem_of_fmap). cbn in Hr.
    apply list_elem_of_fmap in Hr as (f & -> & Hf). eauto 10.
  - intros (d & f & Hd & Hf & ->). exists (meta_of d). split; [|by apply list_elem_of_fmap; eauto].
    apply list_elem_of_fmap. exists (route_meta (dc_tag d) f). split; [done|]. apply list_elem_of_fmap. eauto.
Qed.

(** The path of a route as the document writes it. *)
Definition full_path (d : declaration) (path : string) : string :=
  join_path (version_path (dc_version d) (dc_path d)) path.

(** What is declared, in the order it is mounted, and where each handler is documented. *)
Definition declared_routes (ds : list declaration) : list (declaration * route_fn) := ds ≫= fun d => pair d <$> dc_fns d.

Definition documented_at (r : declaration * route_fn) : string * string :=
  (openapi_path (full_path r.1 (rf_path r.2)), to_ascii_lowercase (as_str (rf_verb r.2))).

(** The last handler declared for a path and a method. *)
Definition last_declared (ds : list declaration) (p m : string) : option (declaration * route_fn) :=
  last (filter (fun r => documented_at r = (p, m)) (declared_routes ds)).

Lemma routes_of_declarations ds : routes_of (map meta_of ds)
  = (fun r => (effective_prefix (meta_of r.1), route_meta (dc_tag r.1) r.2)) <$> declared_routes ds.
Proof.
  unfold routes_of, declared_routes. induction ds as [|d ds IH]; [done|]. cbn [map]. rewrite !bind_cons, fmap_app, IH.
  f_equal. cbn [cm_routes meta_of controller_meta].
  induction (dc_fns d) as [|f fs IHf]; [done|]. cbn [map]. by rewrite !fmap_cons, IHf.
Qed.

Lemma last_route_declared ds p m :
  last (filter (fun pr => route_key pr = (p, m)) (routes_of (map meta_of ds)))
  = (fun r => (effective_prefix (meta_of r.1), route_meta (dc_tag r.1) r.2)) <$> last_declared ds p m.
Proof.
  rewrite routes_of_declarations. unfold last_declared. rewrite <-fmap_last. f_equal.
  induction (declared_routes ds) as [|r rs IH]; [done|]. rewrite fmap_cons, !filter_cons, IH.
  assert (route_key (effective_prefix (meta_of r.1), route_meta (dc_tag r.1) r.2) = documented_at r) as -> by done.
  by case_decide.
Qed.

(** The document, by the last handler declared for each path and method. *)
Lemma documented_last_declared ds title version description p m :
  match last_declared ds p m with
  | None => documented (build_document (map meta_of ds) title version description) p m = None
  | Some (d, f) => exists g, documented (build_document (map meta_of ds) title version description) p m
      = Some (operation_object (route_meta (dc_tag d) f) (path_parameters (full_path d (rf_path f))) g).1
  end.
Proof.
  pose proof (documented_last_route (map meta_of ds) title version description p m) as Hdoc.
  rewrite last_route_declared in Hdoc. by destruct (last_declared ds p m) as [[d f]|].
Qed.

(** [C15] The document describes exactly the routes that are mounted: a path and a method are documented
    iff some controller mounts a handler for them, under the versioned prefix it is served at, and the
    operation names the handler declared last among those that share the path and the method. *)
Theorem document_describes_mounted_routes (ds : list declaration) title version description (p m : string) :
  (documented (build_document (map meta_of ds) title version description) p m ≫= operation_id
   = rf_ident ∘ snd <$> last_declared ds p m) /\
  match documented (build_document (map meta_of ds) title version description) p m with
  | None => forall d path v h, d ∈ ds -> mounted d path v h ->
      p = openapi_path (full_path d path) -> m <> to_ascii_lowercase (as_str v)
  | Some op => exists d path v h, d ∈ ds /\ mounted d path v h /\ p = openapi_path (full_path d path) /\
      m = to_ascii_lowercase (as_str v) /\ operation_id op = Some h
  end.
Proof.
  pose proof (documented_last_declared ds title version description p m) as Hdoc.
  destruct (last_declared ds p m) as [[d f]|] eqn:E.
  - destruct Hdoc as [g ->]. cbn [option_fmap option_map mbind option_bind fmap].
    assert (forall g, operation_id (operation_object (route_meta (dc_tag d) f) g.1 g.2).1 = Some (rf_ident f)) as Hid
      by (intros [? ?]; apply operation_object_members).
    split; [by apply (Hid (_, _))|]. apply last_Some_elem_of, list_elem_of_filter in E as [[= Hp Hm] Hin].
    unfold declared_routes in Hin. apply list_elem_of_bind in Hin as (d' & (f' & [= <- <-] & Hf)%list_elem_of_fmap & Hd).
    exists d, (rf_path f), (rf_verb f), (rf_ident f).
    split_and!; [done|by apply mounted_declared; eauto|done|done|]. by apply (Hid (_, _)).
  - rewrite Hdoc. split; [done|]. intros d path v h Hd (f & Hf & <- & <- & <-)%mounted_declared -> ->. apply last_None in E.
    eapply (not_elem_of_nil (d, f)). rewrite <-E. apply list_elem_of_filter. split; [done|].
    apply list_elem_of_bind. exists d. split; [|done]. apply list_elem_of_fmap. eauto.
Qed.

(** [C37] Whatever the routes and the schemas, an operation declares one path parameter for each segment
    the router captures in the path of its route, in order.  Its path template mentions them all; it
    mentions nothing else, so that the document is well formed where OpenAPI ties a path to its
    operations, exactly when no segment of the declared path was itself written in braces. *)
Theorem path_templates_match_parameters (ds : list declaration) title version description (p m : string) op
    (Hop : documented (build_document (map meta_of ds) title version description) p m = Some op) :
  exists d f, last_declared ds p m = Some (d, f) /\ p = openapi_path (full_path d (rf_path f)) /\
    parameter_names op = omap (strip_prefix ":") (split slash (full_path d (rf_path f))) /\
    parameter_names op `sublist_of` template_names p /\
    (parameter_names op = template_names p <-> omap braced (split slash (full_path d (rf_path f))) = []).
Proof.
  pose proof (documented_last_declared ds title version description p m) as Hdoc.
  destruct (last_declared ds p m) as [[d f]|] eqn:E; [|congruence].
  destruct Hdoc as [g Hg]. rewrite Hg in Hop. injection Hop as <-.
  apply last_Some_elem_of, list_elem_of_filter in E as [[= <- <-] _]. exists d, f. cbn [fst snd].
  set (segs := split slash (full_path d (rf_path f))).
  assert (parameter_names (operation_object (route_meta (dc_tag d) f) (path_parameters (full_path d (rf_path f))) g).1
    = omap (strip_prefix ":") segs) as ->.
  { destruct (operation_object_members (route_meta (dc_tag d) f) (path_parameters (full_path d (rf_path f))) g) as [_ Hparams].
    unfold parameter_names. rewrite Hparams. unfold path_parameters. fold segs. generalize (omap (strip_prefix ":") segs).
    intros names. etrans; [|apply parameter_object_names]. by destruct names. }
  rewrite template_names_openapi. fold segs. destruct (captures_among_names segs). by split_and!.
Qed.

End properties.

(** ** Concrete runs *)

Module OpenApiDemo.

(** A generator that gathers the named schemas it was asked for. *)
#[export] Instance names : SchemaGenerator := {|
  generator := list (string * json);
  into_generator := [];
  take_definitions g := g
|}.

Definition schema_of (name : string) : schema_fn := fun g =>
  (json_object [("$ref", JString ("#/components/schemas/" +:+ name))], map_insert name (json_object [("type", JString "object")]) g).

Definition show : route_fn := RouteFn "show" Get "/:id" None None [] None (Some (schema_of "User")) false.
Definition remove : route_fn := RouteFn "remove" Delete "/:id" (Some "Remove a user") None ["admin"] None None false.
Definition users : declaration := Declaration "/users" (Some "1") "UsersController" [show; remove].

Definition doc : json := build_document [meta_of users] "Demo" "1.0" None.

(** Reached through two imports the module mounts its endpoint twice: unlike a [#[module]] it does not
    mark itself registered. *)
Example diamond_import_mounts_twice :
  let endpoint (_ : open_api_options) := 1 : @val Demo.payloads in
  discovery_meta t_http_endpoint_meta
    (build (open_api_module_register endpoint (open_api_module_register endpoint builder_new)))
  = [(1, None); (1, None)].
Proof. vm_compute. reflexivity. Qed.

Example doc_contents :
  documented doc "/v1/users/{id}" "get" = Some (json_object
    [("operationId", JString "show"); ("tags", JArray [JString "UsersController"]);
     ("parameters", JArray [path_parameter "id"]);
     ("responses", json_object [("200", json_object [("description", JString "OK");
        ("content", json_content (json_object [("$ref", JString "#/components/schemas/User")]))])])]) /\
  documented doc "/v1/users/{id}" "put" = None.
Proof. split; vm_compute; reflexivity. Qed.

Lemma path_templates_match_parameters_witness :
  exists op, documented doc "/v1/users/{id}" "delete" = Some op /\ parameter_names op = template_names "/v1/users/{id}".
Proof.
  destruct (documented doc "/v1/users/{id}" "delete") as [op|] eqn:E; [|vm_compute in E; discriminate].
  exists op. split; [reflexivity|].
  destruct (path_templates_match_parameters [users] "Demo" "1.0" None "/v1/users/{id}" "delete" op E)
    as (d & f & Hlast & _ & _ & _ & Heq).
  apply Heq. assert (last_declared [users] "/v1/users/{id}" "delete" = Some (users, remove)) as Hl by (vm_compute; reflexivity).
  rewrite Hl in Hlast. injection Hlast as <- <-. vm_compute. reflexivity.
Defined.

(** A segment written in braces is a literal to the router and a parameter nobody declares to the
    reader of the document; the captured one it collides with is what is documented when it comes last. *)
Example braces_are_taken_for_a_parameter :
  let literal := RouteFn "literal" Get "/{id}" None None [] None None false in
  (parameter_names <$> documented (build_document [meta_of (Declaration "/users" None "Users" [show; literal])] "Demo" "1.0" None)
    "/users/{id}" "get") = Some [] /\
  (documented (build_document [meta_of (Declaration "/users" None "Users" [literal; show])] "Demo" "1.0" None)
    "/users/{id}" "get" ≫= operation_id) = Some "show".
Proof. split; vm_compute; reflexivity. Qed.

Example converted_paths : openapi_path "/users/:id/posts" = "/users/{id}/posts" /\ path_parameters "/users" = [].
Proof. split; reflexivity. Qed.

End OpenApiDemo.
