(* ===== verification/Health.v ===== *)
(** The health probes: the contract of a check with its defaults ([nestrs-health/src/service.rs]), the
    controller of the three probes ([controller.rs]) and the module that binds the default
    ([module.rs]).  The route table and its metadata are what [#[routes]] emits, see [OpenApi]. *)

From S2P Require Import Prelude Container Access Codegen Register Http OpenApi.

Section checks.
Context {W : Type}.

(** [HealthCheck]. *)
Record health_check := HealthCheck {
  is_live : W -> bool * W;
  is_ready : W -> bool * W;
  is_started : W -> bool * W
}.

(** An implementation may leave any method to its default. *)
Definition health_check_default : health_check :=
  HealthCheck (fun w => (true, w)) (fun w => (true, w)) (fun w => (true, w)).
Definition health_service : health_check := health_check_default.

Definition probe_response (verdict : bool) (healthy unhealthy : string) : response :=
  if verdict then Response 200 None [] healthy else Response 503 None [] unhealthy.

(** The handlers of [HealthController], over the injected service. *)
Definition live (svc : health_check) (w : W) : response * W :=
  let '(up, w1) := is_live svc w in (probe_response up "ok" "dead", w1).
Definition ready (svc : health_check) (w : W) : response * W :=
  let '(up, w1) := is_ready svc w in (probe_response up "ready" "not ready", w1).
Definition startup (svc : health_check) (w : W) : response * W :=
  let '(up, w1) := is_started svc w in (probe_response up "started" "starting", w1).

End checks.
Arguments health_check : clear implicits.

Definition health_path : string := "/health".
Definition health_routes : list (string * string) := [("/live", "live"); ("/ready", "ready"); ("/startup", "startup")].

Definition t_health_check : ty := TDyn "HealthCheck".
Definition health_check_path : syn_type := TyTraitObject [BoundTrait ["HealthCheck"]].

(** [#[controller]] on a struct with one [#[inject] svc: Arc<dyn HealthCheck>]. *)
Definition health_controller : item_struct :=
  ItemStruct "HealthController"
    (FieldsNamed [Field "svc" (TyPath [PathSegment "Arc" (AngleBracketed [GType health_check_path])]) true]).

(** [#[module(providers = [HealthService as dyn HealthCheck, HealthController])]]. *)
Definition health_module `{Payloads} (service controller : discoverable) : module_def :=
  ModuleDef "HealthModule" []
    [BindDyn (TNamed "HealthService") "HealthService" service health_check_path;
     BindConcrete (TNamed "HealthController") "HealthController" controller].

(** The probe of the service bound last: healthy exactly when its check says so. *)
Lemma probe_answers_its_check {W} (svc : health_check W) w :
  (status (live svc w).1 = 200%Z <-> (is_live svc w).1 = true) /\
  (status (ready svc w).1 = 200%Z <-> (is_ready svc w).1 = true) /\
  (status (startup svc w).1 = 200%Z <-> (is_started svc w).1 = true).
Proof.
  unfold live, ready, startup, probe_response.
  destruct (is_live svc w) as [[] ?], (is_ready svc w) as [[] ?], (is_started svc w) as [[] ?]; by split_and!.
Qed.

(** ** The default and its replacement *)

Module HealthDemo.
Import CodegenDemo.

(** The constructed service is known by its name. *)
#[export] Instance named_structs : @Structs Demo.payloads :=
  { construct := fun ident _ => (if String.eqb ident "HealthService" then 1 else 2) : @val Demo.payloads;
    default_value := fun _ => 0 : @val Demo.payloads; scoped_ctor := fun _ => 0 : @scoped_fn Demo.payloads;
    interceptor_meta := fun v => v }.

Definition unit_service (name : string) : discoverable :=
  match injectable (TNamed name) false (ItemStruct name FieldsUnit) with
  | Ok d => d
  | Err _ => Discoverable [] [] [] [] (fun _ => Ok 0) (fun _ => Ok [])
  end.

Definition controller : discoverable :=
  Discoverable [] [TArc t_health_check] [] [] (fun _ => Ok 3) (fun _ => Ok [RAttachMeta (TNamed "HealthController") (TNamed "HttpControllerMeta") 3]).

(** A feature module binds the application's own check. *)
Definition feature : module_def :=
  ModuleDef "FeatureModule" [] [BindDyn (TNamed "MyHealth") "MyHealth" (unit_service "MyHealth") health_check_path].

Definition app_impls (imports : list import_t) (providers : list provider_binding_t) : gmap ty module_impl :=
  {[ TNamed "HealthModule" := MacroModule (health_module (unit_service "HealthService") controller);
     TNamed "FeatureModule" := MacroModule feature;
     TNamed "AppModule" := MacroModule (ModuleDef "AppModule" imports providers) ]}.

Definition bound_check (imports : list string) (providers : list provider_binding_t) : option nat :=
  match module_register (app_impls (map (fun m => ImportStatic (TNamed m)) imports) providers) (TNamed "AppModule") builder_new with
  | Some (Ok b) => get_dyn t_health_check (build b)
  | _ => None
  end.

(** Bound by the importing module the application's check replaces the default; bound by a module
    imported before [HealthModule] it is replaced by the default, with no warning. *)
Example replacement_depends_on_import_order :
  bound_check ["HealthModule"] [BindDyn (TNamed "MyHealth") "MyHealth" (unit_service "MyHealth") health_check_path] = Some 2 /\
  bound_check ["HealthModule"; "FeatureModule"] [] = Some 2 /\
  bound_check ["FeatureModule"; "HealthModule"] [] = Some 1 /\
  bound_check ["HealthModule"] [] = Some 1.
Proof. split_and!; vm_compute; reflexivity. Qed.

End HealthDemo.
