(* ===== verification/ServerTiming.v ===== *)
(** The [Server-Timing] response header: the entries of a request ([nestrs-server-timing/src/entry.rs]),
    their formatting ([format.rs]) and the interceptor that appends the header ([interceptor.rs]).

    A [Timings] is shared: it is the address of its list in a store that the world holds.  A duration
    is a number of nanoseconds; its display goes through IEEE binary64 arithmetic, which is that of
    [SpecFloat].  A string is its UTF-8 bytes: the two characters that are escaped never occur inside
    the encoding of another.  [HeaderValue] is the [http] crate's. *)

From Stdlib Require Import Ascii SpecFloat.
From S2P Require Import Prelude Container Http.

(** ** Durations *)

Definition f64_of (n : Z) : spec_float := binary_normalize 53 1024 n 0 false.

(** [Duration::as_secs_f64]. *)
Definition as_secs_f64 (d : Z) : spec_float :=
  SFadd 53 1024 (f64_of (d / 1000000000)) (SFdiv 53 1024 (f64_of (d mod 1000000000)) (f64_of 1000000000)).

Definition as_millis_f64 (d : Z) : spec_float := SFmul 53 1024 (as_secs_f64 d) (f64_of 1000).

(** [n / d] to the nearest, ties to even. *)
Definition round_div (n d : Z) : Z :=
  let q := (n / d)%Z in
  let r := (2 * (n mod d))%Z in
  if (r <? d)%Z || (r =? d)%Z && Z.even q then q else (q + 1)%Z.

Definition two_digits (n : Z) : string := (if (n <? 10)%Z then "0" else "") +:+ show_u64 n.

(** [{:.2}]: the exact value, rounded. *)
Definition show_fixed2 (x : spec_float) : string :=
  let sign (s : bool) := if s then "-" else "" in
  match x with
  | S754_zero s => sign s +:+ "0.00"
  | S754_infinity s => sign s +:+ "inf"
  | S754_nan => "NaN"
  | S754_finite s m e =>
      let h := if (0 <=? e)%Z then (Zpos m * 2 ^ e * 100)%Z else round_div (Zpos m * 100) (2 ^ (- e)) in
      sign s +:+ show_u64 (h / 100) +:+ "." +:+ two_digits (h mod 100)
  end.

Definition show_millis (d : Z) : string := show_fixed2 (as_millis_f64 d).

(** ** Entries *)

Record entry := Entry { en_name : string; en_desc : option string; en_dur : Z }.

(** The lists behind the handles. *)
Definition timings_store : Type := gmap nat (list entry).

Definition timings_default (st : timings_store) : nat * timings_store :=
  let h := fresh (dom st) in (h, <[h := []]> st).

Definition push (h : nat) (name : string) (desc : option string) (dur : Z) (st : timings_store) : timings_store :=
  <[h := default [] (st !! h) ++ [Entry name desc dur]]> st.
Definition record (h : nat) (name : string) (dur : Z) : timings_store -> timings_store := push h name None dur.
Definition record_with_desc (h : nat) (name desc : string) (dur : Z) : timings_store -> timings_store :=
  push h name (Some desc) dur.
Definition drain (h : nat) (st : timings_store) : list entry * timings_store := (default [] (st !! h), <[h := []]> st).

(** ** The header *)

Definition quote : ascii := ascii_of_nat 34.
Definition backslash : ascii := ascii_of_nat 92.

Definition token_char (c : ascii) : bool :=
  existsb (Ascii.eqb c) (chars "!#$%&'*+-.^_`|~") || is_digit c
  || (let n := nat_of_ascii c in (65 <=? n)%nat && (n <=? 90)%nat || (97 <=? n)%nat && (n <=? 122)%nat).

Definition is_valid_token (s : string) : bool := negb (String.eqb s "") && forallb token_char (chars s).

Definition escape (c : ascii) : list ascii := if Ascii.eqb c quote || Ascii.eqb c backslash then [backslash; c] else [c].

Definition write_entry (buf : string) (e : entry) : string :=
  let buf := buf +:+ en_name e +:+ ";dur=" +:+ show_millis (en_dur e) in
  match en_desc e with
  | Some desc =>
      if is_valid_token desc then buf +:+ ";desc=" +:+ desc
      else buf +:+ ";desc=" +:+ of_chars ([quote] ++ (chars desc ≫= escape) ++ [quote])
  | None => buf
  end.

(** [HeaderValue::from_str], documented to permit visible ASCII characters only. *)
Definition visible (c : ascii) : bool := let n := nat_of_ascii c in (32 <=? n)%nat && (n <? 127)%nat.

Class HeaderValues := {
  from_str : string -> option string;
  from_str_visible s : forallb visible (chars s) = true -> from_str s = Some s;
  from_str_bytes s v : from_str s = Some v -> v = s
}.

Section header.
Context `{HeaderValues}.

Definition comma (buf : string) : string := if String.eqb buf "" then buf else buf +:+ ", ".

Definition format_header (entries : list entry) (total : Z) : option string :=
  let buf := foldl (fun buf e => write_entry (comma buf) e) "" (filter (fun e => is_valid_token (en_name e) = true) entries) in
  from_str (comma buf +:+ "total;dur=" +:+ show_millis total).

(** ** The interceptor *)

(** The world of a request: a clock, the store, and the rest. *)
Record timed_world (A : Type) := TimedWorld { tw_now : Z; tw_timings : timings_store; tw_rest : A }.

Definition append_header (name value : string) (r : response) : response :=
  Response (status r) (content_type r) (resp_headers r ++ [(name, value)]) (resp_body r).

Context {X Env A : Type} `{!Extension X nat}.

Definition server_timing : @interceptor X (timed_world A) Env := fun next env req w =>
  let '(timings, st) := timings_default (tw_timings A w) in
  let start := tw_now A w in
  let '(out, w1) := next env (ext_insert timings req) (TimedWorld A (tw_now A w) st (tw_rest A w)) in
  match out with
  | Err e => (Err e, w1)
  | Ok res =>
      let total := saturating_sub (tw_now A w1) start in
      let '(entries, st1) := drain timings (tw_timings A w1) in
      let w2 := TimedWorld A (tw_now A w1) st1 (tw_rest A w1) in
      match format_header entries total with
      | Some value => (Ok (append_header "server-timing" value res), w2)
      | None => (Ok res, w2)
      end
  end.

End header.

(** ** What a reader of the header sees *)

Fixpoint token_span (l : list ascii) : list ascii * list ascii :=
  match l with
  | c :: l' => if token_char c then let '(t, r) := token_span l' in (c :: t, r) else ([], l)
  | [] => ([], [])
  end.

(** The rest of a [quoted-string], of RFC 7230. *)
Fixpoint unquote (l : list ascii) : option (list ascii * list ascii) :=
  match l with
  | [] => None
  | c :: l' =>
      if Ascii.eqb c quote then Some ([], l')
      else if Ascii.eqb c backslash then
        match l' with d :: l'' => prod_map (cons d) id <$> unquote l'' | [] => None end
      else prod_map (cons c) id <$> unquote l'
  end.

Definition read_value (l : list ascii) : option (list ascii * list ascii) :=
  match l with
  | c :: l' => if Ascii.eqb c quote then unquote l' else match token_span l with ([], _) => None | tr => Some tr end
  | [] => None
  end.

Fixpoint read_params (fuel : nat) (l : list ascii) : option (list (string * string) * list ascii) :=
  match fuel with
  | O => None
  | S fuel =>
      match strip_chars (chars ";") l with
      | None => Some ([], l)
      | Some l1 =>
          let '(n, l2) := token_span l1 in
          l3 ← strip_chars (chars "=") l2; vr ← read_value l3; ps ← read_params fuel vr.2;
          Some ((of_chars n, of_chars vr.1) :: ps.1, ps.2)
      end
  end.

(** [#server-timing-metric]: a name and its parameters. *)
Definition metric : Type := string * list (string * string).

Fixpoint read_metrics (fuel : nat) (l : list ascii) : option (list metric) :=
  match fuel with
  | O => None
  | S fuel =>
      let '(n, l1) := token_span l in
      ps ← read_params (S (length l1)) l1;
      match ps.2 with
      | [] => Some [(of_chars n, ps.1)]
      | _ => l2 ← strip_chars (chars ", ") ps.2; ms ← read_metrics fuel l2; Some ((of_chars n, ps.1) :: ms)
      end
  end.

Definition read_header (s : string) : option (list metric) := read_metrics (S (length (chars s))) (chars s).

Definition metric_of (e : entry) : metric :=
  (en_name e, ("dur", show_millis (en_dur e)) :: match en_desc e with Some d => [("desc", d)] | None => [] end).

(** ** Tokens *)

Definition token (l : list ascii) : Prop := l <> [] /\ Forall (fun c => token_char c = true) l.

Lemma is_valid_token_spec s : is_valid_token s = true <-> token (chars s).
Proof.
  unfold is_valid_token, token. rewrite andb_true_iff, negb_true_iff, String.eqb_neq, forallb_forall, List.Forall_forall.
  split; intros [? ?]; (split; [by destruct s|done]).
Qed.

Lemma digit_token c : is_digit c = true -> token_char c = true.
Proof. unfold token_char. intros ->. by rewrite orb_true_r. Qed.

Lemma show_u64_token n : Forall (fun c => token_char c = true) (chars (show_u64 n)).
Proof. eapply Forall_impl; [apply show_u64_digits|apply digit_token]. Qed.

Lemma show_millis_token d : token (chars (show_millis d)).
Proof.
  unfold show_millis, show_fixed2, two_digits. split.
  - destruct (as_millis_f64 d) as [[]|[]| |[] m e]; try done; rewrite !chars_app.
    all: intros [_ [Hd _]%app_eq_nil]%app_eq_nil; eapply show_u64_nonempty.
    all: by rewrite <-(of_chars_chars (show_u64 _)), Hd.
  - destruct (as_millis_f64 d) as [[]|[]| |s m e]; try by repeat constructor.
    rewrite !chars_app, !Forall_app. split_and!; [by destruct s; repeat constructor|apply show_u64_token|by repeat constructor| |apply show_u64_token].
    case_match; by repeat constructor.
Qed.

Lemma token_span_app t r : Forall (fun c => token_char c = true) t ->
  match r with c :: _ => token_char c = false | [] => True end -> token_span (t ++ r) = (t, r).
Proof.
  induction 1 as [|c t Hc _ IH]; intros Hr; cbn.
  - destruct r as [|c r]; [done|]. cbn. by rewrite Hr.
  - by rewrite Hc, IH.
Qed.

Lemma unquote_escape d r : unquote ((d ≫= escape) ++ quote :: r) = Some (d, r).
Proof.
  induction d as [|c d IH]; [done|]. cbn [mbind list_bind]. unfold escape at 1.
  destruct (Ascii.eqb_spec c quote) as [->|Hq]; [cbn; by rewrite IH|].
  destruct (Ascii.eqb_spec c backslash) as [->|Hb]; [cbn; by rewrite IH|].
  cbn. apply Ascii.eqb_neq in Hq, Hb. by rewrite Hq, Hb, IH.
Qed.

(** ** The text of an entry *)

Definition desc_text (d : string) : list ascii :=
  chars ";desc=" ++ (if is_valid_token d then chars d else [quote] ++ (chars d ≫= escape) ++ [quote]).

Definition entry_text (e : entry) : list ascii :=
  chars (en_name e) ++ chars ";dur=" ++ chars (show_millis (en_dur e))
  ++ match en_desc e with Some d => desc_text d | None => [] end.

Lemma write_entry_text buf e : chars (write_entry buf e) = chars buf ++ entry_text e.
Proof.
  unfold write_entry, entry_text, desc_text. destruct (en_desc e) as [d|]; [destruct (is_valid_token d)|];
    by rewrite !chars_app, ?chars_of_chars, <-?app_assoc, ?app_nil_r.
Qed.

(** What follows a metric in a header. *)
Definition ended (r : list ascii) : Prop := match r with [] => True | c :: _ => c = ascii_of_nat 44 end.

Lemma read_value_token t r : token t -> match r with c :: _ => token_char c = false | [] => True end ->
  read_value (t ++ r) = Some (t, r).
Proof.
  intros [Hne Ht] Hr. pose proof (token_span_app t r Ht Hr) as Hs. destruct t as [|c t]; [done|]. cbn [app] in *.
  unfold read_value. rewrite Hs. inversion Ht as [|? ? Hc]; subst. destruct (Ascii.eqb_spec c quote) as [->|]; [done|]. done.
Qed.

Lemma read_params_param fuel n v vtext r : Forall (fun c => token_char c = true) (chars n) -> read_value (vtext ++ r) = Some (chars v, r) ->
  read_params (S fuel) (chars ";" ++ chars n ++ chars "=" ++ vtext ++ r)
  = prod_map (cons (n, v)) id <$> read_params fuel r.
Proof.
  intros Hn Hv. cbn [read_params]. rewrite strip_chars_app, token_span_app by done. rewrite strip_chars_app. cbn.
  rewrite Hv. cbn. rewrite !of_chars_chars. by destruct (read_params fuel r).
Qed.

Lemma read_params_end fuel r : ended r -> read_params (S fuel) r = Some ([], r).
Proof. destruct r as [|c r]; [done|]. by intros ->. Qed.

Lemma ended_token r : ended r -> match r with c :: _ => token_char c = false | [] => True end.
Proof. destruct r; [done|]. by intros ->. Qed.

Lemma read_params_text e r fuel : ended r ->
  read_params (S (S (S fuel))) (chars ";dur=" ++ chars (show_millis (en_dur e))
    ++ match en_desc e with Some d => desc_text d | None => [] end ++ r) = Some ((metric_of e).2, r).
Proof.
  intros Hr. change (chars ";dur=") with (chars ";" ++ chars "dur" ++ chars "="). rewrite <-!app_assoc.
  unfold metric_of. cbn [snd].
  assert (forall r, match r with c :: _ => token_char c = false | [] => True end ->
    read_value (chars (show_millis (en_dur e)) ++ r) = Some (chars (show_millis (en_dur e)), r)) as Hdur.
  { intros. apply read_value_token; [apply show_millis_token|done]. }
  destruct (en_desc e) as [d|].
  - rewrite (read_params_param _ "dur" (show_millis (en_dur e))) by (try apply Hdur; by repeat constructor).
    unfold desc_text. change (chars ";desc=") with (chars ";" ++ chars "desc" ++ chars "="). rewrite <-!app_assoc.
    rewrite (read_params_param _ "desc" d); [|by repeat constructor|].
    + by rewrite read_params_end.
    + destruct (is_valid_token d) eqn:Ed.
      * apply read_value_token; [by apply is_valid_token_spec|by apply ended_token].
      * rewrite <-!app_assoc. cbn [app]. unfold read_value. by rewrite Ascii.eqb_refl, unquote_escape.
  - rewrite (read_params_param _ "dur" (show_millis (en_dur e))) by (try (apply Hdur, ended_token; done); by repeat constructor).
    by rewrite read_params_end.
Qed.

Definition tail_text (es : list entry) : list ascii := es ≫= fun e => chars ", " ++ entry_text e.

Lemma tail_ended es : ended (tail_text es).
Proof. by destruct es. Qed.

Lemma read_metrics_text es e fuel : token (chars (en_name e)) -> Forall (fun e => token (chars (en_name e))) es ->
  (length es < fuel)%nat -> read_metrics fuel (entry_text e ++ tail_text es) = Some (metric_of e :: map metric_of es).
Proof.
  revert e fuel. induction es as [|e' es IH]; intros e fuel [Hne He] Hes Hlt; (destruct fuel as [|fuel]; [lia|]);
    cbn [read_metrics]; unfold entry_text at 1; rewrite <-!app_assoc; rewrite token_span_app by done;
    match goal with |- context [read_params (S (length ?l))] => assert (exists k, S (length l) = S (S (S k))) as [k ->] by (cbn; eauto) end;
    rewrite read_params_text by apply tail_ended; cbn [mbind option_bind snd]; rewrite of_chars_chars.
  - done.
  - inversion Hes as [|? ? He' Hes']; subst. cbn [length] in Hlt.
    change (tail_text (e' :: es)) with ((chars ", " ++ entry_text e') ++ tail_text es). rewrite <-app_assoc.
    cbn [chars String.list_ascii_of_string app]. cbn [strip_chars]. rewrite !Ascii.eqb_refl. cbn [mbind option_bind].
    rewrite IH by (try done; lia). done.
Qed.

(** ** The header *)

Lemma token_visible c : token_char c = true -> visible c = true.
Proof. destruct c as [[] [] [] [] [] [] [] []]; vm_compute; congruence. Qed.

Definition all_visible (l : list ascii) : Prop := Forall (fun c => visible c = true) l.

Lemma token_all_visible l : Forall (fun c => token_char c = true) l -> all_visible l.
Proof. intros Hl. eapply Forall_impl; [exact Hl|apply token_visible]. Qed.

Lemma escape_visible d : all_visible d -> all_visible (d ≫= escape).
Proof.
  induction 1 as [|c d Hc _ IH]; [constructor|]. cbn. apply Forall_app. split; [|done]. unfold escape.
  case_match; by repeat constructor.
Qed.

Lemma entry_text_visible e : token (chars (en_name e)) -> (forall d, en_desc e = Some d -> all_visible (chars d)) ->
  all_visible (entry_text e).
Proof.
  intros [_ Hn] Hd. unfold entry_text, all_visible. rewrite !Forall_app.
  split_and!; [by apply token_all_visible|by repeat constructor|by apply token_all_visible, show_millis_token|].
  destruct (en_desc e) as [d|]; [|constructor]. specialize (Hd d eq_refl). unfold desc_text. apply Forall_app.
  split; [by repeat constructor|]. destruct (is_valid_token d); [done|].
  apply Forall_app. split; [by repeat constructor|]. apply Forall_app. split; [by apply escape_visible|by repeat constructor].
Qed.

Lemma tail_text_visible es : Forall (fun e => all_visible (entry_text e)) es -> all_visible (tail_text es).
Proof.
  induction 1 as [|e es He _ IH]; [constructor|]. change (tail_text (e :: es)) with ((chars ", " ++ entry_text e) ++ tail_text es).
  apply Forall_app. split; [|done]. apply Forall_app. split; [by repeat constructor|done].
Qed.

Lemma eqb_empty s : chars s <> [] -> String.eqb s "" = false.
Proof. by destruct s. Qed.

Lemma entry_text_nonempty e : entry_text e <> [].
Proof. unfold entry_text. intros [_ H]%app_eq_nil. done. Qed.

Lemma write_entries_text buf es : chars buf <> [] ->
  chars (foldl (fun buf e => write_entry (comma buf) e) buf es) = chars buf ++ tail_text es.
Proof.
  revert buf. induction es as [|e es IH]; intros buf Hb; cbn [foldl]; [by rewrite app_nil_r|].
  assert (chars (write_entry (comma buf) e) = chars buf ++ chars ", " ++ entry_text e) as Ht.
  { rewrite write_entry_text. unfold comma. rewrite eqb_empty by done. by rewrite chars_app, <-app_assoc. }
  rewrite IH, Ht, <-!app_assoc; [done|]. rewrite Ht. by intros [? _]%app_eq_nil.
Qed.

Definition total_entry (total : Z) : entry := Entry "total" None total.

Definition kept (es : list entry) : list entry := filter (fun e => is_valid_token (en_name e) = true) es.

(** The text handed to [HeaderValue::from_str]: the kept entries and the total, between commas. *)
Definition header_text (es : list entry) (total : Z) : list ascii :=
  match es ++ [total_entry total] with e :: rest => entry_text e ++ tail_text rest | [] => [] end.

Lemma tail_text_app es1 es2 : tail_text (es1 ++ es2) = tail_text es1 ++ tail_text es2.
Proof. unfold tail_text. apply bind_app. Qed.

Lemma format_header_text `{HeaderValues} es total : exists s, chars s = header_text (kept es) total /\ format_header es total = from_str s.
Proof.
  unfold format_header. fold (kept es). eexists. split; [|done]. rewrite !chars_app. unfold header_text.
  assert (chars "total;dur=" ++ chars (show_millis total) = entry_text (total_entry total)) as ->.
  { unfold entry_text, total_entry. cbn [en_name en_desc en_dur]. by rewrite app_nil_r. }
  destruct (kept es) as [|e rest]; [symmetry; apply app_nil_r|]. cbn [foldl app].
  assert (chars (write_entry (comma "") e) = entry_text e) as He by (by rewrite write_entry_text).
  set (buf := foldl _ _ rest). assert (chars buf = entry_text e ++ tail_text rest) as Hbuf.
  { unfold buf. rewrite write_entries_text, He; [done|]. rewrite He. apply entry_text_nonempty. }
  unfold comma. rewrite eqb_empty by (rewrite Hbuf; intros [Hx _]%app_eq_nil; by apply entry_text_nonempty in Hx).
  rewrite chars_app, Hbuf, tail_text_app, <-!app_assoc. do 2 f_equal. unfold tail_text. cbn [mbind list_bind].
  by rewrite app_nil_r.
Qed.

Lemma kept_tokens es : Forall (fun e => token (chars (en_name e))) (kept es).
Proof. apply Forall_forall. intros e [He _]%list_elem_of_filter. by apply is_valid_token_spec. Qed.

Lemma read_header_text es total s : Forall (fun e => token (chars (en_name e))) es -> chars s = header_text es total ->
  read_header s = Some (map metric_of (es ++ [total_entry total])).
Proof.
  intros Hes Hs. unfold read_header. rewrite Hs. unfold header_text.
  assert (Forall (fun e => token (chars (en_name e))) (es ++ [total_entry total])) as Hall.
  { apply Forall_app. split; [done|]. constructor; [|constructor]. split; [done|by repeat constructor]. }
  destruct (es ++ [total_entry total]) as [|e rest] eqn:E; [by apply app_eq_nil in E as [_ ?]|].
  inversion Hall as [|? ? He Hrest]; subst. apply read_metrics_text; [done..|].
  rewrite length_app. assert (length rest <= length (tail_text rest))%nat; [|lia]. clear.
  induction rest as [|e rest IH]; [done|].
  change (tail_text (e :: rest)) with ((chars ", " ++ entry_text e) ++ tail_text rest). rewrite !length_app.
  change (length (chars ", ")) with 2%nat. cbn [length]. lia.
Qed.

Lemma header_text_visible es total : Forall (fun e => token (chars (en_name e))) es ->
  Forall (fun e => forall d, en_desc e = Some d -> all_visible (chars d)) es -> all_visible (header_text es total).
Proof.
  intros Hn Hd. unfold header_text.
  assert (Forall (fun e => all_visible (entry_text e)) (es ++ [total_entry total])) as Hall.
  { apply Forall_app. split.
    - apply Forall_forall. intros e He. rewrite Forall_forall in Hn, Hd. by apply entry_text_visible; [apply Hn|apply Hd].
    - constructor; [|constructor]. apply entry_text_visible; [split; [done|by repeat constructor]|done]. }
  destruct (es ++ _) as [|e rest]; [constructor|]. inversion Hall; subst. apply Forall_app. split; [done|]. by apply tail_text_visible.
Qed.

(** The header is read back, or a description among the kept entries is not of visible characters. *)
Lemma format_header_spec `{HeaderValues} es total :
  match format_header es total with
  | Some v => read_header v = Some (map metric_of (kept es ++ [total_entry total]))
  | None => exists e d, e ∈ kept es /\ en_desc e = Some d /\ forallb visible (chars d) = false
  end.
Proof.
  destruct (format_header_text es total) as (s & Hs & ->). destruct (from_str s) as [v|] eqn:Ev.
  - apply from_str_bytes in Ev as ->. by apply read_header_text; [apply kept_tokens|].
  - assert (exists e, e ∈ kept es /\ ~ (forall d, en_desc e = Some d -> all_visible (chars d))) as (e & He & Hd).
    { apply Exists_exists, not_Forall_Exists.
      - intros e. destruct (en_desc e) as [d|]; [|by left].
        destruct (Forall_dec (fun c => visible c = true) (chars d)); [left|right]; naive_solver.
      - intros Hall. rewrite from_str_visible in Ev; [done|]. apply forallb_forall, List.Forall_forall. rewrite Hs.
        apply header_text_visible; [apply kept_tokens|done]. }
    destruct (en_desc e) as [d|] eqn:Ed; [|by destruct Hd]. exists e, d. split_and!; [done..|].
    destruct (forallb visible (chars d)) eqn:Ef; [|done]. destruct Hd. intros ? [= <-].
    by apply List.Forall_forall, forallb_forall.
Qed.

Section served.
Context `{HeaderValues} {X Env A : Type} `{!Extension X nat}.

(** The interceptor installs an accumulator of the request's own, touches neither an error nor the
    status, the body and the headers of an answer, and appends at most one header.  What a reader that
    follows the grammar of [Server-Timing] gets from it is every entry recorded under the accumulator
    whose name is a token, in order, description and all, and last the total; the header is left out
    exactly when a recorded description holds a character outside visible ASCII. *)
Lemma server_timing_reports_recorded_entries (next : endpoint X (timed_world A) Env) env (req : request X) (w : timed_world A) :
  exists h, tw_timings A w !! h = None /\
  let '(out, w1) := next env (ext_insert h req) (TimedWorld A (tw_now A w) (<[h := []]> (tw_timings A w)) (tw_rest A w)) in
  let recorded := kept (default [] (tw_timings A w1 !! h)) in
  exists w2, match out with
  | Err e => server_timing next env req w = (Err e, w1)
  | Ok res => exists hs, server_timing next env req w = (Ok (Response (status res) (content_type res) (resp_headers res ++ hs) (resp_body res)), w2) /\
      match hs with
      | [] => exists e d, e ∈ recorded /\ en_desc e = Some d /\ forallb visible (chars d) = false
      | [(name, v)] => name = "server-timing" /\ read_header v =
          Some (map metric_of recorded ++ [("total", [("dur", show_millis (saturating_sub (tw_now A w1) (tw_now A w)))])])
      | _ => False
      end
  end.
Proof.
  exists (fresh (dom (tw_timings A w))). split; [apply not_elem_of_dom, is_fresh|].
  unfold server_timing, timings_default. set (h := fresh (dom _)). destruct (next env _ _) as [[res|e] w1]; [|by exists w].
  unfold drain. set (total := saturating_sub _ _). eexists.
  pose proof (format_header_spec (default [] (tw_timings A w1 !! h)) total) as Hf.
  destruct (format_header _ total) as [v|]; [exists [("server-timing", v)]|exists []].
  - split; [done|]. split; [done|]. by rewrite Hf, map_app.
  - split; [|done]. rewrite app_nil_r. by destruct res.
Qed.

End served.

Module ServerTimingDemo.

#[export] Instance visible_values : HeaderValues.
Proof.
  refine {| from_str := fun s => if forallb visible (chars s) then Some s else None |}.
  - by intros s ->.
  - intros s v. case_match; by intros [= <-].
Defined.

Definition db : entry := Entry "db" None 5000000%Z.

Example three_entries : format_header [db; Entry "graphql" None 3000000%Z; Entry "bad name" None 1%Z] 20000000%Z
  = Some "db;dur=5.00, graphql;dur=3.00, total;dur=20.00".
Proof. vm_compute. reflexivity. Qed.

(** The durations are rounded in binary: half a hundredth may go either way. *)
Example rounded : map show_millis [1; 4999; 5000; 5001; 15000; 35000; 1234567; 86400000000000]%Z = ["0.00"; "0.00"; "0.01"; "0.01"; "0.02"; "0.03"; "1.23"; "86400000.00"].
Proof. vm_compute. reflexivity. Qed.

Definition quoted (s : string) : string := of_chars ([quote] ++ chars s ++ [quote]).

Example description_is_escaped :
  format_header [Entry "db" (Some ("users " +:+ quoted "a")) 5000000%Z] 0%Z
  = Some ("db;dur=5.00;desc=" +:+ quoted ("users \" +:+ quoted "a\") +:+ ", total;dur=0.00").
Proof. vm_compute. reflexivity. Qed.

(** One description outside visible ASCII and no header is sent at all, the total included. *)
Example accent_drops_the_header :
  format_header [db; Entry "db" (Some (of_chars [ascii_of_nat 195; ascii_of_nat 169])) 5%Z] 20000000%Z = None.
Proof. vm_compute. reflexivity. Qed.

End ServerTimingDemo.
