(* ===== verification/Orm.v ===== *)
(** The data layer of [nestrs-orm]: the ambient executor ([executor.rs]), the transaction a
    mutating request runs in ([interceptor.rs]), the ability-scoped repository ([repo.rs]),
    keyset pagination ([page.rs]) and the CRUD service ([service.rs]); and the offset pagination
    of [nestrs-resource/src/pagination.rs].

    sea-orm is a parameter: [Transactions] and [Queries] name the operations the code calls on a
    connection, their [..Semantics] what is documented of them. *)

From S2P Require Import Prelude Container Authz Http.

(** ** The database *)

(** Transactions of a connection.  A transaction is shared by reference count: [others_hold] says
    whether a clone survives besides the interceptor's own, which [drop_own] releases. *)
Class Transactions (W : Type) := {
  txn : Type;
  begin_txn : W -> result txn string * W;
  commit : txn -> W -> result unit string * W;
  rollback : txn -> W -> result unit string * W;
  others_hold : txn -> W -> bool;
  drop_own : txn -> W -> W
}.

Inductive executor (T : Type) :=
| Pool
| Txn (t : T).
Arguments Pool {T}.
Arguments Txn {T} t.

(** The task-locals a request runs under. *)
Record ambient (T : Type) `{Orm} := Ambient {
  amb_executor : option (executor T);
  amb_ability : option ability
}.
Arguments Ambient {T _} _ _.
Arguments amb_executor {T _} _.
Arguments amb_ability {T _} _.

Section executor.
Context `{Orm} {T : Type}.

Definition no_ambient : ambient T := Ambient None None.

Definition current_executor (env : ambient T) : option (executor T) := amb_executor env.

Definition with_executor {A} (ex : executor T) (fut : ambient T -> A) (env : ambient T) : A :=
  fut (Ambient (Some ex) (amb_ability env)).

(** [with_ability] of the authorization crate, on the whole of the task-locals. *)
Definition under_ability {A} (ab : ability) (fut : ambient T -> A) (env : ambient T) : A :=
  with_ability ab (fun abl => fut (Ambient (amb_executor env) abl)) (amb_ability env).

End executor.

(** ** The request transaction *)

Definition is_safe (m : http_method) : bool :=
  match m with GET | HEAD | OPTIONS | TRACE => true | _ => false end.

Definition should_commit (r : result response http_error) : bool :=
  match r with
  | Ok resp => is_success (status resp) || is_redirection (status resp)
  | Err _ => false
  end.

Section db_context.
Context {X W : Type} `{Orm} `{Transactions W}.

(** [DbContext::intercept] *)
Definition db_context : interceptor X W (ambient txn) := fun next env req w =>
  if is_safe (rq_method req) then with_executor Pool (fun env => next env req w) env
  else
    let '(begun, w1) := begin_txn w in
    match begun with
    | Err _ => (Err (error_from_status 500), w1)
    | Ok t =>
        let '(out, w2) := with_executor (Txn t) (fun env => next env req w1) env in
        if others_hold t w2 then
          let w3 := drop_own t w2 in
          if should_commit out then (Err (error_from_status 500), w3) else (out, w3)
        else if should_commit out then
          let '(committed, w3) := commit t w2 in
          match committed with
          | Err _ => (Err (error_from_status 500), w3)
          | Ok _ => (out, w3)
          end
        else let '(_, w3) := rollback t w2 in (out, w3)
    end.

End db_context.

(** ** Queries *)

(** sea-orm's error type, as far as the code distinguishes it. *)
Inductive db_err :=
| RecordNotUpdated
| RecordNotFound (msg : string)
| DbCustom (msg : string).

(** The statements the code builds, run on an executor. A primary key is a UUID, as its 128-bit
    number. *)
Class Queries (W T : Type) `{Orm} := {
  active_model : Type;
  create_input : Type;
  update_input : Type;
  into_active_model : create_input -> active_model;              (* [CreateModel], emitted *)
  apply_to : update_input -> active_model -> active_model;       (* [UpdateModel], emitted *)
  model_active : model -> active_model;                          (* [IntoActiveModel] *)
  active_is_noop : active_model -> bool;                         (* no column but the key is [Set] *)
  table_name : ty -> string;
  pk_col : ty -> column;                                         (* the first of [PrimaryKey::iter()] *)
  value_uuid : value -> option Z;                                (* [<Uuid as ValueType>::try_from] *)
  parse_uuid : string -> option Z;                               (* [Uuid::parse_str] *)
  q_all : executor T -> ty -> condition -> W -> result (list model) db_err * W;
  q_by_id : executor T -> ty -> Z -> condition -> W -> result (option model) db_err * W;
  q_cursor : executor T -> ty -> condition -> column -> option Z -> Z -> W -> result (list model) db_err * W;
  q_insert : executor T -> ty -> active_model -> W -> result model db_err * W;
  q_update : executor T -> ty -> active_model -> condition -> W -> result model db_err * W;
  q_delete : executor T -> ty -> model -> condition -> W -> result Z db_err * W
}.

(** A keyset page, and its query parameters: [Page] and [PageParams]. *)
Record page_t (M : Type) := Page {
  page_items : list M;
  next_cursor : option Z;
  has_more : bool
}.
Arguments Page {M} _ _ _.
Arguments page_items {M} _.
Arguments next_cursor {M} _.
Arguments has_more {M} _.

Record page_params := PageParams {
  pp_first : option Z;
  pp_after : option string
}.

Definition page_limit (p : page_params) : Z := clampZ (default 20%Z (pp_first p)) 1 100.

(** The outcome of an authorized by-id load. *)
Inductive access_t (M : Type) :=
| Found (m : M)
| Denied
| Missing.
Arguments Found {M} m.
Arguments Denied {M}.
Arguments Missing {M}.

Section repo.
Context {W T : Type} `{Orm} `{!Queries W T}.

Definition after_uuid (p : page_params) : option Z := pp_after p ≫= parse_uuid.

(** *** [Repo] *)

Definition scope_for (e : ty) (a : action) (env : ambient T) : condition :=
  match current_ability (amb_ability env) with
  | Some ab => condition_for ab a e
  | None => condition_all
  end.

Definition conn (env : ambient T) : result (executor T) db_err :=
  ok_or (current_executor env)
    (DbCustom "no ambient database executor — a Repo query must run inside the request scope installed by nestrs-orm's DbContext interceptor").

Definition repo_all (e : ty) (env : ambient T) (w : W) : result (list model) db_err * W :=
  match conn env with
  | Err err => (Err err, w)
  | Ok ex => q_all ex e (scope_for e Read env) w
  end.

Definition repo_find_by_id (e : ty) (id : Z) (env : ambient T) (w : W)
  : result (option model) db_err * W :=
  match conn env with
  | Err err => (Err err, w)
  | Ok ex => q_by_id ex e id (scope_for e Read env) w
  end.

(** The condition of a [Select] handed to a custom query. *)
Definition repo_scoped (e : ty) (a : action) (env : ambient T) : condition := scope_for e a env.

Definition repo_update (e : ty) (active : active_model) (env : ambient T) (w : W)
  : result model db_err * W :=
  match conn env with
  | Err err => (Err err, w)
  | Ok ex => q_update ex e active (scope_for e Update env) w
  end.

Definition repo_delete (e : ty) (m : model) (env : ambient T) (w : W) : result Z db_err * W :=
  match conn env with
  | Err err => (Err err, w)
  | Ok ex => q_delete ex e m (scope_for e Delete env) w
  end.

Definition repo_page (e : ty) (first : Z) (after : option Z) (env : ambient T) (w : W)
  : result (page_t model) db_err * W :=
  match conn env with
  | Err err => (Err err, w)
  | Ok ex =>
      let limit := clampZ first 1 100 in
      let '(rows, w1) := q_cursor ex e (scope_for e Read env) (pk_col e) after (limit + 1) w in
      match rows with
      | Err err => (Err err, w1)
      | Ok items0 =>
          let more := (limit <? Z.of_nat (length items0))%Z in
          let items := take (Z.to_nat limit) items0 in
          let next := if more then last items ≫= (fun m => value_uuid (model_get m (pk_col e))) else None in
          (Ok (Page items next more), w1)
      end
  end.

(** *** [CrudService] *)

Definition service_list (e : ty) : ambient T -> W -> result (list model) db_err * W := repo_all e.

Definition service_page (e : ty) (first : Z) (after : option Z)
  : ambient T -> W -> result (page_t model) db_err * W := repo_page e first after.

(** The load is unscoped; [None] is a panic of the instance check. *)
Definition access (e : ty) (a : action) (id : Z) (env : ambient T) (w : W)
  : option (result (access_t model) db_err * W) :=
  match conn env with
  | Err err => Some (Err err, w)
  | Ok ex =>
      let '(loaded, w1) := q_by_id ex e id condition_all w in
      match loaded with
      | Err err => Some (Err err, w1)
      | Ok None => Some (Ok Missing, w1)
      | Ok (Some m) =>
          allowed ← match current_ability (amb_ability env) with
                    | Some ab => can ab a e m
                    | None => Some false
                    end;
          Some (Ok (if allowed : bool then Found m else Denied), w1)
      end
  end.

Definition service_create (e : ty) (input : create_input) (env : ambient T) (w : W)
  : result model db_err * W :=
  match conn env with
  | Err err => (Err err, w)
  | Ok ex => q_insert ex e (into_active_model input) w
  end.

Definition service_update (e : ty) (m : model) (input : update_input) (env : ambient T) (w : W)
  : result model db_err * W :=
  repo_update e (apply_to input (model_active m)) env w.

Definition service_delete (e : ty) (m : model) (env : ambient T) (w : W) : result unit db_err * W :=
  let '(deleted, w1) := repo_delete e m env w in
  match deleted with
  | Err err => (Err err, w1)
  | Ok rows_affected =>
      if (rows_affected =? 0)%Z then
        (Err (RecordNotFound (table_name e +:+ " row not found or outside the caller's scope")), w1)
      else (Ok tt, w1)
  end.

End repo.

(** ** Offset pagination *)

Record page_args := PageArgs { pa_page : Z; pa_per_page : Z }.

Definition default_page : Z := 1.
Definition default_per_page : Z := 20.
Definition page_args_default : page_args := PageArgs default_page default_per_page.

(** The [validator] bounds. *)
Definition page_args_valid (p : page_args) : bool :=
  ((1 <=? pa_page p) && (1 <=? pa_per_page p) && (pa_per_page p <=? 100))%Z.

(** A debug build panics when the product overflows, a release build wraps. *)
Definition offset_checked (p : page_args) : option Z :=
  checked_mul_u64 (saturating_sub (pa_page p) 1) (pa_per_page p).
Definition offset (p : page_args) : Z :=
  wrap_u64 (saturating_sub (pa_page p) 1 * pa_per_page p).

Definition limit (p : page_args) : Z := pa_per_page p.

(** The page-count facts of the emitted [<Name>Page] envelope. *)
Record page_envelope (M : Type) := PageEnvelope {
  pe_items : list M;
  pe_total : Z;
  pe_page : Z;
  pe_per_page : Z;
  pe_total_pages : Z;
  pe_has_next : bool;
  pe_has_previous : bool
}.
Arguments PageEnvelope {M} _ _ _ _ _ _ _.
Arguments pe_total_pages {M} _.
Arguments pe_has_next {M} _.
Arguments pe_has_previous {M} _.

Definition div_ceil (n d : Z) : Z := if (n mod d =? 0)%Z then (n / d)%Z else (n / d + 1)%Z.

Definition envelope_new {M} (items : list M) (total : Z) (args : page_args) : page_envelope M :=
  let per_page := Z.max (pa_per_page args) 1 in
  let total_pages := div_ceil total per_page in
  PageEnvelope items total (pa_page args) (pa_per_page args) total_pages
    (pa_page args <? total_pages)%Z (1 <? pa_page args)%Z.

(** ** What is documented of the database *)

(** The data other connections can see, and what a transaction would make of it.  A commit that fails
    left the data as they were, unless the error is one that leaves its outcome in doubt (the
    connection was lost before the answer): then the server may have committed. *)
Class TransactionSemantics (W : Type) `{Transactions W} := {
  data : Type;
  durable : W -> data;
  pending : txn -> W -> data;
  begin_durable w : durable (begin_txn w).2 = durable w;
  commit_ok t w w1 : commit t w = (Ok tt, w1) -> durable w1 = pending t w;
  in_doubt : string -> bool;
  commit_err t w err w1 : commit t w = (Err err, w1) ->
    durable w1 = durable w \/ (in_doubt err = true /\ durable w1 = pending t w);
  rollback_durable t w : durable (rollback t w).2 = durable w;
  drop_durable t w : durable (drop_own t w) = durable w
}.

(** The keys that follow a cursor. *)
Definition past (after : option Z) (id : Z) : Prop :=
  match after with Some a => (a < id)%Z | None => True end.

#[export] Instance past_dec after id : Decision (past after id).
Proof. destruct after; simpl; apply _. Defined.

(** The rows an executor sees, each with its primary key, and what the statements do to them. *)
Section query_semantics.
Context {W T : Type} `{SqlSemantics} `{!Queries W T}.

Definition key_sort (row_id : model -> Z) (l : list model) : list model :=
  stable_sort (fun x y => Z.leb (row_id x) (row_id y)) l.

Class QuerySemantics := {
  rows : executor T -> ty -> W -> list model;
  row_id : ty -> model -> Z;
  active_id : ty -> active_model -> Z;
  row_id_column e m : value_uuid (model_get m (pk_col e)) = Some (row_id e m);
  rows_distinct ex e w : NoDup (map (row_id e) (rows ex e w));
  (* reads *)
  q_all_spec ex e c w : let '(r, w1) := q_all ex e c w in
    (forall e', rows ex e' w1 = rows ex e' w) /\
    forall ms, r = Ok ms -> ms ≡ₚ filter (selects c) (rows ex e w);
  q_by_id_spec ex e id c w : let '(r, w1) := q_by_id ex e id c w in
    (forall e', rows ex e' w1 = rows ex e' w) /\
    forall o, r = Ok o -> match o with
      | Some m => m ∈ rows ex e w /\ row_id e m = id /\ selects c m
      | None => forall m, m ∈ rows ex e w -> row_id e m = id -> ~ selects c m
      end;
  q_cursor_spec ex e c after n w : let '(r, w1) := q_cursor ex e c (pk_col e) after n w in
    (forall e', rows ex e' w1 = rows ex e' w) /\
    forall ms, r = Ok ms ->
      ms = take (Z.to_nat n)
        (filter (fun m => past after (row_id e m))
          (key_sort (row_id e) (filter (selects c) (rows ex e w))));
  (* gated writes: they touch a row their condition selects, or nothing; an update that sets nothing is
     a read of the row by its key, without the condition *)
  q_update_spec ex e active c w : let '(r, w1) := q_update ex e active c w in
    match r with
    | Ok _ => exists m, m ∈ rows ex e w /\ row_id e m = active_id e active /\
        if active_is_noop active then forall e', rows ex e' w1 = rows ex e' w else selects c m
    | Err _ => forall e', rows ex e' w1 = rows ex e' w
    end;
  q_delete_spec ex e m0 c w : let '(r, w1) := q_delete ex e m0 c w in
    match r with
    | Ok n => (n = 0%Z -> forall e', rows ex e' w1 = rows ex e' w) /\
              (n <> 0%Z -> exists m, m ∈ rows ex e w /\ row_id e m = row_id e m0 /\ selects c m)
    | Err _ => forall e', rows ex e' w1 = rows ex e' w
    end
}.

End query_semantics.

Arguments QuerySemantics W T {_ _ _}.

(** ** Transactions *)

Section transactions.
Context {X W : Type} `{Orm} `{TransactionSemantics W}.
Implicit Types (next : endpoint X W (ambient txn)) (env : ambient txn).

(** [C8] A request that may mutate persists all its writes or none, and says so: an answer with a
    2xx or 3xx status means the transaction was committed, any other outcome (an error, a 4xx or
    5xx, a failed begin or commit, a transaction that escaped the request) leaves the durable
    data as it was.  The one exception is a commit whose outcome the database left in doubt: it is
    answered 500, and the writes are there all together or not at all. *)
Theorem mutation_commits_iff_success next env (req : request X) (w : W) :
  is_safe (rq_method req) = false ->
  (forall t w1, durable (next (Ambient (Some (Txn t)) (amb_ability env)) req w1).2 = durable w1) ->
  let '(out, w') := db_context next env req w in
  if should_commit out then
    exists t w1 w2, begin_txn w = (Ok t, w1) /\
      next (Ambient (Some (Txn t)) (amb_ability env)) req w1 = (out, w2) /\
      others_hold t w2 = false /\ durable w' = pending t w2
  else durable w' = durable w \/
    exists t w1 w2 answered err, begin_txn w = (Ok t, w1) /\
      next (Ambient (Some (Txn t)) (amb_ability env)) req w1 = (answered, w2) /\
      should_commit answered = true /\ others_hold t w2 = false /\ commit t w2 = (Err err, w') /\
      in_doubt err = true /\ out = Err (error_from_status 500) /\ durable w' = pending t w2.
Proof.
  intros Hm Hnext. unfold db_context, with_executor. rewrite Hm. cbv beta.
  pose proof (begin_durable w) as Hb. destruct (begin_txn w) as [[t|err] w1] eqn:Eb; simpl in Hb; [|by left].
  specialize (Hnext t w1). destruct (next _ req w1) as [out w2] eqn:En. simpl in Hnext.
  destruct (others_hold t w2) eqn:Eo.
  { destruct (should_commit out) eqn:Es; simpl; rewrite ?Es, drop_durable; left; congruence. }
  destruct (should_commit out) eqn:Es.
  - destruct (commit t w2) as [[[]|err] w3] eqn:Ec; simpl.
    + rewrite Es. exists t, w1, w2. split; [done|]. split; [done|]. split; [done|]. by eapply commit_ok.
    + destruct (commit_err _ _ _ _ Ec) as [Hd|[Hdoubt Hp]]; [left; congruence|right].
      exists t, w1, w2, out, err. by split_and!.
  - pose proof (rollback_durable t w2) as Hr. destruct (rollback t w2) as [r w3].
    simpl in *. rewrite Es. left. congruence.
Qed.

End transactions.

(** ** The repository *)

Section repository.
Context {W T : Type} `{SqlSemantics} `{!Queries W T} `{!QuerySemantics W T}.
Implicit Types (specs : list rule_spec) (m : model) (ex : executor T) (env : ambient T) (w : W) (e : ty).

Lemma selects_all m : selects condition_all m.
Proof. unfold selects. pose proof (holds_all [] m) as E. simpl in E. by rewrite E. Qed.

(** The rows of a listing, in the order of their keys. *)
Definition listing ex e (c : condition) w : list model :=
  key_sort (row_id e) (filter (selects c) (rows ex e w)).

Definition key_lt e : relation model := fun x y => (row_id e x < row_id e y)%Z.

Lemma listing_perm ex e c w : listing ex e c w ≡ₚ filter (selects c) (rows ex e w).
Proof. apply stable_sort_perm. Qed.

Lemma listing_sorted ex e c w : StronglySorted (key_lt e) (listing ex e c w).
Proof.
  assert (Hnd : NoDup (map (row_id e) (listing ex e c w))).
  { assert (Hp : map (row_id e) (listing ex e c w) ≡ₚ map (row_id e) (filter (selects c) (rows ex e w)))
      by (apply fmap_Permutation, listing_perm).
    rewrite Hp. eapply sublist_NoDup; [exact (rows_distinct ex e w)|].
    apply (fmap_sublist (row_id e)), sublist_filter. }
  pose proof (stable_sort_sorted (fun x y => Z.leb (row_id e x) (row_id e y))
    ltac:(intros x y; rewrite !Z.leb_le; lia) ltac:(intros x y z; rewrite !Z.leb_le; lia)
    (filter (selects c) (rows ex e w))) as Hs.
  unfold listing, key_sort in *. revert Hnd.
  induction Hs as [|x l _ IH Hx]; intros Hnd; simpl in Hnd; [constructor|].
  apply NoDup_cons in Hnd as [Hnin Hnd]. constructor; [by apply IH|].
  rewrite Forall_forall in Hx |- *. intros y Hy. specialize (Hx y Hy). simpl in Hx. apply Z.leb_le in Hx.
  unfold key_lt. destruct (decide (row_id e x = row_id e y)) as [E|]; [|lia].
  destruct Hnin. rewrite E. by apply (list_elem_of_fmap_2 (row_id e)).
Qed.

(** *** Keyset lists *)

Lemma sorted_suffix e (l : list model) k x : StronglySorted (key_lt e) l -> l !! k = Some x ->
  filter (fun m => past (Some (row_id e x)) (row_id e m)) l = drop (S k) l.
Proof.
  intros Hs. revert k. induction Hs as [|y l Hs IH Hy]; intros k Hk; [done|].
  rewrite Forall_forall in Hy. destruct k as [|k]; simpl in Hk.
  - injection Hk as ->. rewrite filter_cons_False by (simpl; lia). simpl. rewrite drop_0.
    clear -Hy. induction l as [|z l IH]; [done|]. rewrite filter_cons_True.
    + f_equal. apply IH. intros v Hv. apply Hy. by right.
    + apply Hy. by left.
  - rewrite filter_cons_False; [by apply IH|].
    assert (Hlt : key_lt e y x) by (apply Hy; by eapply list_elem_of_lookup_2).
    unfold key_lt in Hlt. simpl. lia.
Qed.

Lemma filter_past_none e (l : list model) : filter (fun m => past None (row_id e m)) l = l.
Proof. induction l as [|m l IH]; [done|]. by rewrite filter_cons_True, IH. Qed.

(** A client following [next_cursor] from the start. *)
Fixpoint traverse (fuel : nat) e (first : Z) (after : option Z) env w
  : option (result (list model) db_err * W) :=
  match fuel with
  | O => None
  | S fuel' =>
      let '(r, w1) := repo_page e first after env w in
      match r with
      | Err err => Some (Err err, w1)
      | Ok p =>
          match next_cursor p with
          | None => Some (Ok (page_items p), w1)
          | Some c =>
              match traverse fuel' e first (Some c) env w1 with
              | Some (Ok rest, w2) => Some (Ok (page_items p ++ rest), w2)
              | other => other
              end
          end
      end
  end.

(** One page, when the rows from the cursor on are the suffix from [k]. *)
Lemma repo_page_spec e first after ex env w k :
  conn env = Ok ex ->
  let l := listing ex e (scope_for e Read env) w in
  let n := Z.to_nat (clampZ first 1 100) in
  filter (fun m => past after (row_id e m)) l = drop k l ->
  let '(r, w1) := repo_page e first after env w in
  (forall e', rows ex e' w1 = rows ex e' w) /\
  forall p, r = Ok p ->
    page_items p = take n (drop k l) /\ has_more p = bool_decide (k + n < length l) /\
    match next_cursor p with
    | Some c => k + n < length l /\ filter (fun m => past (Some c) (row_id e m)) l = drop (k + n) l
    | None => length l <= k + n
    end.
Proof.
  intros Hc l n Hk. unfold repo_page. rewrite Hc.
  pose proof (clampZ_range first 1 100 ltac:(lia)) as Hn.
  pose proof (q_cursor_spec ex e (scope_for e Read env) after (clampZ first 1 100 + 1) w) as Hq.
  destruct (q_cursor _ _ _ _ _ _ _) as [[ms|err] w1]; destruct Hq as [Hr Hq]; (split; [done|]); [|done].
  intros p [= <-]. specialize (Hq ms eq_refl). fold l in Hq. cbn [page_items has_more next_cursor].
  assert (Hms : ms = take (S n) (drop k l)).
  { rewrite Hq. fold (listing ex e (scope_for e Read env) w). fold l. rewrite Hk. f_equal. unfold n. lia. }
  assert (Hmore : (clampZ first 1 100 <? Z.of_nat (length ms))%Z = bool_decide (k + n < length l)).
  { rewrite Hms, length_take, length_drop. unfold n. apply eq_bool_prop_intro.
    rewrite !Is_true_true, Z.ltb_lt, bool_decide_eq_true. lia. }
  rewrite Hmore. fold n. assert (Htake : take n ms = take n (drop k l)) by (rewrite Hms, take_take; f_equal; lia).
  rewrite Htake. split; [done|]. split; [done|]. case_bool_decide as Hlt; [|lia].
  assert (Hpos : 0 < n) by (unfold n; lia).
  destruct (lookup_lt_is_Some_2 l (k + n - 1) ltac:(lia)) as [x Hx].
  assert (Hlast : last (take n (drop k l)) = Some x).
  { rewrite last_lookup, length_take, length_drop.
    replace (Nat.pred (n `min` (length l - k))) with (n - 1) by lia.
    rewrite lookup_take_lt by lia. rewrite lookup_drop. rewrite <- Hx. f_equal. lia. }
  rewrite Hlast. cbn [mbind option_bind]. rewrite row_id_column. split; [done|].
  rewrite (sorted_suffix e l (k + n - 1) x); [f_equal; lia|apply listing_sorted|done].
Qed.

Lemma traverse_spec fuel e first after ex env w k :
  conn env = Ok ex ->
  let l := listing ex e (scope_for e Read env) w in
  filter (fun m => past after (row_id e m)) l = drop k l -> length l - k < fuel ->
  exists r w1, traverse fuel e first after env w = Some (r, w1) /\ forall ms, r = Ok ms -> ms = drop k l.
Proof.
  intros Hc. revert after w k. induction fuel as [|fuel IH]; intros after w k l Hk Hf; [lia|].
  simpl. pose proof (repo_page_spec e first after ex env w k Hc Hk) as Hp. fold l in Hp.
  set (n := Z.to_nat (clampZ first 1 100)) in Hp.
  assert (Hn : 0 < n) by (pose proof (clampZ_range first 1 100 ltac:(lia)); lia).
  destruct (repo_page e first after env w) as [[p|err] w1]; destruct Hp as [Hr Hp];
    [|eexists _, _; split; [done|discriminate]].
  specialize (Hp p eq_refl). destruct Hp as (Hitems & _ & Hnext).
  destruct (next_cursor p) as [c|].
  - destruct Hnext as [Hlt Hsuf].
    assert (Hl : listing ex e (scope_for e Read env) w1 = l) by (unfold listing; by rewrite Hr).
    destruct (IH (Some c) w1 (k + n)) as (r & w2 & Ht & Hms); [by rewrite Hl|rewrite Hl; lia|].
    rewrite Ht. destruct r as [ms|err]; [|eexists _, _; split; [done|discriminate]]. eexists _, _. split; [done|].
    intros ms' [= <-]. rewrite (Hms ms eq_refl), Hl, Hitems, <- drop_drop. apply take_drop.
  - eexists _, _. split; [done|]. intros ms [= <-]. rewrite Hitems. apply take_ge. rewrite length_drop. lia.
Qed.

(** [C17] Keyset pagination is exact: a client following the cursors from the start ends after
    finitely many pages of at most the clamped size and, unless the database fails, has read
    exactly the rows it may read, each once, in the order of their keys. *)
Theorem keyset_pages_enumerate_the_scope ex e (first : Z) env w :
  conn env = Ok ex ->
  exists r w1, traverse (S (length (rows ex e w))) e first None env w = Some (r, w1) /\
    forall ms, r = Ok ms ->
      ms ≡ₚ filter (selects (scope_for e Read env)) (rows ex e w) /\ StronglySorted (key_lt e) ms /\
      forall after w0 p w1, repo_page e first after env w0 = (Ok p, w1) ->
        length (page_items p) <= Z.to_nat (clampZ first 1 100).
Proof.
  intros Hc. destruct (traverse_spec (S (length (rows ex e w))) e first None ex env w 0 Hc)
    as (r & w1 & Ht & Hms); [by rewrite filter_past_none, drop_0| |].
  - rewrite (Permutation_length (listing_perm _ _ _ _)).
    pose proof (length_filter (selects (scope_for e Read env)) (rows ex e w)). lia.
  - exists r, w1. split; [done|]. intros ms Hr. rewrite (Hms ms Hr), drop_0.
    split; [apply listing_perm|]. split; [apply listing_sorted|].
    clear. intros after w0 p w1. unfold repo_page. destruct (conn env); [|done].
    destruct (q_cursor _ _ _ _ _ _ _) as [[items|err] w2]; [|done]. intros [= <- _]. simpl.
    rewrite length_take. lia.
Qed.

(** The task-locals of a request: an executor, and the ability of the caller. *)
Definition request_env ex specs : ambient T := Ambient (Some ex) (Some (define specs)).

(** A listing in a request: the rows the pre-filter selects, each of which passes the instance check when
    the rules compare its columns with values of their types. *)
Lemma repo_all_granted ex specs e w ms w1 : repo_all e (request_env ex specs) w = (Ok ms, w1) ->
  ms ≡ₚ filter (selects (condition_for (define specs) Read e)) (rows ex e w) /\
  Forall (fun m => well_typed specs Read e m -> can (define specs) Read e m = Some true) ms.
Proof.
  set (c := condition_for (define specs) Read e). intros Hq. pose proof (q_all_spec ex e c w) as Hs.
  unfold repo_all in Hq. simpl in Hq. change (scope_for e Read (request_env ex specs)) with c in Hq. rewrite Hq in Hs.
  destruct Hs as [_ Hs]. specialize (Hs ms eq_refl). split; [done|]. apply Forall_forall. intros m Hm.
  rewrite Hs in Hm. apply list_elem_of_filter in Hm as [Hsel _]. intros Ht. by apply prefilter_sound.
Qed.

Lemma repo_all_unchanged ex specs e w : forall e', rows ex e' (repo_all e (request_env ex specs) w).2 = rows ex e' w.
Proof.
  pose proof (q_all_spec ex e (condition_for (define specs) Read e) w) as Hs. unfold repo_all. simpl.
  change (scope_for e Read _) with (condition_for (define specs) Read e).
  destruct (q_all _ _ _ _) as [r w1]. apply Hs.
Qed.

(** [C9] Whatever a scoped read returns, the caller may read: every row a listing, a by-id load or a
    page answers with passes the instance check of the caller's ability — where its rules compare
    the columns of the row with values of their own types —, and a listing misses no row the
    pre-filter selects. Outside a request there is no executor and every query is an
    error. *)
Theorem scoped_reads_are_granted ex specs e w :
  let env := request_env ex specs in
  (forall ms w1, repo_all e env w = (Ok ms, w1) ->
     ms ≡ₚ filter (selects (condition_for (define specs) Read e)) (rows ex e w) /\
     Forall (fun m => well_typed specs Read e m -> can (define specs) Read e m = Some true) ms) /\
  (forall id m w1, repo_find_by_id e id env w = (Ok (Some m), w1) ->
     m ∈ rows ex e w /\ row_id e m = id /\
     (well_typed specs Read e m -> can (define specs) Read e m = Some true)) /\
  (forall first after p w1, repo_page e first after env w = (Ok p, w1) ->
     Forall (fun m => m ∈ rows ex e w /\
       (well_typed specs Read e m -> can (define specs) Read e m = Some true)) (page_items p)) /\
  (forall ab, exists err, repo_all e (Ambient None ab) w = (Err err, w) /\
     (forall id, repo_find_by_id e id (Ambient None ab) w = (Err err, w)) /\
     forall first after, repo_page e first after (Ambient None ab) w = (Err err, w)).
Proof.
  intros env. set (c := condition_for (define specs) Read e).
  assert (Hsel : forall m, m ∈ filter (selects c) (rows ex e w) ->
    m ∈ rows ex e w /\ (well_typed specs Read e m -> can (define specs) Read e m = Some true)).
  { intros m [Hs Hin]%list_elem_of_filter. split; [done|]. intros Ht. by apply prefilter_sound. }
  split; [|split; [|split]].
  - by apply repo_all_granted.
  - intros id m w1 Hq. pose proof (q_by_id_spec ex e id c w) as Hs. unfold repo_find_by_id in Hq.
    simpl in Hq. change (scope_for e Read env) with c in Hq. rewrite Hq in Hs.
    destruct Hs as [_ Hs]. destruct (Hs _ eq_refl) as (Hin & Hid & Hsl).
    split; [done|]. split; [done|]. intros Ht. by apply prefilter_sound.
  - intros first after p w1 Hq. unfold repo_page in Hq. simpl in Hq.
    change (scope_for e Read env) with c in Hq.
    pose proof (q_cursor_spec ex e c after (clampZ first 1 100 + 1) w) as Hs.
    destruct (q_cursor _ _ _ _ _ _ _) as [[ms|err] w2]; [|done]. destruct Hs as [_ Hs].
    specialize (Hs ms eq_refl). injection Hq as <- _. cbn [page_items]. apply Forall_forall.
    intros m Hm. apply Hsel. apply elem_of_take in Hm as (i & Hi & _).
    apply list_elem_of_lookup_2 in Hi. rewrite Hs in Hi. apply elem_of_take in Hi as (j & Hj & _).
    apply list_elem_of_lookup_2, list_elem_of_filter in Hj as [_ Hj]. by rewrite <- listing_perm.
  - intros ab. eexists. by split; [|split].
Qed.

(** A write that succeeds touched a row the caller's ability grants it on (where the rules are well typed
    on that row), and one that fails changed no table; an update with nothing to set reads the row by its
    key, whatever the ability, and changes nothing either. *)
Definition write_granted ex specs e (a : action) (id : Z) (noop : bool) w w1 : Prop :=
  exists m0, m0 ∈ rows ex e w /\ row_id e m0 = id /\
    if noop then forall e', rows ex e' w1 = rows ex e' w
    else well_typed specs a e m0 -> can (define specs) a e m0 = Some true.

Lemma service_update_gated ex specs e m input w :
  let '(r, w1) := service_update e m input (request_env ex specs) w in
  let active := apply_to input (model_active m) in
  match r with
  | Ok _ => write_granted ex specs e Update (active_id e active) (active_is_noop active) w w1
  | Err _ => forall e', rows ex e' w1 = rows ex e' w
  end.
Proof.
  unfold service_update, repo_update. simpl.
  change (scope_for e Update _) with (condition_for (define specs) Update e).
  pose proof (q_update_spec ex e (apply_to input (model_active m)) (condition_for (define specs) Update e) w) as Hs.
  destruct (q_update _ _ _ _ _) as [[m'|err] w1]; [|done].
  destruct Hs as (m0 & Hin & Hid & Hsel). exists m0. split; [done|]. split; [done|].
  destruct (active_is_noop _); [done|]. intros Ht. by apply prefilter_sound.
Qed.

Lemma service_delete_gated ex specs e m w :
  let '(r, w1) := service_delete e m (request_env ex specs) w in
  match r with
  | Ok _ => write_granted ex specs e Delete (row_id e m) false w w1
  | Err _ => forall e', rows ex e' w1 = rows ex e' w
  end.
Proof.
  unfold service_delete, repo_delete. simpl.
  change (scope_for e Delete _) with (condition_for (define specs) Delete e).
  pose proof (q_delete_spec ex e m (condition_for (define specs) Delete e) w) as Hs.
  destruct (q_delete _ _ _ _ _) as [[n|err] w1]; [|done]. destruct Hs as [H0s Hns].
  destruct (Z.eqb_spec n 0) as [->|Hn]; [by apply H0s|].
  destruct (Hns Hn) as (m0 & Hin & Hid & Hsel). exists m0. split; [done|]. split; [done|].
  intros Ht. by apply prefilter_sound.
Qed.

(** A write is confined to the caller's scope. *)
Lemma crud_writes_need_a_grant ex specs e w :
  let env := request_env ex specs in
  (forall m input, let '(r, w1) := service_update e m input env w in
     let active := apply_to input (model_active m) in
     match r with
     | Ok _ => write_granted ex specs e Update (active_id e active) (active_is_noop active) w w1
     | Err _ => forall e', rows ex e' w1 = rows ex e' w
     end) /\
  (forall m, let '(r, w1) := service_delete e m env w in
     match r with
     | Ok _ => write_granted ex specs e Delete (row_id e m) false w w1
     | Err _ => forall e', rows ex e' w1 = rows ex e' w
     end).
Proof. split; intros m *; [apply service_update_gated|apply service_delete_gated]. Qed.

(** Creating is not gated: the ability plays no part in it, whatever conditions its rules set. *)
Lemma service_create_ignores_ability ex e input w (ab1 ab2 : option ability) :
  service_create e input (Ambient (Some ex) ab1) w = service_create e input (Ambient (Some ex) ab2) w.
Proof. done. Qed.

(** The by-id load and check. *)
Lemma access_spec ex specs e (a : action) id w :
  exists r w1, access e a id (request_env ex specs) w = Some (r, w1) /\
    (forall e', rows ex e' w1 = rows ex e' w) /\
    forall o, r = Ok o ->
      match o with
      | Found m => m ∈ rows ex e w /\ row_id e m = id /\ can (define specs) a e m = Some true
      | Denied => exists m, m ∈ rows ex e w /\ row_id e m = id /\ can (define specs) a e m = Some false
      | Missing => forall m, m ∈ rows ex e w -> row_id e m <> id
      end.
Proof.
  unfold access. simpl. pose proof (q_by_id_spec ex e id condition_all w) as Hs.
  destruct (q_by_id ex e id condition_all w) as [[[m|]|err] w1]; destruct Hs as [Hr Hs].
  - destruct (Hs _ eq_refl) as (Hin & Hid & _). rewrite can_define. simpl.
    eexists _, _. split; [done|]. split; [done|]. intros o [= <-].
    match goal with |- context [if ?b then _ else _] => destruct b eqn:Eb end.
    + by rewrite can_define, Eb.
    + exists m. by rewrite can_define, Eb.
  - eexists _, _. split; [done|]. split; [done|]. intros o [= <-] m Hin Hid.
    pose proof (Hs None eq_refl) as Hn. by apply (Hn m Hin Hid), selects_all.
  - eexists _, _. split; [done|]. split; [done|]. discriminate.
Qed.

End repository.

(** ** Offsets *)

(** Offset pagination is exact only below the width of the integer: for arguments that pass
    validation the offset is [(page - 1) * per_page], consecutive pages meeting end to end, as long
    as that product fits 64 bits; beyond, a debug build panics and a release build wraps to a
    smaller offset.  The envelope announces a next page exactly when rows remain past this one. *)
Lemma offset_exact_below_overflow (p : page_args) (total : Z) :
  u64 (pa_page p) -> page_args_valid p = true -> u64 total ->
  let exact := ((pa_page p - 1) * pa_per_page p)%Z in
  (pe_has_next (envelope_new (@nil unit) total p) = true <-> (exact + limit p < total)%Z) /\
  if (exact <=? u64_max)%Z
  then offset_checked p = Some exact /\ offset p = exact /\
       forall q, pa_page q = (pa_page p + 1)%Z -> pa_per_page q = pa_per_page p ->
         (offset_checked q = Some (offset p + limit p)%Z \/ offset_checked q = None)
  else offset_checked p = None /\ (0 <= offset p < exact)%Z.
Proof.
  intros Hu Hv Ht exact. unfold page_args_valid in Hv. rewrite !andb_true_iff, !Z.leb_le in Hv.
  destruct Hv as ((Hp & Hs1) & Hs2).
  split.
  { unfold envelope_new, div_ceil, exact, limit. simpl. rewrite Z.max_l by lia. rewrite Z.ltb_lt.
    pose proof (Z.div_mod total (pa_per_page p) ltac:(lia)) as Hd.
    pose proof (Z.mod_pos_bound total (pa_per_page p) ltac:(lia)) as Hm.
    destruct (Z.eqb_spec (total mod pa_per_page p) 0); nia. }
  assert (Hsat : forall x, (1 <= x)%Z -> saturating_sub x 1 = (x - 1)%Z) by (intros; unfold saturating_sub; lia).
  unfold offset_checked, checked_mul_u64, offset, limit. rewrite (Hsat (pa_page p)) by done. fold exact.
  assert (He : (0 <= exact)%Z) by (unfold exact; nia).
  destruct (Z.leb_spec exact u64_max) as [Hle|Hgt].
  - rewrite wrap_u64_small by (unfold u64; lia). split; [done|]. split; [done|].
    intros q -> ->. rewrite Hsat by lia. case_match; [left|by right]. f_equal. unfold exact. lia.
  - split; [done|]. pose proof (wrap_u64_range exact) as Hr. unfold u64, u64_max in *. lia.
Qed.

(** ** A concrete database *)

Module OrmDemo.
Import AuthzDemo.

(** One table, committed and as the open transaction sees it. *)
Record world := World { pub : gmap Z row; priv : gmap Z row; leaked : bool }.

#[export] Instance transactions : Transactions world := {
  txn := unit;
  begin_txn w := (Ok tt, World (pub w) (pub w) false);
  commit _ w := (Ok tt, World (priv w) (priv w) (leaked w));
  rollback _ w := (Ok tt, World (pub w) (pub w) (leaked w));
  others_hold _ w := leaked w;
  drop_own _ w := w
}.

#[export] Instance transaction_semantics : TransactionSemantics world.
Proof.
  refine {| data := gmap Z row; durable := pub; pending := fun _ => priv; in_doubt := fun _ => false |}; try done.
  by intros t w w1 [= <-].
Defined.

Definition table (ex : executor unit) (w : world) : gmap Z row :=
  match ex with Pool => pub w | Txn _ => priv w end.

Definition set_table (ex : executor unit) (m : gmap Z row) (w : world) : world :=
  match ex with Pool => World m (priv w) (leaked w) | Txn _ => World (pub w) m (leaked w) end.

Definition keyed (kr : Z * row) : row := ("id", Some kr.1) :: kr.2.
Definition demo_rows (ex : executor unit) (e : ty) (w : world) : list row := map keyed (map_to_list (table ex w)).
Definition demo_id (e : ty) (m : row) : Z := default 0%Z (field m "id").

Definition find_row (ex : executor unit) (e : ty) (id : Z) (c : demo_condition) (w : world) : option row :=
  head (filter (fun m => demo_id e m = id /\ demo_holds c m = TTrue) (demo_rows ex e w)).

#[export] Instance queries : Queries world unit := {
  active_model := row; create_input := row; update_input := row;
  into_active_model r := r; apply_to input active := input ++ active; model_active m := m;
  active_is_noop _ := false;
  table_name _ := "users"; pk_col _ := "id" : @column demo_orm;
  value_uuid v := Some (default 0%Z v); parse_uuid _ := None;
  q_all ex e c w := (Ok (filter (fun m => demo_holds c m = TTrue) (demo_rows ex e w)), w);
  q_by_id ex e id c w := (Ok (find_row ex e id c w), w);
  q_cursor ex e c _ after n w :=
    (Ok (take (Z.to_nat n) (filter (fun m => past after (demo_id e m))
           (stable_sort (fun x y => Z.leb (demo_id e x) (demo_id e y))
              (filter (fun m => demo_holds c m = TTrue) (demo_rows ex e w))))), w);
  q_insert ex e active w := (Ok active, set_table ex (<[demo_id e active := active]> (table ex w)) w);
  q_update ex e active c w :=
    match find_row ex e (demo_id e active) c w with
    | Some _ => (Ok active, set_table ex (<[demo_id e active := active]> (table ex w)) w)
    | None => (Err RecordNotUpdated, w)
    end;
  q_delete ex e m c w :=
    match find_row ex e (demo_id e m) c w with
    | Some _ => (Ok 1%Z, set_table ex (delete (demo_id e m) (table ex w)) w)
    | None => (Ok 0%Z, w)
    end
}.

Lemma find_row_spec ex e id c w :
  match find_row ex e id c w with
  | Some m => m ∈ demo_rows ex e w /\ demo_id e m = id /\ demo_holds c m = TTrue
  | None => forall m, m ∈ demo_rows ex e w -> demo_id e m = id -> demo_holds c m <> TTrue
  end.
Proof.
  unfold find_row. destruct (head _) as [m|] eqn:E.
  - assert (Hin : m ∈ filter (fun m => demo_id e m = id /\ demo_holds c m = TTrue) (demo_rows ex e w)).
    { destruct (filter _ _); [done|]. injection E as ->. by left. }
    apply list_elem_of_filter in Hin. tauto.
  - intros m Hin Hid Hh. assert (Hf : m ∈ filter (fun m => demo_id e m = id /\ demo_holds c m = TTrue) (demo_rows ex e w))
      by (by apply list_elem_of_filter).
    destruct (filter _ _); [by apply elem_of_nil in Hf|done].
Qed.

#[export] Instance query_semantics : QuerySemantics world unit.
Proof.
  refine {| rows := demo_rows : executor unit -> ty -> world -> list (@model demo_orm); row_id := demo_id; active_id := demo_id |}.
  - done.
  - intros ex e w. unfold demo_rows. rewrite map_map. apply (NoDup_fst_map_to_list (table ex w)).
  - intros ex e c w. split; [done|]. by intros ms [= <-].
  - intros ex e id c w. pose proof (find_row_spec ex e id c w) as Hf. split; [done|]. by intros o [= <-].
  - intros ex e c after n w. split; [done|]. by intros ms [= <-].
  - intros ex e active c w. simpl. pose proof (find_row_spec ex e (demo_id e active) c w) as Hf.
    destruct (find_row _ _ _ _ _) as [m|]; [by exists m|done].
  - intros ex e m0 c w. simpl. pose proof (find_row_spec ex e (demo_id e m0) c w) as Hf.
    destruct (find_row _ _ _ _ _) as [m|]; [|done]. split; [done|]. intros _. by exists m.
Defined.

(** Ids 1 to 3, in organisations 1, 2 and 1. *)
Definition start : world :=
  World {[1%Z := [("org", Some 1%Z); ("banned", Some 0%Z)]; 2%Z := [("org", Some 2%Z); ("banned", Some 0%Z)];
          3%Z := [("org", Some 1%Z); ("banned", Some 0%Z)]]} ∅ false.

Definition env : ambient unit := request_env Pool specs.

Lemma keyset_pages_enumerate_the_scope_witness :
  (exists r w1, traverse (S (length (rows Pool users start))) users 1 None env start = Some (r, w1) /\
    forall ms, r = Ok ms -> ms ≡ₚ filter (selects (scope_for users Read env)) (rows Pool users start)) /\
  (result_map (map (demo_id users)) <$> (fst <$> traverse 4 users 1 None env start)) = Some (Ok [1; 3]%Z).
Proof.
  split; [|by vm_compute].
  destruct (keyset_pages_enumerate_the_scope Pool users 1 env start eq_refl) as (r & w1 & Ht & Hms).
  exists r, w1. split; [exact Ht|]. intros ms Hr. exact (proj1 (Hms ms Hr)).
Defined.

(** A handler that writes in the transaction it is given, and answers with a status. *)
Definition writer (answer : Z) : endpoint unit world (ambient unit) := fun env req w =>
  match amb_executor env with
  | Some (Txn t) => (Ok (Response answer None [] ""), World (pub w) {[9%Z := []]} (leaked w))
  | _ => (Ok (Response answer None [] ""), w)
  end.

Definition post : request unit := Request POST "/" [] [] "" ∅.

Lemma mutation_commits_iff_success_witness :
  (let '(out, w') := db_context (writer 201) (Ambient None None) post start in
   should_commit out = true /\ exists t w1 w2, begin_txn start = (Ok t, w1) /\
      writer 201 (Ambient (Some (Txn t)) None) post w1 = (out, w2) /\
      others_hold t w2 = false /\ durable w' = pending t w2) /\
  (let '(out, w') := db_context (writer 422) (Ambient None None) post start in durable w' = durable start).
Proof.
  split.
  - pose proof (mutation_commits_iff_success (writer 201) (Ambient None None) post start eq_refl ltac:(done)) as Hc.
    split; [done|]. exact Hc.
  - pose proof (mutation_commits_iff_success (writer 422) (Ambient None None) post start eq_refl ltac:(done)) as Hc.
    match type of Hc with let '(_, _) := ?run in _ => change (durable run.2 = durable start); destruct run as [out w'] eqn:E end.
    assert (Hs : should_commit out = false) by (vm_compute in E; by injection E as <- _). rewrite Hs in Hc.
    destruct Hc as [Hc|(? & ? & ? & ? & ? & _ & _ & _ & _ & _ & Hd & _)]; [exact Hc|done].
Defined.

Lemma scoped_reads_are_granted_witness :
  (result_map (map (demo_id users)) (repo_all users env start).1 = Ok [3; 1]%Z) /\
  exists ms w1, repo_all users env start = (Ok ms, w1) /\
    Forall (fun m => can (define specs) Read users m = Some true) ms.
Proof.
  split; [by vm_compute|]. eexists _, _. split; [reflexivity|].
  eapply Forall_impl; [refine (proj2 (proj1 (scoped_reads_are_granted Pool specs users start) _ start _)); reflexivity|].
  intros m Hm. apply Hm, demo_well_typed.
Defined.

(** Nobody may delete in the demo's rules: the row stays, and the service says it is not found. *)
Lemma crud_writes_need_a_grant_witness :
  let member : row := [("id", Some 1%Z)] in
  (let '(r, w1) := service_delete users member env start in
   r = Err (RecordNotFound "users row not found or outside the caller's scope") /\
   forall e', rows Pool e' w1 = rows Pool e' start).
Proof.
  pose proof (proj2 (crud_writes_need_a_grant Pool specs users start) [("id", Some 1%Z)]) as Hd.
  split; [by vm_compute|exact Hd].
Defined.

(** Validated arguments whose offset does not fit: the release build reads from a wrapped offset. *)
Lemma offset_exact_below_overflow_witness :
  page_args_valid (PageArgs u64_max 100) = true /\ offset_checked (PageArgs u64_max 100) = None /\
  offset (PageArgs u64_max 100) = (2 ^ 64 - 200)%Z.
Proof.
  pose proof (offset_exact_below_overflow (PageArgs u64_max 100) 0 ltac:(by vm_compute) eq_refl ltac:(by vm_compute)) as Ho.
  split; [done|]. split; [exact (proj1 (proj2 Ho))|by vm_compute].
Defined.

(** Members may create rows of their own organisation only; a row of another is inserted all the
    same. *)
Example created_outside_the_scope :
  let specs := [spec_when (PEq "org" (Some 1%Z)) (spec_can Create users)] in
  let foreign : row := [("id", Some 5%Z); ("org", Some 2%Z)] in
  can (define specs) Create users foreign = Some false /\
  (service_create users foreign (request_env Pool specs) start).1 = Ok foreign.
Proof. split; vm_compute; reflexivity. Qed.

End OrmDemo.
