(* ===== verification/AuthzHttp.v ===== *)
(** The HTTP enforcement of authorization, [nestrs-authz-http]: the guard that builds the ability
    of a request ([guard.rs]), the gate [Authorize] ([extractor.rs]), the row filter [Scope]
    ([scope.rs]), route-model binding [Bind] ([bind.rs]) and the response mask ([shape.rs]).

    Serialization, path parsing and the identity of a UUID's version are parameters. *)

From S2P Require Import Prelude Container Authz Http Orm.

(** serde_json on the models of an entity, and poem's body. *)
Class Serde `{Orm} := {
  parse_model : ty -> string -> option model;            (* [from_slice::<S::Model>] *)
  parse_models : ty -> string -> option (list model);    (* [from_slice::<Vec<S::Model>>] *)
  to_vec : json -> option string;
  into_bytes : string -> option string
}.

Section enforcement.
Context {X W T : Type} `{Orm} `{!Extension X ability}.

(** ** The ability of a request *)

(** [AbilityGuard::check], for a factory that maps an actor to its declarations. *)
Definition ability_guard {Actor} `{!Extension X Actor} (define_actor : Actor -> list rule_spec)
  : guard X W (ambient T) := fun _ req w =>
  match ext_get (A:=Actor) req with
  | None => (Err (Response 500 None [] "AbilityGuard requires an authentication guard to run first"), req, w)
  | Some actor => (Ok tt, ext_insert (define (define_actor actor)) req, w)
  end.

Definition missing_ability : http_error :=
  error_from_string "missing request `Ability` — is the ability guard applied to this route?" 500.

(** [Authorize<A, S>] *)
Definition authorize_from_request (a : action) (s : ty) (req : request X) : result unit http_error :=
  let? ab := ok_or (ext_get req) missing_ability in
  if can_class ab a s then Ok tt else Err (error_from_string "forbidden" 403).

(** [Scope<E, A>] *)
Definition scope_from_request (e : ty) (a : action) (req : request X) : result condition http_error :=
  let? ab := ok_or (ext_get req) missing_ability in
  Ok (condition_for ab a e).

(** ** Route-model binding *)

(** The service of an entity, as [Bind] uses it: [access] may be overridden. [None] is a panic. *)
Record crud_service := CrudService {
  sv_access : action -> Z -> ambient T -> W -> option (result (access_t model) db_err * W)
}.

(** The request scope, by its [get]. *)
Record scope_handle := ScopeHandle { scope_get_service : ty -> W -> option crud_service * W }.

Context `{!Extension X scope_handle}.
Context (path_id : request X -> result Z http_error) (uuid_version : Z -> Z) (db_err_text : db_err -> string).

(** A panic ends the request without an answer of the handler. *)
Definition panicked : http_error := error_from_status 500.

(** [Bind<S, A>::from_request] *)
Definition bind_from_request (s : ty) (a : action) (env : ambient T) (req : request X) (w : W)
  : result model http_error * W :=
  match path_id req with
  | Err err => (Err err, w)
  | Ok id =>
      if negb (uuid_version id =? 7)%Z then (Err (error_from_string "path id must be a UUID v7" 400), w)
      else
        match ext_get (A:=ability) req with
        | None => (Err missing_ability, w)
        | Some ab =>
            match ext_get (A:=scope_handle) req with
            | None =>
                (Err (error_from_string "request scope not installed — RequestScopeEndpoint must wrap the route tree" 500), w)
            | Some scope =>
                let '(service, w1) := scope_get_service scope s w in
                match service with
                | None =>
                    (Err (error_from_string "no provider registered for the bound service — add it to a module's providers" 500), w1)
                | Some sv =>
                    match under_ability ab (fun env => sv_access sv a id env w1) env with
                    | None => (Err panicked, w1)
                    | Some (Err err, w2) => (Err (error_from_string (db_err_text err) 500), w2)
                    | Some (Ok (Found m), w2) => (Ok m, w2)
                    | Some (Ok Denied, w2) => (Err (error_from_status 403), w2)
                    | Some (Ok Missing, w2) => (Err (error_from_status 404), w2)
                    end
                end
            end
        end
  end.

(** ** The response mask *)

Context `{!Serde}.

Definition is_ascii_whitespace (c : Ascii.ascii) : bool :=
  let n := Ascii.N_of_ascii c in existsb (N.eqb n) [9; 10; 12; 13; 32]%N.

Definition first_nonblank (bytes : string) : option Ascii.ascii :=
  List.find (fun c => negb (is_ascii_whitespace c)) (chars bytes).

Definition open_bracket : Ascii.ascii := Ascii.ascii_of_N 91.
Definition open_brace : Ascii.ascii := Ascii.ascii_of_N 123.

Definition set_body (body : string) (resp : response) : response :=
  Response (status resp) (content_type resp) (resp_headers resp) body.

Definition is_json (resp : response) : bool :=
  match content_type resp with
  | Some ct => bool_decide (is_Some (strip_prefix "application/json" ct))
  | None => false
  end.

Definition masking_failed : response :=
  Response 500 None [] "response masking failed: body did not match the authorized subject type".

(** [None] is a panic of the engine. *)
Definition mask_response (ab : ability) (a : action) (s : ty) (resp : response) : option response :=
  if negb (is_success (status resp)) then Some resp
  else if negb (is_json resp) then Some resp
  else
    match into_bytes (resp_body resp) with
    | None => Some (set_body "" resp)
    | Some bytes =>
        let finish masked :=
          match masked ≫= to_vec with
          | Some out => set_body out resp
          | None => masking_failed
          end in
        match first_nonblank bytes with
        | Some c =>
            if Ascii.eqb c open_bracket then
              match parse_models s bytes with
              | Some models => js ← mask_many ab a s models; Some (finish (Some (JArray js)))
              | None => Some (finish None)
              end
            else if Ascii.eqb c open_brace then
              match parse_model s bytes with
              | Some m => j ← mask ab a s m; Some (finish (Some j))
              | None => Some (finish None)
              end
            else Some (set_body bytes resp)
        | None => Some (set_body bytes resp)
        end
    end.

(** [Authorize] as the shaper of a route. *)
Definition authorize_shaper (a : action) (s : ty) : shaper X W (ambient T) :=
  {| captured := option ability;
     capture req := ext_get req;
     run_shaped c inner env w :=
       match c with
       | Some ab =>
           let '(out, w1) := under_ability ab (fun env => inner env w) env in
           match out with
           | Ok resp =>
               match mask_response ab a s resp with
               | Some masked => (Ok masked, w1)
               | None => (Err panicked, w1)
               end
           | Err err => (Err err, w1)
           end
       | None => inner env w
       end |}.

(** The wrapper of a handler that takes the gate as a parameter: the extractor runs first. *)
Definition gated (a : action) (s : ty) (body : endpoint X W (ambient T)) : endpoint X W (ambient T) :=
  fun env req w =>
    match authorize_from_request a s req with
    | Ok _ => body env req w
    | Err err => (Err err, w)
    end.

End enforcement.

(** ** What the client can see *)

Section masking.
Context `{Orm} `{!Serde}.
Implicit Types (specs : list rule_spec) (m : model).

(** A value that discloses of [m] exactly what the rules permit. *)
Definition discloses specs (a : action) (s : ty) (m : model) (j : json) : Prop :=
  match default JNull (to_value m) with
  | JObject members => exists kept, j = JObject kept /\ kept `sublist_of` members /\
      forall kv, kv ∈ kept <-> kv ∈ members /\ field_permitted specs a s m kv.1
  | other => j = other
  end.

Lemma mask_discloses specs (a : action) (s : ty) m j :
  mask (define specs) a s m = Some j -> discloses specs a s m j.
Proof.
  intros Hj. destruct (mask_define specs a s m) as (j' & Hj' & Hd). rewrite Hj in Hj'. injection Hj' as <-.
  exact Hd.
Qed.

(** A row of which no rule grants anything discloses nothing. *)
Lemma discloses_nothing specs (a : action) (s : ty) m j members : discloses specs a s m j ->
  default JNull (to_value m) = JObject members ->
  ~ (exists r, relevant specs a s r /\ rs_inverted r = false /\ matches (rs_predicate r) m = true) -> j = JObject [].
Proof.
  unfold discloses. intros Hd Em Hno. rewrite Em in Hd. destruct Hd as (kept & -> & _ & Hk). f_equal.
  destruct kept as [|kv kept]; [done|]. exfalso.
  destruct (proj1 (Hk kv) ltac:(left)) as [_ (r & Hr & Hinv & Hm & _)]. apply Hno. by exists r.
Qed.

(** The values a mask lets out of a collection, with their models. *)
Lemma mask_many_discloses specs (a : action) (s : ty) (models : list model) js :
  mask_many (define specs) a s models = Some js ->
  Forall2 (fun m j => discloses specs a s m j)
    (filter (fun m => can (define specs) a s m = Some true) models) js.
Proof.
  intros Hjs. destruct (mask_many_define specs a s models) as (js' & Hjs' & Hf).
  rewrite Hjs in Hjs'. injection Hjs' as <-. clear Hjs. revert js Hf.
  induction (filter _ models) as [|m l IH]; intros [|j js] Hf; simpl in Hf; try done.
  injection Hf as Hj Hf. constructor; [by apply mask_discloses|by apply IH].
Qed.

(** The answer that carries the value [j], or the fixed 500 where it has no serialization. *)
Definition answers (resp : response) (j : json) (out : response) : Prop :=
  out = match to_vec j with Some body => set_body body resp | None => masking_failed end.

(** [C11] Masking fails closed: when the handler of a masked route answers a JSON body that starts
    like an object or an array, what the client gets is the fixed 500 answer exactly where the body does
    not read as the subject type, or the result has no serialization, and otherwise the
    serialization of values that disclose exactly the permitted fields: of the models of the array
    that the caller may act on, in their order, and of no other; of the one model of the object, whose
    row is not checked here — the handler of a by-id route does —, so that it is the empty object when
    no rule grants anything on it, and shows what a matching grant permits even where a denial matches
    as well.  Nothing panics. *)
Theorem masked_response_discloses_permitted_fields specs (a : action) (s : ty) (resp : response) bytes c :
  is_success (status resp) = true -> is_json resp = true -> into_bytes (resp_body resp) = Some bytes ->
  first_nonblank bytes = Some c -> c = open_bracket \/ c = open_brace ->
  exists out, mask_response (define specs) a s resp = Some out /\
    if decide (c = open_bracket) then
      match parse_models s bytes with
      | None => out = masking_failed
      | Some models => exists js, answers resp (JArray js) out /\
          Forall2 (discloses specs a s) (filter (fun m => can (define specs) a s m = Some true) models) js
      end
    else
      match parse_model s bytes with
      | None => out = masking_failed
      | Some m => exists j, answers resp j out /\ discloses specs a s m j /\
          forall members, default JNull (to_value m) = JObject members ->
            ~ (exists r, relevant specs a s r /\ rs_inverted r = false /\ matches (rs_predicate r) m = true) ->
            j = JObject []
      end.
Proof.
  intros Hs Hj Hb Hc Hor. unfold mask_response. rewrite Hs, Hj, Hb, Hc. simpl.
  destruct Hor as [->| ->]; simpl.
  - destruct (parse_models s bytes) as [models|] eqn:Ep; [|by eexists].
    destruct (mask_many_define specs a s models) as (js & Hjs & _). rewrite Hjs. simpl.
    eexists. split; [done|]. exists js. split; [done|]. by apply mask_many_discloses.
  - destruct (parse_model s bytes) as [m|] eqn:Ep; [|by eexists].
    destruct (mask_define specs a s m) as (j & Hm & _). rewrite Hm. simpl.
    eexists. split; [done|]. exists j. split; [done|].
    pose proof (mask_discloses _ _ _ _ _ Hm) as Hd. split; [done|]. intros members. by apply discloses_nothing.
Qed.

Lemma mask_response_define specs (a : action) (s : ty) (resp : response) :
  is_Some (mask_response (define specs) a s resp).
Proof.
  unfold mask_response. repeat (case_match; eauto); simplify_eq.
  - destruct (mask_many_define specs a s l) as (js & -> & _). simpl. eauto.
  - destruct (mask_define specs a s m) as (j & -> & _). simpl. eauto.
Qed.

End masking.

(** ** Whole routes *)

Section routes.
Context {X W T : Type} `{Orm} `{!Serde} `{!Extension X ability} {Actor : Type} `{!Extension X Actor}.
Implicit Types (req : request X) (w : W) (env : ambient T).

Lemma ext_get_insert {A} `{!Extension X A} (x : A) req : ext_get (ext_insert x req) = Some x.
Proof. unfold ext_get, ext_insert. simpl. rewrite lookup_insert_eq. apply recover_erase. Qed.

(** The layers a feature writes: an authentication guard, the ability guard, and a handler that
    takes the gate. *)
Definition authorized_route (lp : layer_providers X W (ambient T)) (authn abil : ty) (a : action) (s : ty)
    (body : endpoint X W (ambient T)) : option (endpoint X W (ambient T)) :=
  guarded_handler lp (gated a s body) [authn; abil] [] [] (Some (authorize_shaper a s)) [].

(** [C4] A protected route, end to end: a caller the authentication refuses gets that refusal and
    nothing runs; a caller none of whose rules grants the action on the subject gets 403 and the
    handler does not run; any other caller's handler runs with the caller's own ability ambient,
    and its answer is masked by that ability. *)
Theorem authorized_route_end_to_end (lp : layer_providers X W (ambient T)) (authn abil : ty)
    (auth : guard X W (ambient T)) (define_actor : Actor -> list rule_spec) (a : action) (s : ty)
    (body : endpoint X W (ambient T)) :
  get_guard lp authn = Some auth -> get_guard lp abil = Some (ability_guard define_actor) ->
  exists ep, authorized_route lp authn abil a s body = Some ep /\ forall env req w,
    match auth env req w with
    | (Err denial, _, w1) => ep env req w = (Ok denial, w1)
    | (Ok _, req1, w1) =>
        match ext_get (A:=Actor) req1 with
        | None => exists resp, ep env req w = (Ok resp, w1) /\ status resp = 500%Z
        | Some actor =>
            let specs := define_actor actor in
            (~ (exists r, relevant specs a s r /\ rs_inverted r = false) ->
               ep env req w = (Err (error_from_string "forbidden" 403), w1)) /\
            ((exists r, relevant specs a s r /\ rs_inverted r = false) ->
               let env1 := Ambient (amb_executor env) (Some (define specs)) in
               match body env1 (ext_insert (define specs) req1) w1 with
               | (Err err, w2) => ep env req w = (Err err, w2)
               | (Ok resp, w2) => exists masked, mask_response (define specs) a s resp = Some masked /\
                                    ep env req w = (Ok masked, w2)
               end)
        end
    end.
Proof.
  intros Ha Hb. unfold authorized_route.
  destruct (guarded_handler_layered lp (gated a s body) [authn; abil] [] [] (Some (authorize_shaper a s)) []
    [auth; ability_guard define_actor] [] []) as (ep & -> & Hep); [simpl; by rewrite Ha, Hb|done|done|].
  exists ep. split; [done|]. intros env req w. rewrite Hep. unfold layered. cbn [run_guards with_metas foldr].
  destruct (auth env req w) as [[[u|denial] req1] w1]; [|done].
  unfold ability_guard. destruct (ext_get (A:=Actor) req1) as [actor|]; [|by eexists]. simpl.
  unfold shaped. simpl. rewrite ext_get_insert. unfold under_ability, with_ability, gated, authorize_from_request.
  rewrite ext_get_insert. simpl.
  split; intros Hr.
  - assert (can_class (define (define_actor actor)) a s = false) as ->; [|done].
    apply not_true_iff_false. by rewrite can_class_define.
  - rewrite (proj2 (can_class_define _ _ _) Hr). simpl.
    destruct (body _ _ w1) as [[resp|err] w2]; [|done].
    destruct (mask_response_define (define_actor actor) a s resp) as [masked Hm].
    rewrite Hm. by exists masked.
Qed.

End routes.

Section binding.
Context {X W T : Type} `{SqlSemantics} `{!Queries W T} `{!QuerySemantics W T} `{!Extension X ability}
  `{!Extension X (scope_handle (W:=W) (T:=T))}.
Context (path_id : request X -> result Z http_error) (uuid_version : Z -> Z) (db_err_text : db_err -> string).

(** The service that inherits the default [access] of its entity. *)
Definition default_service (e : ty) : crud_service (W:=W) (T:=T) := CrudService (access e).

(** Route-model binding hands the handler a row only when the path names it by a UUID v7 and the
    caller's ability grants the action on it; a row that exists and is denied is a 403, an id
    with no row a 404, an id of another version a 400, and nothing panics. *)
Lemma bind_hands_out_granted_rows (e : ty) (a : action) ex (ab0 : option ability) specs
    (req : request X) (w : W) id scope w1 :
  path_id req = Ok id -> ext_get req = Some (define specs) -> ext_get req = Some scope ->
  scope_get_service scope e w = (Some (default_service e), w1) ->
  let '(r, w2) := bind_from_request path_id uuid_version db_err_text e a (Ambient (Some ex) ab0) req w in
  match r with
  | Ok m => uuid_version id = 7%Z /\ m ∈ rows ex e w1 /\ row_id e m = id /\ can (define specs) a e m = Some true
  | Err err =>
      (uuid_version id <> 7%Z /\ status (into_response err) = 400%Z /\ w2 = w) \/
      (uuid_version id = 7%Z /\
        ((status (into_response err) = 403%Z /\
           exists m, m ∈ rows ex e w1 /\ row_id e m = id /\ can (define specs) a e m = Some false) \/
         (status (into_response err) = 404%Z /\ forall m, m ∈ rows ex e w1 -> row_id e m <> id) \/
         (status (into_response err) = 500%Z /\
           exists dberr, access e a id (request_env ex specs) w1 = Some (Err dberr, w2))))
  end.
Proof.
  intros Hp Hab Hsc Hsv. unfold bind_from_request. rewrite Hp.
  destruct (Z.eqb_spec (uuid_version id) 7) as [E7|N7]; simpl; [|by left].
  rewrite Hab, Hsc, Hsv. unfold under_ability, with_ability. simpl.
  fold (request_env (T:=T) ex specs).
  destruct (access_spec ex specs e a id w1) as (r & w2 & Hacc & _ & Ho). rewrite Hacc.
  destruct r as [[m| |]|err].
  - destruct (Ho _ eq_refl) as (Hin & Hid & Hc). done.
  - right. split; [done|]. left. split; [done|]. exact (Ho _ eq_refl).
  - right. split; [done|]. right. left. split; [done|]. exact (Ho _ eq_refl).
  - right. split; [done|]. right. right. split; [done|]. by exists err.
Qed.

End binding.

(** ** A concrete application *)

Module AuthzHttpDemo.
Import AuthzDemo OrmDemo.

(** What the demo's requests carry. *)
Inductive ext :=
| XAbility (ab : ability)
| XActor (org : Z)
| XScope (s : scope_handle (W:=world) (T:=unit)).

#[export] Instance ability_ext : Extension ext ability.
Proof.
  refine {| ext_key := TArc (TNamed "Ability"); erase := XAbility;
            recover x := match x with XAbility ab => Some ab | _ => None end |}. done.
Defined.

#[export] Instance actor_ext : Extension ext Z.
Proof.
  refine {| ext_key := TNamed "Actor"; erase := XActor;
            recover x := match x with XActor o => Some o | _ => None end |}. done.
Defined.

#[export] Instance scope_ext : Extension ext (scope_handle (W:=world) (T:=unit)).
Proof.
  refine {| ext_key := TArc (TNamed "RequestScope"); erase := XScope;
            recover x := match x with XScope s => Some s | _ => None end |}. done.
Defined.

(** Bodies are recognised, not parsed: two stand for the rows of the demo. *)
Definition other : row := [("id", Some 8%Z); ("name", Some 4%Z); ("org", Some 2%Z); ("banned", Some 0%Z)].

Definition render_member (kv : string * json) : string :=
  kv.1 +:+ "=" +:+ match kv.2 with JNumber z => show_u64 z | _ => "null" end +:+ ";".

Definition render (j : json) : string :=
  match j with JObject members => "{" +:+ String.concat "" (map render_member members) +:+ "}" | _ => "null" end.

#[export] Instance demo_serde : Serde := {
  parse_model _ body := if String.eqb body "{ada}" then Some ada else None;
  parse_models _ body := if String.eqb body " [ada,other]" then Some [ada; other] else None;
  to_vec j := Some (match j with JArray js => "[" +:+ String.concat "," (map render js) +:+ "]" | _ => render j end);
  into_bytes b := Some b
}.

Definition json_answer (body : string) : response := Response 200 (Some "application/json; charset=utf-8") [] body.

(** Of two rows the caller gets the one it may read, without the columns it may not. *)
Lemma masked_response_discloses_permitted_fields_witness :
  (exists out, mask_response (define specs) Read users (json_answer " [ada,other]") = Some out /\
    exists js, answers (json_answer " [ada,other]") (JArray js) out /\
      Forall2 (discloses specs Read users) (filter (fun m => can (define specs) Read users m = Some true) [ada; other]) js) /\
  (resp_body <$> mask_response (define specs) Read users (json_answer " [ada,other]")) = Some "[{id=7;name=3;}]" /\
  mask_response (define specs) Read users (json_answer "{not a user}") = Some masking_failed.
Proof.
  split; [|split; by vm_compute].
  exact (masked_response_discloses_permitted_fields specs Read users (json_answer " [ada,other]")
           " [ada,other]" open_bracket eq_refl eq_refl eq_refl eq_refl (or_introl eq_refl)).
Defined.

(** A row that a denial takes from the caller: left out of an array, masked like any other as an object. *)
Example denied_object_is_only_masked :
  let denying := specs ++ [spec_cannot Read users] in
  can (define denying) Read users ada = Some false /\
  (resp_body <$> mask_response (define denying) Read users (json_answer " [ada,other]")) = Some "[]" /\
  (resp_body <$> mask_response (define denying) Read users (json_answer "{ada}")) = Some "{id=7;name=3;}".
Proof. split_and!; by vm_compute. Qed.

(** An actor with a path, reading users of its organisation. *)
Definition actor_rules (org : Z) : list rule_spec :=
  if Z.eqb org 0 then [] else [spec_when (PEq "org" (Some org)) (spec_can Read users)].

Definition header_auth : guard ext world (ambient unit) := fun _ req w =>
  match List.find (fun kv : string * string => String.eqb kv.1 "x-org") (rq_headers req) with
  | Some kv => (Ok tt, ext_insert (default 0%Z (parse_u64 kv.2)) req, w)
  | None => (Err (Response 401 None [] ""), req, w)
  end.

Definition authn : ty := TNamed "AuthGuard".
Definition abil : ty := TNamed "AppAbilityGuard".

Definition lp : layer_providers ext world (ambient unit) := {|
  get_guard t := if decide (t = authn) then Some header_auth
                 else if decide (t = abil) then Some (ability_guard actor_rules) else None;
  get_filter _ := None;
  get_interceptor _ := None |}.

Definition fetch : endpoint ext world (ambient unit) := fun _ _ w => (Ok (json_answer "{ada}"), w).

Definition get_with (headers : list (string * string)) : request ext := Request GET "/users/7" headers [] "" ∅.

Lemma authorized_route_end_to_end_witness :
  exists ep, authorized_route lp authn abil Read users fetch = Some ep /\
    (forall w, ep no_ambient (get_with []) w = (Ok (Response 401 None [] ""), w)) /\
    (forall w, ep no_ambient (get_with [("x-org", "0")]) w = (Err (error_from_string "forbidden" 403), w)).
Proof.
  destruct (authorized_route_end_to_end lp authn abil header_auth actor_rules Read users fetch
    eq_refl eq_refl) as (ep & Hep & Hrun).
  exists ep. split; [exact Hep|]. split; intros w.
  - exact (Hrun no_ambient (get_with []) w).
  - pose proof (Hrun no_ambient (get_with [("x-org", "0")]) w) as Hr. vm_compute in Hr.
    refine (proj1 Hr _). intros (r & [Hin _] & _). by apply elem_of_nil in Hin.
Defined.

Definition by_id (req : request ext) : result Z http_error :=
  match List.find (fun kv : string * string => String.eqb kv.1 "id") (rq_params req) with
  | Some kv => match parse_u64 kv.2 with Some id => Ok id | None => Err (error_from_status 400) end
  | None => Err (error_from_status 404)
  end.

Definition scope : scope_handle (W:=world) (T:=unit) := ScopeHandle (fun e w => (Some (default_service e), w)).

Definition bound (id : string) : request ext :=
  ext_insert (define specs) (ext_insert scope (Request GET "/users/:id" [] [("id", id)] "" ∅)).

Lemma bind_hands_out_granted_rows_witness :
  (result_map (demo_id users) (bind_from_request by_id (fun _ => 7%Z) (fun _ => "db") users Read
     (Ambient (Some Pool) None) (bound "1") start).1 = Ok 1%Z) /\
  (exists m, m ∈ rows Pool users start /\ row_id users m = 2%Z /\ can (define specs) Read users m = Some false).
Proof.
  split; [by vm_compute|].
  pose proof (bind_hands_out_granted_rows by_id (fun _ => 7%Z) (fun _ => "db") users Read Pool None specs
    (bound "2") start 2%Z scope start eq_refl eq_refl eq_refl eq_refl) as Hb.
  assert (E : bind_from_request by_id (fun _ => 7%Z) (fun _ => "db") users Read (Ambient (Some Pool) None) (bound "2") start
              = (Err (error_from_status 403), start)) by (by vm_compute).
  rewrite E in Hb. destruct Hb as [(? & Hs & _)|(_ & [[_ Hm]|[[Hs _]|[Hs _]]])]; [done|exact Hm|done|done].
Defined.

End AuthzHttpDemo.
