(* ===== verification/Crud.v ===== *)
(** Generated REST controllers: the handlers that [#[crud]] synthesises
    ([nestrs-http-macros/src/crud.rs]) over the service of an entity, and the validation pipe their
    bodies go through ([nestrs-pipes/src/validation.rs], [pipe.rs], [nestrs-http/src/pipe.rs]).

    Each method is behind the class gate of its action, as [AuthzHttp.gated] renders it, and the route
    [#[routes]] makes of it has the gate's response mask around it ([generated_route]); poem's JSON and
    path extraction and the emitted DTO conversions are parameters. *)

From S2P Require Import Prelude Container Authz Http Orm AuthzHttp.

(** ** Pipes *)

Record pipe_error := PipeError { pe_message : string; pe_details : option json }.

Definition pipe_error_new (message : string) : pipe_error := PipeError message None.
Definition pipe_error_with_details (message : string) (details : json) : pipe_error := PipeError message (Some details).

(** [ValidationPipe::transform]; the errors of [validator] are given serialized, if they can be. *)
Definition validation_pipe {A} (validate : A -> result unit (option json)) (input : A) : result A pipe_error :=
  match validate input with
  | Ok _ => Ok input
  | Err errors => Err (pipe_error_with_details "validation failed" (default JNull errors))
  end.

(** [ParseUuid] and [ParseUuidVersion]: a UUID is its 128-bit number. *)
Definition parse_uuid_pipe (parse : string -> option Z) (input : string) : result Z pipe_error :=
  ok_or (parse input) (pipe_error_new "must be a valid UUID").

Definition parse_uuid_version (parse : string -> option Z) (rfc4122 : Z -> bool) (version_of : Z -> Z)
    (version : Z) (input : string) : result Z pipe_error :=
  let? uuid := parse_uuid_pipe parse input in
  if negb (rfc4122 uuid) then Err (pipe_error_new "must be an RFC 4122 UUID")
  else if negb (version_of uuid =? version)%Z then
    Err (pipe_error_new ("must be a UUID v" +:+ show_u64 version))
  else Ok uuid.

(** [ParseArray]: a comma-separated list, items trimmed. *)
Definition comma : Ascii.ascii := Ascii.ascii_of_N 44.

Definition parse_array {A} (from_str : string -> option A) (input : string) : result (list A) pipe_error :=
  if String.eqb (trim input) "" then Ok []
  else collect_results (fun item =>
         ok_or (from_str (trim item)) (pipe_error_new ("contains an invalid item: `" +:+ trim item +:+ "`")))
         (split comma input).

Definition trim_pipe (input : string) : result string pipe_error := Ok (trim input).

(** [reject]: the JSON of a 400. *)
Definition reject_body (err : pipe_error) : json :=
  JObject ([("statusCode", JNumber 400); ("error", JString "Bad Request"); ("message", JString (pe_message err))] ++
           match pe_details err with Some d => [("details", d)] | None => [] end).

Definition reject `{Serde} (err : pipe_error) : http_error :=
  HttpError (Response 400 (Some "application/json") [] (default "" (to_vec (reject_body err)))).

(** ** The generated handlers *)

(** What the macro and poem supply: extraction of the path id and of a JSON body, the validators of
    the inputs, the emitted DTO, and how poem answers a JSON value. *)
Class CrudParts (X W T : Type) `{Orm} `{!Queries W T} := {
  extract_id : request X -> result Z http_error;
  uuid_version : Z -> Z;
  extract_create : request X -> result create_input http_error;
  extract_update : request X -> result update_input http_error;
  extract_page : request X -> result page_params http_error;
  validate_create : create_input -> result unit (option json);
  validate_update : update_input -> result unit (option json);
  output : model -> json;
  answer_json : json -> response;
  show_uuid : Z -> string;
  db_err_string : db_err -> string
}.

Section crud.
Context {X W T : Type} `{Orm} `{!Serde} `{!Queries W T} `{!CrudParts X W T} `{!Extension X ability}.
Context (e : ty).

Definition internal (err : db_err) : http_error := error_from_string (db_err_string err) 500.

(** [Valid<Json<..>>] *)
Definition valid_from_request {A} (extract : request X -> result A http_error)
    (validate : A -> result unit (option json)) (req : request X) : result A http_error :=
  let? value := extract req in map_err reject (validation_pipe validate value).

Definition id_v7_check (id : Z) : result unit http_error :=
  if negb (uuid_version id =? 7)%Z then Err (error_from_string "path id must be a UUID v7" 400) else Ok tt.

(** The match on [access]; [None] is a panic of the instance check. *)
Definition with_access (a : action) (id : Z) (env : ambient T) (w : W)
    (found : model -> W -> result response http_error * W) : result response http_error * W :=
  match access e a id env w with
  | None => (Err panicked, w)
  | Some (Err err, w1) => (Err (internal err), w1)
  | Some (Ok (Found m), w1) => found m w1
  | Some (Ok Denied, w1) => (Err (error_from_status 403), w1)
  | Some (Ok Missing, w1) => (Err (error_from_status 404), w1)
  end.

Definition list_handler : endpoint X W (ambient T) := gated Read e (fun env _ w =>
  let '(r, w1) := service_list e env w in
  match r with
  | Err err => (Err (internal err), w1)
  | Ok rows => (Ok (answer_json (JArray (map output rows))), w1)
  end).

(** [paginate = cursor]: the next cursor travels in a header. *)
Definition add_header (k v : string) (resp : response) : response :=
  Response (status resp) (content_type resp) (resp_headers resp ++ [(k, v)]) (resp_body resp).

Definition list_cursor_handler : endpoint X W (ambient T) := gated Read e (fun env req w =>
  match extract_page req with
  | Err err => (Err err, w)
  | Ok params =>
      let '(r, w1) := service_page e (page_limit params) (after_uuid params) env w in
      match r with
      | Err err => (Err (internal err), w1)
      | Ok p =>
          let resp := answer_json (JArray (map output (page_items p))) in
          (Ok (match next_cursor p with
               | Some cursor => add_header "x-next-cursor" (show_uuid cursor) resp
               | None => resp
               end), w1)
      end
  end).

Definition get_handler : endpoint X W (ambient T) := gated Read e (fun env req w =>
  match extract_id req with
  | Err err => (Err err, w)
  | Ok id =>
      match id_v7_check id with
      | Err err => (Err err, w)
      | Ok _ => with_access Read id env w (fun m w1 => (Ok (answer_json (output m)), w1))
      end
  end).

Definition create_handler : endpoint X W (ambient T) := gated Create e (fun env req w =>
  match valid_from_request extract_create validate_create req with
  | Err err => (Err err, w)
  | Ok input =>
      let '(r, w1) := service_create e input env w in
      match r with
      | Err err => (Err (internal err), w1)
      | Ok row => (Ok (answer_json (output row)), w1)
      end
  end).

Definition update_handler : endpoint X W (ambient T) := gated Update e (fun env req w =>
  match extract_id req with
  | Err err => (Err err, w)
  | Ok id =>
      match valid_from_request extract_update validate_update req with
      | Err err => (Err err, w)
      | Ok input =>
          match id_v7_check id with
          | Err err => (Err err, w)
          | Ok _ => with_access Update id env w (fun m w1 =>
              let '(r, w2) := service_update e m input env w1 in
              match r with
              | Err err => (Err (internal err), w2)
              | Ok row => (Ok (answer_json (output row)), w2)
              end)
          end
      end
  end).

Definition delete_handler : endpoint X W (ambient T) := gated Delete e (fun env req w =>
  match extract_id req with
  | Err err => (Err err, w)
  | Ok id =>
      match id_v7_check id with
      | Err err => (Err err, w)
      | Ok _ => with_access Delete id env w (fun m w1 =>
          let '(r, w2) := service_delete e m env w1 in
          match r with
          | Err err => (Err (internal err), w2)
          | Ok _ => (Ok (Response 204 None [] ""), w2)
          end)
      end
  end).

(** The routes: the block is re-emitted under [#[routes]], which finds the [Authorize] among the parameters
    of each method and makes it the shaper of the route. *)
Definition generated_route (a : action) (h : endpoint X W (ambient T)) : endpoint X W (ambient T) :=
  shaped (authorize_shaper a e) h.

Definition crud_list : endpoint X W (ambient T) := generated_route Read list_handler.
Definition crud_list_cursor : endpoint X W (ambient T) := generated_route Read list_cursor_handler.
Definition crud_get : endpoint X W (ambient T) := generated_route Read get_handler.
Definition crud_create : endpoint X W (ambient T) := generated_route Create create_handler.
Definition crud_update : endpoint X W (ambient T) := generated_route Update update_handler.
Definition crud_delete : endpoint X W (ambient T) := generated_route Delete delete_handler.

(** The operations the macro generates: those it does not find written by hand. *)
Record crud_args := CrudArgs { cr_readonly : bool; cr_create : bool; cr_update : bool }.

Definition generated (cfg : crud_args) (existing : list string) : list string :=
  let missing := fun name => bool_decide (name ∉ existing) in
  (if missing "list" then ["list"] else []) ++
  (if missing "get" then ["get"] else []) ++
  (if cr_readonly cfg then []
   else (if cr_create cfg && missing "create" then ["create"] else []) ++
        (if cr_update cfg && missing "update" then ["update"] else []) ++
        (if missing "delete" then ["delete"] else [])).

End crud.

(** ** What the generated routes do *)

Section crud_properties.
Context {X W T : Type} `{SqlSemantics} `{!Serde} `{!Queries W T} `{!QuerySemantics W T} `{!CrudParts X W T}
  `{!Extension X ability}.
Implicit Types (specs : list rule_spec) (ex : executor T) (req : request X) (w : W) (e : ty).

Lemma gated_cases (a : action) (s : ty) (body : endpoint X W (ambient T)) env req w ab :
  ext_get req = Some ab ->
  gated a s body env req w = if can_class ab a s then body env req w else (Err (error_from_string "forbidden" 403), w).
Proof.
  intros Hab. unfold gated, authorize_from_request. rewrite Hab. simpl. by destruct (can_class ab a s).
Qed.

(** The by-id match, whatever is done with a row that is found. *)
Lemma with_access_cases ex specs e (a : action) id w found :
  let '(out, w') := with_access (W:=W) e a id (request_env ex specs) w found in
  (exists m w1, m ∈ rows ex e w /\ row_id e m = id /\ can (define specs) a e m = Some true /\
     (forall e', rows ex e' w1 = rows ex e' w) /\ (out, w') = found m w1) \/
  (exists err, out = Err err /\ (forall e', rows ex e' w' = rows ex e' w) /\
     (status (into_response err) = 500%Z \/
      (status (into_response err) = 403%Z /\ exists m, m ∈ rows ex e w /\ row_id e m = id /\ can (define specs) a e m = Some false) \/
      (status (into_response err) = 404%Z /\ forall m, m ∈ rows ex e w -> row_id e m <> id))).
Proof.
  unfold with_access. destruct (access_spec ex specs e a id w) as (r & w1 & -> & Hr & Ho).
  destruct r as [[m| |]|err].
  - destruct (Ho _ eq_refl) as (Hin & Hid & Hc). destruct (found m w1) as [out w'] eqn:Ef. left.
    exists m, w1. by rewrite Ef.
  - right. eexists. split; [done|]. split; [done|]. right. left. split; [done|]. exact (Ho _ eq_refl).
  - right. eexists. split; [done|]. split; [done|]. right. right. split; [done|]. exact (Ho _ eq_refl).
  - right. eexists. split; [done|]. split; [done|]. by left.
Qed.

(** A route runs its method with the caller's ability ambient, and masks what it answers. *)
Lemma generated_route_run ex specs e (a : action) (h : endpoint X W (ambient T)) req w :
  ext_get req = Some (define specs) ->
  let '(out, w1) := h (request_env ex specs) req w in
  match out with
  | Ok resp => exists masked, mask_response (define specs) a e resp = Some masked /\
      generated_route e a h (request_env ex specs) req w = (Ok masked, w1)
  | Err err => generated_route e a h (request_env ex specs) req w = (Err err, w1)
  end.
Proof.
  intros Hab. unfold generated_route, shaped. cbn [authorize_shaper capture run_shaped]. rewrite Hab.
  unfold under_ability, with_ability. change (Ambient _ _) with (request_env (T:=T) ex specs).
  destruct (h (request_env ex specs) req w) as [[resp|err] w1]; [|done].
  destruct (mask_response_define specs a e resp) as [masked Hm]. exists masked. by rewrite Hm.
Qed.

(** The generated by-id routes with their actions. *)
Definition by_id_handlers e : list (action * endpoint X W (ambient T)) :=
  [(Read, crud_get e); (Update, crud_update e); (Delete, crud_delete e)].

Lemma id_v7_check_ok id : id_v7_check id = Ok tt -> uuid_version id = 7%Z.
Proof. unfold id_v7_check. by destruct (Z.eqb_spec (uuid_version id) 7). Qed.

(** A gated route around a body that answers for granted rows only. *)
Lemma gated_outcome ex specs e req w a (body : endpoint X W (ambient T)) :
  ext_get req = Some (define specs) ->
  (let '(out, w') := body (request_env ex specs) req w in
   match out with
   | Ok _ => exists id m, extract_id req = Ok id /\ uuid_version id = 7%Z /\
               m ∈ rows ex e w /\ row_id e m = id /\ can (define specs) a e m = Some true
   | Err _ => forall e', rows ex e' w' = rows ex e' w
   end) ->
  let '(out, w') := generated_route e a (gated a e body) (request_env ex specs) req w in
  match out with
  | Ok _ => (exists r, relevant specs a e r /\ rs_inverted r = false) /\
      exists id m, extract_id req = Ok id /\ uuid_version id = 7%Z /\
        m ∈ rows ex e w /\ row_id e m = id /\ can (define specs) a e m = Some true
  | Err err => (forall e', rows ex e' w' = rows ex e' w) /\
      (~ (exists r, relevant specs a e r /\ rs_inverted r = false) ->
         w' = w /\ status (into_response err) = 403%Z)
  end.
Proof.
  intros Hab Hbody. pose proof (generated_route_run ex specs e a (gated a e body) req w Hab) as Hroute.
  rewrite (gated_cases a e body _ req w _ Hab) in Hroute.
  pose proof (can_class_define specs a e) as Hc. destruct (can_class (define specs) a e) eqn:Ec; [|by rewrite Hroute].
  destruct (body _ req w) as [[resp|err] w'].
  - destruct Hroute as (masked & _ & ->). split; [by apply Hc|done].
  - rewrite Hroute. split; [done|]. intros Hn. destruct Hn. by apply Hc.
Qed.

(** [C14] The generated by-id routes act on granted rows only: an answer, masked as it may be, means the path
    named, by a UUID v7, a row the caller is granted that action on; a refusal of any kind leaves every table
    as it was. A caller no rule of whom grants the action on the entity is refused without a query. *)
Theorem crud_by_id_routes_need_a_grant ex specs e req w :
  ext_get req = Some (define specs) ->
  Forall (fun ah : action * endpoint X W (ambient T) =>
    let '(out, w') := ah.2 (request_env ex specs) req w in
    match out with
    | Ok _ => (exists r, relevant specs ah.1 e r /\ rs_inverted r = false) /\
        exists id m, extract_id req = Ok id /\ uuid_version id = 7%Z /\
          m ∈ rows ex e w /\ row_id e m = id /\ can (define specs) ah.1 e m = Some true
    | Err err => (forall e', rows ex e' w' = rows ex e' w) /\
        (~ (exists r, relevant specs ah.1 e r /\ rs_inverted r = false) ->
           w' = w /\ status (into_response err) = 403%Z)
    end) (by_id_handlers e).
Proof.
  intros Hab. repeat constructor; (apply gated_outcome; [exact Hab|]).
  - destruct (extract_id req) as [id|err]; [|done]. destruct (id_v7_check id) as [[]|err] eqn:E7; [|done].
    pose proof (with_access_cases ex specs e Read id w (fun m w1 => (Ok (answer_json (output m)), w1))) as Ha.
    destruct (with_access _ _ _ _ _ _) as [out w']. destruct Ha as [(m & w1 & Hin & Hid & Hc & Hr & [= -> ->])|(err & -> & Hr & _)]; [|done].
    exists id, m. by rewrite (id_v7_check_ok id E7).
  - destruct (extract_id req) as [id|err]; [|done]. destruct (valid_from_request _ _ req) as [input|err]; [|done].
    destruct (id_v7_check id) as [[]|err] eqn:E7; [|done].
    match goal with |- context [with_access e Update id _ w ?f] =>
      pose proof (with_access_cases ex specs e Update id w f) as Ha end.
    destruct (with_access _ _ _ _ _ _) as [out w']. destruct Ha as [(m & w1 & Hin & Hid & Hc & Hr & Ef)|(err & -> & Hr & _)]; [|done].
    pose proof (service_update_gated ex specs e m input w1) as Hu.
    destruct (service_update e m input _ w1) as [[row|err] w2]; injection Ef as -> ->.
    + exists id, m. by rewrite (id_v7_check_ok id E7).
    + intros e'. by rewrite Hu.
  - destruct (extract_id req) as [id|err]; [|done]. destruct (id_v7_check id) as [[]|err] eqn:E7; [|done].
    match goal with |- context [with_access e Delete id _ w ?f] =>
      pose proof (with_access_cases ex specs e Delete id w f) as Ha end.
    destruct (with_access _ _ _ _ _ _) as [out w']. destruct Ha as [(m & w1 & Hin & Hid & Hc & Hr & Ef)|(err & -> & Hr & _)]; [|done].
    pose proof (service_delete_gated ex specs e m w1) as Hu.
    destruct (service_delete e m _ w1) as [[row|err] w2]; injection Ef as -> ->.
    + exists id, m. by rewrite (id_v7_check_ok id E7).
    + intros e'. by rewrite Hu.
Qed.

(** The generated create method checks the class and nothing else: for a caller with any rule that
    grants creating on the entity, a valid input is inserted and answered as a success, whatever
    the conditions of its rules say of the row. *)
Lemma crud_create_ignores_rule_conditions ex specs e req w w1 input row :
  ext_get req = Some (define specs) ->
  (exists r, relevant specs Create e r /\ rs_inverted r = false) ->
  valid_from_request extract_create validate_create req = Ok input ->
  q_insert ex e (into_active_model input) w = (Ok row, w1) ->
  create_handler e (request_env ex specs) req w = (Ok (answer_json (output row)), w1).
Proof.
  intros Hab Hr Hv Hq. unfold create_handler. rewrite (gated_cases _ _ _ _ _ _ _ Hab).
  rewrite (proj2 (can_class_define specs Create e) Hr), Hv. unfold service_create. simpl. by rewrite Hq.
Qed.

End crud_properties.

(** ** A concrete controller *)

Module CrudDemo.
Import AuthzDemo OrmDemo AuthzHttpDemo.

Definition param (k : string) (req : request ext) : option string :=
  snd <$> List.find (fun kv : string * string => String.eqb kv.1 k) (rq_params req).

(** The body names the row by its organisation. *)
Definition body_row (req : request ext) : result row http_error :=
  match parse_u64 (rq_body req) with
  | Some org => Ok [("id", Some 9%Z); ("org", Some org)]
  | None => Err (error_from_status 400)
  end.

#[export] Instance parts : CrudParts ext world unit := {
  extract_id := by_id;
  uuid_version _ := 7%Z;
  extract_create := body_row; extract_update _ := Ok [("name", Some 5%Z)]; extract_page _ := Ok (PageParams None None);
  validate_create r := match field r "org" with Some _ => Ok tt | None => Err None end;
  validate_update _ := Ok tt;
  output m := JObject (map (fun kv : string * option Z => (kv.1, match kv.2 with Some z => JNumber z | None => JNull end)) m);
  answer_json j := json_answer (render j);
  show_uuid := show_u64;
  db_err_string _ := "database error"
}.

Definition own_rows : rule_spec := spec_when (PEq "org" (Some 1%Z)) (spec_can Manage users).
Definition rules : list rule_spec := [own_rows].

(** The controller's request for a path id and a body. *)
Definition call (id body : string) : request ext :=
  ext_insert (define rules) (Request POST "/users" [] [("id", id)] body ∅).

(** Id 2 belongs to another organisation, id 1 to the caller's own. *)
Lemma crud_by_id_routes_need_a_grant_witness :
  (let '(out, w') := crud_delete users (request_env Pool rules) (call "2" "") start in
   out = Err (error_from_status 403) /\ forall e', rows Pool e' w' = rows Pool e' start) /\
  (exists m, m ∈ rows Pool users start /\ row_id users m = 1%Z /\ can (define rules) Delete users m = Some true).
Proof.
  split.
  - pose proof (crud_by_id_routes_need_a_grant Pool rules users (call "2" "") start eq_refl) as Hf.
    rewrite Forall_forall in Hf.
    specialize (Hf (Delete, crud_delete users) ltac:(right; right; left)).
    split; [by vm_compute|]. exact (proj1 Hf).
  - pose proof (crud_by_id_routes_need_a_grant Pool rules users (call "1" "") start eq_refl) as Hf.
    rewrite Forall_forall in Hf.
    specialize (Hf (Delete, crud_delete users) ltac:(right; right; left)).
    assert (E : exists resp w', (crud_delete users (request_env Pool rules) (call "1" "") start) = (Ok resp, w'))
      by (eexists _, _; vm_compute; reflexivity).
    destruct E as (resp & w' & E). cbn [fst snd] in Hf. rewrite E in Hf.
    destruct Hf as (_ & id & m & Hid & _ & Hin & Hm & Hc). exists m. split; [done|]. split; [|done].
    vm_compute in Hid. congruence.
Defined.

(** Creating a row of organisation 2 is denied by the rules, and done. *)
Lemma crud_create_ignores_rule_conditions_witness :
  let foreign : row := [("id", Some 9%Z); ("org", Some 2%Z)] in
  can (define rules) Create users foreign = Some false /\
  exists w1, create_handler users (request_env Pool rules) (call "" "2") start =
    (Ok (answer_json (output foreign)), w1) /\ pub w1 !! 9%Z = Some foreign.
Proof.
  split; [by vm_compute|]. eexists. split.
  - refine (crud_create_ignores_rule_conditions Pool rules users (call "" "2") start _
      [("id", Some 9%Z); ("org", Some 2%Z)] _ eq_refl _ eq_refl eq_refl).
    exists own_rows. split; [split; [left|split; [done|by right]]|done].
  - by vm_compute.
Defined.

(** The mask reads a response back as the model: when the DTO leaves a column out that the model
    needs, every answer of a generated route fails closed. *)
Example partial_dto_fails_closed :
  (get_handler users (request_env Pool rules) (call "1" "") start).1 = Ok (answer_json (output (("id", Some 1%Z) :: [("org", Some 1%Z); ("banned", Some 0%Z)]))) /\
  (crud_get users (request_env Pool rules) (call "1" "") start).1 = Ok masking_failed.
Proof. split; by vm_compute. Qed.

Example validation_rejects :
  (crud_create users (request_env Pool rules) (call "" "x") start).1 = Err (error_from_status 400) /\
  generated (CrudArgs false true true) ["get"] = ["list"; "create"; "update"; "delete"].
Proof. split; by vm_compute. Qed.

End CrudDemo.
