(* ===== verification/Graphql.v ===== *)
(** The GraphQL endpoint ([nestrs-graphql/src/context.rs]) and the authorization of resolvers
    ([nestrs-authz-graphql]: [bridge.rs], [context.rs], [authorize.rs], [bind.rs]).

    async-graphql is a parameter: parsing a batch, executing it and rendering its response. *)

From S2P Require Import Prelude Container Authz Http Orm AuthzHttp.

(** ** The endpoint *)

Inductive batch_request (G : Type) :=
| Single (r : G)
| Batch (rs : list G).
Arguments Single {G} r.
Arguments Batch {G} rs.

(** async-graphql: a request with its per-request data, and the executor. *)
Class GraphqlEngine (X W Env : Type) := {
  gql_request : Type;
  batch_response : Type;
  parse_batch : request X -> result (batch_request gql_request) http_error;
  execute_batch : batch_request gql_request -> Env -> W -> batch_response * W;
  render_batch : batch_response -> response
}.

Section endpoint.
Context {X W Env : Type} `{!GraphqlEngine X W Env}.

(** [ContextSeed], over the container it was mounted with. *)
Definition context_seed : Type := request X -> gql_request -> gql_request.

(** [OperationGuard] *)
Record operation_guard := OperationGuard {
  og_before : Env -> request X -> W -> request X * W;
  og_around : request X -> (Env -> W -> response * W) -> Env -> W -> response * W
}.

Definition seed (seeds : list context_seed) (req : request X) (gql : gql_request) : gql_request :=
  foldl (fun gql s => s req gql) gql seeds.

(** *)
Definition context_endpoint (seeds : list context_seed) (op_guard : option operation_guard)
  : endpoint X W Env := fun env req w =>
  let '(req1, w1) := match op_guard with Some g => og_before g env req w | None => (req, w) end in
  match parse_batch req1 with
  | Err err => (Err err, w1)
  | Ok batch =>
      let batch := match batch with
                   | Single r => Single (seed seeds req1 r)
                   | Batch rs => Batch (map (seed seeds req1) rs)
                   end in
      let inner := fun env w => let '(out, w2) := execute_batch batch env w in (render_batch out, w2) in
      let '(resp, w2) := match op_guard with
                         | Some g => og_around g req1 inner env w1
                         | None => inner env w1
                         end in
      (Ok resp, w2)
  end.

End endpoint.

Arguments operation_guard : clear implicits.

(** ** The authorization of resolvers *)

Record gql_error := GqlError { ge_message : string; ge_code : option string }.

Definition forbidden : gql_error := GqlError "forbidden" (Some "FORBIDDEN").

Section resolvers.
Context {X W T : Type} `{Orm} `{!Extension X ability}.

(** [GraphqlAbilityBridge]: the guards of the controllers, run on the operation's request. *)
Definition ability_bridge (auth ability_guard : guard X W (ambient T)) : operation_guard X W (ambient T) :=
  {| og_before env req w :=
       let '(verdict, req1, w1) := auth env req w in
       match verdict with
       | Ok _ => let '(_, req2, w2) := ability_guard env req1 w1 in (req2, w2)
       | Err _ => (req1, w1)
       end;
     og_around req inner env w :=
       match ext_get (A:=ability) req with
       | Some ab => under_ability ab (fun env => inner env w) env
       | None => inner env w
       end |}.

(** The ability in a resolver's context. *)
Definition ctx_ability (ctx : option ability) : result ability gql_error :=
  ok_or ctx (GqlError "missing request `Ability` — is the GraphQL auth bridge installed on /graphql?" None).

Definition authorize (a : action) (s : ty) (ctx : option ability) : result unit gql_error :=
  let? ab := ctx_ability ctx in
  if can_class ab a s then Ok tt else Err forbidden.

Context (uuid_version : Z -> Z) (parse_id : string -> result Z string) (db_err_text : db_err -> string).

(** [bind::<S, A>]; [service] is what the container holds. The outer [None] is a panic. *)
Definition bind (service : option (crud_service (W:=W) (T:=T))) (a : action) (ctx : option ability)
    (id : string) (env : ambient T) (w : W) : option (result (option model) gql_error * W) :=
  match ctx_ability ctx with
  | Err err => Some (Err err, w)
  | Ok _ =>
      match parse_id id with
      | Err msg => Some (Err (GqlError msg None), w)
      | Ok id =>
          if negb (uuid_version id =? 7)%Z then Some (Err (GqlError "id must be a UUID v7" None), w)
          else
            match service with
            | None => Some (Err (GqlError "no provider registered for the bound service" None), w)
            | Some sv =>
                match sv_access sv a id env w with
                | None => None
                | Some (Err err, w1) => Some (Err (GqlError (db_err_text err) None), w1)
                | Some (Ok (Found m), w1) => Some (Ok (Some m), w1)
                | Some (Ok Denied, w1) => Some (Err forbidden, w1)
                | Some (Ok Missing, w1) => Some (Ok None, w1)
                end
            end
      end
  end.

(** A gate without an ability refuses, though not with the code it is documented to. *)
Lemma missing_ability_has_no_code (a : action) (s : ty) :
  exists err, authorize a s None = Err err /\ ge_code err = None.
Proof. by eexists. Qed.

(** An anonymous operation: the bridge leaves no ability, and every gate refuses. *)
Lemma anonymous_operation_is_refused (auth abil : guard X W (ambient T)) (a : action) (s : ty) env req w :
  (exists denial w1, auth env req w = (Err denial, req, w1)) -> ext_get (A:=ability) req = None ->
  let '(req1, _) := og_before (ability_bridge auth abil) env req w in
  ext_get (A:=ability) req1 = None /\ exists err, authorize a s (ext_get req1) = Err err.
Proof.
  intros (denial & w1 & Ha) Hn. simpl. rewrite Ha. split; [done|]. rewrite Hn. by eexists.
Qed.

End resolvers.

Section graphql_transactions.
Context {X W : Type} `{Orm} `{TransactionSemantics W} `{!GraphqlEngine X W (ambient txn)}.

(** A GraphQL operation answers 200 whatever its resolvers returned, so the request transaction
    around the endpoint is committed: the writes of an operation that reported errors are
    durable, and the client is told 200. *)
Lemma graphql_operation_commits_its_errors (seeds : list (context_seed (X:=X) (W:=W) (Env:=ambient txn)))
    (env : ambient txn) (req : request X) (w w1 w2 w3 : W) (t : txn) batch (out : batch_response) :
  (forall b : batch_response, status (render_batch b) = 200%Z) ->
  is_safe (rq_method req) = false ->
  begin_txn w = (Ok t, w1) -> parse_batch req = Ok (Single batch) ->
  execute_batch (Single (seed seeds req batch)) (Ambient (Some (Txn t)) (amb_ability env)) w1 = (out, w2) ->
  others_hold t w2 = false -> commit t w2 = (Ok tt, w3) ->
  db_context (context_endpoint seeds None) env req w = (Ok (render_batch out), w3) /\
  status (render_batch out) = 200%Z /\ durable w3 = pending t w2.
Proof.
  intros H200 Hm Hb Hp He Ho Hc. unfold db_context, with_executor. rewrite Hm, Hb.
  unfold context_endpoint. rewrite Hp. cbv beta iota zeta. rewrite He. simpl. rewrite Ho.
  unfold is_success. rewrite H200. simpl. rewrite Hc. split; [done|]. split; [done|]. by eapply commit_ok.
Qed.

End graphql_transactions.

(** ** A concrete engine *)

Module GraphqlDemo.
Import AuthzDemo OrmDemo.

(** A mutation that writes one row and then fails: its response carries an error, over HTTP 200. *)
#[export] Instance engine : GraphqlEngine unit world (ambient unit) := {
  gql_request := unit;
  batch_response := list string;
  parse_batch _ := Ok (Single tt);
  execute_batch _ env w :=
    match amb_executor env with
    | Some (Txn _) => (["second write failed"], World (pub w) {[9%Z := []]} (leaked w))
    | _ => ([], w)
    end;
  render_batch errors := Response 200 (Some "application/json") [] (String.concat ";" errors)
}.

Lemma graphql_operation_commits_its_errors_witness :
  exists w', db_context (context_endpoint [] None) no_ambient post start =
      (Ok (Response 200 (Some "application/json") [] "second write failed"), w') /\
    pub w' = {[9%Z := []]}.
Proof.
  exists (World {[9%Z := []]} {[9%Z := []]} false). split; [|reflexivity].
  refine (proj1 (graphql_operation_commits_its_errors [] no_ambient post start _ _ _ tt tt ["second write failed"]
    _ eq_refl eq_refl eq_refl eq_refl eq_refl eq_refl)). done.
Defined.

End GraphqlDemo.
