(* ===== verification/GraphqlSchema.v ===== *)
(** The assembly of a GraphQL schema from the resolvers of the program
    ([nestrs-graphql/src/resolver.rs]): each [#[resolver]] submits its object to a link-time registry,
    and the two roots merge the types of the registered objects and try them in turn to resolve a field.

    async-graphql is a parameter: the members of an object's type, and what resolving a field of an
    object does.  An [IndexMap] is an association list: inserting a present key keeps its place. *)

From S2P Require Import Prelude Container Codegen.

Inductive resolver_kind := KQuery | KMutation.

#[export] Instance resolver_kind_eq_dec : EqDecision resolver_kind.
Proof. solve_decision. Defined.

(** [IndexMap::insert] and [extend]. *)
Fixpoint index_insert {A} (k : string) (v : A) (m : list (string * A)) : list (string * A) :=
  match m with
  | [] => [(k, v)]
  | (k', v') :: m' => if String.eqb k k' then (k, v) :: m' else (k', v') :: index_insert k v m'
  end.

Definition index_extend {A} (m new : list (string * A)) : list (string * A) :=
  foldl (fun m kv => index_insert kv.1 kv.2 m) m new.

Fixpoint index_get {A} (k : string) (m : list (string * A)) : option A :=
  match m with [] => None | (k', v) :: m' => if String.eqb k k' then Some v else index_get k m' end.

Section schema.
Context `{Payloads} {W MetaField Value : Type}.

(** [MetaType], as far as the code distinguishes it. *)
Inductive meta_type := MetaObject (fields : list (string * MetaField)) | MetaOther.

(** What resolving the field of a selection does: nothing when the object has no such field. *)
Definition resolver_object : Type := string -> W -> result (option Value) failure * W.

Record resolver_registration := ResolverRegistration {
  rr_kind : resolver_kind;
  rr_type_info : meta_type;
  rr_build : container -> result resolver_object panic
}.

Definition kind_has_members (inventory : list resolver_registration) (kind : resolver_kind) : bool :=
  existsb (fun reg => bool_decide (rr_kind reg = kind)) inventory.

Definition build_members (inventory : list resolver_registration) (c : container) (kind : resolver_kind)
  : result (list resolver_object) panic :=
  collect_results (fun reg => rr_build reg c) (filter (fun reg => rr_kind reg = kind) inventory).

(** The fields of a root type. *)
Definition merge_type_info (inventory : list resolver_registration) (kind : resolver_kind) : list (string * MetaField) :=
  foldl (fun fields reg =>
    if bool_decide (rr_kind reg = kind) then
      match rr_type_info reg with MetaObject members => index_extend fields members | MetaOther => fields end
    else fields) [] inventory.

(** [ContainerType::resolve_field] of a root: the first member that has the field. *)
Fixpoint resolve_field (members : list resolver_object) (field : string) (w : W) : result (option Value) failure * W :=
  match members with
  | [] => (Ok None, w)
  | member :: rest =>
      match member field w with
      | (Err e, w1) => (Err e, w1)
      | (Ok (Some value), w1) => (Ok (Some value), w1)
      | (Ok None, w1) => resolve_field rest field w1
      end
  end.

(** Both roots of [build_schema]. *)
Record schema := Schema { sc_query : list resolver_object; sc_mutation : list resolver_object }.

Definition build_schema (inventory : list resolver_registration) (c : container) : result schema panic :=
  let? query := build_members inventory c KQuery in
  let? mutation := build_members inventory c KMutation in
  Ok (Schema query mutation).

End schema.
Arguments meta_type : clear implicits.
Arguments resolver_registration {_} _ _ _.
Arguments resolver_object {_} _ _.

(** ** Index maps *)

Lemma index_get_insert {A} k k' (v : A) m : index_get k (index_insert k' v m) = if String.eqb k k' then Some v else index_get k m.
Proof.
  induction m as [|[k1 v1] m IH]; [done|]. cbn. destruct (String.eqb_spec k' k1) as [<-|Hne]; cbn.
  - by destruct (String.eqb k k').
  - rewrite IH. destruct (String.eqb_spec k k1), (String.eqb_spec k k'); congruence.
Qed.

Lemma index_get_none {A} k (m : list (string * A)) : index_get k m = None <-> k ∉ m.*1.
Proof.
  induction m as [|[k1 v1] m IH]; cbn; [split; [intros _; apply not_elem_of_nil|done]|].
  rewrite not_elem_of_cons. destruct (String.eqb_spec k k1); naive_solver.
Qed.

(** The last binding of a key wins. *)
Lemma index_get_extend {A} k (m new : list (string * A)) : NoDup new.*1 ->
  index_get k (index_extend m new) = match index_get k new with Some v => Some v | None => index_get k m end.
Proof.
  unfold index_extend. revert m. induction new as [|[k1 v1] new IH]; intros m; [done|].
  cbn. intros [Hnin Hnd]%NoDup_cons. rewrite IH, index_get_insert by done.
  destruct (String.eqb_spec k k1) as [->|]; [|done]. by rewrite (proj2 (index_get_none k1 new)).
Qed.

(** ** What the roots advertise and what they run *)

Section roots.
Context `{Payloads} {W MetaField Value : Type}.
Implicit Types (reg : resolver_registration W MetaField Value) (inventory : list (resolver_registration W MetaField Value)).

Definition declared_fields reg : list (string * MetaField) := match rr_type_info reg with MetaObject fs => fs | MetaOther => [] end.

(** A member has the fields its type declares: a field it lacks is passed on untouched, one it has is
    resolved to a value or an error. *)
Definition faithful reg (member : resolver_object W Value) : Prop :=
  forall field w, match index_get field (declared_fields reg) with
    | Some _ => (member field w).1 <> Ok None
    | None => member field w = (Ok None, w)
    end.

Definition of_kind (kind : resolver_kind) inventory := filter (fun reg => rr_kind reg = kind) inventory.

(** The field names of a kind: each is declared once, by one object. *)
Definition kind_fields (kind : resolver_kind) inventory : list string :=
  of_kind kind inventory ≫= fun reg => (declared_fields reg).*1.

Lemma merge_snoc inventory reg kind : merge_type_info (inventory ++ [reg]) kind =
  if bool_decide (rr_kind reg = kind) then index_extend (merge_type_info inventory kind) (declared_fields reg)
  else merge_type_info inventory kind.
Proof.
  unfold merge_type_info. rewrite foldl_snoc. case_bool_decide; [|done]. unfold declared_fields. destruct (rr_type_info reg); done.
Qed.

Lemma of_kind_snoc inventory reg kind : of_kind kind (inventory ++ [reg]) = of_kind kind inventory ++ (if decide (rr_kind reg = kind) then [reg] else []).
Proof. unfold of_kind. by rewrite filter_app. Qed.

(** What a root advertises for a field: the declaration of the last object that has it. *)
Lemma merge_type_info_last inventory kind field : Forall (fun reg => NoDup (declared_fields reg).*1) inventory ->
  index_get field (merge_type_info inventory kind)
  = last (omap (fun reg => index_get field (declared_fields reg)) (of_kind kind inventory)).
Proof.
  induction inventory as [|reg inventory IH] using rev_ind; [done|]. intros [Hinv Hreg]%Forall_app.
  rewrite merge_snoc, of_kind_snoc. case_bool_decide as Hk.
  - rewrite decide_True, omap_app by done. rewrite (index_get_extend _ _ (declared_fields reg) (Forall_inv Hreg)). cbn.
    destruct (index_get field (declared_fields reg)); cbn; [by rewrite last_snoc|]. rewrite app_nil_r. by apply IH.
  - rewrite decide_False, app_nil_r by done. by apply IH.
Qed.

Definition lacks (field : string) reg : Prop := index_get field (declared_fields reg) = None.

(** What a root runs for it: the first. *)
Lemma resolve_field_skip regs members rest field w : Forall2 faithful regs members -> Forall (lacks field) regs ->
  resolve_field (members ++ rest) field w = resolve_field rest field w.
Proof.
  induction 1 as [|reg member regs members Hf _ IH]; intros Hl; [done|]. inversion Hl as [|? ? Hnone Hl']; subst.
  cbn. specialize (Hf field w). unfold lacks in Hnone. rewrite Hnone in Hf. rewrite Hf. by apply IH.
Qed.

Lemma lacks_names field regs : field ∉ (regs ≫= fun reg => (declared_fields reg).*1) -> Forall (lacks field) regs.
Proof.
  intros Hnin. apply Forall_forall. intros reg Hin. apply index_get_none. contradict Hnin. apply list_elem_of_bind. eauto.
Qed.

Lemma declares_name field reg t : index_get field (declared_fields reg) = Some t -> field ∈ (declared_fields reg).*1.
Proof.
  intros Ht. destruct (decide (field ∈ (declared_fields reg).*1)) as [|Hn]; [done|]. apply index_get_none in Hn. congruence.
Qed.

(** The one object of a kind that declares a field. *)
Lemma declarer field regs : NoDup (regs ≫= fun reg => (declared_fields reg).*1) ->
  Forall (lacks field) regs \/
  exists l1 reg l2 t, regs = l1 ++ reg :: l2 /\ index_get field (declared_fields reg) = Some t /\
    Forall (lacks field) l1 /\ Forall (lacks field) l2.
Proof.
  induction regs as [|reg regs IH]; [by left|]. cbn. intros (_ & Hdis & Hnd)%NoDup_app.
  destruct (index_get field (declared_fields reg)) as [t|] eqn:E.
  - right. exists [], reg, regs, t. split_and!; [done..|]. apply lacks_names, Hdis. by eapply declares_name.
  - destruct (IH Hnd) as [Hl|(l1 & reg' & l2 & t & -> & Ht & H1 & H2)]; [left; by constructor|right].
    exists (reg :: l1), reg', l2, t. split_and!; [done|done|by constructor|done].
Qed.

Lemma declarer_unique field regs reg t : NoDup (regs ≫= fun reg => (declared_fields reg).*1) ->
  reg ∈ regs -> index_get field (declared_fields reg) = Some t ->
  forall reg' t', reg' ∈ regs -> index_get field (declared_fields reg') = Some t' -> reg' = reg.
Proof.
  intros Hnd Hin Ht reg' t' Hin' Ht'.
  destruct (declarer field regs Hnd) as [Hl|(l1 & r & l2 & t0 & -> & _ & H1 & H2)].
  { rewrite Forall_forall in Hl. specialize (Hl _ Hin). unfold lacks in Hl. congruence. }
  assert (forall x tx, x ∈ l1 ++ r :: l2 -> index_get field (declared_fields x) = Some tx -> x = r) as Hr.
  { intros x tx Hx Htx. rewrite Forall_forall in H1, H2. unfold lacks in *.
    apply elem_of_app in Hx as [Hx|[->|Hx]%elem_of_cons]; [specialize (H1 _ Hx)|done|specialize (H2 _ Hx)]; congruence. }
  by rewrite (Hr _ _ Hin Ht), (Hr _ _ Hin' Ht').
Qed.

Lemma lacks_omap field regs : Forall (lacks field) regs -> omap (fun reg => index_get field (declared_fields reg)) regs = [].
Proof. induction 1 as [|reg regs Hl _ IH]; [done|]. cbn. unfold lacks in Hl. by rewrite Hl. Qed.

(** The program is sound for a kind: types are maps, objects resolve what they declare, and no field is
    declared twice. *)
Record well_declared (c : container) (kind : resolver_kind) inventory : Prop := {
  wd_types : Forall (fun reg => NoDup (declared_fields reg).*1) inventory;
  wd_faithful : forall reg member, reg ∈ inventory -> rr_build reg c = Ok member -> faithful reg member;
  wd_fields : NoDup (kind_fields kind inventory)
}.

Lemma members_faithful c kind inventory members : well_declared c kind inventory ->
  build_members inventory c kind = Ok members ->
  Forall2 (fun reg member => rr_build reg c = Ok member /\ faithful reg member) (of_kind kind inventory) members.
Proof.
  intros Hwd Hb%collect_results_ok. fold (of_kind kind inventory) in Hb.
  assert (forall reg, reg ∈ of_kind kind inventory -> reg ∈ inventory) as Hin by (by intros reg [_ ?]%list_elem_of_filter).
  induction Hb as [|reg member regs members Hr _ IH]; constructor.
  - split; [done|]. eapply wd_faithful; [exact Hwd|apply Hin; left|done].
  - apply IH. intros r Hr'. apply Hin. by right.
Qed.

(** For each field a root either advertises it, as the one object that declares it does, and runs that
    object; or has no such field and resolves it to nothing. *)
Lemma root_field c kind inventory members field : well_declared c kind inventory ->
  build_members inventory c kind = Ok members ->
  (exists reg member t, reg ∈ of_kind kind inventory /\ rr_build reg c = Ok member /\
     index_get field (declared_fields reg) = Some t /\ index_get field (merge_type_info inventory kind) = Some t /\
     forall w, resolve_field members field w = member field w) \/
  (Forall (lacks field) (of_kind kind inventory) /\ index_get field (merge_type_info inventory kind) = None /\
     forall w, resolve_field members field w = (Ok None, w)).
Proof.
  intros Hwd Hb. pose proof (members_faithful _ _ _ _ Hwd Hb) as Hm.
  rewrite merge_type_info_last by apply (wd_types _ _ _ Hwd).
  assert (forall regs ms, Forall2 (fun reg member => rr_build reg c = Ok member /\ faithful reg member) regs ms ->
    Forall2 faithful regs ms) as Hfaithful by (intros regs ms H'; eapply Forall2_impl; [exact H'|by intros ?? []]).
  destruct (declarer field (of_kind kind inventory)) as [Hl|(l1 & reg & l2 & t & E & Ht & H1 & H2)]; [apply (wd_fields _ _ _ Hwd)| |].
  - right. rewrite lacks_omap by done. split_and!; [done..|]. intros w.
    rewrite <-(app_nil_r members). by erewrite resolve_field_skip by eauto.
  - left. rewrite E in Hm. apply Forall2_app_inv_l in Hm as (m1 & m2' & Hm1 & Hm & ->).
    apply Forall2_cons_inv_l in Hm as (member & m2 & [Hr Hfm] & _ & ->).
    exists reg, member, t. split_and!; [rewrite E; apply elem_of_app; right; left|done|done| |].
    + rewrite E, omap_app, (lacks_omap _ l1) by done. cbn. rewrite Ht. cbn. by rewrite lacks_omap.
    + intros w. erewrite resolve_field_skip by eauto. cbn. specialize (Hfm field w). rewrite Ht in Hfm.
      destruct (member field w) as [[[v|]|e] w1]; [done|by destruct Hfm|done].
Qed.

(** [C33] What a root advertises is what it runs.  When no two objects of a kind declare one field, each
    advertised field has the type that one object declares for it and is resolved by that object, a
    field that is not advertised resolves to nothing and changes nothing, and neither depends on the
    order in which the linker presents the objects. *)
Theorem advertised_fields_are_the_ones_run (c : container) (kind : resolver_kind)
    (inventory inventory' : list (resolver_registration W MetaField Value)) (members members' : list (resolver_object W Value)) :
  well_declared c kind inventory -> inventory ≡ₚ inventory' ->
  build_members inventory c kind = Ok members -> build_members inventory' c kind = Ok members' ->
  forall field,
  match index_get field (merge_type_info inventory kind) with
  | Some t => exists reg member, reg ∈ inventory /\ rr_kind reg = kind /\ rr_build reg c = Ok member /\
      index_get field (declared_fields reg) = Some t /\ forall w, resolve_field members field w = member field w
  | None => forall w, resolve_field members field w = (Ok None, w)
  end /\
  index_get field (merge_type_info inventory' kind) = index_get field (merge_type_info inventory kind) /\
  forall w, resolve_field members' field w = resolve_field members field w.
Proof.
  intros Hwd Hp Hb Hb' field.
  assert (of_kind kind inventory ≡ₚ of_kind kind inventory') as Hk by (unfold of_kind; by rewrite Hp).
  assert (well_declared c kind inventory') as Hwd'.
  { destruct Hwd as [Ht Hf Hn]. split; [by rewrite <-Hp|intros reg m; rewrite <-Hp; apply Hf|].
    unfold kind_fields in *. by rewrite <-Hk. }
  pose proof (root_field _ _ _ _ field Hwd Hb) as Hroot. pose proof (root_field _ _ _ _ field Hwd' Hb') as Hroot'.
  destruct Hroot as [(reg & member & t & Hin & Hr & Ht & Hadv & Hrun)|(Hl & Hadv & Hrun)];
    destruct Hroot' as [(reg' & member' & t' & Hin' & Hr' & Ht' & Hadv' & Hrun')|(Hl' & Hadv' & Hrun')]; rewrite Hadv, Hadv'.
  - rewrite <-Hk in Hin'. assert (reg' = reg) as -> by (eapply declarer_unique; [apply (wd_fields _ _ _ Hwd)|done..]).
    assert (member' = member) as -> by congruence. assert (t' = t) as -> by congruence.
    apply list_elem_of_filter in Hin as [Hkind Hin]. split_and!; [by exists reg, member|done|].
    intros w. by rewrite Hrun, Hrun'.
  - rewrite Hk in Hin. rewrite Forall_forall in Hl'. specialize (Hl' _ Hin). unfold lacks in Hl'. congruence.
  - rewrite <-Hk in Hin'. rewrite Forall_forall in Hl. specialize (Hl _ Hin'). unfold lacks in Hl. congruence.
  - split_and!; [done..|]. intros w. by rewrite Hrun, Hrun'.
Qed.

End roots.

(** ** Two resolvers *)

Module GraphqlSchemaDemo.

Definition named (field text : string) (answer : string) (kind : resolver_kind)
  : @resolver_registration Demo.payloads nat string string :=
  ResolverRegistration kind (MetaObject [(field, text)])
    (fun _ => Ok (fun f w => if String.eqb field f then (Ok (Some answer), S w) else (Ok None, w))).

Definition inventory := [named "user" "User!" "ada" KQuery; named "orgs" "[Org!]!" "acme" KQuery; named "addUser" "User!" "bob" KMutation].

Lemma named_faithful field text answer kind member :
  rr_build (named field text answer kind) (build builder_new) = Ok member -> faithful (named field text answer kind) member.
Proof. intros [= <-] f w. cbn. rewrite (String.eqb_sym field f). by destruct (String.eqb f field). Qed.

Lemma well : well_declared (build builder_new) KQuery inventory.
Proof.
  split; [repeat constructor; set_solver| |apply (bool_decide_unpack _); by vm_compute].
  intros reg member Hin. unfold inventory in Hin. rewrite !elem_of_cons, elem_of_nil in Hin.
  destruct Hin as [->|[->|[->|[]]]]; apply named_faithful.
Qed.

Definition roots (inv : list (@resolver_registration Demo.payloads nat string string)) (field : string)
  : option string * option (result (option string) string) :=
  (index_get field (merge_type_info inv KQuery),
   match build_members inv (build builder_new) KQuery with Ok ms => Some (resolve_field ms field 0).1 | Err _ => None end).

Lemma advertised_fields_are_the_ones_run_witness :
  exists members, build_members inventory (build builder_new) KQuery = Ok members /\
  exists reg member, reg ∈ inventory /\ rr_build reg (build builder_new) = Ok member /\
    forall w, resolve_field members "orgs" w = member "orgs" w.
Proof.
  eexists. split; [reflexivity|].
  pose proof (advertised_fields_are_the_ones_run (build builder_new) KQuery inventory inventory _ _ well
    (Permutation_refl _) eq_refl eq_refl "orgs") as [(reg & member & Hin & _ & Hr & _ & Hrun) _].
  exists reg, member. split; [exact Hin|]. split; [exact Hr|exact Hrun].
Defined.

(** Two objects with one field: the schema advertises the type of the last, and the first one runs. *)
Example shared_field_runs_another_type :
  roots [named "user" "User!" "ada" KQuery; named "user" "[User!]!" "ada,bob" KQuery] "user" = (Some "[User!]!", Some (Ok (Some "ada"))).
Proof. vm_compute. reflexivity. Qed.

End GraphqlSchemaDemo.
