(* ===== verification/GraphqlModule.v ===== *)
(** Serving the schema: [GraphqlModule] and what it mounts ([nestrs-graphql/src/module.rs]), the committed SDL
    ([resolver.rs]), and the endpoint as it is made at the mount, with the seeds of
    [forward_principal!] ([context.rs]).

    async-graphql's executor for a schema, its SDL exporter and its playground are parameters, and the
    write of the SDL is an effect on the files. *)

From S2P Require Import Prelude Container Codegen Http OpenApi Graphql GraphqlSchema.

Record graphql_options := GraphqlOptions {
  gq_path : string;
  gq_playground : bool;
  gq_schema_path : string;
  gq_emit_sdl : bool
}.

Definition graphql_options_default : graphql_options := GraphqlOptions "/graphql" true "schema.graphql" false.

(** Both registrations only attach the endpoint's metadata. *)
Definition graphql_register `{Payloads} (endpoint : graphql_options -> val) (options : graphql_options)
    (b : container_builder) : container_builder := provide_meta t_http_endpoint_meta (endpoint options) b.
Definition graphql_module_register `{Payloads} (endpoint : graphql_options -> val) (b : container_builder)
  : container_builder := graphql_register endpoint graphql_options_default b.

(** ** The SDL *)

Section sdl.
Context `{Payloads} {W MetaField Value : Type}.

(** [sdl_with_options] once the fields are sorted: of the query root, and of the mutation root when it is not
    empty. *)
Context (export : list (string * MetaField) -> option (list (string * MetaField)) -> string).

Definition sorted_fields (fields : list (string * MetaField)) : list (string * MetaField) :=
  stable_sort (fun a b => str_leb a.1 b.1) fields.

Definition render_sdl (inventory : list (resolver_registration W MetaField Value)) : string :=
  export (sorted_fields (merge_type_info inventory KQuery))
         (if kind_has_members inventory KMutation then Some (sorted_fields (merge_type_info inventory KMutation)) else None).

(** *** The SDL does not depend on the link order *)

Implicit Types (inventory : list (resolver_registration W MetaField Value)).

Lemma index_insert_keys {A} k (v : A) m : NoDup m.*1 -> NoDup (index_insert k v m).*1 /\ forall x, x ∈ (index_insert k v m).*1 -> x = k \/ x ∈ m.*1.
Proof.
  induction m as [|[k1 v1] m IH]; csimpl; [intros _; split; [apply NoDup_singleton|set_solver]|].
  intros [Hn Hnd]%NoDup_cons. destruct (String.eqb_spec k k1) as [->|Hne]; csimpl.
  - split; [by apply NoDup_cons|set_solver].
  - destruct (IH Hnd) as [Hnd' Hx]. split; [|set_solver]. apply NoDup_cons. split; [|done].
    intros Hin. destruct (Hx _ Hin) as [->|?]; [done|by apply Hn].
Qed.

Lemma merge_keys inventory kind : NoDup (merge_type_info inventory kind).*1.
Proof.
  induction inventory as [|reg inventory IH] using rev_ind; [apply NoDup_nil_2|]. rewrite merge_snoc. case_bool_decide; [|done].
  unfold index_extend. generalize (declared_fields reg) as new. intros new. revert IH.
  generalize (merge_type_info inventory kind) as m. induction new as [|[k v] new IHn]; intros m Hm; [done|]. simpl.
  apply IHn, index_insert_keys, Hm.
Qed.

Lemma index_get_elem {A} k (v : A) m : NoDup m.*1 -> index_get k m = Some v <-> (k, v) ∈ m.
Proof.
  induction m as [|[k1 v1] m IH]; csimpl; [intros _; split; [done|by intros ?%elem_of_nil]|].
  intros [Hn Hnd]%NoDup_cons. rewrite elem_of_cons. destruct (String.eqb_spec k k1) as [->|Hne].
  - split; [intros [= ->]; by left|]. intros [[= ->]|Hin]; [done|].
    destruct Hn. apply list_elem_of_fmap. by exists (k1, v).
  - rewrite (IH Hnd). split; [by right|]. by intros [[= -> ->]|?].
Qed.

(** No object of a kind is a map with a key twice, and no two of them declare one field. *)
Definition declared_once (kind : resolver_kind) inventory : Prop :=
  Forall (fun reg => NoDup (declared_fields reg).*1) inventory /\ NoDup (kind_fields kind inventory).

Lemma merge_get_perm kind inventory inventory' field : declared_once kind inventory -> inventory ≡ₚ inventory' ->
  index_get field (merge_type_info inventory' kind) = index_get field (merge_type_info inventory kind).
Proof.
  intros [Ht Hn] Hp. rewrite !merge_type_info_last by (done || by rewrite <- Hp).
  assert (Hk : of_kind kind inventory ≡ₚ of_kind kind inventory') by (unfold of_kind; by rewrite Hp).
  assert (Hsingle : forall l1 (reg : resolver_registration W MetaField Value) l2 t, index_get field (declared_fields reg) = Some t -> Forall (lacks field) l1 -> Forall (lacks field) l2 ->
    last (omap (fun reg => index_get field (declared_fields reg)) (l1 ++ reg :: l2)) = Some t).
  { intros l1 reg l2 t Hg H1 H2. rewrite omap_app, (lacks_omap _ l1) by done. cbn. rewrite Hg. cbn. by rewrite lacks_omap. }
  destruct (declarer field (of_kind kind inventory) Hn) as [Hl|(l1 & reg & l2 & t & E & Hg & H1 & H2)].
  - rewrite (lacks_omap _ (of_kind kind inventory)), lacks_omap by (done || by rewrite <- Hk). done.
  - rewrite E, (Hsingle _ _ _ _ Hg H1 H2). unfold kind_fields in Hn.
    assert (Hn' : NoDup (kind_fields kind inventory')) by (unfold kind_fields; by rewrite <- Hk).
    destruct (declarer field (of_kind kind inventory') Hn') as [Hl|(l1' & reg' & l2' & t' & E' & Hg' & H1' & H2')].
    + rewrite <- Hk, E in Hl. apply Forall_app in Hl as [_ Hl]. inversion Hl as [|? ? Hlr]; subst. unfold lacks in Hlr. congruence.
    + rewrite E', (Hsingle _ _ _ _ Hg' H1' H2'). f_equal.
      assert (reg' = reg) as -> by (eapply (declarer_unique field (of_kind kind inventory));
        [exact Hn|rewrite E; apply elem_of_app; right; left|exact Hg|rewrite Hk, E'; apply elem_of_app; right; left|exact Hg']).
      congruence.
Qed.

Lemma sorted_fields_perm kind inventory inventory' : declared_once kind inventory -> inventory ≡ₚ inventory' ->
  sorted_fields (merge_type_info inventory' kind) = sorted_fields (merge_type_info inventory kind).
Proof.
  intros Hd Hp. assert (Hperm : merge_type_info inventory' kind ≡ₚ merge_type_info inventory kind).
  { apply NoDup_Permutation; [eapply NoDup_fmap_1, merge_keys|eapply NoDup_fmap_1, merge_keys|].
    intros [k v]. rewrite <- !index_get_elem by apply merge_keys. by rewrite (merge_get_perm _ _ _ _ Hd Hp). }
  unfold sorted_fields. apply (sorted_perm_unique (fun a b : string * MetaField => str_leb a.1 b.1 = true)).
  - intros [k v] [k' v']. rewrite !stable_sort_perm. simpl. intros Hx Hy H1 H2. assert (k = k') as -> by by apply str_leb_antisym.
    apply index_get_elem in Hx, Hy; try apply merge_keys. congruence.
  - apply stable_sort_sorted; [intros; apply str_leb_total|intros x y z; apply str_leb_trans].
  - apply stable_sort_sorted; [intros; apply str_leb_total|intros x y z; apply str_leb_trans].
  - by rewrite !stable_sort_perm.
Qed.

(** The committed file is the same however the resolvers are linked, while no two of one kind share a field. *)
Lemma sdl_independent_of_link_order inventory inventory' :
  declared_once KQuery inventory -> declared_once KMutation inventory -> inventory ≡ₚ inventory' ->
  render_sdl inventory' = render_sdl inventory.
Proof.
  intros Hq Hm Hp. unfold render_sdl. rewrite (sorted_fields_perm _ _ _ Hq Hp), (sorted_fields_perm _ _ _ Hm Hp).
  assert (Hk : kind_has_members inventory' KMutation = kind_has_members inventory KMutation); [|by rewrite Hk].
  unfold kind_has_members. apply eq_bool_prop_intro. rewrite !Is_true_true, !existsb_exists.
  setoid_rewrite <- list_elem_of_In. by setoid_rewrite Hp.
Qed.

End sdl.

(** ** The mount *)

(** [forward_principal!]: a value the authentication attached to the request, when there is one; [gql_data] is
    async-graphql's [Request::data]. *)
Definition forward_principal {X W Env P : Type} `{!GraphqlEngine X W Env} `{!Extension X P}
    (gql_data : P -> gql_request -> gql_request) : context_seed := fun req gql =>
  match ext_get (A:=P) req with Some v => gql_data v gql | None => gql end.

Definition t_operation_guard : ty := TDyn "OperationGuard".

(** What the mount logs. *)
Inductive sdl_log := WroteSdl (dest : string) | FailedSdl (dest err : string).

Section mount.
Context `{Payloads} {W MetaField Value X Env Files : Type}.
Context (export : list (string * MetaField) -> option (list (string * MetaField)) -> string).
(** The executor over a schema; the program's seeds; the operation guard an instance is; the playground page of
    a path; and [std::fs::write]. *)
Context (engine : schema (W:=W) (Value:=Value) -> GraphqlEngine X W Env).
Context (seeds : forall s, list (context_seed (GraphqlEngine0:=engine s))).
Context (as_operation_guard : val -> operation_guard X W Env).
Context (playground_source : string -> string) (write : string -> string -> Files -> result unit string * Files).

Definition emit_sdl (inventory : list (resolver_registration W MetaField Value)) (options : graphql_options) (fs : Files)
  : list sdl_log * Files :=
  if gq_emit_sdl options then
    let dest := gq_schema_path options in
    match write dest (render_sdl export inventory) fs with
    | (Ok _, fs1) => ([WroteSdl dest], fs1)
    | (Err err, fs1) => ([FailedSdl dest err], fs1)
    end
  else ([], fs).

(** [ContextEndpoint::new]: the guard is looked up once. *)
Definition context_endpoint_new (s : schema) (c : container) : endpoint X W Env :=
  context_endpoint (GraphqlEngine0:=engine s) (seeds s) (as_operation_guard <$> get_dyn t_operation_guard c).

Definition playground (options : graphql_options) : endpoint X W Env := fun _ _ w =>
  (Ok (Response 200 (Some "text/html; charset=utf-8") [] (playground_source (gq_path options))), w).

(** The mount closure: what is nested under the path, the log and the files it leaves. *)
Definition graphql_mount (inventory : list (resolver_registration W MetaField Value)) (options : graphql_options) (c : container)
    (fs : Files) : result (string * list (http_verb * endpoint X W Env) * list sdl_log * Files) panic :=
  let? s := build_schema inventory c in
  let '(log, fs1) := emit_sdl inventory options fs in
  let post := context_endpoint_new s c in
  Ok (gq_path options, (Post, post) :: (if gq_playground options then [(Get, playground options)] else []), log, fs1).

(** The endpoint mounts exactly when every resolver of both roots builds, whatever becomes of the SDL; the files
    are left alone unless the SDL is asked for; only then, and only on a failed write, a failure is
    logged; operations run on the composed schema under the bound operation guard; and there is a page
    on [GET] only when the playground is on. *)
Lemma graphql_mount_cases inventory options c fs :
  match build_schema inventory c with
  | Err e => graphql_mount inventory options c fs = Err e
  | Ok s => exists log fs1,
      graphql_mount inventory options c fs =
        Ok (gq_path options, (Post, context_endpoint_new s c) :: (if gq_playground options then [(Get, playground options)] else []), log, fs1) /\
      (gq_emit_sdl options = false -> log = [] /\ fs1 = fs) /\
      (gq_emit_sdl options = true -> fs1 = (write (gq_schema_path options) (render_sdl export inventory) fs).2 /\
         log = match (write (gq_schema_path options) (render_sdl export inventory) fs).1 with
               | Ok _ => [WroteSdl (gq_schema_path options)] | Err err => [FailedSdl (gq_schema_path options) err] end)
  end.
Proof.
  unfold graphql_mount, emit_sdl. destruct (build_schema inventory c) as [s|e]; simpl; [|done].
  destruct (gq_emit_sdl options); [|by eexists _, _].
  destruct (write _ _ fs) as [[u|err] fs1]; by eexists _, _.
Qed.

End mount.

(** ** Concrete schemas *)

Module GraphqlModuleDemo.
Import GraphqlSchemaDemo.

Definition lines (fields : list (string * string)) : string := String.concat "" (map (fun f => f.1 +:+ ": " +:+ f.2 +:+ "; ") fields).
Definition to_sdl (query : list (string * string)) (mutation : option (list (string * string))) : string :=
  "type Query { " +:+ lines query +:+ "}" +:+ match mutation with Some m => " type Mutation { " +:+ lines m +:+ "}" | None => "" end.

Example sorted_sdl :
  render_sdl to_sdl inventory = "type Query { orgs: [Org!]!; user: User!; } type Mutation { addUser: User!; }" /\
  render_sdl to_sdl (rev inventory) = render_sdl to_sdl inventory /\
  render_sdl to_sdl [named "user" "User!" "ada" KQuery] = "type Query { user: User!; }".
Proof. by vm_compute. Qed.

(** The link order does reach the committed file when two resolvers share a field. *)
Example shared_field_churns_the_sdl :
  let one := [named "user" "User!" "ada" KQuery; named "user" "[User!]!" "ada,bob" KQuery] in
  render_sdl to_sdl one = "type Query { user: [User!]!; }" /\ render_sdl to_sdl (rev one) = "type Query { user: User!; }".
Proof. by vm_compute. Qed.

(** Reached through two imports the module mounts its endpoint twice, on one path. *)
Example two_imports_mount_twice :
  let endpoint (options : graphql_options) := (if String.eqb (gq_path options) "/graphql" then 1 else 2) : @val Demo.payloads in
  discovery_meta t_http_endpoint_meta
    (build (graphql_module_register endpoint (graphql_module_register endpoint builder_new))) = [(1, None); (1, None)].
Proof. by vm_compute. Qed.

End GraphqlModuleDemo.
