(* ===== verification/Auth.v ===== *)
(** Authentication, [nestrs-auth]: the JWT service ([jwt.rs]), bearer extraction and the strategies
    ([strategy.rs]), the guard that runs a strategy ([guard.rs]), its failures ([error.rs]) and
    the OAuth2 authorization-code flow ([oauth.rs]).

    The JWT engine, the OAuth2 client and the clock are parameters. *)

From S2P Require Import Prelude Container Http.

(** ** Failures *)

Inductive auth_error :=
| MissingCredentials
| InvalidToken
| Expired
| Failed (msg : string).

Definition auth_error_text (e : auth_error) : string :=
  match e with
  | MissingCredentials => "missing credentials"
  | InvalidToken => "invalid token"
  | Expired => "token expired"
  | Failed msg => "authentication failed: " +:+ msg
  end.

Definition auth_error_response (e : auth_error) : response :=
  Response 401 None [("www-authenticate", "Bearer")] (auth_error_text e).

(** ** Tokens *)

(** [jsonwebtoken::Algorithm], with the family of keys each is for. *)
Inductive algorithm :=
| HS256 | HS384 | HS512 | ES256 | ES384 | RS256 | RS384 | RS512 | PS256 | PS384 | PS512 | EdDSA.

Inductive key_family := HmacFamily | EcFamily | RsaFamily | EdFamily.

#[export] Instance key_family_eq_dec : EqDecision key_family.
Proof. solve_decision. Defined.

Definition family (a : algorithm) : key_family :=
  match a with
  | HS256 | HS384 | HS512 => HmacFamily
  | ES256 | ES384 => EcFamily
  | RS256 | RS384 | RS512 | PS256 | PS384 | PS512 => RsaFamily
  | EdDSA => EdFamily
  end.

Inductive jwt_key :=
| Hmac (secret : string)
| Pem (private_pem : option string) (public_pem : string).

Record jwt_options := JwtOptions { jo_key : jwt_key; jo_algorithm : algorithm; jo_expires_in : Z }.

Definition options_new (secret : string) : jwt_options := JwtOptions (Hmac secret) HS256 3600.
Definition options_eddsa (private_pem public_pem : string) : jwt_options :=
  JwtOptions (Pem (Some private_pem) public_pem) EdDSA 3600.
Definition options_eddsa_verify (public_pem : string) : jwt_options :=
  JwtOptions (Pem None public_pem) EdDSA 3600.

(** [jsonwebtoken::Validation], as [Validation::new] sets it. *)
Record validation := Validation { va_algorithm : algorithm; va_leeway : Z; va_validate_exp : bool; va_validate_aud : bool }.
Definition validation_new (a : algorithm) : validation := Validation a 60 true true.

Inductive jwt_error := ExpiredSignature | OtherJwtError.

(** The JWT engine; [decode] reads the clock it is given. *)
Class JwtEngine := {
  encoding_key : Type;
  decoding_key : Type;
  enc_from_secret : string -> encoding_key;
  dec_from_secret : string -> decoding_key;
  enc_from_ed_pem : string -> result encoding_key string;
  dec_from_ed_pem : string -> result decoding_key string;
  jwt_encode : algorithm -> json -> encoding_key -> result string string;
  jwt_decode : forall {C}, (json -> option C) -> string -> decoding_key -> validation -> Z -> result C jwt_error
}.

Section jwt.
Context `{JwtEngine}.

Record jwt_service := JwtService {
  encoding : option encoding_key;
  decoding : decoding_key;
  header : algorithm;
  sv_validation : validation;
  expires_in : Z
}.

Definition jwt_new (o : jwt_options) : result jwt_service auth_error :=
  let? keys := match jo_key o with
               | Hmac secret => Ok (Some (enc_from_secret secret), dec_from_secret secret)
               | Pem private_pem public_pem =>
                   let? dec := map_err (fun e => Failed ("invalid JWT public key: " +:+ e)) (dec_from_ed_pem public_pem) in
                   let? enc := match private_pem with
                               | Some pem =>
                                   let? k := map_err (fun e => Failed ("invalid JWT private key: " +:+ e)) (enc_from_ed_pem pem) in
                                   Ok (Some k)
                               | None => Ok None
                               end in
                   Ok (enc, dec)
               end in
  let v := validation_new (jo_algorithm o) in
  let v := Validation (va_algorithm v) (va_leeway v) (va_validate_exp v) false in
  Ok (JwtService keys.1 keys.2 (jo_algorithm o) v (jo_expires_in o)).

Definition sign (s : jwt_service) (claims : json) : result string auth_error :=
  let? key := ok_or (encoding s) (Failed "this JwtService is verify-only — no signing key configured") in
  map_err Failed (jwt_encode (header s) claims key).

Definition verify {C} (from_value : json -> option C) (s : jwt_service) (token : string) (now : Z)
  : result C auth_error :=
  map_err (fun e => match e with ExpiredSignature => Expired | OtherJwtError => InvalidToken end)
    (jwt_decode from_value token (decoding s) (sv_validation s) now).

Definition expiry (s : jwt_service) (now : Z) : Z := wrap_u64 (now + expires_in s).
Definition ttl_secs (s : jwt_service) : Z := expires_in s.

End jwt.

(** ** Strategies and the guard *)

Inductive outcome_t (P : Type) :=
| Authenticated (p : P)
| Challenge (resp : response).
Arguments Authenticated {P} p.
Arguments Challenge {P} resp.

Section strategies.
Context {X W Env : Type}.

(** [Strategy::authenticate], which may attach scratch state to the request. *)
Definition strategy (P : Type) : Type := request X -> W -> result (outcome_t P) auth_error * request X * W.

(** [AuthGuard::check] *)
Definition auth_guard {P} `{!Extension X P} (authenticate : strategy P) : guard X W Env := fun _ req w =>
  let '(r, req1, w1) := authenticate req w in
  match r with
  | Ok (Authenticated principal) => (Ok tt, ext_insert principal req1, w1)
  | Ok (Challenge resp) => (Err resp, req1, w1)
  | Err err => (Err (auth_error_response err), req1, w1)
  end.

(** [HeaderMap::get] and [HeaderValue::to_str] *)
Definition header_get (name : string) (req : request X) : option string :=
  snd <$> List.find (fun kv : string * string => String.eqb kv.1 name) (rq_headers req).

Context (to_str : string -> option string).

Definition bearer_token (req : request X) : option string :=
  value ← header_get "authorization" req ≫= to_str;
  rest ← strip_prefix "Bearer " value;
  let token := trim rest in
  if String.eqb token "" then None else Some token.

(** [JwtStrategy<C>], at the time the clock shows. *)
Definition jwt_strategy `{JwtEngine} {C} (from_value : json -> option C) (s : jwt_service) (clock : W -> Z)
  : strategy C := fun req w =>
  (let? token := ok_or (bearer_token req) MissingCredentials in
   let? claims := verify from_value s token (clock w) in
   Ok (Authenticated claims), req, w).

End strategies.

(** ** OAuth2 *)

Record oauth_config := OAuth2Config {
  client_id : string;
  client_secret : string;
  auth_url : string;
  token_url : string;
  redirect_url : string;
  userinfo_url : string;
  scopes : list string
}.

(** The [oauth2] crate: which URLs parse, the authorization URL for a CSRF state and a PKCE
    challenge, and the token request. *)
Class OAuthEngine (W : Type) := {
  url_parses : string -> bool;
  authorize_url : oauth_config -> string -> string -> string;
  request_token : oauth_config -> string -> string -> W -> result string string * W
}.

Record authorization := Authorization { az_url : string; az_transaction : string }.
Record transaction := Transaction { csrf : string; pkce : string; tx_exp : Z }.

(** serde on [Transaction] *)
Definition transaction_to_value (t : transaction) : json :=
  JObject [("csrf", JString (csrf t)); ("pkce", JString (pkce t)); ("exp", JNumber (tx_exp t))].

Definition member (k : string) (ms : list (string * json)) : option json :=
  snd <$> List.find (fun kv : string * json => String.eqb kv.1 k) ms.

Definition transaction_from_value (v : json) : option transaction :=
  match v with
  | JObject ms =>
      match member "csrf" ms, member "pkce" ms, member "exp" ms with
      | Some (JString c), Some (JString p), Some (JNumber e) => Some (Transaction c p e)
      | _, _, _ => None
      end
  | _ => None
  end.

Section oauth.
Context `{JwtEngine} {W : Type} `{!OAuthEngine W}.

(** [basic_client]: the three URLs are parsed in order. *)
Definition basic_client (c : oauth_config) : result unit auth_error :=
  for_each (fun _ u => if url_parses u then Ok tt else Err (Failed ("invalid OAuth URL: " +:+ u)))
    [auth_url c; token_url c; redirect_url c] tt.

(** [authorize], given the CSRF state and the PKCE verifier that were drawn. *)
Definition oauth_authorize (c : oauth_config) (jwt : jwt_service) (now : Z) (csrf pkce : string)
  : result authorization auth_error :=
  let? _ := basic_client c in
  let? transaction := sign jwt (transaction_to_value (Transaction csrf pkce (expiry jwt now))) in
  Ok (Authorization (authorize_url c csrf pkce) transaction).

Definition oauth_exchange (c : oauth_config) (jwt : jwt_service) (now : Z) (transaction state code : string)
    (w : W) : result string auth_error * W :=
  match verify transaction_from_value jwt transaction now with
  | Err err => (Err err, w)
  | Ok tx =>
      if negb (String.eqb (csrf tx) state) then (Err (Failed "OAuth state mismatch"), w)
      else
        match basic_client c with
        | Err err => (Err err, w)
        | Ok _ =>
            let '(token, w1) := request_token c code (pkce tx) w in
            (map_err Failed token, w1)
        end
  end.

End oauth.

Section userinfo.
(** reqwest: a [GET] with a bearer token, answered by a status and a body that may fail to be read, and the
    text of the error of a client or server status; and serde. *)
Context {W T : Type} (http_get : string -> string -> W -> result (Z * result string string) string * W).
Context (status_error : Z -> string) (from_str : string -> result T string).

Definition error_for_status (code : Z) : result unit string :=
  if (400 <=? code)%Z && (code <? 600)%Z then Err (status_error code) else Ok tt.

Definition userinfo (c : oauth_config) (access_token : string) (w : W) : result T auth_error * W :=
  let '(answer, w1) := http_get (userinfo_url c) access_token w in
  (map_err Failed
     (let? cb := answer in
      let? _ := error_for_status cb.1 in
      let? text := cb.2 in
      from_str text), w1).

(** A profile comes of the body of one answer that is not an error status; everything else is a failed
    authentication, after one request to the configured endpoint with the caller's token. *)
Lemma userinfo_cases c access_token w :
  let '(answer, w1) := http_get (userinfo_url c) access_token w in
  match userinfo c access_token w with
  | (Ok profile, w') => w' = w1 /\ exists code text, answer = Ok (code, Ok text) /\
      ~ (400 <= code < 600)%Z /\ from_str text = Ok profile
  | (Err e, w') => w' = w1 /\ exists msg, e = Failed msg
  end.
Proof.
  unfold userinfo. destruct (http_get _ _ w) as [[[code text]|msg] w1]; simpl; [|by eauto].
  unfold error_for_status. destruct (_ && _) eqn:Ec; simpl; [by eauto|]. destruct text as [text|msg]; simpl; [|by eauto].
  destruct (from_str text) eqn:Ef; simpl; [|by eauto]. split; [done|]. exists code, text. split; [done|]. split; [|done].
  apply andb_false_iff in Ec as [?%Z.leb_gt|?%Z.ltb_ge]; lia.
Qed.

End userinfo.

(** ** What is documented of the engine *)

(** Keys have a family, and encoding succeeds exactly with an algorithm of the key's ([InvalidAlgorithm]
    otherwise).  Keys that belong together, and the decoding of what was encoded under them: the claims
    come back until [exp] is more than the leeway in the past, [ExpiredSignature] after. *)
Class JwtSemantics `{JwtEngine} := {
  paired : encoding_key -> decoding_key -> Prop;
  secret_paired secret : paired (enc_from_secret secret) (dec_from_secret secret);
  family_of_key : encoding_key -> key_family;
  secret_family secret : family_of_key (enc_from_secret secret) = HmacFamily;
  ed_pem_family pem k : enc_from_ed_pem pem = Ok k -> family_of_key k = EdFamily;
  encode_fits a claims k : family a = family_of_key k -> exists token, jwt_encode a claims k = Ok token;
  encode_misfits a claims k : family a <> family_of_key k -> exists e, jwt_encode a claims k = Err e;
  decode_signed {C} (de : json -> option C) a members exp k d v token now :
    paired k d -> va_algorithm v = a -> va_validate_exp v = true -> va_validate_aud v = false ->
    member "exp" members = Some (JNumber exp) ->
    jwt_encode a (JObject members) k = Ok token ->
    jwt_decode de token d v now =
      match de (JObject members) with
      | Some c => if (exp <? now - va_leeway v)%Z then Err ExpiredSignature else Ok c
      | None => Err OtherJwtError
      end
}.

Section tokens.
Context `{JwtSemantics}.

(** The parts a service is built from. *)
Lemma jwt_new_parts o s : jwt_new o = Ok s ->
  header s = jo_algorithm o /\ expires_in s = jo_expires_in o /\
  sv_validation s = Validation (jo_algorithm o) 60 true false /\
  (encoding s = None <-> exists public_pem, jo_key o = Pem None public_pem).
Proof.
  unfold jwt_new. destruct (jo_key o) as [secret|[pem|] public_pem]; simpl.
  - intros [= <-]. simpl. split_and!; try done. split; [done|by intros [? ?]].
  - destruct (dec_from_ed_pem public_pem); simpl; [|done].
    destruct (enc_from_ed_pem pem); simpl; [|done]. intros [= <-]. simpl. split_and!; try done. split; [done|by intros [? ?]].
  - destruct (dec_from_ed_pem public_pem); simpl; [|done]. intros [= <-]. simpl. split_and!; try done. split; [by exists public_pem|done].
Qed.

(** The options whose algorithm is of the family of their private key: those of [new] and [eddsa], and
    whatever their public fields are set to that agrees. *)
Definition signable (o : jwt_options) : bool :=
  match jo_key o with
  | Hmac _ => bool_decide (family (jo_algorithm o) = HmacFamily)
  | Pem (Some _) _ => bool_decide (family (jo_algorithm o) = EdFamily)
  | Pem None _ => false
  end.

Lemma jwt_new_family o s k : jwt_new o = Ok s -> encoding s = Some k ->
  family_of_key k = match jo_key o with Hmac _ => HmacFamily | Pem _ _ => EdFamily end.
Proof.
  unfold jwt_new. destruct (jo_key o) as [secret|[pem|] public_pem]; simpl.
  - intros [= <-] [= <-]. apply secret_family.
  - destruct (dec_from_ed_pem public_pem); simpl; [|done].
    destruct (enc_from_ed_pem pem) eqn:E; simpl; [|done]. intros [= <-] [= <-]. by eapply ed_pem_family.
  - destruct (dec_from_ed_pem public_pem); simpl; [|done]. by intros [= <-].
Qed.

(** A service with a private key signs, whatever the claims, unless its algorithm is of another family. *)
Lemma sign_cases o s k claims : jwt_new o = Ok s -> encoding s = Some k ->
  if signable o then exists token, jwt_encode (header s) claims k = Ok token /\ sign s claims = Ok token
  else exists msg, sign s claims = Err (Failed msg).
Proof.
  intros Hnew Hk. pose proof (jwt_new_family _ _ _ Hnew Hk) as Hf.
  pose proof (jwt_new_parts _ _ Hnew) as (Hh & _ & _ & He). unfold sign. rewrite Hk. simpl.
  destruct (decide (family (header s) = family_of_key k)) as [Ef|Nf].
  - destruct (encode_fits (header s) claims k Ef) as [token Ht]. rewrite Ht. unfold signable.
    rewrite Hf, Hh in Ef. destruct (jo_key o) as [secret|[pem|] public_pem] eqn:Ek.
    + rewrite bool_decide_eq_true_2 by done. by exists token.
    + rewrite bool_decide_eq_true_2 by done. by exists token.
    + assert (encoding s = None) by (apply He; by exists public_pem). congruence.
  - destruct (encode_misfits (header s) claims k Nf) as [e Ht]. rewrite Ht. unfold signable.
    rewrite Hf, Hh in Nf. destruct (jo_key o) as [secret|[pem|] public_pem]; rewrite ?bool_decide_eq_false_2 by done; by exists e.
Qed.

Lemma verify_signed {C} (de : json -> option C) o s k members exp now :
  jwt_new o = Ok s -> encoding s = Some k -> paired k (decoding s) -> signable o = true ->
  member "exp" members = Some (JNumber exp) ->
  exists token, sign s (JObject members) = Ok token /\
    verify de s token now =
      match de (JObject members) with
      | Some c => if (exp <? now - 60)%Z then Err Expired else Ok c
      | None => Err InvalidToken
      end.
Proof.
  intros Hnew Hk Hpair Hsign Hexp. pose proof (jwt_new_parts _ _ Hnew) as (Hh & _ & Hv & _).
  pose proof (sign_cases o s k (JObject members) Hnew Hk) as Hcases. rewrite Hsign in Hcases.
  destruct Hcases as (token & Ht & _). exists token.
  unfold sign, verify. rewrite Hk. simpl. rewrite Ht. split; [done|].
  rewrite (decode_signed de (header s) members exp k (decoding s) (sv_validation s) token now)
    by (rewrite ?Hv; simpl; congruence || done).
  rewrite Hv. simpl. destruct (de (JObject members)); [|done]. by destruct (exp <? now - 60)%Z.
Qed.

(** A signing service verifies what it signed: stamped with [expiry], a token yields its claims
    until the lifetime and a leeway of sixty seconds have passed and is [Expired] from then on;
    claims of another shape make it invalid.  A service with only a public key never signs, and a
    shared secret always makes a service that does. *)
Lemma signed_token_valid_until_expiry {C} (de : json -> option C) (o : jwt_options) s k
    (rest : list (string * json)) (signed_at now : Z) :
  jwt_new o = Ok s -> encoding s = Some k -> paired k (decoding s) -> signable o = true ->
  u64 (signed_at + jo_expires_in o) ->
  (exists token,
     let claims := JObject (("exp", JNumber (expiry s signed_at)) :: rest) in
     sign s claims = Ok token /\
     match de claims with
     | Some c => verify de s token now =
                   if (now <=? signed_at + jo_expires_in o + 60)%Z then Ok c else Err Expired
     | None => verify de s token now = Err InvalidToken
     end) /\
  (forall public_pem s', jwt_new (options_eddsa_verify public_pem) = Ok s' ->
     forall claims, exists msg, sign s' claims = Err (Failed msg)) /\
  (forall secret, exists s' k', jwt_new (options_new secret) = Ok s' /\ encoding s' = Some k' /\ paired k' (decoding s')).
Proof.
  intros Hnew Hk Hpair Hsign Hu. split; [|split].
  - destruct (verify_signed de o s k (("exp", JNumber (expiry s signed_at)) :: rest) (expiry s signed_at) now
      Hnew Hk Hpair Hsign eq_refl) as (token & Hs & Hv).
    exists token. split; [done|]. rewrite Hv. destruct (de _); [|done].
    apply jwt_new_parts in Hnew as (_ & He & _). unfold expiry. rewrite He, wrap_u64_small by done.
    destruct (Z.ltb_spec (signed_at + jo_expires_in o) (now - 60));
      destruct (Z.leb_spec now (signed_at + jo_expires_in o + 60)); try done; lia.
  - intros public_pem s' Hs'. apply jwt_new_parts in Hs' as (_ & _ & _ & He). intros claims.
    unfold sign. rewrite (proj2 He) by by eexists. simpl. by eexists.
  - intros secret. eexists _, _. split; [reflexivity|]. split; [done|]. apply secret_paired.
Qed.

(** [C32] The OAuth callback is bound to the redirect that opened it: the token request is made only
    for a transaction this service verifies and with the state that transaction carries, and then
    with its PKCE verifier; a mismatched state, a bad or expired transaction makes no request.  A
    transaction [authorize] issued is accepted with its own state for its lifetime; a service whose
    algorithm is not of the family of its key issues none. *)
Theorem oauth_exchange_bound_to_transaction {W} `{!OAuthEngine W} (c : oauth_config) (o : jwt_options) s k
    (signed_at now : Z) (csrf0 pkce0 : string) (w : W) :
  jwt_new o = Ok s -> encoding s = Some k -> paired k (decoding s) -> u64 (signed_at + jo_expires_in o) ->
  basic_client c = Ok tt -> (now <= signed_at + jo_expires_in o + 60)%Z ->
  (if signable o then
     exists az, oauth_authorize c s signed_at csrf0 pkce0 = Ok az /\ az_url az = authorize_url c csrf0 pkce0 /\
       forall state code, oauth_exchange c s now (az_transaction az) state code w =
         if String.eqb csrf0 state
         then let '(token, w1) := request_token c code pkce0 w in (map_err Failed token, w1)
         else (Err (Failed "OAuth state mismatch"), w)
   else exists msg, oauth_authorize c s signed_at csrf0 pkce0 = Err (Failed msg)) /\
  (forall transaction state code,
     (exists tx, verify transaction_from_value s transaction now = Ok tx /\ csrf tx = state) \/
     exists err, oauth_exchange c s now transaction state code w = (Err err, w)).
Proof.
  intros Hnew Hk Hpair Hu Hc Hnow. split.
  - assert (Hexp : expiry s signed_at = (signed_at + jo_expires_in o)%Z).
    { apply jwt_new_parts in Hnew as (_ & He & _). unfold expiry. by rewrite He, wrap_u64_small. }
    pose proof (sign_cases o s k (transaction_to_value (Transaction csrf0 pkce0 (expiry s signed_at))) Hnew Hk) as Hcases.
    destruct (signable o) eqn:Hsign; cycle 1.
    { destruct Hcases as [msg Hmsg]. exists msg. unfold oauth_authorize. rewrite Hc. simpl. by rewrite Hmsg. }
    set (t := Transaction csrf0 pkce0 (expiry s signed_at)).
    destruct (verify_signed transaction_from_value o s k
      [("csrf", JString csrf0); ("pkce", JString pkce0); ("exp", JNumber (expiry s signed_at))]
      (expiry s signed_at) now Hnew Hk Hpair Hsign eq_refl) as (token & Hs & Hv).
    exists (Authorization (authorize_url c csrf0 pkce0) token). unfold oauth_authorize. rewrite Hc. simpl.
    unfold transaction_to_value. simpl. rewrite Hs. split; [done|]. split; [done|]. intros state code.
    unfold oauth_exchange. simpl. rewrite Hv. simpl. rewrite Hexp.
    destruct (Z.ltb_spec (signed_at + jo_expires_in o) (now - 60)) as [?|_]; [lia|]. simpl.
    destruct (String.eqb csrf0 state); simpl; [by rewrite Hc|done].
  - intros transaction state code. unfold oauth_exchange.
    destruct (verify _ s transaction now) as [tx|err]; [|right; by eexists].
    destruct (String.eqb_spec (csrf tx) state) as [E|N]; [left; by exists tx|right; simpl; by eexists].
Qed.

End tokens.

(** What the guard of the bearer strategy lets through: exactly a request with a bearer token the
    service verifies, with the claims as the principal; anything else is a 401 challenge. *)
Lemma jwt_guard_admits_verified_bearer {X W Env C : Type} `{!Extension X C} `{JwtEngine} (to_str : string -> option string)
    (de : json -> option C) (s : jwt_service) (clock : W -> Z) (env : Env) (req : request X) (w : W) :
  let '(verdict, req1, w1) := auth_guard (jwt_strategy to_str de s clock) env req w in
  w1 = w /\
  match verdict with
  | Ok _ => exists value token claims,
      header_get "authorization" req ≫= to_str = Some ("Bearer " +:+ value) /\ trim value = token /\ token <> "" /\
      verify de s token (clock w) = Ok claims /\ req1 = ext_insert claims req
  | Err resp => status resp = 401%Z /\ resp_headers resp = [("www-authenticate", "Bearer")] /\ req1 = req
  end.
Proof.
  unfold auth_guard, jwt_strategy. simpl. unfold bearer_token.
  destruct (header_get "authorization" req ≫= to_str) as [value|] eqn:Ev; simpl; [|done].
  unfold strip_prefix. destruct (strip_chars (chars "Bearer ") (chars value)) as [rest|] eqn:Er; simpl; [|done].
  destruct (String.eqb_spec (trim (of_chars rest)) "") as [|Ht]; [done|]. simpl.
  destruct (verify de s (trim (of_chars rest)) (clock w)) as [claims|err] eqn:Eq; simpl; [|done].
  split; [done|]. exists (of_chars rest), (trim (of_chars rest)), claims.
  split; [|done]. f_equal. apply strip_chars_some in Er.
  rewrite <- (of_chars_chars value), Er. rewrite <- (of_chars_chars ("Bearer " +:+ of_chars rest)).
  by rewrite chars_app, chars_of_chars.
Qed.

(** ** A concrete engine: a token is the claims with the key that signed them, in the clear *)

Module AuthDemo.

(** JSON as a tree of atoms, so that values can be written as numbers and read back. *)
Fixpoint json_tree (j : json) : gen_tree (bool + Z + string) :=
  match j with
  | JNull => GenNode 0 []
  | JBool b => GenLeaf (inl (inl b))
  | JNumber z => GenLeaf (inl (inr z))
  | JString s => GenLeaf (inr s)
  | JArray l => GenNode 1 (map json_tree l)
  | JObject ms => GenNode 2 (map (fun kv => GenNode 3 [GenLeaf (inr kv.1); json_tree kv.2]) ms)
  end.

Fixpoint tree_json (t : gen_tree (bool + Z + string)) : json :=
  match t with
  | GenLeaf (inl (inl b)) => JBool b
  | GenLeaf (inl (inr z)) => JNumber z
  | GenLeaf (inr s) => JString s
  | GenNode 1 l => JArray (map tree_json l)
  | GenNode 2 l =>
      JObject (map (fun t => match t with GenNode _ [GenLeaf (inr k); v] => (k, tree_json v) | _ => ("", JNull) end) l)
  | GenNode _ _ => JNull
  end.

Lemma tree_json_tree : forall j, tree_json (json_tree j) = j.
Proof.
  fix IH 1. intros [| | | |l|ms]; [reflexivity| reflexivity | reflexivity | reflexivity | |]; simpl; f_equal.
  - induction l as [|j l IHl]; simpl; [reflexivity|]. f_equal; [apply IH|exact IHl].
  - induction ms as [|[k v] ms IHms]; simpl; [reflexivity|]. f_equal; [f_equal; apply IH|exact IHms].
Qed.

#[export] Instance json_eq_dec : EqDecision json.
Proof. refine (inj_eq_dec json_tree). intros x y E. by rewrite <- (tree_json_tree x), E, tree_json_tree. Defined.

#[export] Instance json_countable : Countable json.
Proof. exact (inj_countable' json_tree tree_json tree_json_tree). Defined.

Fixpoint bits (p : positive) : string :=
  match p with
  | xH => "1"
  | xO p => String (Ascii.ascii_of_N 48) (bits p)
  | xI p => String (Ascii.ascii_of_N 49) (bits p)
  end.

Fixpoint unbits (s : string) : option positive :=
  match s with
  | EmptyString => None
  | String c EmptyString => if Ascii.eqb c (Ascii.ascii_of_N 49) then Some xH else None
  | String c s => p ← unbits s; Some (if Ascii.eqb c (Ascii.ascii_of_N 49) then xI p else xO p)
  end.

Lemma unbits_bits p : unbits (bits p) = Some p.
Proof.
  induction p as [p IH|p IH|]; [| |done].
  - change (bits p~1) with (String (Ascii.ascii_of_N 49) (bits p)). cbn [unbits].
    destruct (bits p) eqn:E; [by destruct p|]. by rewrite IH.
  - change (bits p~0) with (String (Ascii.ascii_of_N 48) (bits p)). cbn [unbits].
    destruct (bits p) eqn:E; [by destruct p|]. by rewrite IH.
Qed.

Definition demo_decode {C} (de : json -> option C) (token key : string) (v : validation) (now : Z) : result C jwt_error :=
  match unbits token ≫= decode (A:=string * json) with
  | Some (signer, claims) =>
      if String.eqb signer key then
        match de claims with
        | None => Err OtherJwtError
        | Some c =>
            match claims with
            | JObject ms =>
                match member "exp" ms with
                | Some (JNumber exp) => if (exp <? now - va_leeway v)%Z then Err ExpiredSignature else Ok c
                | _ => Err OtherJwtError
                end
            | _ => Err OtherJwtError
            end
        end
      else Err OtherJwtError
  | None => Err OtherJwtError
  end.

(** A key says what it is. *)
Definition demo_secret (secret : string) : string := "key:" +:+ secret.
Definition demo_family (k : string) : key_family := if String.prefix "pem:" k then EdFamily else HmacFamily.

#[export] Instance engine : JwtEngine := {
  encoding_key := string; decoding_key := string;
  enc_from_secret s := demo_secret s; dec_from_secret s := demo_secret s;
  enc_from_ed_pem s := Ok ("pem:" +:+ s); dec_from_ed_pem s := Ok ("pem:" +:+ s);
  jwt_encode a claims k :=
    if decide (family a = demo_family k) then Ok (bits (encode (k, claims))) else Err "InvalidAlgorithm";
  jwt_decode C de token k v now := demo_decode de token k v now
}.

#[export] Instance semantics : JwtSemantics.
Proof.
  refine {| paired := fun (k : @encoding_key engine) (d : @decoding_key engine) => k = d;
            family_of_key := (demo_family : @encoding_key engine -> key_family) |}.
  - done.
  - done.
  - intros pem k E. simpl in E. injection E as <-. by destruct pem.
  - intros a claims k Hf. unfold jwt_encode, engine. rewrite decide_True by exact Hf. by eexists.
  - intros a claims k Hf. unfold jwt_encode, engine. rewrite decide_False by exact Hf. by eexists.
  - intros C de a members exp k d v token now -> _ _ _ Hexp Henc. simpl in *. case_decide; [|done]. injection Henc as <-.
    unfold demo_decode. rewrite unbits_bits. simpl. rewrite decode_encode. rewrite String.eqb_refl.
    destruct (de (JObject members)); [|done]. by rewrite Hexp.
Defined.

Definition service : jwt_service := JwtService (Some (demo_secret "secret")) (demo_secret "secret") HS256 (Validation HS256 60 true false) 3600.

Lemma service_new : jwt_new (options_new "secret") = Ok service.
Proof. done. Qed.

(** A token of noon is good at one o'clock, and expired a minute and a second later. *)
Lemma signed_token_valid_until_expiry_witness :
  exists token, sign service (JObject [("exp", JNumber (expiry service 43200)); ("sub", JString "ada")]) = Ok token /\
    verify Some service token 46860 = Ok (JObject [("exp", JNumber (expiry service 43200)); ("sub", JString "ada")]).
Proof.
  destruct (signed_token_valid_until_expiry Some (options_new "secret") service (demo_secret "secret") [("sub", JString "ada")]
    43200 46860 service_new eq_refl (secret_paired "secret") eq_refl ltac:(by vm_compute)) as ((token & Hs & Hv) & _).
  exists token. split; [exact Hs|exact Hv].
Defined.

Example token_expires :
  (token ← result_ok (sign service (JObject [("exp", JNumber (expiry service 43200))]));
   Some (verify Some service token 46861)) = Some (Err Expired).
Proof. vm_compute. reflexivity. Qed.

(** The fields of the options are public: an algorithm of another family is accepted at the boot, and
    fails when the first token is signed. *)
Example misfit_options_boot :
  exists s, jwt_new (JwtOptions (Hmac "secret") EdDSA 3600) = Ok s /\
    sign s (JObject []) = Err (Failed "InvalidAlgorithm").
Proof. by eexists. Qed.

#[export] Instance oauth : OAuthEngine (list (string * string)) := {
  url_parses u := bool_decide (is_Some (strip_prefix "https://" u));
  authorize_url c csrf pkce := auth_url c +:+ "?state=" +:+ csrf;
  request_token c code pkce w := (Ok ("token-for-" +:+ code), w ++ [(code, pkce)])
}.

Definition config : oauth_config :=
  OAuth2Config "demo" "secret" "https://provider/authorize" "https://provider/token" "https://app/callback"
    "https://provider/userinfo" ["read:user"].

Lemma oauth_exchange_bound_to_transaction_witness :
  exists az, oauth_authorize config service 43200 "state-1" "verifier-1" = Ok az /\
    oauth_exchange config service 43260 (az_transaction az) "state-1" "code" [] = (Ok "token-for-code", [("code", "verifier-1")]) /\
    oauth_exchange config service 43260 (az_transaction az) "state-2" "code" [] = (Err (Failed "OAuth state mismatch"), []).
Proof.
  destruct (oauth_exchange_bound_to_transaction config (options_new "secret") service (demo_secret "secret") 43200 43260
    "state-1" "verifier-1" [] service_new eq_refl (secret_paired "secret") ltac:(by vm_compute) ltac:(by vm_compute)
    ltac:(by vm_compute)) as ((az & Ha & _ & Hx) & _).
  exists az. split; [exact Ha|]. split; [exact (Hx "state-1" "code")|exact (Hx "state-2" "code")].
Defined.

End AuthDemo.
