(* ===== verification/Bridges.v ===== *)
(** Data access away from the task of a request: a WebSocket message is handled by the task of its
    connection ([nestrs-authz-ws/src/bridge.rs]), a data loader's batch by a task that async-graphql
    spawns ([nestrs-graphql/src/loader.rs], [nestrs-authz-graphql/src/loader.rs]) and a job by a worker
    ([nestrs-orm/src/worker.rs]).  Each bridge installs the task-locals the code needs.

    A task starts with empty task-locals.  Those of a connection's task are part of the application
    state its handlers act on; installing them for a message puts the outer ones back afterwards, a
    panic included. *)

From S2P Require Import Prelude Container Codegen Authz Http Orm AuthzHttp Graphql Schedule Ws.

Section socket.
Context {X W T : Type} `{Orm} `{!Extension X ability} `{Wire}.

(** ** Messages of a connection *)

Record captured_context := CapturedContext { cc_executor : executor T; cc_ability : option ability }.

Context `{!Extension X captured_context}.

(** [WsDataContext::capture], on the request the connection's guards have let through. *)
Definition ws_capture (req : request X) : X := erase (CapturedContext Pool (ext_get req)).

Definition set_ambient (env : ambient T) (w : world (ambient T * W)) : world (ambient T * W) :=
  World (w_server w) (w_chans w) (env, (w_app w).2).

Definition restored (env : ambient T) (r : result (ws_reply * world (ambient T * W)) (world (ambient T * W)))
  : result (ws_reply * world (ambient T * W)) (world (ambient T * W)) :=
  match r with Ok (reply, w) => Ok (reply, set_ambient env w) | Err w => Err (set_ambient env w) end.

(** [WsDataContext::around]: what does not downcast runs as it is. *)
Definition ws_around (captured : X) : socket_context (ambient T * W) := fun inner w =>
  match recover captured with
  | None => inner w
  | Some cx =>
      let env := (w_app w).1 in
      let run env := inner (set_ambient env w) in
      restored env (match cc_ability cx with
                    | Some ab => with_executor (cc_executor cx) (under_ability ab run) env
                    | None => with_executor (cc_executor cx) run env
                    end)
  end.

End socket.

(** ** Batches of a loader *)

Section loaders.
Context {W T : Type} `{Payloads} `{Orm}.

Definition batch_future : Type := ambient T -> W -> W.

(** What a spawned batch does to the world when its task runs. *)
Definition batch_task_spawner : Type := batch_future -> W -> W.

(** [BatchContext]: its [spawner] reads the task-locals it is called under. *)
Definition batch_context : Type := ambient T -> batch_task_spawner.

(** [LoaderScope::spawner]. *)
Definition loader_scope : batch_context := fun env =>
  let ability := current_ability (amb_ability env) in
  fun fut w =>
    let scoped := with_executor Pool fut in
    match ability with
    | Some ab => under_ability ab (fun env => scoped env w) no_ambient
    | None => scoped no_ambient w
    end.

Definition batch_spawner (bound : option batch_context) (env : ambient T) : batch_task_spawner :=
  match bound with
  | Some ctx => ctx env
  | None => fun fut w => fut no_ambient w
  end.

(** [LoaderRegistration], by what the emitted [seed] does: the loader of a service. *)
Record loader_registration := LoaderRegistration { lr_name : string; lr_service : ty; lr_missing : string }.

(** A [DataLoader] in the data of a request. *)
Record data_loader := DataLoader { dl_name : string; dl_service : val; dl_spawner : batch_task_spawner }.

Definition loader_seed (reg : loader_registration) (c : container) (bound : option batch_context) (env : ambient T)
    (data : list data_loader) : result (list data_loader) panic :=
  let? service := expect (get (lr_service reg) c) (lr_missing reg) in
  Ok (data ++ [DataLoader (lr_name reg) service (batch_spawner bound env)]).

(** [LoaderExtension::prepare_request]: every registration of the binary is seeded. *)
Definition prepare_request (inventory : list loader_registration) (c : container) (bound : option batch_context)
    (env : ambient T) (data : list data_loader) : result (list data_loader) panic :=
  for_each (fun data reg => loader_seed reg c bound env data) inventory data.

End loaders.

(** ** Jobs of a worker *)

(** [WorkerDbContext]. *)
Definition worker_db_context {W T : Type} `{Orm} : job_context (ambient T * W) :=
  {| jc_scope := fun X inner s =>
       with_executor Pool (fun env => let '(s1, x) := inner ((env, s.1.2), s.2) in ((s.1.1, s1.2), x)) s.1.1 |}.

(** ** Lemmas *)

Section bridged.
Context {X W T : Type} `{Orm} `{!Extension X ability} `{Wire} `{!Extension X (captured_context (T:=T))}.

Lemma ws_around_capture (req : request X) inner (w : world (ambient T * W)) :
  ws_around (ws_capture (T:=T) req) inner w
  = restored (w_app w).1 (inner (set_ambient
      (Ambient (Some Pool) (match ext_get req with Some ab => Some ab | None => amb_ability (w_app w).1 end)) w)).
Proof. unfold ws_around, ws_capture. rewrite recover_erase. simpl. by destruct (ext_get req). Qed.

Lemma loader_scope_env (env : ambient T) (fut : batch_future (W:=W)) w :
  batch_spawner (Some loader_scope) env fut w = fut (Ambient (Some Pool) (amb_ability env)) w.
Proof. unfold batch_spawner, loader_scope, current_ability. by destruct (amb_ability env). Qed.

(** A loader is seeded for every registration, or a service is missing and the request panics. *)
Lemma prepare_request_ok `{Payloads} inventory c (bound : option (batch_context (W:=W) (T:=T))) env data out :
  prepare_request inventory c bound env data = Ok out ->
  exists services, Forall2 (fun reg v => get (lr_service reg) c = Some v) inventory services /\
    out = data ++ zip_with (fun reg v => DataLoader (lr_name reg) v (batch_spawner bound env)) inventory services.
Proof.
  revert data. induction inventory as [|reg inventory IH]; intros data; cbn.
  { intros [= <-]. exists []. by rewrite app_nil_r. }
  unfold loader_seed. destruct (get (lr_service reg) c) as [v|] eqn:E; [|done]. cbn. intros Hp.
  destruct (IH _ Hp) as (services & Hs & ->). exists (v :: services). split; [by constructor|]. by rewrite <-app_assoc.
Qed.

End bridged.

Section granted.
Context {X W T Actor : Type} `{SqlSemantics} `{!Extension X ability} `{!Extension X Actor} `{Wire}
  `{!Extension X (captured_context (T:=T))} `{!Queries W T} `{!QuerySemantics W T}.

(** The caller's identity follows the work off the request's task.  After the guards of an upgrade
    or of an operation have built the ability of its actor, a message whose guards pass runs its own
    handler, and a batch of a loader runs, on the pool - never on the transaction of a request - under
    exactly that ability, whatever was ambient; and every listing read there returns the rows the
    actor's rules select, each of which its instance check grants. *)
Lemma off_request_reads_are_granted (define_actor : Actor -> list rule_spec) (req req1 : request X) (env0 : ambient T) (w0 w1 : W)
    (auth abil : guard X W (ambient T)) :
  ability_guard define_actor env0 req w0 = (Ok tt, req1, w1) ->
  exists actor, ext_get req = Some actor /\ let env := request_env Pool (define_actor actor) in
  (forall hs client text event data h (w : world (ambient T * W)),
     NoDup (map h_event hs) -> decode text = Ok (event, data) -> h ∈ hs -> h_event h = event ->
     for_each (fun _ guard => guard client event data) (h_guards h) tt = Ok tt ->
     handle_text hs (messages_guards hs) (Some (ws_around (ws_capture (T:=T) req1))) client text w =
     (let? r := restored (w_app w).1 (handler_arm h client data (set_ambient env w)) in Ok (render_reply event r.1, r.2))) /\
  (forall (fut : batch_future (W:=W)) (resp : response) env1 w,
     og_around (ability_bridge auth abil) req1 (fun env w => (resp, batch_spawner (Some loader_scope) env fut w)) env1 w
     = (resp, fut env w)) /\
  (forall e w ms w1, repo_all e env w = (Ok ms, w1) ->
     ms ≡ₚ filter (selects (condition_for (define (define_actor actor)) Read e)) (rows Pool e w) /\
     Forall (fun m => well_typed (define_actor actor) Read e m -> can (define (define_actor actor)) Read e m = Some true) ms).
Proof.
  unfold ability_guard. intros Hg. destruct (ext_get req) as [actor|]; [|done]. injection Hg as <- _.
  exists actor. split; [done|]. cbv zeta. split; [|split].
  - intros hs client text event data h w Hnd Hd Hin He Hpass. erewrite handle_text_handler by eassumption. rewrite Hpass.
    rewrite ws_around_capture, ext_get_insert. reflexivity.
  - intros fut resp env1 w. cbn [og_around ability_bridge]. rewrite ext_get_insert. unfold under_ability, with_ability.
    by rewrite loader_scope_env.
  - intros e w ms w2. apply repo_all_granted.
Qed.

End granted.

(** ** A gateway that lists users *)

Module BridgesDemo.
Import AuthzDemo OrmDemo.

Inductive ext :=
| XAbility (ab : ability)
| XActor (org : Z)
| XCaptured (cx : captured_context (T:=unit)).

#[export] Instance ability_ext : Extension ext ability.
Proof.
  refine {| ext_key := TArc (TNamed "Ability"); erase := XAbility;
            recover x := match x with XAbility ab => Some ab | _ => None end |}. done.
Defined.

#[export] Instance actor_ext : Extension ext Z.
Proof.
  refine {| ext_key := TNamed "Actor"; erase := XActor;
            recover x := match x with XActor o => Some o | _ => None end |}. done.
Defined.

#[export] Instance captured_ext : Extension ext (captured_context (T:=unit)).
Proof.
  refine {| ext_key := TNamed "CapturedContext"; erase := XCaptured;
            recover x := match x with XCaptured cx => Some cx | _ => None end |}. done.
Defined.

#[export] Existing Instance WsDemo.wire.

Definition show_ids (ms : list row) : string := String.concat "," (map (fun m => show_u64 (demo_id users m)) ms).

(** [#[subscribe_message("users")]]: a listing through the ambient repository. *)
Definition list_users : handler (ambient unit * OrmDemo.world) := Handler "users" [] None false
  (fun _ _ w => let '(r, db) := repo_all users (w_app w).1 (w_app w).2 in
     let w' := Ws.World (w_server w) (w_chans w) ((w_app w).1, db) in
     match r with Ok ms => Ok (Ok (JString (show_ids ms)), w') | Err _ => Ok (Err "no executor", w') end).

Definition org_rules (org : Z) : list rule_spec := [spec_when (PEq "org" (Some org)) (spec_can Read users)].

Definition upgrade (org : Z) : request ext := ext_insert org (Request GET "/ws" [] [] "" ∅).
Definition upgraded (org : Z) : request ext := ext_insert (define (org_rules org)) (upgrade org).

(** The task of a connection: no task-locals. *)
Definition socket_world : Ws.world (ambient unit * OrmDemo.world) := Ws.World ws_server_default ∅ (no_ambient, start).

Definition reply_of (req : request ext) : option string :=
  match handle_text [list_users] (messages_guards [list_users]) (Some (ws_around (ws_capture req))) 0 "users" socket_world with
  | Ok (frame, _) => frame
  | Err _ => None
  end.

Lemma off_request_reads_are_granted_witness :
  handle_text [list_users] (messages_guards [list_users]) (Some (ws_around (ws_capture (upgraded 2)))) 0 "users" socket_world
  = Ok (Some "users:2", socket_world) /\
  exists ms w1, repo_all users (request_env Pool (org_rules 2)) start = (Ok ms, w1) /\
    Forall (fun m => can (define (org_rules 2)) Read users m = Some true) ms.
Proof.
  assert (ability_guard (X:=ext) (W:=OrmDemo.world) (T:=unit) org_rules no_ambient (upgrade 2) start = (Ok tt, upgraded 2, start))
    as Hguard by (unfold ability_guard, upgraded, upgrade; by rewrite ext_get_insert).
  pose proof (off_request_reads_are_granted org_rules (upgrade 2) (upgraded 2) no_ambient start start
    (fun _ req w => (Ok tt, req, w)) (fun _ req w => (Ok tt, req, w)) Hguard) as (actor & Ha & Hws & _ & Hread).
  injection Ha as <-. split.
  - refine (eq_trans (Hws [list_users] 0%Z "users" "users" JNull list_users socket_world _ eq_refl _ eq_refl eq_refl) _).
    + apply (bool_decide_unpack _). by vm_compute.
    + left.
    + by vm_compute.
  - eexists _, _. split; [reflexivity|].
    eapply Forall_impl; [exact (proj2 (Hread users start _ start eq_refl))|]. intros m Hm. apply Hm, demo_well_typed.
Defined.

(** A connection without an ability - a guest, or a gateway whose guards build none - reads every row. *)
Example guest_reads_are_unscoped :
  reply_of (upgraded 1) = Some "users:3,1" /\ reply_of (upgrade 1) = Some "users:3,2,1".
Proof. split; vm_compute; reflexivity. Qed.

(** With no [BatchContext] bound a batch starts with no executor, and its reads fail. *)
Example unbound_batch_has_no_executor :
  batch_spawner (W := OrmDemo.world * list string) None (request_env Pool specs)
    (fun env w => (w.1, match (repo_all users env w.1).1 with Ok ms => [show_ids ms] | Err _ => ["error"] end)) (start, [])
  = (start, ["error"]).
Proof. vm_compute. reflexivity. Qed.

(** A job reads on the pool, with no ability: unscoped. *)
Example job_reads_are_unscoped :
  run_in_job_context (Some worker_db_context)
    (fun s : ambient unit * OrmDemo.world => (s, result_map show_ids (repo_all users s.1 s.2).1)) (no_ambient, start)
  = Ok ((no_ambient, start), Ok "3,2,1").
Proof. vm_compute. reflexivity. Qed.

End BridgesDemo.
