(* ===== verification/Js.v ===== *)
(** What the vendored JavaScript of the documentation page uses of the language: the errors it throws,
    the 32-bit operators, strings by code unit and the character classes of its regular expressions,
    with the arithmetic of the operators. *)

From S2P Require Import Prelude.
Open Scope Z_scope.

Inductive js_error :=
| JsError (message : string)
| RangeError
| TypeError.

(** ** JavaScript's 32-bit operators *)

(** [ToInt32]. *)
Definition to_int32 (x : Z) : Z := (x + 2 ^ 31) `mod` 2 ^ 32 - 2 ^ 31.

Definition js_shl (x n : Z) : Z := to_int32 (Z.shiftl (to_int32 x) n).
Definition js_shr (x n : Z) : Z := Z.shiftr (to_int32 x) n.
Definition js_and (x y : Z) : Z := Z.land (to_int32 x) (to_int32 y).
Definition js_or (x y : Z) : Z := Z.lor (to_int32 x) (to_int32 y).

Definition units (s : string) : list Z := (fun c => Z.of_nat (Ascii.nat_of_ascii c)) <$> chars s.

(** [s.charCodeAt(i)] and [a[i]]: [NaN] and [undefined] are [None]. *)
Definition at_ {A} (s : list A) (i : Z) : option A := if i <? 0 then None else s !! Z.to_nat i.
Definition num (o : option Z) : Z := default 0 o.

(** ** Strings

    A JavaScript string is a [string] here where only ASCII matters to the code. *)

(** [\w]. *)
Definition word_char (c : Ascii.ascii) : bool :=
  let n := Ascii.nat_of_ascii c in
  (48 <=? n)%nat && (n <=? 57)%nat || (65 <=? n)%nat && (n <=? 90)%nat || (97 <=? n)%nat && (n <=? 122)%nat || (n =? 95)%nat.

Definition lower_char (c : Ascii.ascii) : Ascii.ascii :=
  let n := Ascii.nat_of_ascii c in if (65 <=? n)%nat && (n <=? 90)%nat then Ascii.ascii_of_nat (n + 32) else c.
Definition upper_char (c : Ascii.ascii) : Ascii.ascii :=
  let n := Ascii.nat_of_ascii c in if (97 <=? n)%nat && (n <=? 122)%nat then Ascii.ascii_of_nat (n - 32) else c.

Definition to_lower_case (s : string) : string := of_chars (map lower_char (chars s)).
Definition to_upper_case (s : string) : string := of_chars (map upper_char (chars s)).

(** ** Arithmetic of the operators *)

Lemma to_int32_small x : - 2 ^ 31 <= x < 2 ^ 31 -> to_int32 x = x.
Proof. intros ?. unfold to_int32. rewrite Z.mod_small; lia. Qed.

Lemma js_shl_small x n : 0 <= n -> 0 <= x -> x * 2 ^ n < 2 ^ 31 -> js_shl x n = x * 2 ^ n.
Proof.
  intros ???. assert (1 <= 2 ^ n) by (apply (Z.pow_le_mono_r 2 0 n); lia).
  unfold js_shl. rewrite (to_int32_small x) by nia. rewrite Z.shiftl_mul_pow2 by lia.
  apply to_int32_small. nia.
Qed.

Lemma js_shr_small x n : 0 <= n -> 0 <= x < 2 ^ 31 -> js_shr x n = x / 2 ^ n.
Proof. intros ??. unfold js_shr. rewrite to_int32_small by lia. apply Z.shiftr_div_pow2. lia. Qed.

Lemma js_and_ones x n : 0 <= n < 31 -> 0 <= x < 2 ^ 31 -> js_and x (Z.ones n) = x `mod` 2 ^ n.
Proof.
  intros ??. unfold js_and. rewrite (to_int32_small x) by lia.
  assert (2 ^ n <= 2 ^ 31) by (apply Z.pow_le_mono_r; lia).
  assert (0 < 2 ^ n) by (apply Z.pow_pos_nonneg; lia).
  rewrite to_int32_small by (rewrite Z.ones_equiv; lia). apply Z.land_ones. lia.
Qed.

Lemma js_and_63 x : 0 <= x < 2 ^ 31 -> js_and x 63 = x `mod` 64.
Proof. apply (js_and_ones x 6). lia. Qed.

Lemma js_and_comm x y : js_and x y = js_and y x.
Proof. apply Z.land_comm. Qed.

Lemma js_and_255 x : 0 <= x < 2 ^ 31 -> js_and x 255 = x `mod` 256.
Proof. apply (js_and_ones x 8). lia. Qed.

(** A disjunction of disjoint bits is a sum. *)
Lemma lor_add x y n : 0 <= n -> 0 <= y < 2 ^ n -> Z.lor (x * 2 ^ n) y = x * 2 ^ n + y.
Proof.
  intros ??. rewrite <-Z.add_lor_land, <-Z.shiftl_mul_pow2 by lia.
  enough (Z.land (Z.shiftl x n) y = 0) by lia.
  apply Z.bits_inj'. intros k ?. rewrite Z.land_spec, Z.bits_0.
  destruct (Z.ltb_spec k n); [by rewrite Z.shiftl_spec_low by lia|].
  rewrite <-(Z.mod_small y (2 ^ n)), Z.mod_pow2_bits_high by lia. apply andb_false_r.
Qed.

Lemma js_or_add x y n : 0 <= n -> 0 <= x -> 0 <= y < 2 ^ n -> x * 2 ^ n + y < 2 ^ 31 ->
  js_or (x * 2 ^ n) y = x * 2 ^ n + y.
Proof.
  intros. unfold js_or. assert (0 < 2 ^ n) by (apply Z.pow_pos_nonneg; lia).
  rewrite !to_int32_small by nia. by apply lor_add.
Qed.

(** A decidable property of the numbers below a bound, checked on each of them. *)
Lemma below_decide (P : Z -> Prop) `{!forall x, Decision (P x)} (n x : Z) :
  forallb (fun x => bool_decide (P x)) (Z.of_nat <$> seq 0 (Z.to_nat n)) = true -> 0 <= x < n -> P x.
Proof.
  intros Hall ?. rewrite forallb_forall in Hall. apply (bool_decide_eq_true_1 (P x)), Hall.
  apply list_elem_of_In, list_elem_of_fmap. exists (Z.to_nat x). split; [lia|]. apply elem_of_seq. lia.
Qed.

