(* ===== verification/Base64.v ===== *)
(** Base64, as the page that documents the API carries it: the [base64-js] module of the vendored
    Swagger UI (module [67526] on the second line of
    [nestrs-openapi/assets/swagger-ui-bundle.js], and again as module [7526] of
    [swagger-ui-standalone-preset.js]) and the URL-safe rewriting its PKCE code verifier goes through
    ([b64toB64UrlEncoded]).

    A JavaScript string is the list of its UTF-16 code units, a [Uint8Array] a list of fixed length:
    a write outside it does nothing, a read outside it is [undefined], which every operator here
    coerces to zero.  The bitwise operators work on 32-bit integers. *)

From S2P Require Import Prelude Js.
Open Scope Z_scope.

(** [s.indexOf(c)]: [-1] when absent. *)
Definition index_of (c : Z) (s : list Z) : Z :=
  match list_find (eq c) s with
  | Some (i, _) => Z.of_nat i
  | None => -1
  end.

(** ** The module *)

Definition code_table : list Z := units "ABCDEFGHIJKLMNOPQRSTUVWXYZabcdefghijklmnopqrstuvwxyz0123456789+/".

Definition rev_table : gmap Z Z :=
  <[95 := 63]> (<[45 := 62]>
    (foldl (fun m w => match at_ code_table w with Some c => <[c := w]> m | None => m end) ∅
      (Z.of_nat <$> seq 0 64))).

(** [i[n]], a one-character string. *)
Definition sextet (n : Z) : list Z := match at_ code_table n with Some c => [c] | None => units "undefined" end.
Definition unsextet (c : option Z) : Z := num (c ≫= (rev_table !!.)).

Definition equals : Z := 61.

Definition get_lens (s : list Z) : result (Z * Z) js_error :=
  let len := Z.of_nat (length s) in
  if 0 <? Z.rem len 4 then Err (JsError "Invalid string. Length must be a multiple of 4") else
  let i := index_of equals s in
  let valid := if i =? -1 then len else i in
  Ok (valid, if valid =? len then 0 else 4 - Z.rem valid 4).

(** The exported [byteLength] and the [_byteLength] that [toByteArray] declares in its body: two
    copies of the computation.  Divisions are by numbers that divide. *)
Definition byte_length (s : list Z) : result Z js_error :=
  let? (valid, placeholders) := get_lens s in Ok (3 * (valid + placeholders) / 4 - placeholders).

Definition byte_length_of (valid placeholders : Z) : Z := 3 * (valid + placeholders) / 4 - placeholders.

(** [new Uint8Array(n)]. *)
Definition uint8_array (n : Z) : result (list Z) js_error :=
  if n <? 0 then Err RangeError else Ok (replicate (Z.to_nat n) 0).

(** [C[j] = v]. *)
Definition set_at (j v : Z) (arr : list Z) : list Z := <[Z.to_nat j := v `mod` 256]> arr.

(** [for (i = 0; i < L; i += 4) { .. }], from the state it has reached; the fuel bounds the turns. *)
Fixpoint decode_loop (fuel : nat) (s : list Z) (l i j : Z) (arr : list Z) : Z * Z * list Z :=
  match fuel with
  | O => (i, j, arr)
  | S fuel =>
      if i <? l then
        let o := js_or (js_or (js_or (js_shl (unsextet (at_ s i)) 18) (js_shl (unsextet (at_ s (i + 1))) 12))
                          (js_shl (unsextet (at_ s (i + 2))) 6)) (unsextet (at_ s (i + 3))) in
        let arr := set_at j (js_and (js_shr o 16) 255) arr in
        let arr := set_at (j + 1) (js_and (js_shr o 8) 255) arr in
        let arr := set_at (j + 2) (js_and 255 o) arr in
        decode_loop fuel s l (i + 4) (j + 3) arr
      else (i, j, arr)
  end.

Definition to_byte_array (s : list Z) : result (list Z) js_error :=
  let? (valid, placeholders) := get_lens s in
  let? arr := uint8_array (byte_length_of valid placeholders) in
  let l := if 0 <? placeholders then valid - 4 else valid in
  let '(i, j, arr) := decode_loop (S (length s)) s l 0 0 arr in
  if placeholders =? 2 then
    let o := js_or (js_shl (unsextet (at_ s i)) 2) (js_shr (unsextet (at_ s (i + 1))) 4) in
    Ok (set_at j (js_and 255 o) arr)
  else if placeholders =? 1 then
    let o := js_or (js_or (js_shl (unsextet (at_ s i)) 10) (js_shl (unsextet (at_ s (i + 1))) 4))
               (js_shr (unsextet (at_ s (i + 2))) 2) in
    let arr := set_at j (js_and (js_shr o 8) 255) arr in
    Ok (set_at (j + 1) (js_and 255 o) arr)
  else Ok arr.

Definition triplet_to_base64 (n : Z) : list Z :=
  sextet (js_and (js_shr n 18) 63) ++ sextet (js_and (js_shr n 12) 63)
  ++ sextet (js_and (js_shr n 6) 63) ++ sextet (js_and 63 n).

(** [for (x = o; x < a; x += 3) w.push(..)]. *)
Fixpoint chunk_loop (fuel : nat) (s : list Z) (x a : Z) : list (list Z) :=
  match fuel with
  | O => []
  | S fuel =>
      if x <? a then
        let u := js_and (js_shl (num (at_ s x)) 16) 16711680
                 + js_and (js_shl (num (at_ s (x + 1))) 8) 65280
                 + js_and 255 (num (at_ s (x + 2))) in
        triplet_to_base64 u :: chunk_loop fuel s (x + 3) a
      else []
  end.

Definition encode_chunk (s : list Z) (start finish : Z) : list Z :=
  concat (chunk_loop (S (length s)) s start finish).

Definition max_chunk_length : Z := 16383.

(** [for (x = 0; x < C; x += w) _.push(encodeChunk(s, x, x + w > C ? C : x + w))]. *)
Fixpoint chunks_loop (fuel : nat) (s : list Z) (x c : Z) : list (list Z) :=
  match fuel with
  | O => []
  | S fuel =>
      if x <? c then
        encode_chunk s x (if c <? x + max_chunk_length then c else x + max_chunk_length)
        :: chunks_loop fuel s (x + max_chunk_length) c
      else []
  end.

Definition from_byte_array (s : list Z) : list Z :=
  let len := Z.of_nat (length s) in
  let extra := Z.rem len 3 in
  let parts := chunks_loop (S (length s)) s 0 (len - extra) in
  concat (parts ++
    if extra =? 1 then
      let o := num (at_ s (len - 1)) in
      [sextet (js_shr o 2) ++ sextet (js_and (js_shl o 4) 63) ++ [equals; equals]]
    else if extra =? 2 then
      let o := js_shl (num (at_ s (len - 2))) 8 + num (at_ s (len - 1)) in
      [sextet (js_shr o 10) ++ sextet (js_and (js_shr o 4) 63)
       ++ sextet (js_and (js_shl o 2) 63) ++ [equals]]
    else []).

(** [s.replace(/\+/g, "-").replace(/\//g, "_").replace(/=/g, "")]. *)
Definition replace_all (c : Z) (by_ : list Z) (s : list Z) : list Z :=
  s ≫= (fun d => if d =? c then by_ else [d]).

Definition b64_to_b64_url_encoded (s : list Z) : list Z :=
  replace_all equals [] (replace_all 47 [95] (replace_all 43 [45] s)).

(** ** The encoding as RFC 4648 states it *)

Definition alpha (n : Z) : Z := num (at_ code_table n).

Fixpoint rfc4648 (bs : list Z) : list Z :=
  match bs with
  | a :: b :: c :: bs' =>
      alpha (a / 4) :: alpha (a `mod` 4 * 16 + b / 16) :: alpha (b `mod` 16 * 4 + c / 64)
      :: alpha (c `mod` 64) :: rfc4648 bs'
  | [a; b] => [alpha (a / 4); alpha (a `mod` 4 * 16 + b / 16); alpha (b `mod` 16 * 4); equals]
  | [a] => [alpha (a / 4); alpha (a `mod` 4 * 16); equals; equals]
  | [] => []
  end.

Definition byte (b : Z) : Prop := 0 <= b < 256.

(** The URL-safe alphabet. *)
Definition url_safe (c : Z) : bool :=
  (48 <=? c) && (c <=? 57) || (65 <=? c) && (c <=? 90) || (97 <=? c) && (c <=? 122) || (c =? 45) || (c =? 95).

(** ** The characters *)

Lemma sextet_alpha n : 0 <= n < 64 -> sextet n = [alpha n].
Proof.
  intros ?. by apply (below_decide (fun n => sextet n = [alpha n]) 64).
Qed.

Lemma unsextet_alpha n : 0 <= n < 64 -> unsextet (Some (alpha n)) = n.
Proof.
  intros ?. by apply (below_decide (fun n => unsextet (Some (alpha n)) = n) 64).
Qed.

Lemma alpha_not_equals n : alpha n <> equals.
Proof.
  unfold alpha, at_. destruct (Z.ltb_spec n 0); [done|]. destruct (code_table !! Z.to_nat n) eqn:E; [|done].
  assert (Forall (fun c => c <> equals) code_table) as Hl by (by vm_compute; repeat constructor).
  by eapply Forall_lookup in Hl.
Qed.

(** Splits [a / n] and [a mod n] into their defining inequalities. *)
Ltac div_mod := Z.div_mod_to_equations; lia.

Lemma four_sextets v0 v1 v2 v3 : 0 <= v0 < 64 -> 0 <= v1 < 64 -> 0 <= v2 < 64 -> 0 <= v3 < 64 ->
  js_or (js_or (js_or (js_shl v0 18) (js_shl v1 12)) (js_shl v2 6)) v3
  = v0 * 2 ^ 18 + v1 * 2 ^ 12 + v2 * 2 ^ 6 + v3.
Proof.
  intros. rewrite !js_shl_small by lia. rewrite (js_or_add v0 _ 18) by lia.
  replace (v0 * 2 ^ 18 + v1 * 2 ^ 12) with ((v0 * 64 + v1) * 2 ^ 12) by lia.
  rewrite (js_or_add (v0 * 64 + v1) _ 12) by lia.
  replace ((v0 * 64 + v1) * 2 ^ 12 + v2 * 2 ^ 6) with ((v0 * 4096 + v1 * 64 + v2) * 2 ^ 6) by lia.
  rewrite (js_or_add (v0 * 4096 + v1 * 64 + v2) _ 6) by lia. lia.
Qed.

Lemma sextet_of u n : 0 <= u < 2 ^ 31 -> 0 <= n ->
  sextet (js_and (js_shr u n) 63) = [alpha ((u / 2 ^ n) `mod` 64)].
Proof.
  intros ??. assert (1 <= 2 ^ n) by (apply (Z.pow_le_mono_r 2 0 n); lia).
  assert (0 <= u / 2 ^ n < 2 ^ 31).
  { split; [apply Z.div_pos; lia|]. apply Z.div_lt_upper_bound; nia. }
  rewrite js_shr_small, js_and_63 by lia. apply sextet_alpha. apply Z.mod_pos_bound. lia.
Qed.

Lemma triplet_alpha a b c : byte a -> byte b -> byte c ->
  triplet_to_base64 (js_and (js_shl a 16) 16711680 + js_and (js_shl b 8) 65280 + js_and 255 c)
  = [alpha (a / 4); alpha (a `mod` 4 * 16 + b / 16); alpha (b `mod` 16 * 4 + c / 64); alpha (c `mod` 64)].
Proof.
  intros Ha Hb Hc. unfold byte in *.
  assert (js_and (js_shl a 16) 16711680 = a * 65536) as ->.
  { by apply (below_decide (fun a => js_and (js_shl a 16) 16711680 = a * 65536) 256). }
  assert (js_and (js_shl b 8) 65280 = b * 256) as ->.
  { by apply (below_decide (fun b => js_and (js_shl b 8) 65280 = b * 256) 256). }
  rewrite (js_and_comm 255), js_and_255, (Z.mod_small c) by lia. unfold triplet_to_base64.
  rewrite (js_and_comm 63), !sextet_of, js_and_63, sextet_alpha by (try apply Z.mod_pos_bound; lia).
  simpl. change (Z.pow_pos 2 18) with 262144. change (Z.pow_pos 2 12) with 4096. change (Z.pow_pos 2 6) with 64.
  repeat (apply f_equal2; [apply f_equal; div_mod|]). done.
Qed.

(** ** Lists and their indices *)

Lemma at_app_l {A} (p : list A) x q i : i = Z.of_nat (length p) -> at_ (p ++ x :: q) i = Some x.
Proof.
  intros ->. unfold at_. destruct (Z.ltb_spec (Z.of_nat (length p)) 0); [lia|].
  by rewrite Nat2Z.id, list_lookup_middle.
Qed.

Lemma set_at_app p v x q j : j = Z.of_nat (length p) -> byte v -> set_at j v (p ++ x :: q) = p ++ v :: q.
Proof.
  intros -> [??]. unfold set_at. rewrite Nat2Z.id, Z.mod_small by lia.
  by rewrite insert_app_r_alt, Nat.sub_diag by lia.
Qed.

(** The list has [k] elements after the position: they are the next to be read. *)
Lemma at_app_r {A} (p q : list A) i k : i = Z.of_nat (length p) + Z.of_nat k -> at_ (p ++ q) i = q !! k.
Proof.
  intros ->. unfold at_. destruct (Z.ltb_spec (Z.of_nat (length p) + Z.of_nat k) 0); [lia|].
  rewrite lookup_app_r by lia. f_equal. lia.
Qed.

Lemma index_of_absent l : Forall (fun c => c <> equals) l -> index_of equals l = -1.
Proof.
  intros Hl. unfold index_of. destruct (list_find (eq equals) l) as [[i c]|] eqn:E; [|done].
  apply list_find_Some in E as (Hi & <- & _). by eapply Forall_lookup in Hl.
Qed.

Lemma index_of_app l r : Forall (fun c => c <> equals) l -> index_of equals (l ++ equals :: r) = Z.of_nat (length l).
Proof.
  intros Hl. unfold index_of. erewrite (proj2 (list_find_Some _ _ (length l) equals)); [done|].
  rewrite list_lookup_middle by done. split_and!; [done|done|].
  intros j c Hj Hlt <-. rewrite lookup_app_l in Hj by done. by eapply Forall_lookup in Hl.
Qed.

(** ** Whole triplets *)

(** [triplets bs k]: [bs] is [k] triplets of bytes. *)
Inductive triplets : list Z -> nat -> Prop :=
| triplets_nil : triplets [] 0
| triplets_cons a b c bs k : byte a -> byte b -> byte c -> triplets bs k -> triplets (a :: b :: c :: bs) (S k).

Lemma triplets_length bs k : triplets bs k -> length bs = (3 * k)%nat.
Proof. induction 1; simpl; lia. Qed.

Lemma triplets_split bs : Forall byte bs ->
  exists full tail k, bs = full ++ tail /\ triplets full k /\ (length tail < 3)%nat.
Proof.
  induction bs as [bs IH] using (induction_ltof1 _ (@length Z)). unfold ltof in IH. intros Hbs.
  destruct bs as [|a [|b [|c bs]]];
    [exists [], [], O | exists [], [a], O | exists [], [a; b], O | ]; try (simpl; split_and!; [done|constructor|lia]).
  repeat match goal with H : Forall byte (_ :: _) |- _ => apply Forall_cons in H as [? H] end.
  destruct (IH bs) as (full & tail & k & -> & ? & ?); [simpl; lia|done|].
  exists (a :: b :: c :: full), tail, (S k). split_and!; [done|by constructor|done].
Qed.

Lemma triplets_app_split bs n m : triplets bs (n + m) -> exists l r, bs = l ++ r /\ triplets l n /\ triplets r m.
Proof.
  revert bs. induction n as [|n IH]; intros bs Hbs; [exists [], bs; split_and!; [done|constructor|done]|].
  inversion Hbs as [|a b c bs' k ??? Hrest]; subst. destruct (IH _ Hrest) as (l & r & -> & ? & ?).
  exists (a :: b :: c :: l), r. split_and!; [done|by constructor|done].
Qed.

Lemma rfc4648_app full tail k : triplets full k -> rfc4648 (full ++ tail) = rfc4648 full ++ rfc4648 tail.
Proof. induction 1 as [|a b c bs k ???? IH]; [done|]. simpl. by rewrite IH. Qed.

Lemma rfc4648_length full k : triplets full k -> length (rfc4648 full) = (4 * k)%nat.
Proof. induction 1; simpl; lia. Qed.

Lemma rfc4648_no_equals full k : triplets full k -> Forall (fun c => c <> equals) (rfc4648 full).
Proof. induction 1; simpl; repeat constructor; auto using alpha_not_equals. Qed.

(** ** Encoding *)

Lemma chunk_loop_spec pre full post k fuel x a : triplets full k -> (k < fuel)%nat ->
  x = Z.of_nat (length pre) -> a = x + 3 * Z.of_nat k ->
  concat (chunk_loop fuel (pre ++ full ++ post) x a) = rfc4648 full.
Proof.
  intros Hfull. revert pre fuel x a. induction Hfull as [|b0 b1 b2 bs k ???? IH]; intros pre fuel x a Hf -> ->.
  - destruct fuel; [lia|]. cbn [chunk_loop]. by destruct (Z.ltb_spec (Z.of_nat (length pre)) (Z.of_nat (length pre) + 3 * Z.of_nat 0)); [lia|].
  - destruct fuel as [|fuel]; [lia|]. cbn [chunk_loop].
    destruct (Z.ltb_spec (Z.of_nat (length pre)) (Z.of_nat (length pre) + 3 * Z.of_nat (S k))); [|lia].
    rewrite (at_app_r pre _ _ 0), (at_app_r pre _ _ 1), (at_app_r pre _ _ 2) by lia. cbn [lookup list_lookup app num].
    cbn [default from_option id]. rewrite triplet_alpha by done. cbn [concat rfc4648 app]. do 4 f_equal.
    change (b0 :: b1 :: b2 :: bs ++ post) with ([b0; b1; b2] ++ bs ++ post). rewrite app_assoc.
    apply IH; [lia|rewrite length_app; simpl; lia|lia].
Qed.

Lemma encode_chunk_spec pre full post k : triplets full k ->
  encode_chunk (pre ++ full ++ post) (Z.of_nat (length pre)) (Z.of_nat (length pre) + 3 * Z.of_nat k) = rfc4648 full.
Proof.
  intros Hfull. eapply chunk_loop_spec; [done| |done|done].
  rewrite !length_app, (triplets_length full k) by done. lia.
Qed.

Lemma chunks_loop_spec k pre full post fuel x c : triplets full k -> (k < fuel)%nat ->
  x = Z.of_nat (length pre) -> c = x + 3 * Z.of_nat k ->
  concat (chunks_loop fuel (pre ++ full ++ post) x c) = rfc4648 full.
Proof.
  revert pre full fuel x c. induction k as [k IH] using lt_wf_ind. intros pre full fuel x c Hfull Hf -> ->.
  destruct fuel as [|fuel]; [lia|]. cbn [chunks_loop].
  destruct (Z.ltb_spec (Z.of_nat (length pre)) (Z.of_nat (length pre) + 3 * Z.of_nat k)); cycle 1.
  { destruct k; [|lia]. by inversion Hfull. }
  cbn [concat]. destruct (Z.ltb_spec (Z.of_nat (length pre) + 3 * Z.of_nat k) (Z.of_nat (length pre) + max_chunk_length)).
  - rewrite encode_chunk_spec by done. destruct fuel; [by rewrite app_nil_r|]. cbn [chunks_loop].
    destruct (Z.ltb_spec (Z.of_nat (length pre) + max_chunk_length) (Z.of_nat (length pre) + 3 * Z.of_nat k)); [lia|].
    apply app_nil_r.
  - unfold max_chunk_length in *.
    assert (exists m, Z.of_nat m = 5461) as [m Hm] by (exists (Z.to_nat 5461); lia).
    replace k with (m + (k - m))%nat in Hfull by lia.
    apply triplets_app_split in Hfull as (l & r & -> & Hl & Hr). rewrite (rfc4648_app _ _ _ Hl).
    rewrite <-app_assoc. replace 16383 with (3 * Z.of_nat m) by lia.
    rewrite (encode_chunk_spec _ _ _ _ Hl). f_equal. rewrite app_assoc.
    apply (IH (k - m)%nat); [lia|done|lia| |lia].
    rewrite length_app, (triplets_length _ _ Hl). lia.
Qed.

(** The two ends of a list that is not made of whole triplets. *)
Lemma from_byte_array_rfc4648_aux bs : Forall byte bs -> from_byte_array bs = rfc4648 bs.
Proof.
  intros Hbs. destruct (triplets_split bs Hbs) as (full & tail & k & -> & Hfull & Htail).
  apply Forall_app in Hbs as [_ Hb]. rewrite (rfc4648_app _ _ _ Hfull). unfold from_byte_array.
  pose proof (triplets_length _ _ Hfull) as Hlen.
  assert (Z.rem (Z.of_nat (length (full ++ tail))) 3 = Z.of_nat (length tail)) as Hrem.
  { rewrite length_app, Z.rem_mod_nonneg by lia.
    replace (Z.of_nat (length full + length tail)) with (Z.of_nat (length tail) + Z.of_nat k * 3) by lia.
    rewrite Z.mod_add by lia. apply Z.mod_small. lia. }
  rewrite Hrem, concat_app. f_equal.
  { apply (chunks_loop_spec k [] full tail); [done|rewrite length_app; lia|done|rewrite length_app; simpl; lia]. }
  destruct tail as [|a [|b [|]]]; [done| | |simpl in Htail; lia];
    repeat match goal with H : Forall byte (_ :: _) |- _ => apply Forall_cons in H as [? H] end;
    cbn [length]; unfold byte in *.
  - change (Z.of_nat 1 =? 1) with true. cbv iota. rewrite (at_app_l full a []) by (rewrite length_app; simpl; lia).
    cbn [num default from_option id]. rewrite js_shl_small, js_shr_small, js_and_63, !sextet_alpha by (try apply Z.mod_pos_bound; div_mod).
    simpl. change (Z.pow_pos 2 4) with 16. change (Z.pow_pos 2 2) with 4.
    repeat (apply f_equal2; [try apply f_equal; div_mod|]). done.
  - change (Z.of_nat 2 =? 1) with false. change (Z.of_nat 2 =? 2) with true. cbv iota.
    rewrite (at_app_l full a [b]) by (rewrite length_app; simpl; lia).
    replace (full ++ [a; b]) with ((full ++ [a]) ++ [b]) by by rewrite <-app_assoc.
    rewrite (at_app_l (full ++ [a]) b []) by (rewrite !length_app; simpl; lia).
    cbn [num default from_option id]. rewrite (js_shl_small a 8) by lia.
    rewrite sextet_of, js_shl_small, js_and_63, js_shr_small by lia. rewrite !sextet_alpha by (try apply Z.mod_pos_bound; div_mod).
    simpl. change (Z.pow_pos 2 8) with 256. change (Z.pow_pos 2 10) with 1024. change (Z.pow_pos 2 4) with 16. change (Z.pow_pos 2 2) with 4.
    repeat (apply f_equal2; [try apply f_equal; div_mod|]). done.
Qed.

(** ** Decoding *)

Lemma set_at_next p u v x q j : j = Z.of_nat (length p) + 1 -> byte v ->
  set_at j v (p ++ u :: x :: q) = p ++ u :: v :: q.
Proof.
  intros -> ?. rewrite !(cons_middle u), !(app_assoc p). apply set_at_app; [|done].
  rewrite length_app. simpl. lia.
Qed.

Lemma set_at_three p a b c r0 r1 r2 q j : j = Z.of_nat (length p) -> byte a -> byte b -> byte c ->
  set_at (j + 2) c (set_at (j + 1) b (set_at j a (p ++ r0 :: r1 :: r2 :: q))) = p ++ a :: b :: c :: q.
Proof.
  intros -> ???. rewrite set_at_app, set_at_next by done. rewrite (cons_middle a), app_assoc.
  rewrite set_at_next by (done || (rewrite length_app; simpl; lia)). by rewrite <-app_assoc.
Qed.

Lemma decode_loop_spec full k pre post fuel l i j out rest : triplets full k -> (k < fuel)%nat ->
  i = Z.of_nat (length pre) -> i + 4 * Z.of_nat k - 4 < l <= i + 4 * Z.of_nat k -> (3 * k <= length rest)%nat ->
  j = Z.of_nat (length out) ->
  decode_loop fuel (pre ++ rfc4648 full ++ post) l i j (out ++ rest)
  = (i + 4 * Z.of_nat k, j + 3 * Z.of_nat k, out ++ full ++ drop (3 * k) rest).
Proof.
  intros Hfull. revert pre fuel i j out rest.
  induction Hfull as [|a b c bs k Ha Hb Hc Hfull IH]; intros pre fuel i j out rest Hf -> Hl Hrest ->.
  - destruct fuel; [lia|]. cbn [decode_loop]. destruct (Z.ltb_spec (Z.of_nat (length pre)) l); [lia|].
    simpl. by rewrite !Z.add_0_r.
  - destruct fuel as [|fuel]; [lia|]. cbn [decode_loop]. destruct (Z.ltb_spec (Z.of_nat (length pre)) l); [|lia].
    rewrite (at_app_r pre _ _ 0), (at_app_r pre _ _ 1), (at_app_r pre _ _ 2), (at_app_r pre _ _ 3) by lia.
    cbn [rfc4648 app lookup list_lookup]. unfold byte in *.
    rewrite !unsextet_alpha by div_mod. rewrite four_sextets by div_mod.
    set (o := _ + c `mod` 64). assert (o = a * 65536 + b * 256 + c) as -> by (unfold o; div_mod).
    rewrite (js_and_comm 255), !js_shr_small, !js_and_255 by (lia || div_mod).
    destruct rest as [|r0 [|r1 [|r2 rest]]]; cbn [length] in Hrest; try lia.
    rewrite (set_at_three out) by (done || (apply Z.mod_pos_bound; lia)).
    replace (((a * 65536 + b * 256 + c) / 2 ^ 16) `mod` 256) with a by div_mod.
    replace (((a * 65536 + b * 256 + c) / 2 ^ 8) `mod` 256) with b by div_mod.
    replace ((a * 65536 + b * 256 + c) `mod` 256) with c by div_mod.
    change (out ++ a :: b :: c :: rest) with (out ++ [a; b; c] ++ rest). rewrite (app_assoc out).
    set (q := [alpha (a / 4); alpha (a `mod` 4 * 16 + b / 16); alpha (b `mod` 16 * 4 + c / 64); alpha (c `mod` 64)]).
    match goal with |- context [decode_loop _ (pre ++ ?u)] => change u with (q ++ rfc4648 bs ++ post) end.
    rewrite (app_assoc pre). rewrite IH by (rewrite ?length_app; simpl; lia).
    rewrite <-app_assoc. replace (3 * S k)%nat with (S (S (S (3 * k)))) by lia.
    apply f_equal2; [apply f_equal2; lia|done].
Qed.

(** Where the padding starts, and what it says. *)
Lemma get_lens_rfc4648 full tail k : triplets full k -> (length tail < 3)%nat ->
  get_lens (rfc4648 (full ++ tail))
  = Ok (4 * Z.of_nat k + match tail with [] => 0 | [_] => 2 | _ => 3 end,
        match tail with [] => 0 | [_] => 2 | _ => 1 end).
Proof.
  intros Hfull Htail. rewrite (rfc4648_app _ _ _ Hfull). unfold get_lens.
  pose proof (rfc4648_length _ _ Hfull) as Hlen. pose proof (rfc4648_no_equals _ _ Hfull) as Hne.
  destruct tail as [|a [|b [|]]]; [| | |simpl in Htail; lia]; cbn [rfc4648].
  - rewrite app_nil_r, index_of_absent by done. rewrite Z.rem_mod_nonneg, Hlen by lia.
    replace (Z.of_nat (4 * k) `mod` 4) with 0 by div_mod. cbn [Z.ltb Z.compare Z.eqb].
    rewrite Z.eqb_refl, Pos.eqb_refl. apply f_equal, f_equal2; lia.
  - rewrite !(app_assoc (rfc4648 full) [_; _] (equals :: _) : rfc4648 full ++ _ :: _ :: equals :: _ = _).
    rewrite index_of_app by (apply Forall_app; split; [done|repeat constructor; apply alpha_not_equals]).
    rewrite !length_app, Hlen. cbn [length]. rewrite Z.rem_mod_nonneg by lia.
    replace (Z.of_nat (4 * k + 2 + 2) `mod` 4) with 0 by div_mod. cbn [Z.ltb Z.compare].
    destruct (Z.eqb_spec (Z.of_nat (4 * k + 2)) (-1)); [lia|].
    destruct (Z.eqb_spec (Z.of_nat (4 * k + 2)) (Z.of_nat (4 * k + 2 + 2))); [lia|].
    rewrite Z.rem_mod_nonneg by lia. apply f_equal, f_equal2; [lia|div_mod].
  - rewrite !(app_assoc (rfc4648 full) [_; _; _] [equals] : rfc4648 full ++ _ :: _ :: _ :: [equals] = _).
    rewrite index_of_app by (apply Forall_app; split; [done|repeat constructor; apply alpha_not_equals]).
    rewrite !length_app, Hlen. cbn [length]. rewrite Z.rem_mod_nonneg by lia.
    replace (Z.of_nat (4 * k + 3 + 1) `mod` 4) with 0 by div_mod. cbn [Z.ltb Z.compare].
    destruct (Z.eqb_spec (Z.of_nat (4 * k + 3)) (-1)); [lia|].
    destruct (Z.eqb_spec (Z.of_nat (4 * k + 3)) (Z.of_nat (4 * k + 3 + 1))); [lia|].
    rewrite Z.rem_mod_nonneg by lia. apply f_equal, f_equal2; [lia|div_mod].
Qed.

Lemma decode_encoded full tail k : triplets full k -> (length tail < 3)%nat -> Forall byte tail ->
  to_byte_array (rfc4648 (full ++ tail)) = Ok (full ++ tail).
Proof.
  intros Hfull Htail Hb. unfold to_byte_array. rewrite (get_lens_rfc4648 _ _ _ Hfull Htail).
  pose proof (triplets_length _ _ Hfull) as Hlen. pose proof (rfc4648_length _ _ Hfull) as Hlen4.
  rewrite (rfc4648_app _ _ _ Hfull). cbn [result_bind]. unfold byte_length_of, uint8_array.
  set (n := match tail with [] => 0 | [_] => 1 | _ => 2 end).
  set (p := match tail with [] => 0 | [_] => 2 | _ => 1 end).
  replace (3 * _ / 4 - p) with (3 * Z.of_nat k + n) by (unfold n, p; destruct tail as [|? [|? [|]]]; simpl in Htail; div_mod).
  destruct (Z.ltb_spec (3 * Z.of_nat k + n) 0); [unfold n in *; destruct tail as [|? []]; lia|]. cbn [result_bind].
  rewrite (decode_loop_spec full k [] (rfc4648 tail) _ _ 0 0 [] (replicate (Z.to_nat (3 * Z.of_nat k + n)) 0));
    [|done|rewrite length_app; lia|done| |rewrite length_replicate; unfold n; destruct tail as [|? []]; lia|done]; cycle 1.
  { unfold p. destruct tail as [|? [|? [|]]]; simpl in Htail; cbn [Z.ltb Z.compare]; lia. }
  rewrite drop_replicate. cbn [app]. rewrite !Z.add_0_l.
  destruct tail as [|a [|b [|]]]; [| | |simpl in Htail; lia]; unfold n, p in *; clear n p;
    repeat match goal with H : Forall byte (_ :: _) |- _ => apply Forall_cons in H as [? H] end;
    unfold byte in *; cbn [Z.eqb Pos.eqb].
  - by replace (Z.to_nat (3 * Z.of_nat k + 0) - 3 * k)%nat with O by lia.
  - rewrite (at_app_r (rfc4648 full) _ _ 0), (at_app_r (rfc4648 full) _ _ 1) by lia. cbn [rfc4648 lookup list_lookup].
    rewrite !unsextet_alpha by div_mod. rewrite js_shl_small, js_shr_small by div_mod.
    rewrite (js_or_add _ _ 2) by div_mod. rewrite js_and_comm, js_and_255 by div_mod.
    replace (Z.to_nat (3 * Z.of_nat k + 1) - 3 * k)%nat with 1%nat by lia. cbn [replicate].
    rewrite set_at_app by (lia || (apply Z.mod_pos_bound; lia)).
    replace ((a / 4 * 2 ^ 2 + a `mod` 4 * 16 / 2 ^ 4) `mod` 256) with a by div_mod. done.
  - rewrite (at_app_r (rfc4648 full) _ _ 0), (at_app_r (rfc4648 full) _ _ 1), (at_app_r (rfc4648 full) _ _ 2) by lia.
    cbn [rfc4648 lookup list_lookup].
    rewrite !unsextet_alpha by div_mod. rewrite !js_shl_small, (js_shr_small _ 2) by div_mod.
    rewrite (js_or_add (a / 4) _ 10) by div_mod.
    set (u := a `mod` 4 * 16 + b / 16).
    replace (a / 4 * 2 ^ 10 + u * 2 ^ 4) with ((a / 4 * 64 + u) * 2 ^ 4) by lia.
    rewrite (js_or_add _ _ 4) by (unfold u; div_mod). rewrite (js_and_comm 255), js_shr_small, !js_and_255 by (unfold u; div_mod).
    replace (Z.to_nat (3 * Z.of_nat k + 2) - 3 * k)%nat with 2%nat by lia. cbn [replicate].
    rewrite set_at_app, set_at_next by (lia || (apply Z.mod_pos_bound; lia)).
    do 3 f_equal; [|f_equal]; unfold u; div_mod.
Qed.

(** The length announced for an encoding, before it is decoded. *)
Lemma byte_length_encoded full tail k : triplets full k -> (length tail < 3)%nat ->
  byte_length (rfc4648 (full ++ tail)) = Ok (Z.of_nat (length (full ++ tail))).
Proof.
  intros Hfull Htail. unfold byte_length. rewrite (get_lens_rfc4648 _ _ _ Hfull Htail).
  cbn [result_bind]. rewrite length_app, (triplets_length _ _ Hfull).
  f_equal. destruct tail as [|? [|? [|]]]; simpl in Htail |- *; div_mod.
Qed.

(** ** The URL-safe form *)

(** The three rewritings, character by character. *)
Definition url_unit (c : Z) : list Z :=
  if c =? 43 then [45] else if c =? 47 then [95] else if c =? equals then [] else [c].

Lemma b64_url_units s : b64_to_b64_url_encoded s = s ≫= url_unit.
Proof.
  unfold b64_to_b64_url_encoded, replace_all. induction s as [|c s IH]; [done|].
  rewrite !bind_cons, !bind_app, IH. f_equal. unfold url_unit.
  destruct (Z.eqb_spec c 43) as [->|]; [done|]. cbn. destruct (Z.eqb_spec c 47) as [->|]; [done|].
  cbn. by destruct (c =? equals).
Qed.

Definition url_char (c : Z) : Z := if c =? 43 then 45 else if c =? 47 then 95 else c.

Lemma url_text l : Forall (fun c => c <> equals) l -> l ≫= url_unit = url_char <$> l.
Proof.
  induction 1 as [|c l Hc _ IH]; [done|]. rewrite bind_cons, fmap_cons, IH. unfold url_unit, url_char.
  destruct (c =? 43), (c =? 47), (Z.eqb_spec c equals); done.
Qed.

Lemma url_padding n : replicate n equals ≫= url_unit = [].
Proof. induction n as [|n IH]; [done|]. cbn [replicate]. by rewrite bind_cons, IH. Qed.

Lemma url_char_equals c : url_char c = equals <-> c = equals.
Proof.
  unfold url_char, equals. destruct (Z.eqb_spec c 43), (Z.eqb_spec c 47); split; intros; subst; (done || lia).
Qed.

Lemma unsextet_url c : unsextet (url_char <$> c) = unsextet c.
Proof.
  destruct c as [c|]; [|done]. cbn. unfold url_char.
  destruct (Z.eqb_spec c 43) as [->|]; [done|]. by destruct (Z.eqb_spec c 47) as [->|].
Qed.

Lemma at_url s i : at_ (url_char <$> s) i = url_char <$> at_ s i.
Proof. unfold at_. destruct (i <? 0); [done|]. apply list_lookup_fmap. Qed.

Lemma index_of_url s : index_of equals (url_char <$> s) = index_of equals s.
Proof.
  unfold index_of. rewrite list_find_fmap. f_equal.
  rewrite (list_find_ext (eq equals ∘ url_char) (eq equals)).
  - by destruct (list_find (eq equals) s) as [[]|].
  - intros c. simpl. pose proof (url_char_equals c). naive_solver.
Qed.

Lemma get_lens_url s : get_lens (url_char <$> s) = get_lens s.
Proof. unfold get_lens. by rewrite index_of_url, length_fmap. Qed.

Lemma decode_loop_url fuel s l i j arr : decode_loop fuel (url_char <$> s) l i j arr = decode_loop fuel s l i j arr.
Proof.
  revert i j arr. induction fuel as [|fuel IH]; intros i j arr; [done|]. simpl.
  destruct (i <? l); [|done]. by rewrite IH, !at_url, !unsextet_url.
Qed.

(** The decoder accepts either alphabet. *)
Lemma to_byte_array_url s : to_byte_array (url_char <$> s) = to_byte_array s.
Proof.
  unfold to_byte_array. rewrite get_lens_url, length_fmap. destruct (get_lens s) as [[valid p]|]; [|done]. cbn [result_bind].
  destruct (uint8_array _) as [arr|]; [|done]. cbn [result_bind]. rewrite decode_loop_url.
  match goal with |- context [decode_loop ?f s ?l 0 0 arr] => destruct (decode_loop f s l 0 0 arr) as [[i j] arr'] end.
  by rewrite !at_url, !unsextet_url.
Qed.

Lemma alpha_url_safe n : 0 <= n < 64 -> url_safe (url_char (alpha n)) = true.
Proof. intros ?. by apply (below_decide (fun n => url_safe (url_char (alpha n)) = true) 64). Qed.


(** An encoding is its text, then its padding. *)
Lemma rfc4648_text full tail k : triplets full k -> (length tail < 3)%nat -> Forall byte tail ->
  exists text p, rfc4648 (full ++ tail) = text ++ replicate p equals /\
    p = match tail with [] => 0%nat | [_] => 2%nat | _ => 1%nat end /\
    Forall (fun c => c <> equals /\ url_safe (url_char c) = true) text /\ (length text + p = 4 * k + 4 * Nat.min 1 (length tail))%nat.
Proof.
  intros Hfull Htail Hb. rewrite (rfc4648_app _ _ _ Hfull).
  assert (forall n, 0 <= n < 64 -> alpha n <> equals /\ url_safe (url_char (alpha n)) = true) as Ha.
  { intros n ?. split; [apply alpha_not_equals|by apply alpha_url_safe]. }
  assert (Forall (fun c => c <> equals /\ url_safe (url_char c) = true) (rfc4648 full)) as Htext.
  { clear Hb Htail. induction Hfull as [|a b c bs k Hx Hy Hz ? IH]; [done|]. unfold byte in *. cbn [rfc4648].
    repeat (apply Forall_cons; split; [apply Ha; div_mod|]). done. }
  pose proof (rfc4648_length _ _ Hfull).
  destruct tail as [|a [|b [|]]]; [| | |simpl in Htail; lia];
    repeat match goal with H : Forall byte (_ :: _) |- _ => apply Forall_cons in H as [? H] end;
    unfold byte in *; cbn [rfc4648].
  - exists (rfc4648 full), O. split_and!; [done|done|done|simpl; lia].
  - exists (rfc4648 full ++ [alpha (a / 4); alpha (a `mod` 4 * 16)]), 2%nat.
    split_and!; [by rewrite <-app_assoc|done| |rewrite length_app; simpl; lia].
    apply Forall_app. split; [done|]. repeat (apply Forall_cons; split; [apply Ha; div_mod|]). done.
  - exists (rfc4648 full ++ [alpha (a / 4); alpha (a `mod` 4 * 16 + b / 16); alpha (b `mod` 16 * 4)]), 1%nat.
    split_and!; [by rewrite <-app_assoc|done| |rewrite length_app; simpl; lia].
    apply Forall_app. split; [done|]. repeat (apply Forall_cons; split; [apply Ha; div_mod|]). done.
Qed.

(** ** Properties *)

(** [C39] The vendored codec is RFC 4648: cutting the input into chunks of 16383 bytes never shows,
    [fromByteArray] is the standard encoding of every byte array, [toByteArray] reads it back and
    [byteLength] tells how many bytes that gives; and
    the form [b64toB64UrlEncoded] makes of it for a PKCE code verifier has only unreserved characters
    and is decoded to the same bytes once padded to a multiple of four. *)
Theorem base64_round_trip (bs : list Z) (Hbs : Forall byte bs) :
  from_byte_array bs = rfc4648 bs /\
  to_byte_array (from_byte_array bs) = Ok bs /\
  byte_length (from_byte_array bs) = Ok (Z.of_nat (length bs)) /\
  let url := b64_to_b64_url_encoded (from_byte_array bs) in
  Forall (fun c => url_safe c = true) url /\
  to_byte_array (url ++ replicate ((4 - length url mod 4) mod 4) equals) = Ok bs.
Proof.
  rewrite from_byte_array_rfc4648_aux by done. split; [done|].
  destruct (triplets_split bs Hbs) as (full & tail & k & -> & Hfull & Htail).
  apply Forall_app in Hbs as [_ Hb]. pose proof (decode_encoded _ _ _ Hfull Htail Hb) as Hdec. split; [done|].
  split; [by apply (byte_length_encoded _ _ k)|].
  destruct (rfc4648_text _ _ _ Hfull Htail Hb) as (text & p & Hrfc & Hp & Htext & Hlen). rewrite Hrfc in *.
  assert (Forall (fun c => c <> equals) text) by (eapply Forall_impl; [exact Htext|]; by intros c [? _]).
  rewrite b64_url_units, bind_app, url_text by done.
  rewrite url_padding, app_nil_r. cbv zeta. split.
  { apply Forall_fmap. eapply Forall_impl; [exact Htext|]. by intros c [_ ?]. }
  rewrite length_fmap. replace ((4 - length text mod 4) mod 4)%nat with p.
  { replace (replicate p equals) with (url_char <$> replicate p equals) by by rewrite fmap_replicate.
    rewrite <-fmap_app, to_byte_array_url. exact Hdec. }
  pose proof (Nat.div_mod_eq (length text) 4) as Hmod. pose proof (Nat.mod_upper_bound (length text) 4).
  assert (p < 4)%nat by (subst p; destruct tail as [|? [|]]; lia).
  remember (length text mod 4)%nat as r eqn:Er. clear Er.
  assert (r = (4 - p) mod 4)%nat as -> by (destruct p as [|[|[|[|]]]]; simpl; lia).
  by destruct p as [|[|[|[|]]]]; simpl; lia || done.
Qed.

Lemma set_at_length j v arr : length (set_at j v arr) = length arr.
Proof. apply length_insert. Qed.

Lemma set_at_bytes j v arr : Forall byte arr -> Forall byte (set_at j v arr).
Proof.
  intros Harr. unfold set_at. apply Forall_insert; [done|]. apply Z.mod_pos_bound. lia.
Qed.

#[local] Hint Resolve set_at_bytes : nestrs.

Lemma decode_loop_array fuel s l i j arr : Forall byte arr ->
  length (decode_loop fuel s l i j arr).2 = length arr /\ Forall byte (decode_loop fuel s l i j arr).2.
Proof.
  revert i j arr. induction fuel as [|fuel IH]; intros i j arr Harr; [done|]. cbn [decode_loop].
  destruct (i <? l); [|done]. cbv zeta. edestruct (IH (i + 4) (j + 3)) as [-> ?]; [eauto with nestrs|].
  by rewrite !set_at_length.
Qed.

(** Where the first padding character is. *)
Lemma index_of_range s : index_of equals s = -1 \/ 0 <= index_of equals s < Z.of_nat (length s).
Proof.
  unfold index_of. destruct (list_find (eq equals) s) as [[i c]|] eqn:E; [|by left]. right.
  apply list_find_Some in E as (Hi & _). apply lookup_lt_Some in Hi. lia.
Qed.

Lemma index_of_head s : index_of equals s = 0 <-> head s = Some equals.
Proof.
  unfold index_of. destruct s as [|c s]; [done|]. cbn [list_find head]. destruct (decide (equals = c)) as [<-|Hne].
  - done.
  - split; [|congruence]. destruct (list_find (eq equals) s) as [[i d]|]; simpl; lia.
Qed.

(** The size of the output of a text of whole quadruplets. *)
Lemma get_lens_size s : Z.of_nat (length s) `mod` 4 = 0 ->
  exists valid p, get_lens s = Ok (valid, p) /\ (byte_length_of valid p < 0 <-> head s = Some equals).
Proof.
  intros Hlen. unfold get_lens. cbv zeta. rewrite (Z.rem_mod_nonneg (Z.of_nat (length s))), Hlen by lia. cbn [Z.ltb Z.compare].
  pose proof (index_of_range s) as Hi. pose proof (index_of_head s) as Hhead.
  destruct (Z.eqb_spec (index_of equals s) (-1)) as [E|].
  - rewrite Z.eqb_refl. eexists _, _. split; [done|].
    rewrite <-Hhead. unfold byte_length_of. div_mod.
  - destruct Hi as [?|Hi]; [done|]. set (i := index_of equals s) in *.
    destruct (Z.eqb_spec i (Z.of_nat (length s))); [lia|]. eexists _, _. split; [done|].
    rewrite <-Hhead, Z.rem_mod_nonneg by lia. unfold byte_length_of. div_mod.
Qed.

(** Decoding any text whatever: one whose length is not a multiple of four is refused, one that
    starts with the padding character makes the allocation throw, and every other text - foreign
    characters and misplaced padding included, which are never reported - yields exactly [byteLength]
    bytes. *)
Lemma base64_decode_outcome (s : list Z) :
  if decide (Z.of_nat (length s) `mod` 4 <> 0) then exists e, to_byte_array s = Err (JsError e)
  else if decide (head s = Some equals) then to_byte_array s = Err RangeError
  else exists arr, to_byte_array s = Ok arr /\ byte_length s = Ok (Z.of_nat (length arr)) /\ Forall byte arr.
Proof.
  destruct (decide (Z.of_nat (length s) `mod` 4 <> 0)) as [Hlen|Hlen].
  { unfold to_byte_array, get_lens. cbv zeta. rewrite (Z.rem_mod_nonneg (Z.of_nat (length s))) by lia.
    destruct (Z.ltb_spec 0 (Z.of_nat (length s) `mod` 4)); [by eexists|].
    pose proof (Z.mod_pos_bound (Z.of_nat (length s)) 4). lia. }
  apply dec_stable in Hlen. destruct (get_lens_size s Hlen) as (valid & p & Hlens & Hsize).
  unfold to_byte_array, byte_length. rewrite Hlens. cbn [result_bind]. unfold uint8_array.
  destruct (decide (head s = Some equals)) as [Hhead|Hhead]; destruct (Z.ltb_spec (byte_length_of valid p) 0);
    [done|apply Hsize in Hhead; lia|tauto|].
  cbn [result_bind]. set (arr0 := replicate _ 0).
  assert (Forall byte arr0) as Harr by (by apply Forall_replicate).
  match goal with |- context [decode_loop ?f s ?l 0 0 arr0] => pose proof (decode_loop_array f s l 0 0 arr0 Harr) as [Hl Hb];
    destruct (decode_loop f s l 0 0 arr0) as [[i j] arr] end.
  cbn [snd] in *. assert (Z.of_nat (length arr) = byte_length_of valid p) as Hz by (rewrite Hl; unfold arr0; rewrite length_replicate; lia).
  destruct (p =? 2); [|destruct (p =? 1)]; eexists; (split; [done|]); rewrite ?set_at_length, Hz; auto with nestrs.
Qed.

(** ** Concrete runs *)

Module Base64Demo.

Lemma base64_round_trip_witness : Forall byte [77; 97; 110; 251; 255] /\
  to_byte_array (from_byte_array [77; 97; 110; 251; 255]) = Ok [77; 97; 110; 251; 255] /\
  byte_length (from_byte_array [77; 97; 110; 251; 255]) = Ok 5.
Proof.
  assert (Forall byte [77; 97; 110; 251; 255]) as H by (repeat constructor; unfold byte; lia).
  destruct (base64_round_trip [77; 97; 110; 251; 255] H) as (_ & Hdec & Hlen & _). by split_and!.
Defined.

Example url_form :
  from_byte_array [77; 97; 110; 251; 255] = units "TWFu+/8=" /\
  b64_to_b64_url_encoded (from_byte_array [77; 97; 110; 251; 255]) = units "TWFu-_8".
Proof. split; vm_compute; reflexivity. Qed.

(** Misplaced padding is not refused: two bytes come out of eight characters of which four are padding. *)
Example malformed_padding_accepted :
  to_byte_array (units "AAAA====") = Ok [0; 0] /\ to_byte_array (units "====") = Err RangeError /\
  to_byte_array (units "*!*!") = Ok [0; 0; 0].
Proof. split_and!; vm_compute; reflexivity. Qed.

End Base64Demo.
