(* ===== verification/SwaggerUi.v ===== *)
(** How the documentation page reads the document: of the vendored Swagger UI
    ([nestrs-openapi/assets/swagger-ui-bundle.js], second line), the operation identifiers of
    swagger-client ([opId], [idFromPathMethod], [idFromPathMethodLegacy]), their normalisation for an
    OpenAPI 3.1 document ([normalize_operation_ids], a plugin of the [openapi-3-1-apidom] strategy) and
    the path from the button that tries an operation out to the operation the request is built for
    ([executeRequest], [buildRequest], [getOperationRaw]); and the top bar of
    [swagger-ui-standalone-preset.js].

    The document is the one [OpenApi] builds: [JSON.parse] gives back the tree that was rendered. *)

From Stdlib Require Import Ascii.
From S2P Require Import Prelude Http Js OpenApi.

(** ** Operation identifiers *)

(** [s.replace(/\W/gi, "_")]. *)
Definition replace_special_chars_with_underscore (s : string) : string :=
  of_chars (map (fun c => if word_char c then c else "_"%char) (chars s)).

(** [s.replace(/\s/g, "")]. *)
Definition remove_spaces (s : string) : string := of_chars (filter (fun c => is_space c = false) (chars s)).

(** The class of the compatibility mode: [[\s!@#$%^&*()_+=[{\]};:<>|./?,\\'""-]]. *)
Definition compat_special (c : Ascii.ascii) : bool :=
  is_space c || existsb (Ascii.eqb c) (chars "!@#$%^&*()_+=[{]};:<>|./?,\'-") || Ascii.eqb c (Ascii.ascii_of_nat 34).

(** [.replace(/((_){2,})/g, "_")]. *)
Fixpoint collapse (l : list Ascii.ascii) : list Ascii.ascii :=
  match l with
  | c :: l' =>
      match collapse l' with
      | d :: l'' => if Ascii.eqb c "_" && Ascii.eqb d "_" then d :: l'' else c :: d :: l''
      | [] => [c]
      end
  | [] => []
  end.

Fixpoint drop_underscores (l : list Ascii.ascii) : list Ascii.ascii :=
  match l with
  | c :: l' => if Ascii.eqb c "_" then drop_underscores l' else l
  | [] => []
  end.

Definition id_from_path_method (path_name method : string) (v2_compatibility : bool) : string :=
  if v2_compatibility then
    let i := map (fun c => if compat_special c then "_"%char else c)
               (chars (to_lower_case method +:+ "_" +:+ path_name)) in
    of_chars (rev (drop_underscores (rev (drop_underscores (collapse i)))))
  else to_lower_case method +:+ replace_special_chars_with_underscore path_name.

Definition id_from_path_method_legacy (path_name method : string) : string := to_lower_case method +:+ "-" +:+ path_name.

(** A value is an object or an array. *)
Definition is_object (v : json) : bool := match v with JObject _ | JArray _ => true | _ => false end.

(** [s.operationId || ""], on which a string method is called. *)
Definition operation_id_text (v : option json) : result string js_error :=
  match v with
  | None | Some JNull | Some (JBool false) | Some (JNumber 0) => Ok ""
  | Some (JString s) => Ok s
  | Some _ => Err TypeError
  end.

(** [opId]; [None] is [null]. *)
Definition op_id (operation : option json) (path_name method : string) (v2_compatibility : bool)
  : result (option string) js_error :=
  match operation with
  | Some op =>
      if is_object op then
        let? id := operation_id_text (map_get "operationId" (members op)) in
        Ok (Some (if String.eqb (remove_spaces id) "" then id_from_path_method path_name method v2_compatibility
                  else replace_special_chars_with_underscore id))
      else Ok None
  | None => Ok None
  end.

(** ** Walking the operations *)

(** [for (k in v)]. *)
Definition entries (v : json) : list (string * json) :=
  match v with
  | JObject m => m
  | JArray l => imap (fun i x => (show_u64 (Z.of_nat i), x)) l
  | _ => []
  end.

Record found := Found { fd_path_name : string; fd_method : string; fd_operation : json }.

(** [eachOperation]'s traversal, and its first hit. *)
Definition each_operation (spec : json) : list found :=
  match map_get "paths" (members spec) with
  | Some paths =>
      if is_object paths then
        entries paths ≫= fun pi =>
        entries pi.2 ≫= fun mo =>
          if String.eqb (to_upper_case mo.1) "PARAMETERS" then []
          else if is_object mo.2 then [Found pi.1 (to_upper_case mo.1) mo.2] else []
      else []
  | None => []
  end.

Fixpoint find_operation (pred : found -> result bool js_error) (l : list found) : result (option found) js_error :=
  match l with
  | [] => Ok None
  | x :: l' => let? hit := pred x in if hit then Ok (Some x) else find_operation pred l'
  end.

(** [[opId(..), idFromPathMethodLegacy(..), operationId].some(s => s && s === id)]. *)
Definition operation_matches (id : string) (x : found) : result bool js_error :=
  let? o := op_id (Some (fd_operation x)) (fd_path_name x) (fd_method x) false in
  let same s := negb (String.eqb s "") && String.eqb s id in
  Ok (match o with Some s => same s | None => false end
      || same (id_from_path_method_legacy (fd_path_name x) (fd_method x))
      || match map_get "operationId" (members (fd_operation x)) with Some (JString s) => same s | _ => false end).

Definition get_operation_raw (spec : json) (id : string) : result (option found) js_error :=
  find_operation (operation_matches id) (each_operation spec).

(** [executeRequest] names the operation it displays, [buildRequest] looks the name up; [None] is
    [OperationNotFoundError].  The request goes to the path and the method of what is found. *)
Definition execute_request (spec : json) (path_name method : string) (operation : json) : result (option found) js_error :=
  let computed :=
    if String.eqb path_name "" || String.eqb method "" then Ok None else op_id (Some operation) path_name method false in
  let? id := match map_get "operationId" (members operation) with
    | Some (JString s) => if String.eqb s "" then computed else Ok (Some s)
    | _ => computed
    end in
  match id with
  | Some id => get_operation_raw spec id
  | None => Ok None
  end.

(** ** The normalisation of a 3.1 document *)

(** [isOpenAPI31]: [/^3\.1\.(?:[1-9]\d*|0)$/]. *)
Definition is_openapi31 (spec : json) : bool :=
  match map_get "openapi" (members spec) with
  | Some (JString s) =>
      match strip_prefix "3.1." s with
      | Some patch => String.eqb patch "0" || negb (String.eqb patch "") && forallb is_digit (chars patch)
          && negb (match chars patch with c :: _ => Ascii.eqb c "0" | [] => true end)
      | None => false
      end
  | _ => false
  end.

(** An operation met by the visitor, its identifier and the one it had. *)
Record visited := Visited {
  vs_path : string;
  vs_method : string;
  vs_operation_id : option string;
  vs_original : option string
}.

(** [enter]: the operation is noted when its identifier was rewritten. *)
Definition enter_operation (o : visited) : visited * bool :=
  match vs_operation_id o with
  | None => (o, false)
  | Some id =>
      let z := if String.eqb (remove_spaces id) "" then id_from_path_method (vs_path o) (vs_method o) false
               else replace_special_chars_with_underscore id in
      if String.eqb id z then (o, false)
      else (Visited (vs_path o) (vs_method o) (Some z) (Some id), true)
  end.

(** [leave]: of the noted operations, those that share an identifier are numbered. *)
Fixpoint number_noted (noted : list (visited * bool)) (all : list (visited * bool)) (seen : list string) : list visited :=
  match noted with
  | [] => []
  | (o, b) :: rest =>
      match b, vs_operation_id o with
      | true, Some id =>
          let same (x : visited * bool) := x.2 && bool_decide (vs_operation_id x.1 = Some id) in
          let o' := if (length (filter (fun x => same x = true) all) <=? 1)%nat || String.eqb id "__proto__" then o
            else Visited (vs_path o) (vs_method o)
              (Some (id +:+ show_u64 (Z.of_nat (S (length (filter (eq id) seen)))))) (vs_original o) in
          o' :: number_noted rest all (seen ++ [id])
      | _, _ => o :: number_noted rest all seen
      end
  end.

Definition normalize_operation_ids (ops : list visited) : list visited :=
  let entered := map enter_operation ops in number_noted entered entered [].

(** ** The top bar of the standalone layout *)

Record spec_url := SpecUrl { su_url : string; su_name : string }.

Record configs := Configs {
  cf_urls : option (list spec_url);
  cf_primary_name : string;                (* [urls.primaryName]; the empty string is falsy *)
  cf_persist_authorization : bool
}.

(** What the component asks of the rest of the page, oldest first. *)
Inductive effect :=
| RestoreAuthorization
| UpdateUrl (url : string)
| Download (url : string)
| ReplaceState (primary_name : string).

Record top_bar := TopBar { tb_url : string; tb_selected_index : nat; tb_effects : list effect }.

Definition act (e : effect) (t : top_bar) : top_bar := TopBar (tb_url t) (tb_selected_index t) (tb_effects t ++ [e]).
Definition select (i : nat) (t : top_bar) : top_bar := TopBar (tb_url t) i (tb_effects t).

(** The constructor, and the props it later receives. *)
Definition top_bar_new (spec_url : string) : top_bar := TopBar spec_url 0 [].
Definition will_receive_props (spec_url : string) (t : top_bar) : top_bar :=
  TopBar spec_url (tb_selected_index t) (tb_effects t).
Definition on_url_change (value : string) (t : top_bar) : top_bar := TopBar value (tb_selected_index t) (tb_effects t).

Definition flush_auth_data (c : configs) (t : top_bar) : top_bar :=
  if cf_persist_authorization c then t else act RestoreAuthorization t.

Definition load_spec (c : configs) (url : string) (t : top_bar) : top_bar :=
  act (Download url) (act (UpdateUrl url) (flush_auth_data c t)).

Definition urls_of (c : configs) : list spec_url := default [] (cf_urls c).

(** [setSelectedUrl]: every entry with the address is selected in turn, the last remaining. *)
Definition set_selected_url (c : configs) (selected : string) (t : top_bar) : top_bar :=
  if String.eqb selected "" then t else
  foldl (fun t ie => if String.eqb (su_url ie.2) selected then act (ReplaceState (su_name ie.2)) (select ie.1 t) else t)
    t (imap pair (urls_of c)).

Definition on_url_select (c : configs) (url : string) (t : top_bar) : top_bar :=
  set_selected_url c url (load_spec c url t).

Definition download_url (c : configs) (t : top_bar) : top_bar := load_spec c (tb_url t) t.

(** [componentDidMount]; [search] is the name the address of the page asks for, if any.  Reading an
    entry that is not there throws. *)
Definition component_did_mount (c : configs) (search : option string) (t : top_bar) : result top_bar js_error :=
  match urls_of c with
  | [] => Ok t
  | urls =>
      let name := match search with
        | Some s => if String.eqb s "" then cf_primary_name c else s
        | None => cf_primary_name c
        end in
      let '(t, r) :=
        if String.eqb name "" then (t, tb_selected_index t)
        else foldl (fun st ie => if String.eqb (su_name ie.2) name then (select ie.1 st.1, ie.1) else st)
               (t, tb_selected_index t) (imap pair urls) in
      match urls !! r with
      | Some e => Ok (load_spec c (su_url e) t)
      | None => Err TypeError
      end
  end.

(** What [render] shows as selected; with no list it shows an address field instead. *)
Definition render_selected (c : configs) (t : top_bar) : result (option string) js_error :=
  match cf_urls c with
  | Some urls => match urls !! tb_selected_index t with Some e => Ok (Some (su_url e)) | None => Err TypeError end
  | None => Ok None
  end.

(** What a mounted bar goes through: only the addresses of the list can be chosen. *)
Inductive top_bar_event :=
| Selects (url : string)
| Types (value : string)
| Receives (url : string).

Definition top_bar_step (c : configs) (e : top_bar_event) (t : top_bar) : top_bar :=
  match e with
  | Selects url => on_url_select c url t
  | Types value => on_url_change value t
  | Receives url => will_receive_props url t
  end.

Definition last_download (t : top_bar) : option string :=
  last (omap (fun e => match e with Download u => Some u | _ => None end) (tb_effects t)).

(** ** Identifiers *)

(** A Rust identifier, as a handler's name is. *)
Definition identifier (s : string) : Prop := s <> "" /\ Forall (fun c => word_char c = true) (chars s).

Lemma replace_identifier s : identifier s -> replace_special_chars_with_underscore s = s.
Proof.
  intros [_ Hs]. unfold replace_special_chars_with_underscore. rewrite <-(of_chars_chars s) at 2. f_equal.
  induction Hs as [|c l Hc _ IH]; [done|]. cbn. by rewrite Hc, IH.
Qed.

Lemma word_not_space c : word_char c = true -> is_space c = false.
Proof. destruct c as [[] [] [] [] [] [] [] []]; vm_compute; congruence. Qed.

Lemma remove_spaces_identifier s : identifier s -> remove_spaces s = s.
Proof.
  intros [_ Hs]. unfold remove_spaces. rewrite <-(of_chars_chars s) at 2. f_equal.
  induction Hs as [|c l Hc _ IH]; [done|]. apply word_not_space in Hc. by rewrite filter_cons_True, IH.
Qed.

Lemma legacy_not_identifier path method h : identifier h -> id_from_path_method_legacy path method <> h.
Proof.
  intros [_ Hh] E. unfold id_from_path_method_legacy in E. rewrite <-E, !chars_app, !Forall_app in Hh.
  destruct Hh as (_ & Hdash & _). by inversion Hdash.
Qed.

Lemma identifier_eqb h : identifier h -> String.eqb h "" = false.
Proof. intros [? _]. by apply String.eqb_neq. Qed.

(** An operation whose identifier is a handler's name answers to that name only. *)
Lemma operation_matches_identifier h h' x : identifier h -> identifier h' -> is_object (fd_operation x) = true ->
  map_get "operationId" (members (fd_operation x)) = Some (JString h') -> operation_matches h x = Ok (String.eqb h' h).
Proof.
  intros Hh Hh' Hobj Hid. unfold operation_matches, op_id. rewrite Hobj, Hid. cbn.
  rewrite (remove_spaces_identifier h'), (replace_identifier h'), !(identifier_eqb h') by done. cbn. rewrite ?(identifier_eqb h') by done. cbn.
  destruct (String.eqb_spec (id_from_path_method_legacy (fd_path_name x) (fd_method x)) h) as [E|_];
    [by apply legacy_not_identifier in E|]. by rewrite andb_false_r, orb_false_r, orb_diag.
Qed.

(** An operation as the documents of [OpenApi] have it. *)
Definition named (x : found) (h : string) : Prop :=
  is_object (fd_operation x) = true /\ map_get "operationId" (members (fd_operation x)) = Some (JString h).

Lemma named_operation_id x h : named x h -> operation_id (fd_operation x) = Some h.
Proof. intros [_ Hid]. unfold operation_id. by rewrite Hid. Qed.

Lemma find_operation_identifier h l : identifier h ->
  Forall (fun x => exists h', identifier h' /\ named x h') l ->
  find_operation (operation_matches h) l = Ok (head (filter (fun x => operation_id (fd_operation x) = Some h) l)).
Proof.
  intros Hh. induction 1 as [|x l (h' & Hh' & Hx) _ IH]; [done|]. cbn [find_operation].
  destruct Hx as [Hobj Hid]. rewrite (operation_matches_identifier h h') by done. cbn [result_bind].
  pose proof (named_operation_id _ _ (conj Hobj Hid)) as Ho. destruct (String.eqb_spec h' h) as [->|].
  - by rewrite filter_cons_True.
  - by rewrite filter_cons_False by congruence.
Qed.

(** Nothing is rewritten, so nothing is noted. *)
Lemma normalize_identifiers ops :
  Forall (fun o => forall id, vs_operation_id o = Some id -> identifier id) ops -> normalize_operation_ids ops = ops.
Proof.
  intros Hops. unfold normalize_operation_ids.
  assert (map enter_operation ops = map (fun o => (o, false)) ops) as ->.
  { induction Hops as [|o ops Ho _ IH]; [done|]. cbn [map]. rewrite IH. f_equal. unfold enter_operation.
    destruct (vs_operation_id o) as [id|]; [|done]. specialize (Ho _ eq_refl).
    by rewrite remove_spaces_identifier, identifier_eqb, replace_identifier, String.eqb_refl. }
  generalize (map (fun o => (o, false)) ops) at 2. generalize (@nil string). clear Hops.
  induction ops as [|o ops IH]; intros seen all; [done|]. cbn. by rewrite IH.
Qed.

(** ** The operations of a document *)

Section page.
Context `{SchemaGenerator}.

(** Every member of the paths of a document under construction comes from a route. *)
Definition from_routes (prs : list (string * http_route_meta)) (paths : list (string * json)) : Prop :=
  forall p item, (p, item) ∈ paths -> exists ms, item = JObject ms /\
    forall m op, (m, op) ∈ ms -> exists pr, pr ∈ prs /\ route_key pr = (p, m) /\
      exists params g, op = (operation_object pr.2 params g).1.

Lemma map_insert_elem {A} k (v : A) m k' v' : (k', v') ∈ map_insert k v m -> (k', v') = (k, v) \/ (k', v') ∈ m.
Proof.
  induction m as [|[k1 v1] m IH]; simpl; [by intros ?%list_elem_of_singleton; left|].
  rewrite !elem_of_cons. destruct (String.eqb k k1); [rewrite elem_of_cons; tauto|].
  destruct (str_leb k k1); rewrite !elem_of_cons; tauto.
Qed.

Lemma add_route_from prs pr paths g : pr ∈ prs -> from_routes prs paths ->
  from_routes prs (add_route pr.1 (paths, g) pr.2).1.
Proof.
  intros Hpr Hfrom. unfold add_route. set (full := join_path pr.1 (rm_path pr.2)).
  destruct (operation_object pr.2 (path_parameters full) g) as [op g1] eqn:Eop. cbn [fst].
  assert (exists ms, default (JObject []) (map_get (openapi_path full) paths) = JObject ms /\
    forall m op, (m, op) ∈ ms -> exists pr, pr ∈ prs /\ route_key pr = (openapi_path full, m) /\
      exists params g, op = (operation_object pr.2 params g).1) as (ms & -> & Hms).
  { destruct (map_get (openapi_path full) paths) as [item|] eqn:E.
    - apply map_get_elem in E. destruct (Hfrom _ _ E) as (ms & -> & ?). by exists ms.
    - exists []. split; [done|]. by intros ? ? ?%elem_of_nil. }
  intros p item [[= -> ->]|Hin]%map_insert_elem; [|by apply Hfrom].
  eexists. split; [done|]. intros m o [[= -> ->]|Hin]%map_insert_elem; [|by apply Hms].
  exists pr. split_and!; [done|done|]. exists (path_parameters full), g. by rewrite Eop.
Qed.

Lemma document_members cs title version description : exists paths,
  map_get "paths" (members (build_document cs title version description)) = Some (JObject paths) /\
  from_routes (routes_of cs) paths.
Proof.
  unfold build_document. rewrite add_controllers_routes.
  destruct (foldl _ _ (routes_of cs)) as [paths g] eqn:E. exists paths. unfold json_object. cbn [members foldl fst snd].
  autorewrite with maps. split; [reflexivity|].
  assert (forall l, (forall x, x ∈ l -> x ∈ routes_of cs) ->
    from_routes (routes_of cs) (foldl (fun st pr => add_route pr.1 st pr.2) ([], into_generator) l).1) as Hall.
  { intros l. induction l as [|x l IH] using rev_ind; intros Hl; [by intros ? ? ?%elem_of_nil|].
    rewrite foldl_snoc. destruct (foldl _ _ l) as [paths0 g0]. apply add_route_from; [set_solver|].
    apply IH. set_solver. }
  specialize (Hall (routes_of cs)). rewrite E in Hall. by apply Hall.
Qed.

Lemma operation_object_shape r params g : let op := (operation_object r params g).1 in
  is_object op = true /\ map_get "operationId" (members op) = Some (JString (rm_handler r)).
Proof.
  cbn. split.
  - unfold operation_object. destruct (rm_request_body r) as [fb|]; [destruct (fb g)|];
      destruct (rm_response r) as [fr|]; try match goal with |- context [fr ?g] => destruct (fr g) end; done.
  - destruct (operation_object_members r params g) as [Hid _]. unfold operation_id in Hid.
    repeat case_match; congruence.
Qed.

Definition verb_name (v : http_verb) : string := to_ascii_lowercase (as_str v).

Lemma verb_upper v : to_upper_case (verb_name v) = as_str v /\ String.eqb (as_str v) "PARAMETERS" = false.
Proof. by destruct v. Qed.

(** What the page walks: each operation found is a declared route's. *)
Lemma each_operation_declared ds title version description x :
  x ∈ each_operation (build_document (map meta_of ds) title version description) ->
  exists d f, d ∈ ds /\ f ∈ dc_fns d /\ named x (rf_ident f) /\
    fd_path_name x = openapi_path (full_path d (rf_path f)) /\ fd_method x = as_str (rf_verb f).
Proof.
  destruct (document_members (map meta_of ds) title version description) as (paths & Hpaths & Hfrom).
  unfold each_operation. rewrite Hpaths. cbn [is_object entries].
  intros ([p item] & Hx & Hin)%list_elem_of_bind. destruct (Hfrom _ _ Hin) as (ms & -> & Hms). cbn [snd entries fst] in Hx.
  apply list_elem_of_bind in Hx as ([m op] & Hx & Hm). destruct (Hms _ _ Hm) as (pr & Hpr & [= <- <-] & params & g & ->).
  apply routes_of_declared in Hpr as (d & f & Hd & Hf & ->). cbn [fst snd rm_verb route_meta] in *.
  fold (verb_name (rf_verb f)) in Hx. destruct (verb_upper (rf_verb f)) as [Hup Hpar]. rewrite Hup, Hpar in Hx.
  destruct (operation_object_shape (route_meta (dc_tag d) f) params g) as [Hobj Hid]. rewrite Hobj in Hx.
  apply list_elem_of_singleton in Hx as ->. exists d, f. split_and!; done.
Qed.

Lemma documented_found ds title version description p m op :
  let doc := build_document (map meta_of ds) title version description in
  documented doc p m = Some op -> exists v, m = verb_name v /\ Found p (as_str v) op ∈ each_operation doc.
Proof.
  intros doc Hdoc. destruct (document_members (map meta_of ds) title version description) as (paths & Hpaths & Hfrom).
  unfold documented in Hdoc. fold doc in Hpaths. rewrite Hpaths in Hdoc. cbn [mbind option_bind members] in Hdoc.
  destruct (map_get p paths) as [item|] eqn:Ep; [|done]. cbn in Hdoc. apply map_get_elem in Ep, Hdoc.
  destruct (Hfrom _ _ Ep) as (ms & -> & Hms). cbn [members] in Hdoc.
  destruct (Hms _ _ Hdoc) as (pr & _ & [= Hp Hm] & params & g & Hop). exists (rm_verb pr.2). split; [done|].
  unfold each_operation. rewrite Hpaths. cbn [is_object entries]. apply list_elem_of_bind. exists (p, JObject ms).
  split; [|done]. cbn [snd entries fst]. apply list_elem_of_bind. exists (m, op). split; [|done]. cbn [fst snd].
  destruct (verb_upper (rm_verb pr.2)) as [Hup Hpar]. unfold verb_name in Hup. rewrite Hm in Hup. rewrite Hup, Hpar.
  destruct (operation_object_shape pr.2 params g) as [Hobj _]. rewrite Hop, Hobj. by apply list_elem_of_singleton.
Qed.

(** [C29] Trying an operation out: for a document this framework builds, the page's normalisation of
    operation identifiers changes nothing, and the request it builds for a displayed operation goes to
    the first operation, in document order, whose handler has the same name - so to the displayed one
    when no other route shares that name. *)
Theorem try_it_out_target (ds : list declaration) title version description (p m : string) op h
    (Hids : forall d f, d ∈ ds -> f ∈ dc_fns d -> identifier (rf_ident f)) :
  let doc := build_document (map meta_of ds) title version description in
  documented doc p m = Some op -> operation_id op = Some h ->
  let ops := map (fun x => Visited (fd_path_name x) (fd_method x) (operation_id (fd_operation x)) None) (each_operation doc) in
  is_openapi31 doc = true /\ normalize_operation_ids ops = ops /\
  exists x, execute_request doc p m op = Ok (Some x) /\
    head (filter (fun y => operation_id (fd_operation y) = Some h) (each_operation doc)) = Some x /\
    ((forall d f, d ∈ ds -> f ∈ dc_fns d -> rf_ident f = h ->
        openapi_path (full_path d (rf_path f)) = p /\ verb_name (rf_verb f) = m) ->
      fd_path_name x = p /\ fd_method x = to_upper_case m).
Proof.
  intros doc Hdoc Hop ops. split.
  { unfold is_openapi31, doc, build_document. destruct (foldl _ _ _) as [paths g]. reflexivity. }
  assert (Forall (fun x => exists h', identifier h' /\ named x h') (each_operation doc)) as Hnamed.
  { apply Forall_forall. intros x (d & f & Hd & Hf & Hx & _)%each_operation_declared. exists (rf_ident f). eauto. }
  split.
  { apply normalize_identifiers, Forall_fmap. eapply Forall_impl; [exact Hnamed|].
    intros x (h' & Hh' & Hx) id. cbn. rewrite (named_operation_id _ _ Hx). by intros [= <-]. }
  destruct (documented_found _ _ _ _ _ _ _ Hdoc) as (v & -> & Hin).
  destruct (proj1 (Forall_forall _ _) Hnamed _ Hin) as (h' & Hh' & Hx).
  assert (h' = h) as -> by (apply named_operation_id in Hx; cbn in Hx; congruence).
  pose proof (find_operation_identifier h (each_operation doc) Hh' Hnamed) as Hfind.
  destruct (head (filter _ (each_operation doc))) as [x|] eqn:Ehead.
  2: { exfalso. apply head_None in Ehead. apply (not_elem_of_nil (Found p (as_str v) op)). rewrite <-Ehead.
       by apply list_elem_of_filter. }
  exists x. split_and!; [|done|].
  - unfold execute_request. destruct Hx as [_ Hid]. cbn in Hid. rewrite Hid, identifier_eqb by done. exact Hfind.
  - intros Hunique. apply head_Some_elem_of, list_elem_of_filter in Ehead as [Hx' Hin'].
    apply each_operation_declared in Hin' as (d & f & Hd & Hf & Hn & Hpath & Hmeth).
    rewrite (named_operation_id _ _ Hn) in Hx'. injection Hx' as Hx'.
    destruct (Hunique d f Hd Hf Hx') as [<- <-]. by rewrite (proj1 (verb_upper (rf_verb f))).
Qed.

End page.

(** ** The selected entry *)

Lemma imap_pair_snoc {A} (l : list A) x : imap pair (l ++ [x]) = imap pair l ++ [(length l, x)].
Proof. rewrite imap_app. f_equal. cbn. by rewrite Nat.add_0_r. Qed.

Lemma last_download_act e t : last_download (act e t)
  = match e with Download u => Some u | _ => last_download t end.
Proof.
  unfold last_download, act. cbn [tb_effects]. rewrite omap_app. destruct e; cbn; rewrite ?app_nil_r; [done|done| |done].
  by rewrite last_snoc.
Qed.

Lemma load_spec_downloads c url t :
  last_download (load_spec c url t) = Some url /\ tb_selected_index (load_spec c url t) = tb_selected_index t.
Proof.
  unfold load_spec. rewrite last_download_act. split; [done|]. unfold flush_auth_data.
  by destruct (cf_persist_authorization c).
Qed.

(** Walking the list leaves the position of its last match, if there is one. *)
Lemma set_selected_url_spec c selected t : selected <> "" ->
  last_download (set_selected_url c selected t) = last_download t /\
  ((forall e, e ∈ urls_of c -> su_url e <> selected) \/
   exists e, urls_of c !! tb_selected_index (set_selected_url c selected t) = Some e /\ su_url e = selected).
Proof.
  intros Hne. unfold set_selected_url. apply String.eqb_neq in Hne. rewrite Hne.
  induction (urls_of c) as [|e l IH] using rev_ind; [split; [done|left; by intros ? ?%elem_of_nil]|].
  rewrite imap_pair_snoc, foldl_snoc. destruct IH as [IHd IHs]. set (t' := foldl _ t _) in *. cbn [snd fst].
  destruct (String.eqb_spec (su_url e) selected) as [He|He].
  - rewrite last_download_act. split; [done|right]. exists e. split; [|done]. by apply list_lookup_middle.
  - split; [done|]. destruct IHs as [IHs|(e' & He' & ?)]; [left|right].
    + intros e'. rewrite elem_of_app, list_elem_of_singleton. intros [?| ->]; auto.
    + exists e'. split; [|done]. by apply lookup_app_l_Some.
Qed.

Lemma mount_walk name (l : list spec_url) t0 r0 :
  let st := foldl (fun st ie => if String.eqb (su_name ie.2) name then (select ie.1 st.1, ie.1) else st)
              (t0, r0) (imap pair l) in
  last_download st.1 = last_download t0 /\
  (st = (t0, r0) \/ (tb_selected_index st.1 = st.2 /\ (st.2 < length l)%nat)).
Proof.
  induction l as [|e l IH] using rev_ind; [by split; [|left]|]. rewrite imap_pair_snoc, foldl_snoc.
  cbv zeta in *. destruct IH as [IHd IHs]. set (st := foldl _ _ _) in *. cbn [snd fst].
  destruct (String.eqb (su_name e) name); cbn [fst snd select tb_selected_index].
  - split; [done|right]. split; [done|]. rewrite length_app. cbn. lia.
  - split; [done|]. destruct IHs as [|[? ?]]; [by left|right]. split; [done|]. rewrite length_app. lia.
Qed.

(** The entry shown as selected is the one whose document was asked for last. *)
Definition in_step (c : configs) (t : top_bar) : Prop :=
  exists e, urls_of c !! tb_selected_index t = Some e /\ last_download t = Some (su_url e).

Definition event_ok (c : configs) (e : top_bar_event) : Prop :=
  match e with Selects url => url <> "" /\ exists e, e ∈ urls_of c /\ su_url e = url | _ => True end.

Lemma top_bar_step_in_step c e t : event_ok c e -> in_step c t -> in_step c (top_bar_step c e t).
Proof.
  destruct e as [url|value|url]; [|by intros _|by intros _]. intros [Hne (e & He & <-)] _. cbn. unfold on_url_select.
  destruct (set_selected_url_spec c (su_url e) (load_spec c (su_url e) t) Hne) as [Hd [Hs|(e' & He' & Hu)]];
    [by destruct (Hs e He)|]. exists e'. split; [done|]. rewrite Hd, Hu. apply load_spec_downloads.
Qed.

(** With a list of documents configured, the top bar mounts without throwing whatever name the
    address asks for, and after any sequence of choices, keystrokes and updates the document that was
    asked for last is the one shown as selected. *)
Lemma top_bar_shows_what_it_loaded (c : configs) (urls : list spec_url) (search : option string)
    (spec_url : string) (es : list top_bar_event)
    (Hurls : cf_urls c = Some urls) (Hsome : urls <> []) (Hes : Forall (event_ok c) es) :
  exists t0, component_did_mount c search (top_bar_new spec_url) = Ok t0 /\
  let t := foldl (fun t e => top_bar_step c e t) t0 es in
  exists u, render_selected c t = Ok (Some u) /\ last_download t = Some u.
Proof.
  assert (urls_of c = urls) as Hu by (unfold urls_of; by rewrite Hurls).
  assert (exists t0, component_did_mount c search (top_bar_new spec_url) = Ok t0 /\ in_step c t0) as (t0 & -> & Ht0).
  { unfold component_did_mount, in_step. rewrite Hu. destruct urls as [|u0 urls0] eqn:Eu; [done|]. rewrite <-Eu in *.
    set (name := match search with Some s => _ | None => _ end).
    assert (forall t r, tb_selected_index t = r -> (r < length urls)%nat ->
      exists t0, match urls !! r with Some e => Ok (load_spec c (su_url e) t) | None => Err TypeError end = Ok t0 /\
        exists e, urls !! tb_selected_index t0 = Some e /\ last_download t0 = Some (su_url e)) as Hload.
    { intros t r <- [e He]%lookup_lt_is_Some_2. rewrite He. eexists. split; [done|].
      destruct (load_spec_downloads c (su_url e) t) as [-> ->]. eauto. }
    assert (0 < length urls)%nat by (subst urls; cbn; lia).
    destruct (String.eqb name ""); [by apply Hload|].
    destruct (mount_walk name urls (top_bar_new spec_url) (tb_selected_index (top_bar_new spec_url))) as [_ Hwalk].
    cbv zeta in Hwalk. destruct (foldl _ _ _) as [t r]. cbn [fst snd] in Hwalk.
    destruct Hwalk as [[= -> ->]|[Hr Hlt]]; by apply Hload. }
  exists t0. split; [done|]. cbv zeta. assert (in_step c (foldl (fun t e => top_bar_step c e t) t0 es)) as (e & He & Hl).
  { clear -Hes Ht0. revert t0 Ht0. induction Hes as [|e es He _ IH]; intros t0 Ht0; [done|]. apply IH.
    by apply top_bar_step_in_step. }
  exists (su_url e). unfold render_selected. rewrite Hu in He. by rewrite Hurls, He.
Qed.

(** ** Concrete runs *)

Module SwaggerUiDemo.

Import OpenApiDemo.

Definition list_fn (name : string) : route_fn := RouteFn name Get "/" None None [] None None false.
Definition orgs : declaration := Declaration "/orgs" None "OrgsController" [list_fn "list"].

(** A handler's name is not unique across controllers: trying out [GET /users] calls [GET /orgs]. *)
Definition users_doc : json := build_document [meta_of orgs; meta_of (Declaration "/users" None "U" [list_fn "list"])] "Demo" "1.0" None.

Example same_handler_name_reaches_another_route :
  exists op, documented users_doc "/users" "get" = Some op /\
  (exists x, execute_request users_doc "/users" "get" op = Ok (Some x) /\ fd_path_name x = "/orgs").
Proof. eexists. split; [vm_compute; reflexivity|]. eexists. split; vm_compute; reflexivity. Qed.

Lemma try_it_out_target_witness :
  exists op x, documented OpenApiDemo.doc "/v1/users/{id}" "delete" = Some op /\
    execute_request OpenApiDemo.doc "/v1/users/{id}" "delete" op = Ok (Some x).
Proof.
  destruct (documented OpenApiDemo.doc "/v1/users/{id}" "delete") as [op|] eqn:E; [|vm_compute in E; discriminate].
  assert (operation_id op = Some "remove") as Hid by (vm_compute in E; injection E as <-; reflexivity).
  edestruct (try_it_out_target [OpenApiDemo.users] "Demo" "1.0" None "/v1/users/{id}" "delete" op "remove")
    as (_ & _ & x & Hx & _); [|exact E|exact Hid|].
  - intros d f Hd Hf. apply list_elem_of_singleton in Hd as ->.
    apply elem_of_cons in Hf as [->|Hf]; [|apply list_elem_of_singleton in Hf as ->];
      (split; [discriminate|repeat constructor]).
  - exists op, x. split; [reflexivity|exact Hx].
Defined.

Definition two : configs := Configs (Some [SpecUrl "/a.json" "A"; SpecUrl "/b.json" "B"]) "B" false.

Lemma top_bar_shows_what_it_loaded_witness :
  exists t0, component_did_mount two (Some "A") (top_bar_new "/api-json") = Ok t0 /\
  exists u, render_selected two (foldl (fun t e => top_bar_step two e t) t0 [Types "x"; Selects "/b.json"]) = Ok (Some u).
Proof.
  edestruct (top_bar_shows_what_it_loaded two [SpecUrl "/a.json" "A"; SpecUrl "/b.json" "B"] (Some "A") "/api-json"
    [Types "x"; Selects "/b.json"]) as (t0 & H0 & u & Hu & _).
  - reflexivity.
  - discriminate.
  - constructor; [exact I|]. constructor; [|constructor]. split; [discriminate|].
    exists (SpecUrl "/b.json" "B"). split; [right; left|reflexivity].
  - exists t0. split; [exact H0|]. exists u. exact Hu.
Defined.

(** The page this framework serves configures one address and no list: the bar shows a field and loads
    what is typed into it. *)
Example single_address : let c := Configs None "" false in
  component_did_mount c None (top_bar_new "/api-json") = Ok (top_bar_new "/api-json") /\
  render_selected c (top_bar_new "/api-json") = Ok None /\
  last_download (download_url c (on_url_change "/other.json" (top_bar_new "/api-json"))) = Some "/other.json".
Proof. split_and!; reflexivity. Qed.

(** An empty list is not the absence of a list: rendering throws. *)
Example empty_list_throws : render_selected (Configs (Some []) "" false) (top_bar_new "/api-json") = Err TypeError.
Proof. reflexivity. Qed.

Example identifiers :
  op_id (Some (json_object [("operationId", JString "list users")])) "/users" "get" false = Ok (Some "list_users") /\
  op_id (Some (json_object [])) "/users/{id}" "GET" false = Ok (Some "get_users__id_") /\
  op_id (Some (json_object [])) "/users/{id}" "GET" true = Ok (Some "get_users_id").
Proof. split_and!; vm_compute; reflexivity. Qed.

End SwaggerUiDemo.
