(* ===== verification/ReduxStore.v ===== *)
(** The state container of the documentation page: [createStore] of the script [nestrs-openapi] embeds
    (line 2 of [swagger-ui-bundle.js], from column 559583), with its listener maps.

    The listeners live in JavaScript [Map]s held by reference: the one being notified and the one that
    is changed may be the same object, and [Map.prototype.forEach] sees what is added to or deleted
    from the map while it runs.  The maps are therefore kept in a heap, a deleted entry leaves an empty
    slot, and the iteration reads the live map at each turn.  A simpler store, whose subscriptions are
    an immutable list, is the specification. *)

From S2P Require Import Prelude Js.
Open Scope nat_scope.

(** [formatProdErrorMessage]. *)
Definition format_prod_error_message (code : nat) : string :=
  "Minified Redux error #" +:+ show_u64 (Z.of_nat code) +:+ "; visit https://redux.js.org/Errors?code=" +:+
  show_u64 (Z.of_nat code) +:+ " for the full message or use the non-minified dev environment for full errors. ".

Definition redux_error (code : nat) : js_error := JsError (format_prod_error_message code).

(** ** What the page's code does with the store

    A listener or a reducer is a program over the page's world that may call the store; a call that
    throws hands it the error, to catch or to throw on. *)

Inductive action_type := TypeUndefined | TypeString (s : string) | TypeOther.

Section programs.
Context {St P L V R W : Type}.

(** [isPlainObject] is a fact of the object passed; [ac_payload] is the rest of it. *)
Record action := Action { ac_plain : bool; ac_type : action_type; ac_payload : option P }.

(** [qe]. The suffixes are random. *)
Definition init_action : action := Action true (TypeString "@@redux/INIT") None.
Definition replace_action : action := Action true (TypeString "@@redux/REPLACE") None.

Inductive program (X : Type) : Type :=
| Return (x : X)
| Throw (e : js_error)
| Act (f : W -> W) (k : W -> program X)
| GetState (k : result St js_error -> program X)
| Subscribe (l : L) (k : result nat js_error -> program X)
| Unsubscribe (i : nat) (k : result unit js_error -> program X)
| Dispatch (a : action) (k : result unit js_error -> program X)
| ReplaceReducer (r : R) (k : result unit js_error -> program X)
| Observe (o : V) (k : result nat js_error -> program X).

End programs.

Arguments action : clear implicits.
Arguments program : clear implicits.
Arguments Return {St P L V R W X} x.
Arguments Throw {St P L V R W X} e.
Arguments Act {St P L V R W X} f k.
Arguments GetState {St P L V R W X} k.
Arguments Subscribe {St P L V R W X} l k.
Arguments Unsubscribe {St P L V R W X} i k.
Arguments Dispatch {St P L V R W X} a k.
Arguments ReplaceReducer {St P L V R W X} r k.
Arguments Observe {St P L V R W X} o k.

(** The page's code: its listeners, the [next] of its observers when they have one, its reducers. *)
Class StoreCode (St P L V R W : Type) := {
  listener : L -> program St P L V R W unit;
  next_of : V -> option (St -> program St P L V R W unit);
  reduce : R -> St -> action P -> program St P L V R W St
}.

Section store.
Context {St P L V R W : Type} `{!StoreCode St P L V R W}.
Abbreviation prog := (program St P L V R W).

(** A subscribed function: one of the page's, or the [observeState] of an observer. *)
Inductive subscriber := SubFun (l : L) | SubObserve (o : V).

Definition observe_state (o : V) : prog unit :=
  match next_of o with
  | None => Return tt
  | Some next => GetState (fun r => match r with Ok s => next s | Err e => Throw e end)
  end.

Definition body_of (s : subscriber) : prog unit :=
  match s with SubFun l => listener l | SubObserve o => observe_state o end.

(** ** JavaScript maps *)

(** A [Map] from subscription numbers: its slots in insertion order, a deleted one empty. *)
Definition js_map : Type := list (option (nat * subscriber)).

Definition present (m : js_map) : list (nat * subscriber) := omap id m.

Definition has_key (i : nat) (slot : option (nat * subscriber)) : bool :=
  match slot with Some (j, _) => Nat.eqb j i | None => false end.

Definition map_set (i : nat) (s : subscriber) (m : js_map) : js_map :=
  if existsb (has_key i) m then map (fun slot => if has_key i slot then Some (i, s) else slot) m
  else m ++ [Some (i, s)].

Definition map_delete (i : nat) (m : js_map) : js_map :=
  map (fun slot => if has_key i slot then None else slot) m.

(** [new Map] filled by a [forEach] of the other. *)
Definition map_copy (m : js_map) : js_map := foldl (fun n e => map_set e.1 e.2 n) [] (present m).

(** ** The store *)

(** The variables of [createStore]: the reducer [a], the state [u], the references [_] and [w] (the first
    may be [null]), the counter [x] and the flag [C]; the heap of maps, the subscriptions whose
    [unsubscribe] was not called (each closure's own flag), and the page's world. *)
Record store := Store {
  st_reducer : R;
  st_state : St;
  st_current : option nat;
  st_next : nat;
  st_counter : nat;
  st_dispatching : bool;
  st_maps : list js_map;
  st_subscribed : gset nat;
  st_world : W
}.

Definition set_maps (maps : list js_map) (next : nat) (st : store) : store :=
  Store (st_reducer st) (st_state st) (st_current st) next (st_counter st) (st_dispatching st) maps (st_subscribed st) (st_world st).
Definition set_current (cur : option nat) (st : store) : store :=
  Store (st_reducer st) (st_state st) cur (st_next st) (st_counter st) (st_dispatching st) (st_maps st) (st_subscribed st) (st_world st).
Definition set_dispatching (b : bool) (st : store) : store :=
  Store (st_reducer st) (st_state st) (st_current st) (st_next st) (st_counter st) b (st_maps st) (st_subscribed st) (st_world st).
Definition set_state (s : St) (st : store) : store :=
  Store (st_reducer st) s (st_current st) (st_next st) (st_counter st) (st_dispatching st) (st_maps st) (st_subscribed st) (st_world st).
Definition set_reducer (r : R) (st : store) : store :=
  Store r (st_state st) (st_current st) (st_next st) (st_counter st) (st_dispatching st) (st_maps st) (st_subscribed st) (st_world st).
Definition set_world (w : W) (st : store) : store :=
  Store (st_reducer st) (st_state st) (st_current st) (st_next st) (st_counter st) (st_dispatching st) (st_maps st) (st_subscribed st) w.
Definition set_counter (x : nat) (st : store) : store :=
  Store (st_reducer st) (st_state st) (st_current st) (st_next st) x (st_dispatching st) (st_maps st) (st_subscribed st) (st_world st).
Definition set_subscribed (l : gset nat) (st : store) : store :=
  Store (st_reducer st) (st_state st) (st_current st) (st_next st) (st_counter st) (st_dispatching st) (st_maps st) l (st_world st).

Definition map_at (loc : nat) (st : store) : js_map := default [] (st_maps st !! loc).

Definition ensure_can_mutate_next_listeners (st : store) : store :=
  if bool_decide (st_current st = Some (st_next st)) then
    set_maps (st_maps st ++ [map_copy (map_at (st_next st) st)]) (length (st_maps st)) st
  else st.

(** [w.set(..)] and [w.delete(..)]. *)
Definition update_next (f : js_map -> js_map) (st : store) : store :=
  set_maps (<[st_next st := f (map_at (st_next st) st)]> (st_maps st)) (st_next st) st.

Definition get_state (st : store) : result St js_error :=
  if st_dispatching st then Err (redux_error 3) else Ok (st_state st).

(** The number given is the [unsubscribe] closure. *)
Definition subscribe (s : subscriber) (st : store) : result nat js_error * store :=
  if st_dispatching st then (Err (redux_error 5), st)
  else
    let st1 := ensure_can_mutate_next_listeners st in
    let i := st_counter st1 in
    (Ok i, update_next (map_set i s) (set_counter (S i) (set_subscribed ({[i]} ∪ st_subscribed st1) st1))).

Definition unsubscribe (i : nat) (st : store) : result unit js_error * store :=
  if bool_decide (i ∈ st_subscribed st) then
    if st_dispatching st then (Err (redux_error 6), st)
    else
      let st1 := ensure_can_mutate_next_listeners (set_subscribed (st_subscribed st ∖ {[i]}) st) in
      (Ok tt, set_current None (update_next (map_delete i) st1))
  else (Ok tt, st).

(** *** Dispatch

    [None] is a program that does not end with the fuel given. *)

Definition outcome (X : Type) : Type := option (result X js_error * store).

Section dispatch.
Variable run : forall X, prog X -> store -> outcome X.

(** [(_ = w).forEach(..)], from the slot [i] on. *)
Fixpoint notify (fuel : nat) (loc i : nat) (st : store) : outcome unit :=
  match fuel with
  | O => None
  | S fuel' =>
      match map_at loc st !! i with
      | None => Some (Ok tt, st)
      | Some None => notify fuel' loc (S i) st
      | Some (Some (_, s)) =>
          match run unit (body_of s) st with
          | None => None
          | Some (Err e, st1) => Some (Err e, st1)
          | Some (Ok _, st1) => notify fuel' loc (S i) st1
          end
      end
  end.

Definition action_error (a : action P) : option nat :=
  if negb (ac_plain a) then Some 7
  else match ac_type a with TypeUndefined => Some 8 | TypeOther => Some 17 | TypeString _ => None end.

Definition dispatch (a : action P) (st : store) : outcome unit :=
  match action_error a with
  | Some code => Some (Err (redux_error code), st)
  | None =>
      if st_dispatching st then Some (Err (redux_error 9), st)
      else
        match run St (reduce (st_reducer st) (st_state st) a) (set_dispatching true st) with
        | None => None
        | Some (Err e, st1) => Some (Err e, set_dispatching false st1)
        | Some (Ok s, st1) =>
            let st2 := set_dispatching false (set_state s st1) in
            let st3 := set_current (Some (st_next st2)) st2 in
            notify (S (length (map_at (st_next st3) st3))) (st_next st3) 0 st3
        end
  end.

Definition replace_reducer (r : R) (st : store) : outcome unit := dispatch replace_action (set_reducer r st).

(** [observable().subscribe(o)]. *)
Definition observe (o : V) (st : store) : outcome nat :=
  match run unit (observe_state o) st with
  | None => None
  | Some (Err e, st1) => Some (Err e, st1)
  | Some (Ok _, st1) => Some (subscribe (SubObserve o) st1)
  end.

End dispatch.

(** A program, run on the store. *)
Fixpoint run (fuel : nat) (X : Type) (p : prog X) (st : store) {struct fuel} : outcome X :=
  match fuel with
  | O => None
  | S fuel' =>
      let go {A} (o : outcome A) (k : result A js_error -> prog X) : outcome X :=
        match o with Some (r, st1) => run fuel' X (k r) st1 | None => None end in
      match p with
      | Return x => Some (Ok x, st)
      | Throw e => Some (Err e, st)
      | Act f k => run fuel' X (k (f (st_world st))) (set_world (f (st_world st)) st)
      | GetState k => run fuel' X (k (get_state st)) st
      | Subscribe l k => go (Some (subscribe (SubFun l) st)) k
      | Unsubscribe i k => go (Some (unsubscribe i st)) k
      | Dispatch a k => go (dispatch (run fuel') a st) k
      | ReplaceReducer r k => go (replace_reducer (run fuel') r st) k
      | Observe o k => go (observe (run fuel') o st) k
      end
  end.

(** [createStore(s, o)]: the store, or what its first dispatch throws. *)
Definition create_store (fuel : nat) (r : R) (preloaded : St) (w : W) : outcome unit :=
  dispatch (run fuel) init_action (Store r preloaded (Some 0) 0 0 false [[]] ∅ w).

(** ** What the store promises

    The subscriptions are a list, and a dispatch calls those of the moment the reducer returned, in the
    order they were made. *)
Record spec_store := SpecStore {
  sp_reducer : R;
  sp_state : St;
  sp_subs : list (nat * subscriber);
  sp_counter : nat;
  sp_dispatching : bool;
  sp_world : W
}.

Definition spec_outcome (X : Type) : Type := option (result X js_error * spec_store).

Definition spec_get_state (sp : spec_store) : result St js_error :=
  if sp_dispatching sp then Err (redux_error 3) else Ok (sp_state sp).

Definition spec_subscribe (s : subscriber) (sp : spec_store) : result nat js_error * spec_store :=
  if sp_dispatching sp then (Err (redux_error 5), sp)
  else (Ok (sp_counter sp),
        SpecStore (sp_reducer sp) (sp_state sp) (sp_subs sp ++ [(sp_counter sp, s)]) (S (sp_counter sp)) (sp_dispatching sp) (sp_world sp)).

Definition spec_unsubscribe (i : nat) (sp : spec_store) : result unit js_error * spec_store :=
  if bool_decide (i ∈ (sp_subs sp).*1) then
    if sp_dispatching sp then (Err (redux_error 6), sp)
    else (Ok tt, SpecStore (sp_reducer sp) (sp_state sp) (filter (fun e => e.1 <> i) (sp_subs sp)) (sp_counter sp) (sp_dispatching sp) (sp_world sp))
  else (Ok tt, sp).

Section spec_dispatch.
Variable run : forall X, prog X -> spec_store -> spec_outcome X.

Fixpoint spec_notify (l : list (nat * subscriber)) (sp : spec_store) : spec_outcome unit :=
  match l with
  | [] => Some (Ok tt, sp)
  | (_, s) :: l' =>
      match run unit (body_of s) sp with
      | None => None
      | Some (Err e, sp1) => Some (Err e, sp1)
      | Some (Ok _, sp1) => spec_notify l' sp1
      end
  end.

Definition spec_dispatch (a : action P) (sp : spec_store) : spec_outcome unit :=
  match action_error a with
  | Some code => Some (Err (redux_error code), sp)
  | None =>
      if sp_dispatching sp then Some (Err (redux_error 9), sp)
      else
        match run St (reduce (sp_reducer sp) (sp_state sp) a)
                (SpecStore (sp_reducer sp) (sp_state sp) (sp_subs sp) (sp_counter sp) true (sp_world sp)) with
        | None => None
        | Some (Err e, sp1) => Some (Err e, SpecStore (sp_reducer sp1) (sp_state sp1) (sp_subs sp1) (sp_counter sp1) false (sp_world sp1))
        | Some (Ok s, sp1) => spec_notify (sp_subs sp1) (SpecStore (sp_reducer sp1) s (sp_subs sp1) (sp_counter sp1) false (sp_world sp1))
        end
  end.

Definition spec_replace_reducer (r : R) (sp : spec_store) : spec_outcome unit :=
  spec_dispatch replace_action (SpecStore r (sp_state sp) (sp_subs sp) (sp_counter sp) (sp_dispatching sp) (sp_world sp)).

Definition spec_observe (o : V) (sp : spec_store) : spec_outcome nat :=
  match run unit (observe_state o) sp with
  | None => None
  | Some (Err e, sp1) => Some (Err e, sp1)
  | Some (Ok _, sp1) => Some (spec_subscribe (SubObserve o) sp1)
  end.

End spec_dispatch.

Fixpoint spec_run (fuel : nat) (X : Type) (p : prog X) (sp : spec_store) {struct fuel} : spec_outcome X :=
  match fuel with
  | O => None
  | S fuel' =>
      let go {A} (o : spec_outcome A) (k : result A js_error -> prog X) : spec_outcome X :=
        match o with Some (r, sp1) => spec_run fuel' X (k r) sp1 | None => None end in
      match p with
      | Return x => Some (Ok x, sp)
      | Throw e => Some (Err e, sp)
      | Act f k => spec_run fuel' X (k (f (sp_world sp)))
                     (SpecStore (sp_reducer sp) (sp_state sp) (sp_subs sp) (sp_counter sp) (sp_dispatching sp) (f (sp_world sp)))
      | GetState k => spec_run fuel' X (k (spec_get_state sp)) sp
      | Subscribe l k => go (Some (spec_subscribe (SubFun l) sp)) k
      | Unsubscribe i k => go (Some (spec_unsubscribe i sp)) k
      | Dispatch a k => go (spec_dispatch (spec_run fuel') a sp) k
      | ReplaceReducer r k => go (spec_replace_reducer (spec_run fuel') r sp) k
      | Observe o k => go (spec_observe (spec_run fuel') o sp) k
      end
  end.

Definition spec_create (fuel : nat) (r : R) (preloaded : St) (w : W) : spec_outcome unit :=
  spec_dispatch (spec_run fuel) init_action (SpecStore r preloaded [] 0 false w).

(** What can be seen of a run: its result, the state it leaves and the page's world. *)
Definition seen {X} (o : outcome X) : option (result X js_error * St * W) :=
  (fun ro => (ro.1, st_state ro.2, st_world ro.2)) <$> o.
Definition spec_seen {X} (o : spec_outcome X) : option (result X js_error * St * W) :=
  (fun ro => (ro.1, sp_state ro.2, sp_world ro.2)) <$> o.

(** A page's script, on the store it creates. *)
Definition store_script {X} (fuel : nat) (r : R) (preloaded : St) (w : W) (p : prog X) : outcome X :=
  match create_store fuel r preloaded w with
  | Some (Ok _, st) => run fuel X p st
  | Some (Err e, st) => Some (Err e, st)
  | None => None
  end.
Definition spec_script {X} (fuel : nat) (r : R) (preloaded : St) (w : W) (p : prog X) : spec_outcome X :=
  match spec_create fuel r preloaded w with
  | Some (Ok _, sp) => spec_run fuel X p sp
  | Some (Err e, sp) => Some (Err e, sp)
  | None => None
  end.

End store.

Arguments subscriber : clear implicits.
Arguments js_map : clear implicits.
Arguments store : clear implicits.
Arguments spec_store : clear implicits.

(** ** Maps *)

Section maps.
Context {L V : Type}.
Implicit Types (m : js_map L V) (s : subscriber L V).

Lemma has_key_present m i : existsb (has_key i) m = true <-> i ∈ (present m).*1.
Proof.
  induction m as [|[[j s]|] m IH]; simpl; [by split; [done|intros ?%elem_of_nil]| |exact IH].
  rewrite orb_true_iff, IH, elem_of_cons, Nat.eqb_eq. naive_solver.
Qed.

Lemma present_set_fresh m i s : i ∉ (present m).*1 -> present (map_set i s m) = present m ++ [(i, s)].
Proof.
  intros Hi. unfold map_set. rewrite <- has_key_present in Hi. destruct (existsb _ _); [done|].
  unfold present. by rewrite omap_app.
Qed.

Lemma present_delete m i : present (map_delete i m) = filter (fun e => e.1 <> i) (present m).
Proof.
  induction m as [|[[j s]|] m IH]; simpl; [done| |done].
  rewrite filter_cons. simpl. destruct (Nat.eqb_spec j i) as [->|Hn]; simpl.
  - rewrite decide_False by auto. exact IH.
  - rewrite decide_True by done. by f_equal.
Qed.

(** Copying keeps the entries, in order. *)
Lemma map_copy_present m : NoDup (present m).*1 -> present (map_copy m) = present m.
Proof.
  unfold map_copy. intros Hnd.
  assert (Hgen : forall l n, NoDup ((present n).*1 ++ l.*1) ->
    present (foldl (fun n (e : nat * subscriber L V) => map_set e.1 e.2 n) n l) = present n ++ l).
  { induction l as [|[i s] l IH]; intros n Hl; simpl; [by rewrite app_nil_r|].
    rewrite fmap_cons in Hl. apply NoDup_app in Hl as (Hn & Hd & Hl). apply NoDup_cons in Hl as [Hil Hl].
    assert (Hi : i ∉ (present n).*1) by (intros Hin; destruct (Hd i Hin); by left).
    rewrite IH; rewrite (present_set_fresh _ _ _ Hi).
    - by rewrite <- app_assoc.
    - rewrite fmap_app. simpl. rewrite <- app_assoc. apply NoDup_app. split; [done|]. split.
      + intros x Hx. rewrite elem_of_app, elem_of_cons. intros [[->|Hx']|Hx']; [done|by apply elem_of_nil in Hx'|].
        apply (Hd x Hx). by right.
      + simpl. by constructor. }
  by rewrite Hgen.
Qed.

Lemma present_drop m i slot : m !! i = Some slot ->
  present (drop i m) = match slot with Some e => e :: present (drop (S i) m) | None => present (drop (S i) m) end.
Proof. intros Hi. rewrite (drop_S _ _ _ Hi). by destruct slot. Qed.

End maps.

(** ** The refinement *)

Section refinement.
Context {St P L V R W : Type} `{!StoreCode St P L V R W}.
Abbreviation prog := (program St P L V R W).
Implicit Types (st : store St L V R W) (sp : spec_store St L V R W).

(** The map that is changed next holds the subscriptions. *)
Record related st sp : Prop := {
  rl_reducer : st_reducer st = sp_reducer sp;
  rl_state : st_state st = sp_state sp;
  rl_counter : st_counter st = sp_counter sp;
  rl_dispatching : st_dispatching st = sp_dispatching sp;
  rl_world : st_world st = sp_world sp;
  rl_subs : present (map_at (st_next st) st) = sp_subs sp;
  rl_next : st_next st < length (st_maps st);
  rl_flags : forall i, i ∈ st_subscribed st <-> i ∈ (sp_subs sp).*1;
  rl_keys : NoDup (sp_subs sp).*1;
  rl_below : forall i, i ∈ (sp_subs sp).*1 -> i < sp_counter sp
}.

(** A map nobody changes any more: every change is preceded by a copy if it is the next one. *)
Definition frozen (loc : nat) st : Prop :=
  loc < length (st_maps st) /\ (loc = st_next st -> st_current st = Some (st_next st)).

Definition keeps_frozen st st' : Prop :=
  forall loc, frozen loc st -> frozen loc st' /\ map_at loc st' = map_at loc st.

#[local] Instance keeps_frozen_preorder : PreOrder keeps_frozen.
Proof.
  split; [by intros st loc|]. intros st1 st2 st3 H12 H23 loc Hf.
  destruct (H12 loc Hf) as [Hf2 E2]. destruct (H23 loc Hf2) as [Hf3 E3]. by rewrite E3.
Qed.

Lemma ensure_related st sp : related st sp ->
  related (ensure_can_mutate_next_listeners st) sp /\
  keeps_frozen st (ensure_can_mutate_next_listeners st) /\
  st_current (ensure_can_mutate_next_listeners st) <> Some (st_next (ensure_can_mutate_next_listeners st)).
Proof.
  intros []. unfold ensure_can_mutate_next_listeners. case_bool_decide as Hc; [|done].
  split; [|split].
  - split; simpl; try done.
    + unfold map_at in *. simpl. rewrite lookup_app_r, Nat.sub_diag by done. simpl.
      rewrite map_copy_present; [done|]. by rewrite rl_subs0.
    + rewrite length_app. simpl. lia.
  - intros loc [Hl Hn]. split.
    + split; simpl; [rewrite length_app; simpl; lia|]. intros ->. simpl in *. lia.
    + unfold map_at. simpl. by rewrite lookup_app_l.
  - simpl. rewrite Hc. intros [=]. simpl in *. lia.
Qed.

Lemma update_keeps_frozen f st : st_current st <> Some (st_next st) -> keeps_frozen st (update_next f st).
Proof.
  intros Hc loc [Hl Hn]. split; [split; simpl; [by rewrite length_insert|done]|].
  unfold map_at, update_next. simpl. rewrite list_lookup_insert_ne; [done|]. intros <-. by apply Hc, Hn.
Qed.

Lemma map_at_update f st : st_next st < length (st_maps st) ->
  map_at (st_next st) (update_next f st) = f (map_at (st_next st) st).
Proof. intros Hl. unfold map_at at 1, update_next. simpl. by rewrite list_lookup_insert_eq. Qed.

(** One step of either store, with the same answer. *)
Definition agree {X} st (o : outcome X) (o' : spec_outcome X) : Prop :=
  match o, o' with
  | None, None => True
  | Some (r, st'), Some (r', sp') => r = r' /\ related st' sp' /\ keeps_frozen st st'
  | _, _ => False
  end.

Lemma elem_of_one (i j : nat) (s : subscriber L V) : i ∈ [(j, s)].*1 <-> i = j.
Proof. apply list_elem_of_singleton. Qed.

Lemma agree_same {X} (r : result X js_error) st sp : related st sp -> agree st (Some (r, st)) (Some (r, sp)).
Proof. intros Hr. split; [done|]. by split; [|reflexivity]. Qed.

Lemma agree_subscribe s st sp : related st sp -> agree st (Some (subscribe s st)) (Some (spec_subscribe s sp)).
Proof.
  intros Hr. unfold subscribe, spec_subscribe. rewrite (rl_dispatching _ _ Hr).
  destruct (sp_dispatching sp) eqn:Ed; [by apply agree_same|].
  destruct (ensure_related st sp Hr) as (Hr1 & Hk & Hc). set (st1 := ensure_can_mutate_next_listeners st) in *.
  set (st2 := set_counter _ _).
  assert (Hn2 : map_at (st_next st2) st2 = map_at (st_next st1) st1) by done.
  destruct Hr1. split; [by f_equal|]. split.
  - assert (Hfresh : st_counter st1 ∉ (present (map_at (st_next st1) st1)).*1).
    { rewrite rl_subs0, rl_counter0. intros Hin%rl_below0. lia. }
    split; simpl; try done.
    + by rewrite rl_counter0.
    + by rewrite rl_dispatching0.
    + change (st_next st1) with (st_next st2). rewrite (map_at_update _ st2) by done. rewrite Hn2.
      rewrite present_set_fresh by done. by rewrite rl_subs0, rl_counter0.
    + by rewrite length_insert.
    + intros i. rewrite fmap_app, elem_of_app, elem_of_union, elem_of_singleton, rl_flags0, rl_counter0.
      rewrite elem_of_one. tauto.
    + rewrite fmap_app. apply NoDup_app. split; [done|]. split; [|apply NoDup_singleton].
      intros i Hi%rl_below0. rewrite elem_of_one. lia.
    + intros i. rewrite fmap_app, elem_of_app, elem_of_one. intros [Hi%rl_below0| ->]; lia.
  - transitivity st1; [done|]. transitivity st2; [by intros loc Hf|]. by apply update_keeps_frozen.
Qed.

Lemma agree_unsubscribe i st sp : related st sp -> agree st (Some (unsubscribe i st)) (Some (spec_unsubscribe i sp)).
Proof.
  intros Hr. unfold unsubscribe, spec_unsubscribe. rewrite (bool_decide_ext _ _ (rl_flags _ _ Hr i)).
  case_bool_decide as Hi; [|by apply agree_same].
  rewrite (rl_dispatching _ _ Hr). destruct (sp_dispatching sp) eqn:Ed; [by apply agree_same|].
  set (st0 := set_subscribed _ st).
  destruct (ensure_related st sp Hr) as (Hr1 & Hk & Hc). set (st1 := ensure_can_mutate_next_listeners st) in *.
  assert (E : ensure_can_mutate_next_listeners st0 = set_subscribed (st_subscribed st ∖ {[i]}) st1).
  { unfold st1, ensure_can_mutate_next_listeners. simpl. by destruct (bool_decide _). }
  rewrite E. set (st2 := set_subscribed _ st1).
  destruct Hr1. split; [done|]. split.
  - split; simpl; try done.
    + by rewrite rl_dispatching0, Ed.
    + change (present (map_at (st_next st2) (update_next (map_delete i) st2)) = filter (fun e => e.1 <> i) (sp_subs sp)).
      rewrite (map_at_update _ st2) by done. rewrite present_delete. by f_equal.
    + by rewrite length_insert.
    + intros j. rewrite elem_of_difference, elem_of_singleton, (rl_flags _ _ Hr), !list_elem_of_fmap. split.
      * intros [(e & -> & He) Hn]. exists e. split; [done|]. by apply list_elem_of_filter.
      * intros (e & -> & [Hn He]%list_elem_of_filter). split; [|done]. by exists e.
    + apply (sublist_NoDup _ (sp_subs sp).*1); [done|]. apply fmap_sublist, sublist_filter.
    + intros j (e & -> & [_ He]%list_elem_of_filter)%list_elem_of_fmap. apply rl_below0. by apply list_elem_of_fmap_2.
  - transitivity st1; [done|]. transitivity st2; [by intros loc Hf|].
    transitivity (update_next (map_delete i) st2); [by apply update_keeps_frozen|].
    intros loc [Hl Hn]. split; [|done]. split; [done|]. intros ->. destruct Hc. by apply Hn.
Qed.

Section steps.
Variable fuel : nat.
Hypothesis IH : forall X (p : prog X) st sp, related st sp -> agree st (run fuel X p st) (spec_run fuel X p sp).

Lemma agree_run {X} (p : prog X) st sp : related st sp ->
  (run fuel X p st = None /\ spec_run fuel X p sp = None) \/
  exists r st' sp', run fuel X p st = Some (r, st') /\ spec_run fuel X p sp = Some (r, sp') /\
    related st' sp' /\ keeps_frozen st st'.
Proof.
  intros Hr. specialize (IH X p st sp Hr). unfold agree in IH.
  destruct (run fuel X p st) as [[r st']|], (spec_run fuel X p sp) as [[r' sp']|]; try done; [|by left].
  right. destruct IH as (-> & ? & ?). by eexists _, _, _.
Qed.

(** The iteration over a frozen map calls its entries, whatever they do meanwhile. *)
Lemma agree_notify loc n i (m : js_map L V) st sp : related st sp -> frozen loc st -> map_at loc st = m ->
  length m - i < n ->
  agree st (notify (run fuel) n loc i st) (spec_notify (spec_run fuel) (present (drop i m)) sp).
Proof.
  revert i st sp. induction n as [|n IHn]; intros i st sp Hr Hf Hm Hn; [lia|]. simpl. rewrite Hm.
  destruct (m !! i) as [[[j s]|]|] eqn:Ei.
  - pose proof (lookup_lt_Some _ _ _ Ei) as Hlt. rewrite (present_drop _ _ _ Ei). simpl.
    destruct (agree_run (body_of s) st sp Hr) as [[-> ->]|(r & st1 & sp1 & -> & -> & Hr1 & Hk)]; [done|].
    destruct r as [[]|e]; [|done]. destruct (Hk loc Hf) as [Hf1 Em].
    specialize (IHn (S i) st1 sp1 Hr1 Hf1 ltac:(by rewrite Em) ltac:(lia)). unfold agree in *.
    destruct (notify _ _ _ _ _) as [[r st2]|], (spec_notify _ _ _) as [[r' sp2]|]; try done.
    destruct IHn as (-> & Hr2 & Hk2). split; [done|]. split; [done|]. by transitivity st1.
  - pose proof (lookup_lt_Some _ _ _ Ei) as Hlt. rewrite (present_drop _ _ _ Ei). apply IHn; auto; lia.
  - apply lookup_ge_None in Ei. rewrite drop_ge by done. by apply agree_same.
Qed.

Lemma agree_dispatch a st sp : related st sp -> agree st (dispatch (run fuel) a st) (spec_dispatch (spec_run fuel) a sp).
Proof.
  intros Hr. unfold dispatch, spec_dispatch. destruct (action_error a); [by apply agree_same|].
  rewrite (rl_dispatching _ _ Hr). destruct (sp_dispatching sp) eqn:Ed; [by apply agree_same|].
  set (sp0 := SpecStore _ _ _ _ true _). rewrite (rl_reducer _ _ Hr), (rl_state _ _ Hr).
  assert (Hr0 : related (set_dispatching true st) sp0) by (by destruct Hr).
  destruct (agree_run (reduce (sp_reducer sp) (sp_state sp) a) _ _ Hr0)
    as [[-> ->]|(r & st1 & sp1 & -> & -> & Hr1 & Hk)]; [done|].
  destruct r as [s|e].
  - set (st3 := set_current _ _). set (sp3 := SpecStore _ _ _ _ _ _).
    assert (Hr3 : related st3 sp3) by (by destruct Hr1).
    assert (Hf3 : frozen (st_next st3) st3) by (split; [apply Hr1|done]).
    assert (Hk3 : keeps_frozen st st3).
    { intros loc Hf. destruct (Hk loc Hf) as [[Hl Hn] E]. split; [|exact E]. by split. }
    pose proof (agree_notify (st_next st3) (S (length (map_at (st_next st3) st3))) 0 _ st3 sp3 Hr3 Hf3 eq_refl ltac:(lia)) as Ha.
    rewrite drop_0, (rl_subs _ _ Hr3) in Ha. unfold agree in *.
    destruct (notify _ _ _ _ _) as [[r st4]|], (spec_notify _ _ _) as [[r' sp4]|]; try done.
    destruct Ha as (-> & Hr4 & Hk4). split; [done|]. split; [done|]. by transitivity st3.
  - split; [done|]. split; [by destruct Hr1|exact Hk].
Qed.

Lemma agree_observe o st sp : related st sp -> agree st (observe (run fuel) o st) (spec_observe (spec_run fuel) o sp).
Proof.
  intros Hr. unfold observe, spec_observe.
  destruct (agree_run (observe_state o) st sp Hr) as [[-> ->]|(r & st1 & sp1 & -> & -> & Hr1 & Hk)]; [done|].
  destruct r as [[]|e]; [|done]. pose proof (agree_subscribe (SubObserve o) st1 sp1 Hr1) as Ha. unfold agree in *.
  destruct (subscribe _ _), (spec_subscribe _ _). destruct Ha as (-> & ? & ?). split; [done|]. split; [done|]. by transitivity st1.
Qed.

(** After a call, the rest of the program. *)
Lemma agree_then {A X} (o : outcome A) (o' : spec_outcome A) (k : result A js_error -> prog X) st :
  agree st o o' ->
  agree st (match o with Some (r, st1) => run fuel X (k r) st1 | None => None end)
           (match o' with Some (r, sp1) => spec_run fuel X (k r) sp1 | None => None end).
Proof.
  unfold agree at 1. destruct o as [[r st1]|], o' as [[r' sp1]|]; try done. intros (-> & Hr1 & Hk).
  specialize (IH X (k r') st1 sp1 Hr1). unfold agree in *.
  destruct (run _ _ _ _) as [[r st2]|], (spec_run _ _ _ _) as [[r2 sp2]|]; try done.
  destruct IH as (-> & ? & ?). split; [done|]. split; [done|]. by transitivity st1.
Qed.

End steps.

Lemma agree_program fuel X (p : prog X) st sp : related st sp -> agree st (run fuel X p st) (spec_run fuel X p sp).
Proof.
  revert X p st sp. induction fuel as [|fuel IH]; intros X p st sp Hr; [done|]. destruct p; simpl.
  - by apply agree_same.
  - by apply agree_same.
  - rewrite (rl_world _ _ Hr). apply (IH X _ (set_world _ st)). by destruct Hr.
  - unfold get_state, spec_get_state. rewrite (rl_dispatching _ _ Hr), (rl_state _ _ Hr). by apply IH.
  - by apply (agree_then fuel IH (Some (subscribe _ _)) (Some (spec_subscribe _ _))), agree_subscribe.
  - by apply (agree_then fuel IH (Some (unsubscribe _ _)) (Some (spec_unsubscribe _ _))), agree_unsubscribe.
  - by apply (agree_then fuel IH), agree_dispatch.
  - apply (agree_then fuel IH). unfold replace_reducer, spec_replace_reducer.
    assert (Hr' : related (set_reducer r st) (SpecStore r (sp_state sp) (sp_subs sp) (sp_counter sp) (sp_dispatching sp) (sp_world sp)))
      by (by destruct Hr).
    exact (agree_dispatch fuel IH replace_action _ _ Hr').
  - by apply (agree_then fuel IH), agree_observe.
Qed.

Lemma initial_related (r : R) (s : St) (w : W) :
  related (Store r s (Some 0) 0 0 false [[]] ∅ w) (SpecStore r s [] 0 false w).
Proof. split; simpl; try done; try lia; [set_solver|constructor|by intros i ?%elem_of_nil]. Qed.

(** [C26] The store, with its mutable listener maps and the references between them, behaves as one whose
    subscriptions are a list: whatever the listeners and reducers do (subscribe, unsubscribe, dispatch,
    throw or catch, nested to any depth), every call of a page's script has the same result, leaves the
    same state and runs the same listeners in the same order.  So a dispatch notifies the functions
    subscribed when its reducer returned, in the order they subscribed, and a subscription made or
    cancelled by one of them takes effect from the next dispatch on. *)
Theorem store_refines_snapshots (fuel : nat) (r : R) (preloaded : St) (w : W) X (p : prog X) :
  seen (store_script fuel r preloaded w p) = spec_seen (spec_script fuel r preloaded w p).
Proof.
  unfold store_script, spec_script, create_store, spec_create.
  assert (Hseen : forall Y st (o : outcome Y) (o' : spec_outcome Y), agree st o o' -> seen o = spec_seen o').
  { intros Y st [[a st1]|] [[a' sp1]|]; simpl; try done. by intros (-> & [] & _); subst; rewrite rl_state0, rl_world0. }
  pose proof (agree_dispatch fuel (agree_program fuel) init_action _ _ (initial_related r preloaded w)) as Ha.
  unfold agree in Ha. destruct (dispatch _ _ _) as [[r1 st1]|], (spec_dispatch _ _ _) as [[r2 sp1]|]; try done.
  destruct Ha as (-> & Hr1 & _). destruct r2 as [[]|e].
  - eapply Hseen, agree_program, Hr1.
  - simpl. by destruct Hr1; rewrite rl_state0, rl_world0.
Qed.

End refinement.

(** ** Reducers *)

Section reducers.
Context {St P L V R W : Type} `{!StoreCode St P L V R W}.
Implicit Types (st : store St L V R W).

(** What a reducer cannot change: everything but the page's world and the reducer itself, which
    [replaceReducer] assigns before its dispatch is refused. *)
Definition same_store st st' : Prop :=
  st_state st' = st_state st /\ st_maps st' = st_maps st /\ st_current st' = st_current st /\ st_next st' = st_next st /\
  st_counter st' = st_counter st /\ st_subscribed st' = st_subscribed st /\ st_dispatching st' = st_dispatching st.

Lemma same_store_trans st1 st2 st3 : same_store st1 st2 -> same_store st2 st3 -> same_store st1 st3.
Proof. unfold same_store. intuition congruence. Qed.

Lemma dispatch_refused (go : forall X, program St P L V R W X -> store St L V R W -> outcome X) a st :
  st_dispatching st = true -> exists e, dispatch go a st = Some (Err e, st).
Proof. intros Hd. unfold dispatch. destruct (action_error a); [by eexists|]. rewrite Hd. by eexists. Qed.

(** While a reducer runs, no call of it reaches the store. *)
Lemma reducer_changes_nothing fuel X (p : program St P L V R W X) st r st' :
  st_dispatching st = true -> run fuel X p st = Some (r, st') -> same_store st st'.
Proof.
  revert X p st r st'. induction fuel as [|fuel IH]; intros X p st r st' Hd Hrun; [done|].
  assert (Hgo : forall A (x : result A js_error) st1 (k : result A js_error -> program St P L V R W X),
    same_store st st1 -> run fuel X (k x) st1 = Some (r, st') -> same_store st st').
  { intros A x st1 k Hs Hk. apply (same_store_trans _ st1); [done|]. eapply IH; [|exact Hk]. destruct Hs. intuition congruence. }
  destruct p; simpl in Hrun.
  - by injection Hrun as <- <-.
  - by injection Hrun as <- <-.
  - apply (same_store_trans _ (set_world (f (st_world st)) st)); [done|]. by eapply IH; [|exact Hrun].
  - by eapply IH; [|exact Hrun].
  - unfold subscribe in Hrun. rewrite Hd in Hrun. by eapply Hgo; [|exact Hrun].
  - unfold unsubscribe in Hrun. rewrite Hd in Hrun. by destruct (bool_decide _); eapply Hgo; [|exact Hrun| |exact Hrun].
  - destruct (dispatch_refused (run fuel) a st Hd) as [e He]. rewrite He in Hrun. by eapply Hgo; [|exact Hrun].
  - destruct (dispatch_refused (run fuel) replace_action (set_reducer r0 st) Hd) as [e He].
    unfold replace_reducer in Hrun. rewrite He in Hrun. by eapply Hgo; [|exact Hrun].
  - unfold observe in Hrun. destruct (run fuel unit _ st) as [[[[]|e] st1]|] eqn:Eo; [| |done].
    + pose proof (IH _ _ _ _ _ Hd Eo) as Hs. unfold subscribe in Hrun.
      assert (Ed : st_dispatching st1 = true) by (destruct Hs; intuition congruence). rewrite Ed in Hrun.
      by eapply Hgo; [|exact Hrun].
    + by eapply Hgo; [exact (IH _ _ _ _ _ Hd Eo)|exact Hrun].
Qed.

End reducers.

(** ** A page *)

Module ReduxStoreDemo.

(** The world is the log of the listeners that ran. Listener 2 subscribes listener 3 and cancels the
    subscription of listener 1 (number 2), listener 4 dispatches once more when the state is odd. *)
Definition log (n : nat) (k : program nat nat nat unit unit (list nat) unit) : program nat nat nat unit unit (list nat) unit :=
  Act (fun l => l ++ [n]) (fun _ => k).

Definition add (n : nat) : action nat := Action true (TypeString "add") (Some n).

#[export] Instance code : StoreCode nat nat nat unit unit (list nat) := {
  listener l :=
    match l with
    | 2 => log 2 (Subscribe 3 (fun _ => Unsubscribe 2 (fun _ => Return tt)))
    | 4 => log 4 (GetState (fun r => match r with
                                     | Ok s => if Nat.odd s then Dispatch (add 1) (fun _ => Return tt) else Return tt
                                     | Err e => Throw e
                                     end))
    | n => log n (Return tt)
    end;
  next_of _ := None;
  reduce _ s a := match ac_payload a with
                  | Some n => if Nat.eqb n 9 then Subscribe 1 (fun r => match r with Ok _ => Return s | Err e => Throw e end)
                              else Return (s + n)
                  | None => Return s
                  end
}.

Definition subscribing (ls : list nat) (k : program nat nat nat unit unit (list nat) unit) : program nat nat nat unit unit (list nat) unit :=
  foldr (fun l p => Subscribe l (fun _ => p)) k ls.

(** Listener 1 is still called by the dispatch during which it is cancelled, and listener 3 is not called
    until the next one. *)
Example snapshot_semantics :
  (fun o => o.2) <$> seen (store_script 50 tt 0 [] (subscribing [5; 2; 1] (Dispatch (add 2) (fun _ => Dispatch (add 2) (fun _ => Return tt))))) =
    Some [5; 2; 1; 5; 2; 3].
Proof. by vm_compute. Qed.

(** A dispatch from a listener notifies everyone before the outer one goes on. *)
Example nested_dispatch :
  seen (store_script 50 tt 0 [] (subscribing [4; 6] (Dispatch (add 1) (fun _ => Return tt)))) =
    Some (Ok tt, 2, [4; 4; 6; 6]).
Proof. by vm_compute. Qed.

(** A reducer that subscribes throws, and the store can dispatch again. *)
Example reducer_refused :
  seen (store_script 50 tt 0 [] (subscribing [6] (Dispatch (add 9) (fun r => Dispatch (add 1) (fun _ => match r with Ok _ => Return tt | Err e => Throw e end))))) =
    Some (Err (redux_error 5), 1, [6]).
Proof. by vm_compute. Qed.

End ReduxStoreDemo.
