(* ===== verification/Gateway.v ===== *)
(** The declaration of a WebSocket gateway: [#[gateway]] on the struct ([nestrs-ws-macros/src/gateway.rs],
    [attr.rs]) and the [Discoverable] impl that [#[messages]] emits for it ([messages.rs]), up to the
    endpoint it mounts.  What that endpoint then does with a connection is in [Ws]. *)

From S2P Require Import Prelude Container Codegen Register.

(** ** The arguments of the attribute *)

Inductive meta_value := ValueStr (s : string) | ValuePath (p : syn_type) | ValueOther.
Inductive meta_arg := NameValue (name : string) (v : meta_value) | MetaOther.

Inductive gateway_error := ExpectedString | ExpectedPath | UnknownGatewayArg | PathRequired.

Record gateway_args := GatewayArgs { ga_path : string; ga_namespace : option syn_type }.

Definition expr_str (v : meta_value) : result string gateway_error :=
  match v with ValueStr s => Ok s | _ => Err ExpectedString end.
Definition expr_path (v : meta_value) : result syn_type gateway_error :=
  match v with ValuePath p => Ok p | _ => Err ExpectedPath end.

Definition gateway_arg (st : option string * option syn_type) (m : meta_arg)
  : result (option string * option syn_type) gateway_error :=
  match m with
  | NameValue name v =>
      if String.eqb name "path" then let? s := expr_str v in Ok (Some s, st.2)
      else if String.eqb name "namespace" then let? p := expr_path v in Ok (st.1, Some p)
      else Err UnknownGatewayArg
  | MetaOther => Err UnknownGatewayArg
  end.

Definition parse_gateway_args (metas : list meta_arg) : result gateway_args gateway_error :=
  let? st := for_each gateway_arg metas (None, None) in
  let? path := ok_or st.1 PathRequired in
  Ok (GatewayArgs path st.2).

(** ** The gateway *)

(** What the crate and the linker supply: a fresh [WsServer] each time one is made for a gateway, and the
    wrapping of its mount thunk, which its type determines, as metadata. *)
Class GatewayCode `{Payloads} := {
  fresh_registry : ty -> val;
  endpoint_meta : ty -> val
}.

Definition t_http_endpoint_meta : ty := TNamed "HttpEndpointMeta".
Definition t_socket_context : ty := TDyn "SocketContext".

Section gateway.
Context `{Compiler} `{Structs} `{!GatewayCode}.

(** The two halves of the declaration: the struct with its connection-level guards, and the events of the
    impl block with the guards of each. *)
Record gateway_decl := GatewayDecl {
  gd_self : ty;
  gd_item : item_struct;
  gd_args : gateway_args;
  gd_guards : list syn_type;
  gd_messages : list (string * list syn_type)
}.

(** [WsServer<Ns>], with [Global] for want of a namespace. *)
Definition registry_path (namespace : option syn_type) : syn_type :=
  let ns := default (TyPath [PathSegment "nestrs_ws" PathNone; PathSegment "Global" PathNone]) namespace in
  TyPath [PathSegment "nestrs_ws" PathNone; PathSegment "WsServer" (AngleBracketed [GType ns])].
Definition registry_ty (gd : gateway_decl) : ty := type_id (registry_path (ga_namespace (gd_args gd))).

(** [__nestrs_provide_registry]. *)
Definition provide_registry (gd : gateway_decl) : list registration :=
  match ga_namespace (gd_args gd) with
  | Some _ => [RProvide (registry_ty gd) (fresh_registry (gd_self gd))]
  | None => []
  end.

Definition message_guards (gd : gateway_decl) : list syn_type := List.concat (map snd (gd_messages gd)).

(** The emitted [Discoverable]. *)
Definition gateway_discoverable (gd : gateway_decl) : result discoverable syn_error :=
  let? body := build_injectable_body (gd_item gd) in
  Ok {| d_dependencies := [];
        d_injected := injected_with_layers (ib_dep_keys body) (gd_guards gd) (message_guards gd);
        d_dependency_names := []; d_optional_dependencies := [];
        d_from_container := eval_ctor (i_ident (gd_item gd)) (ib_ctor body);
        d_register := fun _ => Ok (provide_registry gd ++ [RAttachMeta (gd_self gd) t_http_endpoint_meta (endpoint_meta (gd_self gd))]) |}.

(** *** The mount closure *)

Record mounted := Mounted {
  mt_gateway : val;
  mt_server : val;
  mt_guards : gmap string (list val);
  mt_context : option val;
  mt_layers : list val                (* outermost first *)
}.

Definition registry_message : string :=
  "WebSocket gateway requires its connection registry — add `WsModule` to a module's `imports` for the default namespace, or the gateway self-provides a `namespace`d one".

Definition resolve_guard (what : string) (c : container) (p : syn_type) : result val panic :=
  expect (get (type_id p) c)
    ("#[use_guards] " +:+ what +:+ " `" +:+ token_text p +:+ "` is not registered — add it to a module's providers").

(** The emitted inserts: only guarded events have one. *)
Definition insert_guards (c : container) (t : gmap string (list val)) (m : string * list syn_type)
  : result (gmap string (list val)) panic :=
  match m.2 with
  | [] => Ok t
  | paths => let? vs := collect_results (resolve_guard "message guard" c) paths in Ok (<[m.1 := vs]> t)
  end.

(** [__nestrs_gateway_layers] wraps from the innermost guard outwards. *)
Definition guard_layers (c : container) (paths : list syn_type) : result (list val) panic :=
  let? inner_first := collect_results (resolve_guard "guard" c) (rev paths) in Ok (rev inner_first).

Definition mount (gd : gateway_decl) (from_container : container -> result val panic) (c : container) : result mounted panic :=
  let? gw := from_container c in
  let? server := expect (get (registry_ty gd) c) registry_message in
  let? guards := for_each (insert_guards c) (gd_messages gd) ∅ in
  let ctx := get_dyn t_socket_context c in
  let? layers := guard_layers c (gd_guards gd) in
  Ok (Mounted gw server guards ctx layers).

End gateway.

(** ** Mounting *)

Section mounting.
Context `{Compiler} `{Structs} `{!GatewayCode}.
Hypothesis same_text : forall a b, token_text a = token_text b -> type_id a = type_id b.
Implicit Types (gd : gateway_decl) (c : container).

(** A list of guards resolves when each one is bound, to their instances in order. *)
Lemma resolve_guards_ok what c paths :
  (exists vs, collect_results (resolve_guard what c) paths = Ok vs) <-> Forall (bound c) paths.
Proof.
  assert (Hone : forall p v, resolve_guard what c p = Ok v <-> get (type_id p) c = Some v).
  { intros p v. unfold resolve_guard, expect. destruct (get (type_id p) c); simpl; split; congruence. }
  split.
  - intros [vs Hvs%collect_results_ok]. induction Hvs as [|p v ps vs Hp]; constructor; [|done].
    apply Hone in Hp. by exists v.
  - intros Hall. assert (exists vs, Forall2 (fun p v => resolve_guard what c p = Ok v) paths vs) as [vs Hvs].
    { induction Hall as [|p ps [v Hv] _ [vs Hvs]]; [by exists []|]. exists (v :: vs). constructor; [by apply Hone|done]. }
    exists vs. by apply collect_results_ok.
Qed.

Lemma resolve_guards_instances what c paths vs : collect_results (resolve_guard what c) paths = Ok vs ->
  Forall2 (fun p v => get (type_id p) c = Some v) paths vs.
Proof.
  intros Hvs%collect_results_ok. eapply Forall2_impl; [exact Hvs|]. intros p v. unfold resolve_guard, expect.
  destruct (get (type_id p) c); simpl; congruence.
Qed.

Lemma forall2_rev {A B} (P : A -> B -> Prop) l k : Forall2 P l k -> Forall2 P (rev l) (rev k).
Proof. induction 1; simpl; [constructor|]. apply Forall2_app; [done|by constructor]. Qed.

Lemma guard_layers_spec c paths :
  ((exists vs, guard_layers c paths = Ok vs) <-> Forall (bound c) paths) /\
  forall vs, guard_layers c paths = Ok vs -> Forall2 (fun p v => get (type_id p) c = Some v) paths vs.
Proof.
  unfold guard_layers. split.
  - assert (Hr : Forall (bound c) (rev paths) <-> Forall (bound c) paths) by (split; intros Hf; [apply Forall_rev in Hf; by rewrite rev_involutive in Hf|by apply Forall_rev]).
    rewrite <- Hr, <- (resolve_guards_ok "guard"). split.
    + intros [vs Hvs]. destruct (collect_results _ _) as [l|] eqn:E; [by exists l|done].
    + intros [l ->]. by eexists.
  - intros vs Hvs. destruct (collect_results _ _) as [l|] eqn:E; [|done]. injection Hvs as <-.
    apply resolve_guards_instances, forall2_rev in E. by rewrite rev_involutive in E.
Qed.

(** The table: every guarded event, under its guards' instances. *)
Lemma insert_guards_spec c ms t :
  ((exists t', for_each (insert_guards c) ms t = Ok t') <-> Forall (fun m : string * list syn_type => Forall (bound c) m.2) ms) /\
  forall t', for_each (insert_guards c) ms t = Ok t' -> NoDup ms.*1 ->
    (forall event, event ∉ ms.*1 -> t' !! event = t !! event) /\
    forall event paths, (event, paths) ∈ ms ->
      match paths with
      | [] => t' !! event = t !! event
      | _ => exists vs, t' !! event = Some vs /\ Forall2 (fun p v => get (type_id p) c = Some v) paths vs
      end.
Proof.
  revert t. induction ms as [|[e ps] ms IH]; intros t; simpl.
  { split; [split; [by constructor|by exists t]|]. intros t' [= <-] _. split; [done|]. by intros ?? ?%elem_of_nil. }
  assert (Hstep : (exists t1, insert_guards c t (e, ps) = Ok t1) <-> Forall (bound c) ps).
  { rewrite <- (resolve_guards_ok "message guard"). unfold insert_guards. cbn [fst snd]. destruct ps as [|p ps]; [by split; eexists|].
    split; intros [x Hx].
    - destruct (collect_results _ _) as [l|] eqn:E; [by exists l|done].
    - rewrite Hx. by eexists. }
  split.
  - rewrite Forall_cons. simpl. destruct (insert_guards c t (e, ps)) as [t1|err] eqn:E1; simpl.
    + rewrite (proj1 (IH t1)). split; [intros Ht; split; [apply (proj1 Hstep); by exists t1|exact Ht]|by intros [_ ?]].
    + split; [intros [? ?]; done|]. intros [Hps _]. apply (proj2 Hstep) in Hps as [? ?]. congruence.
  - intros t' Ht' [Hne Hnd]%NoDup_cons. destruct (insert_guards c t (e, ps)) as [t1|err] eqn:E1; [|done]. simpl in Ht'.
    destruct (proj2 (IH t1) t' Ht' Hnd) as [Hother Heach].
    assert (Ht1 : forall event, event <> e -> t1 !! event = t !! event).
    { intros event Hn. unfold insert_guards in E1. cbn [fst snd] in E1. destruct ps; [congruence|].
      destruct (collect_results _ _); [|done]. injection E1 as <-. by rewrite lookup_insert_ne. }
    split.
    + intros event [Hn1 Hn2]%not_elem_of_cons. rewrite Hother by done. by apply Ht1.
    + intros event paths [[= -> ->]|Hin]%elem_of_cons.
      * unfold insert_guards in E1. cbn [fst snd] in E1. destruct ps as [|p ps].
        -- injection E1 as ->. by apply Hother.
        -- destruct (collect_results _ _) as [l|] eqn:El; [|done]. injection E1 as <-. exists l.
           rewrite Hother by done. rewrite lookup_insert_eq. split; [done|]. by eapply resolve_guards_instances.
      * specialize (Heach event paths Hin). destruct paths; [|done]. rewrite Heach. apply Ht1.
        intros ->. apply Hne. by apply (list_elem_of_fmap_2 fst) in Hin.
Qed.

Lemma bound_message_guards c gd :
  Forall (fun m : string * list syn_type => Forall (bound c) m.2) (gd_messages gd) <-> Forall (bound c) (message_guards gd).
Proof.
  unfold message_guards. induction (gd_messages gd) as [|m ms IH]; simpl; [split; by constructor|].
  rewrite Forall_cons, Forall_app. by rewrite IH.
Qed.

(** A registration of the gateway makes its own registry, which stays. *)
Lemma own_registry_bound gd d b rs b' : gateway_discoverable gd = Ok d -> is_Some (ga_namespace (gd_args gd)) ->
  d_register d b = Ok rs -> builder_wf b -> grows (apply_registrations rs b) b' -> is_Some (get (registry_ty gd) (build b')).
Proof.
  intros Hd [ns Hns] Hr Hwf Hg. unfold gateway_discoverable in Hd. destruct (build_injectable_body _); [|done].
  injection Hd as <-. injection Hr as <-. unfold provide_registry in Hg. rewrite Hns in Hg. simpl in Hg.
  assert (Hc : contains (registry_ty gd) b' = true).
  { apply (grows_contains _ _ Hg). unfold attach_meta, push_meta. simpl.
    change (contains (registry_ty gd) (provide (registry_ty gd) (fresh_registry (gd_self gd)) b) = true).
    rewrite contains_provide. by rewrite bool_decide_true. }
  assert (Hwf' : builder_wf b').
  { apply (grows_wf _ _ Hg).
    by apply (apply_registrations_wf [RProvide (registry_ty gd) (fresh_registry (gd_self gd)); RAttachMeta (gd_self gd) t_http_endpoint_meta (endpoint_meta (gd_self gd))]). }
  apply contains_iff in Hc as [any Hany]. rewrite get_build_eq by apply Hwf'. rewrite Hany. by eexists.
Qed.

(** The endpoint of a gateway mounts exactly when every key its [injected] declares and its connection
    registry are bound; the boot's access contract covers the first but not the second, which a
    namespaced gateway supplies itself and any other takes from [WsModule].  A mounted gateway is
    wrapped in its own guards, the first listed outermost, and holds for each event the guards declared
    for it, in order. *)
Lemma gateway_mounts_when_wired gd d c : gateway_discoverable gd = Ok d ->
  ((exists m, mount gd (d_from_container d) c = Ok m) <->
     (forall k, k ∈ d_injected d -> is_Some (get k c)) /\ is_Some (get (registry_ty gd) c)) /\
  (forall m, mount gd (d_from_container d) c = Ok m -> NoDup (gd_messages gd).*1 ->
     Forall2 (fun p v => get (type_id p) c = Some v) (gd_guards gd) (mt_layers m) /\
     forall event paths, (event, paths) ∈ gd_messages gd ->
       match paths with
       | [] => mt_guards m !! event = None
       | _ => exists vs, mt_guards m !! event = Some vs /\ Forall2 (fun p v => get (type_id p) c = Some v) paths vs
       end) /\
  (is_Some (ga_namespace (gd_args gd)) -> forall b rs b', d_register d b = Ok rs -> builder_wf b ->
     grows (apply_registrations rs b) b' -> is_Some (get (registry_ty gd) (build b'))).
Proof.
  intros Hd. split; [|split]; [| |intros; by eapply own_registry_bound].
  - unfold gateway_discoverable in Hd. destruct (build_injectable_body (gd_item gd)) as [body|] eqn:Eb; [|done].
    injection Hd as <-. simpl. unfold injected_with_layers, mount.
    assert (Hin : (forall k, k ∈ (map type_id (ib_dep_keys body) ++ layer_inject_keys (gd_guards gd)) ++ layer_inject_keys (message_guards gd) ->
        is_Some (get k c)) <->
      (forall k, k ∈ map type_id (ib_dep_keys body) -> is_Some (get k c)) /\
      Forall (bound c) (gd_guards gd) /\ Forall (bound c) (message_guards gd)).
    { rewrite !(bound_keys_iff same_text). setoid_rewrite elem_of_app. setoid_rewrite elem_of_app. naive_solver. }
    rewrite Hin. clear Hin. rewrite <- bound_message_guards, <- (proj1 (insert_guards_spec c (gd_messages gd) ∅)), <- (proj1 (guard_layers_spec c (gd_guards gd))).
    rewrite <- (eval_ctor_ok_iff _ _ c Eb). unfold expect. split.
    + intros [m Hm]. destruct (eval_ctor _ _ c) as [gw|]; [|done]. simpl in Hm.
      destruct (get (registry_ty gd) c) as [s|]; [|done]. simpl in Hm.
      destruct (for_each _ _ _) as [t|]; [|done]. simpl in Hm. destruct (guard_layers c _) as [l|]; [|done]. eauto 10.
    + intros [([gw ->] & [l ->] & [t ->]) [s ->]]. simpl. by eexists.
  - intros m Hm Hnd. unfold mount in Hm. destruct (d_from_container d c) as [gw|]; [|done]. simpl in Hm.
    destruct (expect _ _) as [s|]; [|done]. simpl in Hm.
    destruct (for_each _ _ _) as [t|] eqn:Et; [|done]. simpl in Hm.
    destruct (guard_layers c _) as [l|] eqn:El; [|done]. injection Hm as <-. simpl.
    split; [by apply (proj2 (guard_layers_spec c (gd_guards gd)))|].
    intros event paths Hin. exact (proj2 (proj2 (insert_guards_spec c _ _) t Et Hnd) event paths Hin).
Qed.

End mounting.

(** ** Concrete gateways *)

Module GatewayDemo.
Import CodegenDemo.

#[local] Existing Instance texts.

(** A constructed value here is the last dependency it was given, so that what it holds can be seen. *)
#[local] Instance holders : Structs :=
  { construct := fun _ vs => foldl (fun n (fv : string * field_value) => match fv.2 with FvArc v => v | _ => n end) 0 vs : @val Demo.payloads;
    default_value := fun _ => 0 : @val Demo.payloads;
    scoped_ctor := fun _ => 0 : @scoped_fn Demo.payloads; interceptor_meta := fun v => v }.

(** Each gateway makes a registry of its own. *)
#[local] Instance registries : GatewayCode := {
  fresh_registry self := (if decide (self = TNamed "Chat") then 1 else 2) : @val Demo.payloads;
  endpoint_meta _ := 0 : @val Demo.payloads
}.

Definition chat_ns : syn_type := path "ChatNs".
Definition chat (self : string) (namespace : option syn_type) : gateway_decl :=
  GatewayDecl (TNamed self) (ItemStruct self FieldsUnit) (GatewayArgs "/chat" namespace)
    [path "AuthGuard"] [("say", []); ("kick", [path "AdminGuard"])].
Definition lowered (gd : gateway_decl) : discoverable :=
  match gateway_discoverable gd with Ok d => d | Err _ => svc_discoverable end.

Definition guards : list registration := [RProvide (TNamed "AuthGuard") 7; RProvide (TNamed "AdminGuard") 8].
Definition guarded : container_builder := apply_registrations guards builder_new.
Definition chat_registrations : list registration :=
  match d_register (lowered (chat "Chat" (Some chat_ns))) guarded with Ok rs => rs | Err _ => [] end.

Lemma gateway_mounts_when_wired_witness :
  let gd := chat "Chat" (Some chat_ns) in
  let c := build (apply_registrations chat_registrations guarded) in
  exists m, mount gd (d_from_container (lowered gd)) c = Ok m /\
    Forall2 (fun p v => get (type_id p) c = Some v) (gd_guards gd) (mt_layers m) /\ mt_guards m !! "say" = None.
Proof.
  intros gd c. destruct (gateway_mounts_when_wired texts_same gd (lowered gd) c eq_refl) as (Hiff & Hm & Hreg).
  assert (Hwf : builder_wf guarded) by apply (apply_registrations_wf guards), builder_wf_new.
  assert (Hb : is_Some (get (registry_ty gd) c)).
  { apply (Hreg ltac:(by eexists) guarded chat_registrations); [by vm_compute|done|reflexivity]. }
  destruct (proj2 Hiff) as [m Em].
  { split; [|done]. assert (Hin : d_injected (lowered gd) = [TNamed "AuthGuard"; TNamed "AdminGuard"]) by (by vm_compute).
    rewrite Hin. intros k [->|[->|[]%elem_of_nil]%elem_of_cons]%elem_of_cons; eexists; vm_compute; reflexivity. }
  exists m. split; [done|]. destruct (Hm m Em) as [Hl Ht].
  - apply (bool_decide_unpack (NoDup ["say"; "kick"])). by vm_compute.
  - split; [done|]. exact (Ht "say" [] ltac:(left)).
Defined.

(** Without [WsModule] the declared keys are all bound, the boot has nothing to object to, and the mount
    panics. *)
Example default_namespace_needs_ws_module :
  let gd := chat "Chat" None in
  d_injected (lowered gd) = [TNamed "AuthGuard"; TNamed "AdminGuard"] /\
  mount gd (d_from_container (lowered gd)) (build guarded) = Err (PanicExpect registry_message).
Proof. split; by vm_compute. Qed.

(** A service that injects the registry of a namespace. *)
Definition notifier : discoverable :=
  match injectable (TNamed "Notifier") false
          (ItemStruct "Notifier" (FieldsNamed [Field "clients" (arc (registry_path (Some chat_ns))) true])) with
  | Ok d => d | Err _ => svc_discoverable
  end.

(** Two gateways share a namespace and the service is listed between them: it is built on the registry of
    the first, which the second replaces, and both gateways then mount on the second one.  What the
    service pushes reaches nobody. *)
Example shared_namespace_strands_a_service :
  match register_providers "ChatModule"
          (map plan_of [BindConcrete (TNamed "Chat") "Chat" (lowered (chat "Chat" (Some chat_ns)));
                        BindConcrete (TNamed "Notifier") "Notifier" notifier;
                        BindConcrete (TNamed "Admin") "Admin" (lowered (chat "Admin" (Some chat_ns)))]) guarded with
  | Some (Ok b) =>
      get (TNamed "Notifier") (build b) = Some 1 /\
      result_ok (result_map mt_server (mount (chat "Chat" (Some chat_ns)) (d_from_container (lowered (chat "Chat" (Some chat_ns)))) (build b))) = Some 2
  | _ => False
  end.
Proof. vm_compute. by split. Qed.

Example gateway_arguments :
  parse_gateway_args [NameValue "namespace" (ValuePath chat_ns); NameValue "path" (ValueStr "/chat")] = Ok (GatewayArgs "/chat" (Some chat_ns)) /\
  parse_gateway_args [NameValue "namespace" (ValuePath chat_ns)] = Err PathRequired /\
  parse_gateway_args [NameValue "namespace" (ValueStr "ChatNs")] = Err ExpectedPath /\
  parse_gateway_args [MetaOther; NameValue "path" ValueOther] = Err UnknownGatewayArg.
Proof. done. Qed.

End GatewayDemo.
