(* ===== verification/Messages.v ===== *)
(** The [#[messages]] decorator ([nestrs-ws-macros/src/messages.rs], [attr.rs]): from the methods of an impl
    block to the arms of the dispatcher, the guard inserts and the connection hooks it emits, and from these
    to a gateway of [Ws], with the guards that the mount of [Gateway] has resolved.

    syn's parsing is represented by its results; what a method does and what serde says of a payload type are
    parameters. *)

From S2P Require Import Prelude Container Codegen Ws Gateway.

(** ** The impl block *)

Inductive arg_type := Owned (t : syn_type) | Reference (t : syn_type).
Inductive fn_arg := Receiver | Typed (t : arg_type).

(** No arrow, the empty tuple, or another type. *)
Inductive return_type := ReturnDefault | ReturnUnit | ReturnOther (t : syn_type).

(** An attribute: its name, and its content as a string literal and as a list of paths. *)
Record attribute := Attribute { at_name : string; at_str : result string string; at_paths : result (list syn_type) string }.

Record impl_fn := ImplFn { fn_name : string; fn_attrs : list attribute; fn_inputs : list fn_arg; fn_output : return_type }.
Inductive impl_item := ItemFn (m : impl_fn) | ItemOther.

Definition with_attrs (m : impl_fn) (attrs : list attribute) : impl_fn := ImplFn (fn_name m) attrs (fn_inputs m) (fn_output m).

Definition is_ident (ident : string) (a : attribute) : bool := String.eqb (at_name a) ident.

(** [position] and [remove]. *)
Fixpoint remove_first (ident : string) (attrs : list attribute) : option (attribute * list attribute) :=
  match attrs with
  | [] => None
  | a :: rest =>
      if is_ident ident a then Some (a, rest)
      else '(found, rest') ← remove_first ident rest; Some (found, a :: rest')
  end.

Definition take_use_attr (attrs : list attribute) (ident : string) : result (list syn_type * list attribute) string :=
  match remove_first ident attrs with
  | None => Ok ([], attrs)
  | Some (attr, rest) =>
      if existsb (is_ident ident) rest
      then Err ("at most one `#[" +:+ ident +:+ "(...)]` is allowed; list every entry in it")
      else let? paths := at_paths attr in Ok (paths, rest)
  end.

Definition strip_marker (m : impl_fn) (ident : string) : option impl_fn :=
  '(_, rest) ← remove_first ident (fn_attrs m); Some (with_attrs m rest).

(** ** What it lowers to *)

(** An argument of the call, in its place. *)
Inductive call_arg := CallClient | CallPayload.

Record arm := Arm {
  arm_event : string;
  arm_guards : list syn_type;
  arm_payload : option syn_type;
  arm_args : list call_arg;
  arm_method : string;
  arm_returns_unit : bool
}.

(** A [Gateway] hook: the method it calls, and whether with the client. *)
Record hook := Hook { hk_method : string; hk_client : bool }.

Record expansion := Expansion { ex_arms : list arm; ex_on_connect : option hook; ex_on_disconnect : option hook }.

(** [hook_override] *)
Definition hook_arg (hook : string) (takes_client : bool) (a : fn_arg) : result bool string :=
  match a with
  | Receiver => Ok takes_client
  | Typed (Owned _) => Err ("a #[" +:+ hook +:+ "] hook takes only an optional `&WsClient` parameter")
  | Typed (Reference _) =>
      if takes_client then Err ("a #[" +:+ hook +:+ "] hook takes at most one `&WsClient` parameter") else Ok true
  end.

Definition hook_override (name : string) (m : impl_fn) : result hook string :=
  let? takes_client := for_each (hook_arg name) (drop 1 (fn_inputs m)) false in
  Ok (Hook (fn_name m) takes_client).

(** One turn over the parameters of a handler: the payload type, whether the client is taken, the call. *)
Definition classify (st : option syn_type * bool * list call_arg) (a : fn_arg)
  : result (option syn_type * bool * list call_arg) string :=
  let '(payload, takes_client, args) := st in
  match a with
  | Receiver => Ok st
  | Typed (Reference _) =>
      if takes_client then Err "a #[subscribe_message] handler takes at most one `&WsClient` parameter"
      else Ok (payload, true, args ++ [CallClient])
  | Typed (Owned t) =>
      if payload is Some _ then Err "a #[subscribe_message] handler takes at most one payload parameter (deserialized from the message's `data`)"
      else Ok (Some t, takes_client, args ++ [CallPayload])
  end.

Definition returns_unit (r : return_type) : bool := match r with ReturnDefault | ReturnUnit => true | ReturnOther _ => false end.

(** One turn of the loop over the items: what it has emitted, and the items as they are left. *)
Definition messages_item (st : expansion * list impl_item) (item : impl_item) : result (expansion * list impl_item) string :=
  let '(ex, kept) := st in
  match item with
  | ItemOther => Ok (ex, kept ++ [item])
  | ItemFn m =>
      match strip_marker m "on_connect" with
      | Some m' =>
          let? h := hook_override "on_connect" m' in
          Ok (Expansion (ex_arms ex) (Some h) (ex_on_disconnect ex), kept ++ [ItemFn m'])
      | None =>
          match strip_marker m "on_disconnect" with
          | Some m' =>
              let? h := hook_override "on_disconnect" m' in
              Ok (Expansion (ex_arms ex) (ex_on_connect ex) (Some h), kept ++ [ItemFn m'])
          | None =>
              match remove_first "subscribe_message" (fn_attrs m) with
              | None => Ok (ex, kept ++ [item])
              | Some (attr, attrs) =>
                  let? event := at_str attr in
                  let? gr := take_use_attr attrs "use_guards" in
                  let? params := for_each classify (drop 1 (fn_inputs m)) (None, false, []) in
                  Ok (Expansion (ex_arms ex ++ [Arm event gr.1 params.1.1 params.2 (fn_name m) (returns_unit (fn_output m))])
                        (ex_on_connect ex) (ex_on_disconnect ex),
                      kept ++ [ItemFn (with_attrs m gr.2)])
              end
          end
      end
  end.

Definition messages (items : list impl_item) : result (expansion * list impl_item) string :=
  for_each messages_item items (Expansion [] None None, []).

(** The events with their guards, as [Gateway] takes them. *)
Definition guarded_events (ex : expansion) : list (string * list syn_type) := map (fun a => (arm_event a, arm_guards a)) (ex_arms ex).

(** ** The gateway it runs as *)

(** A bound argument of a call. *)
Inductive bound_arg := AClient (id : Z) | APayload (data : json).

(** What a method does to the world, what serde says of a payload type, and the verdict of a guard. *)
Class MethodCode (A : Type) `{Payloads, Wire} := {
  run_method : string -> list bound_arg -> world A -> result (result json string * world A) (world A);
  run_hook : string -> list bound_arg -> world A -> result (world A) (world A);
  from_value : syn_type -> json -> result json string;
  verdict : val -> message_guard
}.

Section run.
Context `{Payloads, Wire} {A : Type} `{!MethodCode A}.

Definition bind_arg (client : Z) (data : json) (a : call_arg) : bound_arg :=
  match a with CallClient => AClient client | CallPayload => APayload data end.

(** A guard of the access path [p], as the container of the mount has it. *)
Definition guard_of `{!Compiler} (c : container) (p : syn_type) : message_guard :=
  match get (type_id p) c with Some v => verdict v | None => fun _ _ _ => Ok tt end.

(** The emitted match arm. *)
Definition arm_handler (guard : syn_type -> message_guard) (a : arm) : handler A :=
  Handler (arm_event a) (map guard (arm_guards a)) (from_value <$> arm_payload a) (arm_returns_unit a)
    (fun client data w => run_method (arm_method a) (map (bind_arg client data) (arm_args a)) w).

Definition hook_run (h : option hook) (client : Z) (w : world A) : result (world A) (world A) :=
  match h with
  | None => Ok w
  | Some h => run_hook (hk_method h) (if hk_client h then [AClient client] else []) w
  end.

(** The endpoint of the expansion, with the guard table and the bridge its mount has resolved. *)
Definition expansion_gateway (guard : syn_type -> message_guard) (ex : expansion) (table : gmap string (list val))
    (ambient : option (socket_context A)) : gateway A :=
  Gateway (map (arm_handler guard) (ex_arms ex)) ((map verdict) <$> table) ambient
    (hook_run (ex_on_connect ex)) (hook_run (ex_on_disconnect ex)).

End run.

(** ** What was declared *)

(** The parameters after the receiver: the payload's types, and what each is in the call. *)
Definition owned (a : fn_arg) : option syn_type := match a with Typed (Owned t) => Some t | _ => None end.
Definition reference (a : fn_arg) : option syn_type := match a with Typed (Reference t) => Some t | _ => None end.
Definition passed (a : fn_arg) : option call_arg :=
  match a with Typed (Owned _) => Some CallPayload | Typed (Reference _) => Some CallClient | Receiver => None end.

Definition params (m : impl_fn) : list fn_arg := drop 1 (fn_inputs m).
Definition is_hook (m : impl_fn) : bool := existsb (is_ident "on_connect") (fn_attrs m) || existsb (is_ident "on_disconnect") (fn_attrs m).

(** A handler takes one payload and one client at most, and the call has the declared order. *)
Lemma classify_ok l : forall payload client args r,
  for_each classify l (payload, client, args) = Ok r <->
    length (option_list payload ++ omap owned l) <= 1 /\ (if client : bool then 1 else 0) + length (omap reference l) <= 1 /\
    r = (head (option_list payload ++ omap owned l), client || bool_decide (omap reference l <> []), args ++ omap passed l).
Proof.
  induction l as [|a l IH]; intros payload client args r.
  - destruct payload, client; simpl; rewrite app_nil_r; (split; [intros [= <-]; split_and!; (done || lia)|by intros (_ & _ & ->)]).
  - destruct a as [|[t|t]]; cbn [for_each classify omap list_omap owned reference passed].
    + apply IH.
    + destruct payload as [p|]; cbn [result_bind option_list app].
      * split; [done|]. intros (H1 & H2 & _). cbn in H1, H2. lia.
      * rewrite IH. cbn [option_list app]. by rewrite <- (assoc_L (++) args).
    + destruct client; cbn [result_bind].
      * split; [done|]. intros (H1 & H2 & _). cbn in H1, H2. lia.
      * rewrite IH. cbn [length orb]. rewrite <- (assoc_L (++) args), bool_decide_eq_true_2 by done. done.
Qed.

Lemma hook_arg_ok name l : forall takes r, for_each (hook_arg name) l takes = Ok r <->
  omap owned l = [] /\ (if takes : bool then 1 else 0) + length (omap reference l) <= 1 /\ r = takes || bool_decide (omap reference l <> []).
Proof.
  induction l as [|a l IH]; intros takes r.
  - destruct takes; simpl; (split; [intros [= <-]; split_and!; (done || lia)|by intros (_ & _ & ->)]).
  - destruct a as [|[t|t]]; cbn [for_each hook_arg omap list_omap owned reference].
    + apply IH.
    + split; [done|by intros [? _]].
    + destruct takes; cbn [result_bind].
      * split; [done|]. intros (H1 & H2 & _). cbn in H1, H2. lia.
      * rewrite IH. cbn [length orb]. by rewrite bool_decide_eq_true_2.
Qed.

Lemma strip_marker_none m ident : strip_marker m ident = None <-> existsb (is_ident ident) (fn_attrs m) = false.
Proof.
  unfold strip_marker. assert (Hr : remove_first ident (fn_attrs m) = None <-> existsb (is_ident ident) (fn_attrs m) = false).
  { induction (fn_attrs m) as [|a l IH]; [done|]. simpl. destruct (is_ident ident a); [done|]. simpl. rewrite <- IH.
    by destruct (remove_first ident l) as [[]|]. }
  rewrite <- Hr. by destruct (remove_first ident (fn_attrs m)) as [[]|].
Qed.

(** The arm a method declares. *)
Definition arm_of (item : impl_item) : option arm :=
  match item with
  | ItemOther => None
  | ItemFn m =>
      if is_hook m then None
      else
        '(attr, attrs) ← remove_first "subscribe_message" (fn_attrs m);
        match at_str attr, take_use_attr attrs "use_guards" with
        | Ok event, Ok (guards, _) => Some (Arm event guards (head (omap owned (params m))) (omap passed (params m)) (fn_name m) (returns_unit (fn_output m)))
        | _, _ => None
        end
  end.

Definition hook_of (name : string) (item : impl_item) : option hook :=
  match item with
  | ItemFn m => if existsb (is_ident name) (fn_attrs m) then Some (Hook (fn_name m) (bool_decide (omap reference (params m) <> []))) else None
  | ItemOther => None
  end.

Definition disconnect_of (item : impl_item) : option hook :=
  match hook_of "on_connect" item with Some _ => None | None => hook_of "on_disconnect" item end.

Lemma hook_override_of name m m' h : strip_marker m name = Some m' -> hook_override name m' = Ok h ->
  hook_of name (ItemFn m) = Some h.
Proof.
  unfold strip_marker, hook_override. destruct (remove_first name (fn_attrs m)) as [[found rest]|] eqn:Er; [|done]. intros [= <-] Hh.
  assert (Hx : existsb (is_ident name) (fn_attrs m) = true).
  { apply not_false_iff_true. intros Hf. apply strip_marker_none in Hf. unfold strip_marker in Hf. by rewrite Er in Hf. }
  cbn [fn_inputs with_attrs fn_name] in Hh. destruct (for_each (hook_arg name) _ false) as [t|] eqn:Ef; [|done]. injection Hh as <-.
  apply hook_arg_ok in Ef as (_ & _ & ->). unfold hook_of, params. by rewrite Hx.
Qed.

Lemma messages_item_ok ex kept item ex1 kept1 : messages_item (ex, kept) item = Ok (ex1, kept1) ->
  ex_arms ex1 = ex_arms ex ++ option_list (arm_of item) /\
  ex_on_connect ex1 = union (hook_of "on_connect" item) (ex_on_connect ex) /\
  ex_on_disconnect ex1 = union (disconnect_of item) (ex_on_disconnect ex).
Proof.
  destruct item as [m|]; cbn [messages_item].
  2: { intros [= <- <-]. cbn. rewrite app_nil_r. split_and!; [done|by destruct (ex_on_connect ex)|by destruct (ex_on_disconnect ex)]. }
  destruct (strip_marker m "on_connect") as [m1|] eqn:Ec.
  { destruct (hook_override "on_connect" m1) as [h|] eqn:Eh; [|done]. intros [= <- <-]. pose proof (hook_override_of _ _ _ _ Ec Eh) as Hh.
    unfold disconnect_of. rewrite Hh. assert (is_hook m = true) as Hk.
    { unfold is_hook. unfold hook_of in Hh. by destruct (existsb (is_ident "on_connect") (fn_attrs m)). }
    cbn [arm_of]. rewrite Hk. cbn. rewrite app_nil_r. split_and!; [done|by destruct (ex_on_connect ex)|by destruct (ex_on_disconnect ex)]. }
  apply strip_marker_none in Ec. assert (Hc : hook_of "on_connect" (ItemFn m) = None) by (unfold hook_of; by rewrite Ec).
  unfold disconnect_of. rewrite Hc. destruct (strip_marker m "on_disconnect") as [m1|] eqn:Ed.
  { destruct (hook_override "on_disconnect" m1) as [h|] eqn:Eh; [|done]. intros [= <- <-]. pose proof (hook_override_of _ _ _ _ Ed Eh) as Hh.
    rewrite Hh. assert (is_hook m = true) as Hk.
    { unfold is_hook. unfold hook_of in Hh. destruct (existsb (is_ident "on_disconnect") (fn_attrs m)); [by rewrite orb_true_r|done]. }
    cbn [arm_of]. rewrite Hk. cbn. rewrite app_nil_r. split_and!; [done|by destruct (ex_on_connect ex)|by destruct (ex_on_disconnect ex)]. }
  apply strip_marker_none in Ed. assert (Hd : hook_of "on_disconnect" (ItemFn m) = None) by (unfold hook_of; by rewrite Ed).
  rewrite Hd. assert (Hk : is_hook m = false) by (unfold is_hook; by rewrite Ec, Ed). cbn [arm_of]. rewrite Hk.
  destruct (remove_first "subscribe_message" (fn_attrs m)) as [[attr attrs]|].
  - cbn [mbind option_bind]. destruct (at_str attr) as [event|]; [|done]. cbn [result_bind].
    destruct (take_use_attr attrs "use_guards") as [[guards rest]|]; [|done]. cbn [result_bind].
    destruct (for_each classify (drop 1 (fn_inputs m)) (None, false, [])) as [[[p cl] args]|] eqn:Ef; [|done].
    apply classify_ok in Ef as (_ & _ & [= -> -> ->]). intros [= <- <-]. cbn.
    split_and!; [done|by destruct (ex_on_connect ex)|by destruct (ex_on_disconnect ex)].
  - intros [= <- <-]. cbn. rewrite app_nil_r. split_and!; [done|by destruct (ex_on_connect ex)|by destruct (ex_on_disconnect ex)].
Qed.

(** An expansion has the arm of every message, in order, and of several hooks of one kind the last. *)
Lemma messages_lowers items ex rest : messages items = Ok (ex, rest) ->
  ex_arms ex = omap arm_of items /\
  ex_on_connect ex = last (omap (hook_of "on_connect") items) /\ ex_on_disconnect ex = last (omap disconnect_of items).
Proof.
  unfold messages. revert ex rest. induction items as [|item items IH] using rev_ind; intros ex rest.
  { intros [= <- <-]. done. }
  rewrite for_each_app. destruct (for_each messages_item items _) as [[ex0 kept]|]; [|done]. cbn [result_bind for_each].
  destruct (messages_item (ex0, kept) item) as [[ex1 kept1]|] eqn:Ei; [|done]. intros [= <- <-].
  destruct (IH _ _ eq_refl) as (Ha & Hc & Hd). destruct (messages_item_ok _ _ _ _ _ Ei) as (-> & -> & ->).
  rewrite Ha, !omap_app. split_and!; simpl.
  - by destruct (arm_of item).
  - destruct (hook_of "on_connect" item); [rewrite last_snoc|rewrite app_nil_r, <- Hc]; by destruct (ex_on_connect ex0).
  - destruct (disconnect_of item); [rewrite last_snoc|rewrite app_nil_r, <- Hd]; by destruct (ex_on_disconnect ex0).
Qed.

(** ** Serving it *)

Section serving.
Context `{Payloads} `{!Compiler} `{Wire} {A : Type} `{!MethodCode A}.
Implicit Types (c : container) (ex : expansion) (w : world A).

(** The mounted guard table is the one of the handlers. *)
Lemma mounted_table c ex table :
  NoDup (map arm_event (ex_arms ex)) -> for_each (insert_guards c) (guarded_events ex) ∅ = Ok table ->
  (map verdict) <$> table = messages_guards (map (arm_handler (guard_of c)) (ex_arms ex)).
Proof.
  intros Hnd Ht. assert (Hfst : (guarded_events ex).*1 = map arm_event (ex_arms ex)) by (unfold guarded_events; by rewrite <- list_fmap_compose).
  destruct (proj2 (insert_guards_spec c (guarded_events ex) ∅) table Ht) as [Hother Heach]; [by rewrite Hfst|].
  assert (Hev : map h_event (map (arm_handler (guard_of c)) (ex_arms ex)) = map arm_event (ex_arms ex)) by (by rewrite map_map).
  apply map_eq. intros event. rewrite lookup_fmap, messages_guards_lookup by (by rewrite Hev).
  destruct (decide (event ∈ map arm_event (ex_arms ex))) as [Hin|Hn].
  - apply list_elem_of_fmap in Hin as (a & -> & Ha).
    change (arm_event a) with (h_event (arm_handler (guard_of c) a)) at 2.
    rewrite find_handler_some; [|by rewrite Hev|by apply list_elem_of_fmap_2]. cbn [mbind option_bind]. unfold declared_guards. cbn [h_guards arm_handler].
    assert (Hm : (arm_event a, arm_guards a) ∈ guarded_events ex) by (apply (list_elem_of_fmap_2 (fun a => (arm_event a, arm_guards a))); done).
    specialize (Heach _ _ Hm). destruct (arm_guards a) as [|p ps]; [by rewrite Heach, lookup_empty|].
    destruct Heach as (vs & -> & Hvs). cbn [fmap option_fmap option_map]. change (map (guard_of c) (p :: ps) : list message_guard) with (guard_of c <$> p :: ps).
    assert (Hg : map verdict vs = map (guard_of c) (p :: ps)).
    { clear -Hvs. induction Hvs as [|q v qs vs Hq _ IH]; [done|]. simpl. rewrite IH. f_equal. unfold guard_of. by rewrite Hq. }
    cbn [map] in Hg |- *. by rewrite Hg.
  - rewrite find_handler_none by (by rewrite Hev). rewrite Hother by (by rewrite Hfst). by rewrite lookup_empty.
Qed.

Lemma bound_instances c paths : Forall (bound c) paths -> exists vs, Forall2 (fun p v => get (type_id p) c = Some v) paths vs.
Proof.
  induction 1 as [|p ps [v Hv] _ [vs Hvs]]; [by exists []|]. exists (v :: vs). by constructor.
Qed.

Lemma guards_judge c paths vs client event data : Forall2 (fun p v => get (type_id p) c = Some v) paths vs ->
  for_each (fun _ (guard : message_guard) => guard client event data) (map (guard_of c) paths) tt = for_each (fun _ v => verdict v client event data) vs tt.
Proof.
  induction 1 as [|p v ps vs Hp _ IH]; [done|]. cbn [map for_each]. unfold guard_of at 1. rewrite Hp.
  destruct (verdict v client event data) as [[]|]; [exact IH|done].
Qed.

(** The values a method is called with. *)
Definition declared_args (m : impl_fn) (client : Z) (payload : json) : list bound_arg := map (bind_arg client payload) (omap passed (params m)).

(** A method as the dispatcher is meant to call it. *)
Definition declared_run (m : impl_fn) (event : string) (client : Z) (data : json) (w : world A) : result (ws_reply * world A) (world A) :=
  match (match head (omap owned (params m)) with Some t => from_value t data | None => Ok data end) with
  | Err e => Ok (ErrorReply ("invalid payload for `" +:+ event +:+ "`: " +:+ e), w)
  | Ok payload =>
      let? r := run_method (fn_name m) (declared_args m client payload) w in
      Ok (if returns_unit (fn_output m) then NoReply else reply r.1, r.2)
  end.

(** [C28] From the attributes to the method.  When an impl block expands, its events are distinct and the guards
    it names are bound, a message of an event is judged by the guards the [use_guards] of that event's method
    lists, each the instance the container holds, in order; the first rejection is the answer; if none
    rejects, the method runs, once, in the bound context, with the payload and the client where its
    signature has them, or the payload is refused.  A message of no method's event runs no method: what is
    run in the bound context, if one is bound, is the reply that the event is unknown. *)
Theorem messages_run_their_methods items ex rest c table (ambient : option (socket_context A)) client text event data w :
  messages items = Ok (ex, rest) -> NoDup (map arm_event (ex_arms ex)) ->
  for_each (insert_guards c) (guarded_events ex) ∅ = Ok table -> decode text = Ok (event, data) ->
  let gw := expansion_gateway (guard_of c) ex table ambient in
  let answer := handle_text (gw_handlers gw) (gw_guards gw) (gw_ambient gw) client text w in
  (forall m attr attrs guards left_attrs, ItemFn m ∈ items -> is_hook m = false ->
     remove_first "subscribe_message" (fn_attrs m) = Some (attr, attrs) -> at_str attr = Ok event ->
     take_use_attr attrs "use_guards" = Ok (guards, left_attrs) ->
     exists vs, Forall2 (fun p v => get (type_id p) c = Some v) guards vs /\
       answer = match for_each (fun _ v => verdict v client event data) vs tt with
                | Err reason => Ok (Some (error_frame event reason), w)
                | Ok _ =>
                    let? r := match ambient with
                              | Some around => around (declared_run m event client data) w
                              | None => declared_run m event client data w
                              end in
                    Ok (render_reply event r.1, r.2)
                end) /\
  (event ∉ omap (fun i => arm_event <$> arm_of i) items ->
     let no_method : dispatching A := fun w => Ok (ErrorReply ("unknown event `" +:+ event +:+ "`"), w) in
     answer = let? r := match ambient with Some around => around no_method w | None => no_method w end in
              Ok (render_reply event r.1, r.2)).
Proof.
  intros Hm Hnd Ht Hd gw answer. pose proof (messages_lowers _ _ _ Hm) as (Harms & _).
  assert (Hev : map h_event (gw_handlers gw) = map arm_event (ex_arms ex)) by (cbn; by rewrite map_map).
  assert (Htab : gw_guards gw = messages_guards (gw_handlers gw)) by by apply mounted_table. split.
  - intros m attr attrs guards left_attrs Hin Hk Hattr Hevent Huse. set (a := Arm event guards (head (omap owned (params m))) (omap passed (params m)) (fn_name m) (returns_unit (fn_output m))).
    assert (Ha : a ∈ ex_arms ex).
    { rewrite Harms. apply list_elem_of_omap. exists (ItemFn m). split; [done|]. cbn [arm_of]. rewrite Hk, Hattr. cbn [mbind option_bind]. by rewrite Hevent, Huse. }
    assert (Hg : (event, guards) ∈ guarded_events ex) by (apply (list_elem_of_fmap_2 (fun a => (arm_event a, arm_guards a)) _ a); done).
    destruct (insert_guards_spec c (guarded_events ex) ∅) as [[Hbound _] _]. pose proof (Hbound (ex_intro _ _ Ht)) as Hb.
    rewrite Forall_forall in Hb. specialize (Hb _ Hg). cbn [snd] in Hb.
    destruct (bound_instances _ _ Hb) as [vs Hvs].
    exists vs. split; [done|]. subst answer. rewrite Htab.
    rewrite (handle_text_handler (gw_handlers gw) (gw_ambient gw) client text event data (arm_handler (guard_of c) a));
      [|by rewrite Hev|done|by apply list_elem_of_fmap_2|done].
    cbn [h_guards arm_handler arm_guards a]. rewrite (guards_judge _ _ _ _ _ _ Hvs). destruct (for_each _ vs tt); [|done].
    assert (Hrun : handler_arm (arm_handler (guard_of c) a) client data = declared_run m event client data); [|by rewrite Hrun].
    unfold handler_arm, declared_run, declared_args. cbn. by destruct (omap owned (params m)).
  - intros Hn. subst answer. unfold handle_text. rewrite Hd, Htab. unfold check.
    assert (Hne : event ∉ map h_event (gw_handlers gw)).
    { rewrite Hev, Harms. intros (x & -> & Hx)%list_elem_of_fmap. apply Hn.
      apply list_elem_of_omap in Hx as (i & Hi & Hx). apply list_elem_of_omap. exists i. by rewrite Hx. }
    rewrite messages_guards_lookup, dispatch_find by (by rewrite Hev). rewrite (find_handler_none _ _ Hne). by cbn.
Qed.

End serving.

(** ** A gateway *)

Module MessagesDemo.
Import CodegenDemo.

#[local] Existing Instance texts.

#[export] Instance wire : Wire := {
  encode event data := Some (event +:+ match data with JString s => " " +:+ s | JObject ((_, JString s) :: _) => "! " +:+ s | _ => "" end);
  decode text := if String.eqb text "garbage" then Err "expected value" else Ok (text, JString "hello")
}.

(** What has been called, and with what. *)
Definition called : Type := list (string * list bound_arg).

#[export] Instance methods : MethodCode called := {
  run_method name args w := Ok (Ok (JString name), World (w_server w) (w_chans w) (w_app w ++ [(name, args)]));
  run_hook name args w := Ok (World (w_server w) (w_chans w) (w_app w ++ [(name, args)]));
  from_value t data := if String.eqb (token_text t) (token_text (path "u32")) then Err "expected u32" else Ok data;
  verdict (v : @val Demo.payloads) _ _ _ := if Nat.eqb v 8 then Err "members only" else Ok tt
}.

Definition subscribe (event : string) : attribute := Attribute "subscribe_message" (Ok event) (Err "expected path").
Definition use_guards (paths : list syn_type) : attribute := Attribute "use_guards" (Err "expected string literal") (Ok paths).
Definition marker (name : string) : attribute := Attribute name (Err "unexpected end of input") (Ok []).
Definition client_arg : fn_arg := Typed (Reference (path "WsClient")).
Definition payload_arg (t : string) : fn_arg := Typed (Owned (path t)).

Definition say : impl_fn := ImplFn "on_say" [subscribe "say"; use_guards [path "AuthGuard"]] [Receiver; client_arg; payload_arg "String"] ReturnDefault.
Definition kick : impl_fn := ImplFn "on_kick" [use_guards [path "AuthGuard"; path "AdminGuard"]; subscribe "kick"] [Receiver] (ReturnOther (path "bool")).
Definition roll : impl_fn := ImplFn "on_roll" [subscribe "roll"] [Receiver; payload_arg "u32"] (ReturnOther (path "u32")).
Definition joined : impl_fn := ImplFn "joined" [marker "on_connect"] [Receiver; client_arg] ReturnDefault.
Definition helper : impl_fn := ImplFn "helper" [] [Receiver; payload_arg "u8"; payload_arg "u8"] ReturnDefault.
Definition block : list impl_item := [ItemFn joined; ItemFn say; ItemOther; ItemFn helper; ItemFn kick; ItemFn roll].

Definition lowered : expansion := match messages block with Ok (ex, _) => ex | Err _ => Expansion [] None None end.
Definition left_items : list impl_item := match messages block with Ok (_, rest) => rest | Err _ => [] end.
Definition resolved : gmap string (list (@val Demo.payloads)) :=
  match for_each (insert_guards (build GatewayDemo.guarded)) (guarded_events lowered) ∅ with Ok t => t | Err _ => ∅ end.
Definition gw : gateway called := expansion_gateway (guard_of (build GatewayDemo.guarded)) lowered resolved None.
Definition start : world called := World ws_server_default ∅ [].

(** What was consumed is gone from the block that is left, and nothing else. *)
Example consumed : map (fun i => match i with ItemFn m => map at_name (fn_attrs m) | ItemOther => [] end) left_items = [[]; []; []; []; []; []].
Proof. by vm_compute. Qed.

Lemma block_expands : messages block = Ok (lowered, left_items).
Proof. by vm_compute. Qed.
Lemma block_events : NoDup (map arm_event (ex_arms lowered)).
Proof. apply (bool_decide_unpack _). by vm_compute. Qed.
Lemma block_resolves : for_each (insert_guards (build GatewayDemo.guarded)) (guarded_events lowered) ∅ = Ok resolved.
Proof. reflexivity. Qed.

Lemma decoded text : String.eqb text "garbage" = false -> decode text = Ok (text, JString "hello").
Proof. cbn. by intros ->. Qed.

(** The client and the payload go where the signature has them; the second guard of a message refuses it. *)
Lemma messages_run_their_methods_witness :
  handle_text (gw_handlers gw) (gw_guards gw) None 3 "say" start =
    Ok (None, World ws_server_default ∅ [("on_say", [AClient 3; APayload (JString "hello")])]) /\
  handle_text (gw_handlers gw) (gw_guards gw) None 3 "kick" start = Ok (Some "kick! members only", start).
Proof.
  split.
  - destruct (proj1 (messages_run_their_methods block lowered left_items (build GatewayDemo.guarded) resolved None 3 "say" "say" (JString "hello") start
      block_expands block_events block_resolves (decoded "say" eq_refl)) say (subscribe "say") [use_guards [path "AuthGuard"]] [path "AuthGuard"] []
      ltac:(right; left) eq_refl eq_refl eq_refl eq_refl) as (vs & Hvs & Hrun).
    refine (eq_trans Hrun _). apply Forall2_cons_inv_l in Hvs as (v & vs' & Hv & Hnil & ->). apply Forall2_nil_inv_l in Hnil as ->.
    vm_compute in Hv. injection Hv as <-. by vm_compute.
  - destruct (proj1 (messages_run_their_methods block lowered left_items (build GatewayDemo.guarded) resolved None 3 "kick" "kick" (JString "hello") start
      block_expands block_events block_resolves (decoded "kick" eq_refl)) kick (subscribe "kick") [use_guards [path "AuthGuard"; path "AdminGuard"]] [path "AuthGuard"; path "AdminGuard"] []
      ltac:(do 4 right; left) eq_refl eq_refl eq_refl eq_refl) as (vs & Hvs & Hrun).
    refine (eq_trans Hrun _). apply Forall2_cons_inv_l in Hvs as (v & vs' & Hv & Hvs & ->). apply Forall2_cons_inv_l in Hvs as (v2 & vs2 & Hv2 & Hnil & ->).
    apply Forall2_nil_inv_l in Hnil as ->. vm_compute in Hv, Hv2. injection Hv as <-. injection Hv2 as <-. by vm_compute.
Defined.

(** A payload that does not deserialize is refused before the method. *)
Example refused_payload : handle_text (gw_handlers gw) (gw_guards gw) None 3 "roll" start =
  Ok (Some "roll! invalid payload for `roll`: expected u32", start).
Proof. by vm_compute. Qed.

Definition left_hook (name : string) : impl_item := ItemFn (ImplFn name [marker "on_disconnect"] [Receiver] ReturnDefault).

(** Of two methods tagged as the same hook the first is never called. *)
Example last_hook_wins :
  result_map (fun r => ex_on_disconnect r.1) (messages [left_hook "release"; left_hook "log"]) = Ok (Some (Hook "log" false)).
Proof. by vm_compute. Qed.

(** Declarations that are refused, and an attribute that is left for the compiler to refuse. *)
Example refused_blocks :
  messages [ItemFn (ImplFn "f" [subscribe "e"] [Receiver; client_arg; client_arg] ReturnDefault)] =
    Err "a #[subscribe_message] handler takes at most one `&WsClient` parameter" /\
  messages [ItemFn (ImplFn "f" [marker "on_connect"] [Receiver; payload_arg "String"] ReturnDefault)] =
    Err "a #[on_connect] hook takes only an optional `&WsClient` parameter" /\
  messages [ItemFn (ImplFn "f" [subscribe "e"; use_guards []; use_guards []] [Receiver] ReturnDefault)] =
    Err "at most one `#[use_guards(...)]` is allowed; list every entry in it" /\
  result_map snd (messages [ItemFn (ImplFn "f" [marker "on_connect"; subscribe "e"] [Receiver] ReturnDefault)]) =
    Ok [ItemFn (ImplFn "f" [subscribe "e"] [Receiver] ReturnDefault)].
Proof. repeat split; by vm_compute. Qed.

End MessagesDemo.
