(* ===== verification/Controller.v ===== *)
(** REST controllers: [#[controller]] on the struct and [#[routes]] on its impl block
    ([nestrs-http-macros/src/attr.rs], [controller.rs], [routes.rs]): from the attributes of both to the
    [Discoverable] implementation, the metadata [OpenApi] documents and the endpoint that is mounted
    under the layers of [Http].

    syn's parsing is represented by its results: an attribute carries what its tokens are to each of the
    grammars that may be asked of it. *)

From S2P Require Import Prelude Container Codegen Http OpenApi.

(** ** Attributes *)

Inductive meta_value := LitString (s : string) | ValueOther.
Inductive meta := NameValue (name : string) (v : meta_value) | MetaList (name : string) (strings : result (list string) string) | MetaOther.

Definition expr_str (v : meta_value) : result string string :=
  match v with LitString s => Ok s | ValueOther => Err "expected a string literal" end.

(** [parse_controller_args]: a later value of a key replaces an earlier one. *)
Definition controller_arg (st : option string * option string) (m : meta) : result (option string * option string) string :=
  let unknown := Err "#[controller] accepts `path = '...'` and an optional `version = '...'`" in
  match m with
  | NameValue name v =>
      if String.eqb name "path" then let? s := expr_str v in Ok (Some s, st.2)
      else if String.eqb name "version" then let? s := expr_str v in Ok (st.1, Some s)
      else unknown
  | _ => unknown
  end.

Definition parse_controller_args (metas : result (list meta) string) : result (string * option string) string :=
  let? metas := metas in
  let? st := for_each controller_arg metas (None, None) in
  let? path := ok_or st.1 "#[controller] requires `path = '...'`" in
  Ok (path, st.2).

Record api_meta := ApiMeta { am_summary : option string; am_description : option string; am_tags : list string }.

Definition api_meta_default : api_meta := ApiMeta None None [].

Definition api_arg (out : api_meta) (m : meta) : result api_meta string :=
  let unknown := Err "#[api] accepts `summary = '...'`, `description = '...'`, and `tags('a', 'b')`" in
  match m with
  | NameValue name v =>
      if String.eqb name "summary" then let? s := expr_str v in Ok (ApiMeta (Some s) (am_description out) (am_tags out))
      else if String.eqb name "description" then let? s := expr_str v in Ok (ApiMeta (am_summary out) (Some s) (am_tags out))
      else unknown
  | MetaList name strings =>
      if String.eqb name "tags" then let? tags := strings in Ok (ApiMeta (am_summary out) (am_description out) tags) else unknown
  | MetaOther => unknown
  end.

Section attributes.
Context {X : Type}.

(** An attribute: its name, and its content as a list of paths, a string literal, a list of metas and an
    expression, here the value it evaluates to under the [TypeId] of its type. *)
Record attribute := Attribute {
  at_name : string;
  at_paths : result (list syn_type) string;
  at_str : result string string;
  at_metas : result (list meta) string;
  at_expr : result (ty * X) string
}.

Definition is_ident (ident : string) (a : attribute) : bool := String.eqb (at_name a) ident.

(** [position] and [remove]. *)
Fixpoint remove_first (p : attribute -> bool) (attrs : list attribute) : option (attribute * list attribute) :=
  match attrs with
  | [] => None
  | a :: rest =>
      if p a then Some (a, rest)
      else '(found, rest') ← remove_first p rest; Some (found, a :: rest')
  end.

Definition take_use_attr (attrs : list attribute) (ident : string) : result (list syn_type * list attribute) string :=
  match remove_first (is_ident ident) attrs with
  | None => Ok ([], attrs)
  | Some (attr, rest) =>
      if existsb (is_ident ident) rest
      then Err ("at most one `#[" +:+ ident +:+ "(...)]` is allowed; list every entry in it")
      else let? paths := at_paths attr in Ok (paths, rest)
  end.

(** The [while let] over the repeatable [#[meta(EXPR)]]. *)
Fixpoint take_metas (attrs : list attribute) : result (list (ty * X) * list attribute) string :=
  match attrs with
  | [] => Ok ([], [])
  | a :: rest =>
      if is_ident "meta" a then
        let? expr := at_expr a in let? mr := take_metas rest in Ok (expr :: mr.1, mr.2)
      else let? mr := take_metas rest in Ok (mr.1, a :: mr.2)
  end.

Definition parse_api_attr (attr : attribute) : result api_meta string :=
  let? metas := at_metas attr in for_each api_arg metas api_meta_default.

End attributes.

Arguments attribute : clear implicits.

(** ** The signature of a handler *)

Inductive fn_arg := Receiver | Typed (pat : option string) (t : syn_type).

Fixpoint forwarded_arg_idents (inputs : list fn_arg) : result (list string) string :=
  match inputs with
  | [] => Ok []
  | Receiver :: rest => forwarded_arg_idents rest
  | Typed (Some i) _ :: rest => let? idents := forwarded_arg_idents rest in Ok (i :: idents)
  | Typed None _ :: _ =>
      Err "resolver/controller method arguments must be simple identifiers (no destructuring patterns)"
  end.

(** The first [Authorize<A, S>] parameter, by its last segment. *)
Definition shaper_arg (arg : fn_arg) : option syn_type :=
  match arg with
  | Typed _ (TyPath segs as t) =>
      match last segs with
      | Some (PathSegment ident (AngleBracketed _)) => if String.eqb ident "Authorize" then Some t else None
      | _ => None
      end
  | _ => None
  end.

Fixpoint find_map {A B} (f : A -> option B) (l : list A) : option B :=
  match l with
  | [] => None
  | a :: l' => match f a with Some b => Some b | None => find_map f l' end
  end.

Definition shaper_type (inputs : list fn_arg) : option syn_type := find_map shaper_arg inputs.

(** The size of a type bounds how deep its extractors nest. *)
Fixpoint type_size (t : syn_type) : nat :=
  match t with
  | TyPath segs =>
      S ((fix go (l : list path_segment) : nat :=
            match l with [] => O | s :: l' => (segment_size s + go l')%nat end) segs)
  | _ => 1
  end
with segment_size (s : path_segment) : nat := let 'PathSegment _ a := s in arguments_size a
with arguments_size (a : path_arguments) : nat :=
  match a with
  | AngleBracketed args =>
      (fix go (l : list generic_argument) : nat :=
         match l with [] => O | g :: l' => (argument_size g + go l')%nat end) args
  | _ => O
  end
with argument_size (g : generic_argument) : nat := match g with GType t => type_size t | GOther => O end.

Fixpoint json_payload_within (fuel : nat) (t : syn_type) : option syn_type :=
  match fuel with
  | O => None
  | S fuel' =>
      match nth_generic_type t "Json" 0 with
      | Some payload => Some payload
      | None =>
          match nth_generic_type t "Valid" 0 with
          | Some inner => json_payload_within fuel' inner
          | None =>
              match nth_generic_type t "Piped" 1 with
              | Some inner => json_payload_within fuel' inner
              | None => None
              end
          end
      end
  end.

Definition json_payload (t : syn_type) : option syn_type := json_payload_within (type_size t) t.

Definition request_payload (inputs : list fn_arg) : option syn_type :=
  find_map (fun arg => match arg with Typed _ t => json_payload t | Receiver => None end) inputs.

Definition response_payload (output : option syn_type) : option syn_type :=
  t ← output; nth_generic_type (default t (nth_generic_type t "Result" 0)) "Json" 0.

(** *** The recursion through the extractors ends *)

Lemma nth_generic_smaller t name i u : nth_generic_type t name i = Some u -> (type_size u < type_size t)%nat.
Proof.
  destruct t as [segs|bounds|tokens]; simpl; [|done..].
  destruct (last segs) as [[ident args]|] eqn:El; [|done]. destruct (String.eqb ident name); [|done].
  destruct args as [|gs|]; [done| |done]. intros Hu%list_elem_of_lookup_2.
  apply list_elem_of_omap in Hu as (g & Hg & Hgt). destruct g as [t|]; [|done]. injection Hgt as ->.
  assert (Hs : PathSegment ident (AngleBracketed gs) ∈ segs) by (by apply last_Some_elem_of).
  assert (Ha : (type_size u <= arguments_size (AngleBracketed gs))%nat).
  { simpl. clear -Hg. induction gs as [|g gs IH]; [by apply elem_of_nil in Hg|].
    apply elem_of_cons in Hg as [<-|Hg]; simpl; [lia|]. specialize (IH Hg). lia. }
  clear El. induction segs as [|s segs IH]; [by apply elem_of_nil in Hs|].
  apply elem_of_cons in Hs as [<-|Hs]; [simpl in *; lia|]. specialize (IH Hs). destruct s. simpl in *. lia.
Qed.

Lemma json_payload_more t : forall f1 f2, (type_size t <= f1)%nat -> (type_size t <= f2)%nat ->
  json_payload_within f1 t = json_payload_within f2 t.
Proof.
  induction t as [t IH] using (well_founded_induction (well_founded_ltof _ type_size)). intros f1 f2 H1 H2.
  assert (Hpos : (0 < type_size t)%nat) by (destruct t; simpl; lia).
  destruct f1 as [|f1]; [lia|]. destruct f2 as [|f2]; [lia|]. simpl.
  destruct (nth_generic_type t "Json" 0); [done|].
  destruct (nth_generic_type t "Valid" 0) as [u|] eqn:Ev; [|destruct (nth_generic_type t "Piped" 1) as [u|] eqn:Ep; [|done]];
    match goal with E : nth_generic_type _ _ _ = Some u |- _ => pose proof (nth_generic_smaller _ _ _ _ E) end;
    apply IH; unfold ltof; lia.
Qed.

(** The recursion of the source. *)
Lemma json_payload_eq t : json_payload t =
  match nth_generic_type t "Json" 0 with
  | Some payload => Some payload
  | None =>
      match nth_generic_type t "Valid" 0 with
      | Some inner => json_payload inner
      | None => inner ← nth_generic_type t "Piped" 1; json_payload inner
      end
  end.
Proof.
  assert (Hpos : (0 < type_size t)%nat) by (destruct t; simpl; lia).
  unfold json_payload at 1. destruct (type_size t) as [|n] eqn:En; [lia|]. simpl.
  destruct (nth_generic_type t "Json" 0); [done|].
  destruct (nth_generic_type t "Valid" 0) as [u|] eqn:Ev; [|destruct (nth_generic_type t "Piped" 1) as [u|] eqn:Ep; [simpl|done]];
    match goal with E : nth_generic_type _ _ _ = Some u |- _ => pose proof (nth_generic_smaller _ _ _ _ E) end;
    apply json_payload_more; lia.
Qed.

(** ** The decorators *)

(** Where a decorator gives up. *)
Inductive compile_error := Message (msg : string) | Inject (e : syn_error).

(** What the crates of an application and poem supply: how a struct that implements a layer acts, the body a
    wrapper runs on the controller's instance, the shaper a gate type is, the erasure of the controller
    as request data and as metadata, and poem's router: the endpoint of a fresh route with the given
    [at] entries, nesting under a prefix, and the answer of a [Data] extractor that finds nothing. *)
Class ControllerCode (X W Env : Type) `{Payloads} `{SchemaGenerator} := {
  as_guard : ty -> val -> guard X W Env;
  as_filter : ty -> val -> exception_filter W Env;
  as_interceptor : ty -> val -> interceptor X W Env;
  run_handler : val -> string -> endpoint X W Env;
  shaper_of : syn_type -> shaper X W Env;
  schema_of : syn_type -> schema_fn;
  controller_data : val -> X;
  controller_of : X -> option val;
  controller_of_data v : controller_of (controller_data v) = Some v;
  controller_meta_val : ty -> http_controller_meta -> val;
  router : Type;
  route_of : list (string * list (http_verb * endpoint X W Env)) -> endpoint X W Env;
  nest : string -> endpoint X W Env -> router -> router;
  data_not_found : http_error
}.

Definition t_http_controller_meta : ty := TNamed "HttpControllerMeta".

Section controller.
Context {X W Env : Type} `{Compiler} `{Structs} `{SchemaGenerator} `{!ControllerCode X W Env}.

(** *** [#[controller]] *)

Record controller_struct := ControllerStruct {
  cs_path : string;
  cs_version : option string;
  cs_body : injectable_body;
  cs_interceptors : list syn_type;
  cs_guards : list syn_type;
  cs_filters : list syn_type
}.

Definition controller (args : result (list meta) string) (attrs : list (attribute X)) (item : item_struct)
  : result controller_struct compile_error :=
  let? pv := map_err Message (parse_controller_args args) in
  let? interceptors := map_err Message (take_use_attr attrs "use_interceptors") in
  let? guards := map_err Message (take_use_attr interceptors.2 "use_guards") in
  let? filters := map_err Message (take_use_attr guards.2 "use_filters") in
  let? body := map_err Inject (build_injectable_body item) in
  Ok (ControllerStruct pv.1 pv.2 body interceptors.1 guards.1 filters.1).

(** *** [#[routes]] *)

Record method := Method {
  m_ident : string;
  m_attrs : list (attribute X);
  m_inputs : list fn_arg;               (* with the receiver *)
  m_output : option syn_type
}.

Record route_handler := Handler {
  h_verb : http_verb;
  h_ident : string;
  h_guards : list syn_type;
  h_filters : list syn_type;
  h_interceptors : list syn_type;
  h_shaper : option syn_type;
  h_metas : list (ty * X)
}.

Definition verb_of (a : attribute X) : option http_verb :=
  List.find (fun v => String.eqb (at_name a) (to_ascii_lowercase (as_str v))) [Get; Post; Put; Delete; Patch].

Definition is_verb (a : attribute X) : bool := bool_decide (is_Some (verb_of a)).

(** One method of the block; [None] for one without a verb, which is left as it is.  The second half is the
    entry of the mount, the first what the route's metadata is made from. *)
Definition lower_method (m : method) : result (option (route_fn * route_handler)) string :=
  match remove_first is_verb (m_attrs m) with
  | None => Ok None
  | Some (attr, attrs) =>
      let verb := default Get (verb_of attr) in
      let? path := at_str attr in
      let inputs := tail (m_inputs m) in
      let? arg_idents := forwarded_arg_idents (m_inputs m) in
      let? guards := take_use_attr attrs "use_guards" in
      let? filters := take_use_attr guards.2 "use_filters" in
      let? interceptors := take_use_attr filters.2 "use_interceptors" in
      let? metas := take_metas interceptors.2 in
      let shaper := shaper_type inputs in
      let? api := match remove_first (is_ident "api") metas.2 with
                  | Some (a, _) => parse_api_attr a
                  | None => Ok api_meta_default
                  end in
      Ok (Some (RouteFn (m_ident m) verb path (am_summary api) (am_description api) (am_tags api)
                  (schema_of <$> request_payload inputs) (schema_of <$> response_payload (m_output m))
                  (bool_decide (is_Some shaper)),
                Handler verb (m_ident m) guards.1 filters.1 interceptors.1 shaper metas.1))
  end.

(** The loop over the methods: the route functions in order, and the verbs grouped by path. *)
Definition routes_step (st : list route_fn * list (string * list route_handler)) (m : method)
  : result (list route_fn * list (string * list route_handler)) string :=
  let? lowered := lower_method m in
  match lowered with
  | None => Ok st
  | Some (f, h) => Ok (st.1 ++ [f], push_route (rf_path f) h st.2)
  end.

Definition routes (methods : list method) : result (list route_fn * list (string * list route_handler)) string :=
  for_each routes_step methods ([], []).

Definition handler_layers (h : route_handler) : list syn_type := h_guards h ++ h_filters h ++ h_interceptors h.

Definition route_layers (table : list (string * list route_handler)) : list syn_type :=
  List.concat (map handler_layers (List.concat (map snd table))).

(** *** What the two emit *)

Record rest_controller := RestController {
  rc_self : ty;
  rc_ident : string;
  rc_struct : controller_struct;
  rc_fns : list route_fn;
  rc_table : list (string * list route_handler)
}.

Definition decorate (self : ty) (args : result (list meta) string) (attrs : list (attribute X)) (item : item_struct)
    (methods : list method) : result rest_controller compile_error :=
  let? cs := controller args attrs item in
  let? rt := map_err Message (routes methods) in
  Ok (RestController self (i_ident item) cs rt.1 rt.2).

Definition struct_layers (cs : controller_struct) : list syn_type := cs_interceptors cs ++ cs_guards cs ++ cs_filters cs.

(** The struct's name is the default tag. *)
Definition declared (rc : rest_controller) : declaration :=
  Declaration (cs_path (rc_struct rc)) (cs_version (rc_struct rc)) (rc_ident rc) (rc_fns rc).

Definition controller_discoverable (rc : rest_controller) : discoverable :=
  {| d_dependencies := [];
     d_injected := injected_with_layers (ib_dep_keys (cs_body (rc_struct rc))) (struct_layers (rc_struct rc))
                     (route_layers (rc_table rc));
     d_dependency_names := []; d_optional_dependencies := [];
     d_from_container := eval_ctor (rc_ident rc) (ib_ctor (cs_body (rc_struct rc)));
     d_register := fun _ => Ok [RAttachMeta (rc_self rc) t_http_controller_meta
                                  (controller_meta_val (rc_self rc) (meta_of (declared rc)))] |}.

(** *** The mount *)

(** [Container::get::<P>], as the layer [P] is. *)
Definition container_layers (c : container) : layer_providers X W Env := {|
  get_guard := fun t => as_guard t <$> get t c;
  get_filter := fun t => as_filter t <$> get t c;
  get_interceptor := fun t => as_interceptor t <$> get t c
|}.

(** The generated wrapper: the instance comes as request data. *)
Definition route_wrapper (rc : rest_controller) (h : route_handler) : endpoint X W Env := fun env req w =>
  match rq_extensions req !! TArc (rc_self rc) ≫= controller_of with
  | Some ctrl => run_handler ctrl (h_ident h) env req w
  | None => (Err data_not_found, w)
  end.

Definition mount_handler (rc : rest_controller) (c : container) (h : route_handler) : option (http_verb * endpoint X W Env) :=
  ep ← guarded_handler (container_layers c) (route_wrapper rc h) (map type_id (h_guards h)) (map type_id (h_filters h))
         (map type_id (h_interceptors h)) (shaper_of <$> h_shaper h) (h_metas h);
  Some (h_verb h, ep).

(** One [.at(path, get(h1).post(h2))]. *)
Definition route_entry (rc : rest_controller) (c : container) (entry : string * list route_handler)
  : option (string * list (http_verb * endpoint X W Env)) :=
  eps ← mapM (mount_handler rc c) entry.2; Some (entry.1, eps).

(** [Controller::mount]; [None] is the panic of a dependency or layer that is not registered. *)
Definition mount (rc : rest_controller) (c : container) (route : router) : option router :=
  match d_from_container (controller_discoverable rc) c with
  | Err _ => None
  | Ok ctrl =>
      entries ← mapM (route_entry rc c) (rc_table rc);
      sub ← controller_layers (container_layers c) (map type_id (cs_guards (rc_struct rc)))
              (map type_id (cs_filters (rc_struct rc))) (map type_id (cs_interceptors (rc_struct rc)))
              (data_endpoint (TArc (rc_self rc), controller_data ctrl) (route_of entries));
      Some (nest (version_path (cs_version (rc_struct rc)) (cs_path (rc_struct rc))) sub route)
  end.

End controller.

(** ** What is declared is what is mounted *)

Section mounting.
Context {X W Env : Type} `{Compiler} `{Structs} `{SchemaGenerator} `{!ControllerCode X W Env}.
Hypothesis same_text : forall a b, token_text a = token_text b -> type_id a = type_id b.
Implicit Types (rc : rest_controller (X:=X)) (c : container) (h : route_handler (X:=X)).

(** What one attribute of that name lists; nothing without one, and two are refused. *)
Definition listed (attrs : list (attribute X)) (ident : string) (paths : list syn_type) : Prop :=
  match filter (fun a => is_ident ident a = true) attrs with
  | [] => paths = []
  | [a] => at_paths a = Ok paths
  | _ => False
  end.

Lemma none_left (p : attribute X -> bool) l : existsb p l = false ->
  filter (fun a => p a = false) l = l /\ filter (fun a => p a = true) l = [].
Proof.
  induction l as [|a l IH]; simpl; [done|]. intros [Ha Hl]%orb_false_elim. rewrite !filter_cons, Ha. simpl.
  destruct (IH Hl) as [-> ->]. done.
Qed.

Lemma remove_first_split (p : attribute X -> bool) l : match remove_first p l with
  | None => existsb p l = false
  | Some (a, r) => exists l1 l2, l = l1 ++ a :: l2 /\ r = l1 ++ l2 /\ p a = true /\ existsb p l1 = false
  end.
Proof.
  induction l as [|a l IH]; simpl; [done|]. destruct (p a) eqn:Ea; simpl; [by exists [], l|].
  destruct (remove_first _ l) as [[b r]|]; simpl; [|done]. destruct IH as (l1 & l2 & -> & -> & Hb & Hl1).
  exists (a :: l1), l2. simpl. by rewrite Ea.
Qed.

(** A consumed attribute is gone, and it was the only one of its name. *)
Lemma take_use_attr_spec (attrs : list (attribute X)) ident paths rest : take_use_attr attrs ident = Ok (paths, rest) ->
  rest = filter (fun a => is_ident ident a = false) attrs /\ listed attrs ident paths.
Proof.
  unfold take_use_attr, listed. pose proof (remove_first_split (is_ident ident) attrs) as Hfirst.
  destruct (remove_first _ attrs) as [[a r]|].
  - destruct Hfirst as (l1 & l2 & -> & -> & Ha & Hl1). destruct (existsb (is_ident ident) (l1 ++ l2)) eqn:Er; [done|].
    rewrite existsb_app in Er. apply orb_false_elim in Er as [_ Hl2].
    destruct (at_paths a) as [ps|] eqn:Ep; simpl; [|done]. intros [= -> <-].
    rewrite !filter_app, !filter_cons, Ha. simpl.
    destruct (none_left _ _ Hl1) as [-> ->], (none_left _ _ Hl2) as [-> ->]. done.
  - intros [= <- <-]. destruct (none_left _ _ Hfirst) as [-> ->]. done.
Qed.

(** The attributes of one name are not touched by what consumes the others. *)
Lemma named_after_use (attrs : list (attribute X)) ident j : ident <> j ->
  filter (fun a => is_ident j a = true) (filter (fun a : attribute X => is_ident ident a = false) attrs)
  = filter (fun a => is_ident j a = true) attrs.
Proof.
  intros Hn. apply list_filter_filter_l. unfold is_ident. intros a ->%String.eqb_eq. by apply String.eqb_neq.
Qed.

Lemma take_metas_spec (attrs : list (attribute X)) xs rest : take_metas attrs = Ok (xs, rest) ->
  Forall2 (fun a x => at_expr a = Ok x) (filter (fun a => is_ident "meta" a = true) attrs) xs /\
  rest = filter (fun a => is_ident "meta" a = false) attrs.
Proof.
  revert xs rest. induction attrs as [|a attrs IH]; intros xs rest; cbn [take_metas].
  { intros [= <- <-]. by split. }
  rewrite !filter_cons. destruct (is_ident "meta" a) eqn:Ea; simpl.
  - destruct (at_expr a) as [x|] eqn:Ex; simpl; [|done]. destruct (take_metas attrs) as [[xs' rest']|]; simpl; [|done].
    intros [= <- <-]. destruct (IH _ _ eq_refl) as [? ->]. split; [by constructor|done].
  - destruct (take_metas attrs) as [[xs' rest']|]; simpl; [|done].
    intros [= <- <-]. destruct (IH _ _ eq_refl) as [? ->]. by split.
Qed.

Definition verb_tagged (m : method (X:=X)) : Prop := existsb is_verb (m_attrs m) = true.

(** What a method of the block says of its route: the verb and the path of its first verb attribute, the
    layers its attributes list, the metadata and the documentation they give, what its signature
    receives and returns. *)
Definition declares_route (m : method (X:=X)) (fh : route_fn * route_handler) : Prop :=
  let attrs := m_attrs m in let inputs := tail (m_inputs m) in let h := fh.2 in
  exists attr path api,
    head (filter (fun a => is_verb a = true) attrs) = Some attr /\
    verb_of attr = Some (h_verb h) /\ at_str attr = Ok path /\
    h_ident h = m_ident m /\
    listed attrs "use_guards" (h_guards h) /\
    listed attrs "use_filters" (h_filters h) /\
    listed attrs "use_interceptors" (h_interceptors h) /\
    Forall2 (fun a x => at_expr a = Ok x) (filter (fun a => is_ident "meta" a = true) attrs) (h_metas h) /\
    h_shaper h = shaper_type inputs /\
    match head (filter (fun a => is_ident "api" a = true) attrs) with
    | Some a => parse_api_attr a = Ok api
    | None => api = api_meta_default
    end /\
    fh.1 = RouteFn (m_ident m) (h_verb h) path (am_summary api) (am_description api) (am_tags api)
      (schema_of <$> request_payload inputs) (schema_of <$> response_payload (m_output m))
      (bool_decide (is_Some (shaper_type inputs))).

Lemma remove_first_head (p : attribute X -> bool) l a r : remove_first p l = Some (a, r) ->
  head (filter (fun a => p a = true) l) = Some a.
Proof.
  pose proof (remove_first_split p l) as Hs. intros E. rewrite E in Hs. destruct Hs as (l1 & l2 & -> & _ & Ha & Hl1).
  rewrite filter_app, filter_cons, Ha. destruct (none_left _ _ Hl1) as [_ ->]. done.
Qed.

Lemma remove_first_none_head (p : attribute X -> bool) l : remove_first p l = None ->
  head (filter (fun a => p a = true) l) = None.
Proof.
  pose proof (remove_first_split p l) as Hs. intros E. rewrite E in Hs. by destruct (none_left _ _ Hs) as [_ ->].
Qed.

(** A verb is not the name of a layer. *)
Lemma verb_named a v : verb_of (X:=X) a = Some v -> at_name a = to_ascii_lowercase (as_str v).
Proof. intros [_ E%String.eqb_eq]%List.find_some. done. Qed.

Lemma named_without_verb (attrs : list (attribute X)) attr rest j : remove_first is_verb attrs = Some (attr, rest) ->
  (forall v, to_ascii_lowercase (as_str v) <> j) ->
  filter (fun a : attribute X => is_ident j a = true) rest = filter (fun a => is_ident j a = true) attrs.
Proof.
  pose proof (remove_first_split is_verb attrs) as Hs. intros E Hj. rewrite E in Hs. destruct Hs as (l1 & l2 & -> & -> & Ha & _).
  rewrite !filter_app, filter_cons. unfold is_verb in Ha. apply bool_decide_eq_true in Ha as [v Hv%verb_named].
  assert (is_ident j attr = false) as -> by (unfold is_ident; rewrite Hv; apply String.eqb_neq, Hj). done.
Qed.

Ltac not_a_verb := intros []; vm_compute; discriminate.

#[local] Ltac own_attributes Ev H :=
  rewrite ?named_after_use in H by done; rewrite (named_without_verb _ _ _ _ Ev) in H by not_a_verb.

Lemma lower_method_declares m f h : lower_method m = Ok (Some (f, h)) -> declares_route m (f, h).
Proof.
  unfold lower_method. destruct (remove_first is_verb _) as [[attr attrs]|] eqn:Ev; [|done].
  destruct (at_str attr) as [path|] eqn:Ep; simpl; [|done]. destruct (forwarded_arg_idents _); simpl; [|done].
  destruct (take_use_attr attrs _) as [[gs r1]|] eqn:Eg; simpl; [|done].
  destruct (take_use_attr r1 _) as [[fs r2]|] eqn:Ef; simpl; [|done].
  destruct (take_use_attr r2 _) as [[ints r3]|] eqn:Ei; simpl; [|done].
  destruct (take_metas r3) as [[ms r4]|] eqn:Em; simpl; [|done].
  match goal with |- context [result_bind ?e _] => destruct e as [api|] eqn:Ea; simpl; [|done] end.
  intros [= <- <-]. apply take_use_attr_spec in Eg as [-> Hg]. apply take_use_attr_spec in Ef as [-> Hf].
  apply take_use_attr_spec in Ei as [-> Hi]. apply take_metas_spec in Em as [Hm ->]. unfold listed in *.
  pose proof (remove_first_head _ _ _ _ Ev) as Hhead.
  own_attributes Ev Hg. own_attributes Ev Hf. own_attributes Ev Hi. own_attributes Ev Hm.
  assert (is_Some (verb_of attr)) as [v Hv].
  { pose proof (remove_first_split is_verb (m_attrs m)) as Hs. rewrite Ev in Hs. destruct Hs as (_ & _ & _ & _ & Ha & _).
    by apply bool_decide_eq_true in Ha. }
  exists attr, path, api. rewrite Hv. split_and!; try done.
  rewrite <-(named_without_verb _ _ _ "api" Ev) by not_a_verb.
  match type of Ea with match remove_first _ ?l with _ => _ end = _ =>
    assert (filter (fun a => is_ident "api" a = true) l = filter (fun a => is_ident "api" a = true) attrs) as Hl
      by (by rewrite !named_after_use by done);
    rewrite <-Hl; destruct (remove_first (is_ident "api") l) as [[found r]|] eqn:Er
  end.
  - by rewrite (remove_first_head _ _ _ _ Er).
  - rewrite (remove_first_none_head _ _ Er). by injection Ea as <-.
Qed.

Lemma lower_method_none m : lower_method m = Ok None -> ~ verb_tagged m.
Proof.
  unfold lower_method, verb_tagged. pose proof (remove_first_split is_verb (m_attrs m)) as Hs.
  destruct (remove_first is_verb _) as [[attr attrs]|]; [|by rewrite Hs].
  destruct (at_str attr); simpl; [|done]. destruct (forwarded_arg_idents _); simpl; [|done].
  do 3 (destruct (take_use_attr _ _) as [[? ?]|]; simpl; [|done]). destruct (take_metas _) as [[? ?]|]; simpl; [|done].
  by match goal with |- context [result_bind ?e _] => destruct e end.
Qed.

Lemma declares_route_tagged m fh : declares_route m fh -> verb_tagged m.
Proof.
  intros (attr & _ & _ & Hhead & _). unfold verb_tagged. apply existsb_exists. exists attr.
  apply head_Some_elem_of, list_elem_of_filter in Hhead as [Ha Hin]. split; [by apply list_elem_of_In|done].
Qed.

(** A route function and the handler lowered from the same method. *)
Definition same_route (f : route_fn) h : Prop := rf_verb f = h_verb h /\ rf_ident f = h_ident h.

Lemma lower_method_same m f h : lower_method m = Ok (Some (f, h)) -> same_route f h.
Proof. intros (attr & path & api & _ & _ & _ & Hi & _ & _ & _ & _ & _ & _ & Hf)%lower_method_declares. simpl in *. by subst. Qed.

Lemma push_route_get {A} path (x : A) rs p : map_get p (push_route path x rs)
  = if String.eqb p path then Some (default [] (map_get path rs) ++ [x]) else map_get p rs.
Proof.
  induction rs as [|[q xs] rs IH]; simpl; [done|]. rewrite (String.eqb_sym path q).
  destruct (String.eqb_spec q path) as [->|Hq]; simpl; [by destruct (String.eqb p path)|]. rewrite IH.
  destruct (String.eqb_spec p q) as [->|]; [|done]. by rewrite (proj2 (String.eqb_neq _ _) Hq).
Qed.

Lemma push_route_paths {A} path (x : A) rs :
  (push_route path x rs).*1 = if decide (path ∈ rs.*1) then rs.*1 else rs.*1 ++ [path].
Proof.
  induction rs as [|[p xs] rs IH]; csimpl; [done|]. destruct (String.eqb_spec p path) as [->|Hn]; csimpl.
  - rewrite decide_True; [done|left].
  - rewrite IH. destruct (decide (path ∈ rs.*1)) as [Hin|Hin].
    + rewrite decide_True; [done|by right].
    + rewrite decide_False; [done|]. by intros [->|?]%elem_of_cons.
Qed.

Lemma push_route_map {A B} (g : A -> B) path x rs :
  map (fun e => (e.1, map g e.2)) (push_route path x rs) = push_route path (g x) (map (fun e => (e.1, map g e.2)) rs).
Proof.
  induction rs as [|[p xs] rs IH]; simpl; [done|]. destruct (String.eqb p path); simpl; [|by rewrite IH].
  by rewrite map_app.
Qed.

Definition entry_names (e : string * list (route_handler (X:=X))) : string * list (http_verb * string) :=
  (e.1, map (fun h => (h_verb h, h_ident h)) e.2).

(** The mounts and the metadata of a block come from the same methods: grouped by path they are the table
    [OpenApi] is told of, each path once, as poem's router requires. *)
Lemma routes_tables methods fns table : routes methods = Ok (fns, table) ->
  map entry_names table = routes_by_path fns /\ NoDup table.*1.
Proof.
  unfold routes. assert (Hgen : forall ms st st', map entry_names st.2 = routes_by_path st.1 -> NoDup st.2.*1 ->
    for_each routes_step ms st = Ok st' -> map entry_names st'.2 = routes_by_path st'.1 /\ NoDup st'.2.*1).
  { induction ms as [|m ms IH]; intros st st' Hm Hnd; cbn [for_each]; [by intros [= <-]|].
    destruct (routes_step st m) as [st1|] eqn:Es; [|done]. cbn [result_bind]. intros Hf.
    unfold routes_step in Es. destruct (lower_method m) as [[[f h]|]|] eqn:El; simpl in Es; [|by injection Es as <-; eauto|done].
    injection Es as <-. refine (IH _ _ _ _ Hf); simpl.
    - unfold routes_by_path in *. rewrite foldl_snoc, <- Hm. destruct (lower_method_same _ _ _ El) as [-> ->].
      apply (push_route_map (fun h => (h_verb h, h_ident h))).
    - rewrite push_route_paths. case_decide as Hin; [done|]. apply NoDup_app. split; [done|]. split; [set_solver|apply NoDup_singleton]. }
  intros Hr. exact (Hgen methods ([], []) (fns, table) eq_refl NoDup_nil_2 Hr).
Qed.

(** The handlers of a path, in the order of the block. *)
Definition at_path (path : string) (fhs : list (route_fn * route_handler (X:=X))) : list route_handler :=
  (filter (fun fh => rf_path fh.1 = path) fhs).*2.

Definition row_of {A} (hs : list A) : option (list A) := match hs with [] => None | _ => Some hs end.

(** The block's methods with a verb, and no other, in their order. *)
Lemma routes_declare methods fns table : routes methods = Ok (fns, table) ->
  exists fhs, Forall2 declares_route (filter verb_tagged methods) fhs /\ fns = fhs.*1 /\
    forall path, map_get path table = row_of (at_path path fhs).
Proof.
  unfold routes. revert fns table. induction methods as [|m ms IH] using rev_ind; intros fns table.
  { intros [= <- <-]. exists []. by split_and!; [constructor| |]. }
  rewrite for_each_app. destruct (for_each routes_step ms _) as [[fns0 table0]|]; [|done].
  destruct (IH _ _ eq_refl) as (fhs & Hall & -> & Htable). cbn [result_bind for_each]. unfold routes_step at 1.
  destruct (lower_method m) as [[[f h]|]|] eqn:El; cbn [result_bind]; [| |done]; intros [= <- <-].
  - pose proof (lower_method_declares _ _ _ El) as Hm. exists (fhs ++ [(f, h)]). split_and!.
    + rewrite filter_app. apply Forall2_app; [done|]. rewrite filter_cons_True by by eapply declares_route_tagged.
      by repeat constructor.
    + by rewrite fmap_app.
    + intros path. cbn [snd]. rewrite push_route_get, !Htable. unfold at_path. rewrite filter_app, filter_cons, fmap_app. simpl.
      rewrite String.eqb_sym. destruct (String.eqb_spec (rf_path f) path) as [->|Hne].
      * rewrite decide_True by done. simpl. by destruct (filter _ fhs).
      * rewrite decide_False by done. simpl. by rewrite app_nil_r.
  - exists fhs. split_and!; [|done|done]. rewrite filter_app, filter_cons_False by by apply lower_method_none.
    by rewrite app_nil_r.
Qed.

(** Layers resolve when they are bound. *)
Lemma layers_resolve {L} (as_layer : ty -> val -> L) c paths :
  is_Some (mapM (fun t => as_layer t <$> get t c) (map type_id paths)) <-> Forall (bound c) paths.
Proof.
  induction paths as [|p ps IH]; simpl; [split; [by constructor|by eexists]|].
  rewrite Forall_cons, <- IH. unfold bound. destruct (get (type_id p) c); simpl.
  - destruct (mapM _ _); simpl; [split; [split; by eexists|by eexists]|].
    split; [by intros [? ?]|by intros [_ [? ?]]].
  - split; [by intros [? ?]|by intros [[? ?] _]].
Qed.

Lemma wrap_layer_mounts {L} (as_layer : ty -> val -> L) (wrap : L -> endpoint X W Env -> endpoint X W Env) c paths ep :
  is_Some (wrap_layer (fun t => as_layer t <$> get t c) wrap (map type_id paths) ep) <-> Forall (bound c) paths.
Proof.
  rewrite <- (layers_resolve as_layer). destruct (mapM _ _) as [ls|] eqn:E.
  - rewrite (wrap_layer_registered _ _ _ _ _ E). split; by eexists.
  - rewrite (wrap_layer_unregistered _ _ _ _ E). done.
Qed.

Lemma wrap_layers_mount c interceptors guards filters (ep : endpoint X W Env) :
  is_Some (controller_layers (container_layers c) (map type_id guards) (map type_id filters) (map type_id interceptors) ep) <->
  Forall (bound c) (interceptors ++ guards ++ filters).
Proof.
  unfold controller_layers, container_layers. simpl. rewrite !Forall_app.
  pose proof (fun ep => wrap_layer_mounts as_interceptor interceptor_endpoint c interceptors ep) as Hi.
  pose proof (fun ep => wrap_layer_mounts as_guard guard_endpoint c guards ep) as Hg.
  pose proof (fun ep => wrap_layer_mounts as_filter filter_endpoint c filters ep) as Hf.
  rewrite <- (Hi ep). destruct (wrap_layer _ interceptor_endpoint _ _) as [ep1|]; simpl; [|split; [by intros [? ?]|by intros [[? ?] _]]].
  rewrite <- (Hg ep1). destruct (wrap_layer _ guard_endpoint _ _) as [ep2|]; simpl; [|split; [by intros [? ?]|by intros (_ & [? ?] & _)]].
  rewrite <- (Hf ep2). split; [split; [by eexists|split; [by eexists|done]]|by intros (_ & _ & ?)].
Qed.

(** A mounted handler: its layers' instances around the wrapper, in the order of [Http.layered], with the
    route's metadata attached first. *)
Definition serves rc c h (e : http_verb * endpoint X W Env) : Prop :=
  e.1 = h_verb h /\
  exists gs fs ints,
    mapM (get_guard (container_layers c)) (map type_id (h_guards h)) = Some gs /\
    mapM (get_filter (container_layers c)) (map type_id (h_filters h)) = Some fs /\
    mapM (get_interceptor (container_layers c)) (map type_id (h_interceptors h)) = Some ints /\
    forall env req w, e.2 env req w =
      layered gs (last fs)
        (foldr interceptor_endpoint
           (match shaper_of <$> h_shaper h with Some s => shaped s (route_wrapper rc h) | None => route_wrapper rc h end) ints)
        env (with_metas (h_metas h) req) w.

Lemma mount_handler_serves rc c h :
  (is_Some (mount_handler rc c h) <-> Forall (bound c) (handler_layers h)) /\
  forall e, mount_handler rc c h = Some e -> serves rc c h e.
Proof.
  unfold mount_handler. set (inner := match shaper_of <$> h_shaper h with Some s => shaped s (route_wrapper rc h) | None => route_wrapper rc h end).
  pose proof (wrap_layers_mount c (h_interceptors h) (h_guards h) (h_filters h) inner) as Hl.
  assert (Hg : is_Some (guarded_handler (container_layers c) (route_wrapper rc h) (map type_id (h_guards h)) (map type_id (h_filters h))
      (map type_id (h_interceptors h)) (shaper_of <$> h_shaper h) (h_metas h)) <-> Forall (bound c) (handler_layers h)).
  { trans (Forall (bound c) (h_interceptors h ++ h_guards h ++ h_filters h)); [|unfold handler_layers; rewrite !Forall_app; tauto].
    rewrite <- Hl.
    unfold guarded_handler, controller_layers. fold inner.
    destruct (wrap_layer _ interceptor_endpoint _ _) as [e1|]; simpl; [|done]. destruct (wrap_layer _ guard_endpoint _ _) as [e2|]; simpl; [|done].
    destruct (wrap_layer _ filter_endpoint _ _); simpl; split; intros [? ?]; (done || by eexists). }
  split.
  - rewrite <- Hg. destruct (guarded_handler _ _ _ _ _ _ _); simpl; split; intros [? ?]; (done || by eexists).
  - intros e He. destruct (guarded_handler _ _ _ _ _ _ _) as [ep|] eqn:Ep; [|done]. injection He as <-.
    pose proof (proj1 Hg (ex_intro _ ep eq_refl)) as Hb. unfold handler_layers in Hb. rewrite !Forall_app in Hb. destruct Hb as (Hbg & Hbf & Hbi).
    apply (layers_resolve as_guard) in Hbg as [gs Eg]. apply (layers_resolve as_filter) in Hbf as [fs Ef].
    apply (layers_resolve as_interceptor) in Hbi as [ints Ei].
    split; [done|]. exists gs, fs, ints. do 3 (split; [done|]).
    destruct (guarded_handler_layered (container_layers c) (route_wrapper rc h) _ _ _ (shaper_of <$> h_shaper h) (h_metas h) gs fs ints Eg Ef Ei)
      as (ep' & Ep' & Hep). simpl. congruence.
Qed.

Lemma mapM_is_Some {A B} (f : A -> option B) l : is_Some (mapM f l) <-> Forall (fun a => is_Some (f a)) l.
Proof.
  split.
  - intros [k Hk%mapM_Some]. eapply Forall2_Forall_l; [exact Hk|]. apply Forall_forall. intros. by eexists.
  - induction 1 as [|a l [b Hb] _ [k Hk]]; [by exists []|]. exists (b :: k). simpl. by rewrite Hb, Hk.
Qed.

Lemma bound_concat c (ls : list (list syn_type)) : Forall (bound c) (List.concat ls) <-> Forall (Forall (bound c)) ls.
Proof. apply Forall_concat. Qed.

Lemma route_entry_serves rc c row :
  (is_Some (route_entry rc c row) <-> Forall (fun h => Forall (bound c) (handler_layers h)) row.2) /\
  forall entry, route_entry rc c row = Some entry -> entry.1 = row.1 /\ Forall2 (serves rc c) row.2 entry.2.
Proof.
  unfold route_entry. split.
  - transitivity (is_Some (mapM (mount_handler rc c) row.2)).
    { destruct (mapM _ _); simpl; split; intros [? ?]; (done || by eexists). }
    rewrite mapM_is_Some, !Forall_forall. split; intros Hh h Hin; destruct (mount_handler_serves rc c h) as [Hm _]; apply Hm, Hh, Hin.
  - intros entry He. destruct (mapM _ _) as [eps|] eqn:E; [|done]. injection He as <-. split; [done|]. simpl.
    apply mapM_Some in E. eapply Forall2_impl; [exact E|]. intros h e. apply mount_handler_serves.
Qed.

Lemma route_entries_mount rc c :
  is_Some (mapM (route_entry rc c) (rc_table rc)) <-> Forall (bound c) (route_layers (rc_table rc)).
Proof.
  rewrite mapM_is_Some. unfold route_layers. rewrite bound_concat, Forall_map.
  rewrite Forall_concat, Forall_map, !Forall_forall. split; intros Hr row Hin; destruct (route_entry_serves rc c row) as [He _].
  - exact (proj1 He (Hr _ Hin)).
  - exact (proj2 He (Hr _ Hin)).
Qed.

(** The controller as its struct and its block declare it. *)
Definition declared_as args (attrs : list (attribute X)) item (methods : list method) rc : Prop :=
  let cs := rc_struct rc in
  parse_controller_args args = Ok (cs_path cs, cs_version cs) /\
  build_injectable_body item = Ok (cs_body cs) /\ rc_ident rc = i_ident item /\
  listed attrs "use_interceptors" (cs_interceptors cs) /\ listed attrs "use_guards" (cs_guards cs) /\
  listed attrs "use_filters" (cs_filters cs) /\
  exists fhs, Forall2 declares_route (filter verb_tagged methods) fhs /\ rc_fns rc = fhs.*1 /\
    forall path, map_get path (rc_table rc) = row_of (at_path path fhs).

Lemma decorate_declares self args attrs item methods rc : decorate self args attrs item methods = Ok rc ->
  declared_as args attrs item methods rc.
Proof.
  unfold decorate, declared_as, controller. destruct (parse_controller_args args) as [[path version]|]; simpl; [|done].
  destruct (take_use_attr attrs _) as [[ints r1]|] eqn:Ei; simpl; [|done].
  destruct (take_use_attr r1 _) as [[gs r2]|] eqn:Eg; simpl; [|done].
  destruct (take_use_attr r2 _) as [[fs r3]|] eqn:Ef; simpl; [|done].
  destruct (build_injectable_body item); simpl; [|done].
  destruct (routes methods) as [[fns table]|] eqn:Er; simpl; [|done]. intros [= <-]. simpl.
  apply take_use_attr_spec in Ei as [-> Hi]. apply take_use_attr_spec in Eg as [-> Hg].
  apply take_use_attr_spec in Ef as [-> Hf]. unfold listed in *. rewrite named_after_use in Hg by done. rewrite !named_after_use in Hf by done.
  split_and!; [done..|]. by apply routes_declare.
Qed.

Lemma decorate_parts self args attrs item methods rc : decorate self args attrs item methods = Ok rc ->
  build_injectable_body item = Ok (cs_body (rc_struct rc)) /\ rc_ident rc = i_ident item /\
  map entry_names (rc_table rc) = routes_by_path (rc_fns rc) /\ NoDup (rc_table rc).*1.
Proof.
  intros Hd. destruct (decorate_declares _ _ _ _ _ _ Hd) as (_ & Eb & Ei & _). split; [done|]. split; [done|]. revert Hd.
  unfold decorate. destruct (controller _ _ _) as [cs|]; simpl; [|done].
  destruct (routes methods) as [[fns table]|] eqn:Er; simpl; [|done]. intros [= <-]. by eapply routes_tables.
Qed.

Lemma mounted_in_table rc path v ident : map entry_names (rc_table rc) = routes_by_path (rc_fns rc) ->
  mounted (declared rc) path v ident <->
  exists row h, row ∈ rc_table rc /\ h ∈ row.2 /\ path = row.1 /\ v = h_verb h /\ ident = h_ident h.
Proof.
  intros Hn. unfold mounted, routed. simpl. rewrite <- Hn. split.
  - intros (hs & (row & [= -> ->] & Hrow)%list_elem_of_fmap & (h & [= -> ->] & Hh)%list_elem_of_fmap). by exists row, h.
  - intros (row & h & Hrow & Hh & -> & -> & ->). exists (entry_names row).2.
    split; apply list_elem_of_fmap; [by exists row|by exists h].
Qed.

Lemma declared_keys_bound rc c item : build_injectable_body item = Ok (cs_body (rc_struct rc)) -> rc_ident rc = i_ident item ->
  (forall k, k ∈ d_injected (controller_discoverable rc) -> is_Some (get k c)) <->
  (exists ctrl, d_from_container (controller_discoverable rc) c = Ok ctrl) /\
  Forall (bound c) (struct_layers (rc_struct rc)) /\ Forall (bound c) (route_layers (rc_table rc)).
Proof.
  intros Eb Ei. simpl. rewrite Ei, (eval_ctor_ok_iff _ _ c Eb), !(bound_keys_iff same_text).
  unfold injected_with_layers. setoid_rewrite elem_of_app. setoid_rewrite elem_of_app. naive_solver.
Qed.

(** [C16] What the decorators accept is what the source says: the struct's path, version and layers are those
    of its arguments and attributes, every method with a verb attribute, and no other, is a route of its
    path, in the order of the block, with the guards, filters, interceptors, metadata and documentation its
    own attributes list. A controller mounts exactly when every key its [injected] declares is bound: its
    fields' and those of the layers of the struct and of every route, so that nothing it resolves escapes the
    boot's access contract. Mounted, it is nested under the prefix its metadata names, behind its own layers,
    its instance attached; every handler of the block is there once, on its path and verb, inside the layers
    its attributes list, in the order of [Http.layered]; and the routes that [OpenApi] documents are these. *)
Theorem controller_mounts_as_declared self args attrs item methods rc c route :
  decorate self args attrs item methods = Ok rc ->
  declared_as args attrs item methods rc /\
  (is_Some (mount rc c route) <-> forall k, k ∈ d_injected (controller_discoverable rc) -> is_Some (get k c)) /\
  (forall route', mount rc c route = Some route' ->
     exists ctrl entries gs fs ints sub,
       d_from_container (controller_discoverable rc) c = Ok ctrl /\
       route' = nest (effective_prefix (meta_of (declared rc))) sub route /\
       mapM (get_guard (container_layers c)) (map type_id (cs_guards (rc_struct rc))) = Some gs /\
       mapM (get_filter (container_layers c)) (map type_id (cs_filters (rc_struct rc))) = Some fs /\
       mapM (get_interceptor (container_layers c)) (map type_id (cs_interceptors (rc_struct rc))) = Some ints /\
       (forall env req w, sub env req w =
          layered gs (last fs) (foldr interceptor_endpoint (data_endpoint (TArc (rc_self rc), controller_data ctrl) (route_of entries)) ints)
            env req w) /\
       Forall2 (fun row entry => entry.1 = row.1 /\ Forall2 (serves rc c) row.2 entry.2) (rc_table rc) entries /\
       NoDup entries.*1) /\
  (forall path v ident, mounted (declared rc) path v ident <-> exists row h, row ∈ rc_table rc /\ h ∈ row.2 /\
     path = row.1 /\ v = h_verb h /\ ident = h_ident h).
Proof.
  intros Hd. destruct (decorate_parts _ _ _ _ _ _ Hd) as (Eb & Ei & Hn & Hnd).
  assert (Hsub : forall ep, is_Some (controller_layers (container_layers c) (map type_id (cs_guards (rc_struct rc)))
            (map type_id (cs_filters (rc_struct rc))) (map type_id (cs_interceptors (rc_struct rc))) ep) <->
          Forall (bound c) (struct_layers (rc_struct rc))) by (intros ep; apply wrap_layers_mount).
  split; [by eapply decorate_declares|]. split; [|split]; [| |by intros; apply mounted_in_table].
  - rewrite (declared_keys_bound rc c item Eb Ei), <- route_entries_mount. unfold mount. split.
    + destruct (d_from_container _ c) as [ctrl|]; [|by intros [? ?]].
      destruct (mapM _ _) as [entries|]; simpl; [|by intros [? ?]].
      destruct (controller_layers _ _ _ _ _) as [sub|] eqn:El; simpl; [|by intros [? ?]].
      intros _. split; [by eexists|]. split; [|by eexists]. eapply Hsub. by rewrite El; eexists.
    + intros ([ctrl ->] & Hs & [entries ->]). simpl.
      destruct (proj2 (Hsub (data_endpoint (TArc (rc_self rc), controller_data ctrl) (route_of entries))) Hs) as [sub ->]. by eexists.
  - intros route' Hm. unfold mount in Hm. destruct (d_from_container _ c) as [ctrl|]; [|done].
    destruct (mapM _ _) as [entries|] eqn:Ee; [|done]. simpl in Hm.
    destruct (controller_layers _ _ _ _ _) as [sub|] eqn:El; [|done]. injection Hm as <-.
    assert (Hb : Forall (bound c) (struct_layers (rc_struct rc))) by (eapply Hsub; rewrite El; by eexists). unfold struct_layers in Hb. rewrite !Forall_app in Hb.
    destruct Hb as ([ints Hi]%(layers_resolve as_interceptor) & [gs Hg]%(layers_resolve as_guard) & [fs Hf]%(layers_resolve as_filter)).
    destruct (controller_layers_in_order (container_layers c) _ _ _ gs fs ints
      (data_endpoint (TArc (rc_self rc), controller_data ctrl) (route_of entries)) Hg Hf Hi) as (sub' & El' & Hsub').
    exists ctrl, entries, gs, fs, ints, sub. do 5 (split; [done|]).
    split; [intros; replace sub with sub' by congruence; apply Hsub'|].
    assert (Hall : Forall2 (fun row entry => entry.1 = row.1 /\ Forall2 (serves rc c) row.2 entry.2) (rc_table rc) entries).
    { apply mapM_Some in Ee. eapply Forall2_impl; [exact Ee|]. intros row entry. apply route_entry_serves. }
    split; [done|]. replace entries.*1 with (rc_table rc).*1; [done|].
    clear -Hall. induction Hall as [|row entry rows es [E _] _ IH]; csimpl; congruence.
Qed.

End mounting.

(** ** A concrete controller *)

Module ControllerDemo.
Import CodegenDemo OpenApiDemo.

#[local] Existing Instance texts.

(** A router here is the list of what is nested on it; a route is found by its exact path and method. *)
#[export] Instance code : ControllerCode nat nat unit := {
  as_guard t _ := fun _ req w => if decide (t = TNamed "Deny") then (Err (Response 403 None [] "denied"), req, w) else (Ok tt, req, S w);
  as_filter _ _ := fun _ snap err w => (Response (status (into_response err)) (Some "application/problem+json") [] (sn_uri snap), w);
  as_interceptor _ _ := fun ep env req w => ep env req (w + 10);
  run_handler ctrl ident := fun _ _ w => if String.eqb ident "fail" then (Err (error_from_status 500), w) else (Ok (Response 200 None [] ident), w);
  shaper_of _ := Shaper unit (fun _ => tt) (fun _ run env w => run env w);
  schema_of t := OpenApiDemo.schema_of (type_label t);
  controller_data v := v;
  controller_of x := Some x;
  controller_of_data _ := eq_refl;
  controller_meta_val _ _ := 0 : @val Demo.payloads;
  router := list (string * endpoint nat nat unit);
  route_of entries := fun env req w =>
    match eps ← map_get (rq_uri req) entries; snd <$> List.find (fun e : http_verb * endpoint nat nat unit =>
            match e.1, rq_method req with Get, GET | Post, POST | Put, PUT | Delete, DELETE | Patch, PATCH => true | _, _ => false end) eps with
    | Some ep => ep env req w
    | None => (Err (error_from_status 404), w)
    end;
  nest prefix ep r := (prefix, ep) :: r;
  data_not_found := error_from_status 500
}.

Definition attr (name : string) : attribute nat := Attribute name (Err "paths") (Err "string") (Err "metas") (Err "expression").
Definition verb_attr (name path : string) : attribute nat := Attribute name (Err "paths") (Ok path) (Err "metas") (Err "expression").
Definition use_attr (name : string) (paths : list string) : attribute nat :=
  Attribute name (Ok (map path paths)) (Err "string") (Err "metas") (Err "expression").
Definition api_attr (metas : list meta) : attribute nat := Attribute "api" (Err "paths") (Err "string") (Ok metas) (Err "expression").

Definition generic (name : string) (args : list syn_type) : syn_type := TyPath [PathSegment name (AngleBracketed (map GType args))].

Definition users_args : result (list meta) string := Ok [NameValue "path" (LitString "/users"); NameValue "version" (LitString "1")].
Definition users_item : item_struct := ItemStruct "UsersController" FieldsUnit.
Definition users_methods : list (method (X:=nat)) := [
  Method "list" [verb_attr "get" "/"; use_attr "use_guards" ["AuthGuard"]] [Receiver] (Some (generic "Result" [generic "Json" [path "User"]]));
  Method "create" [attr "doc"; api_attr [NameValue "summary" (LitString "Create a user")]; verb_attr "post" "/"; use_attr "use_guards" ["AuthGuard"; "Deny"]]
    [Receiver; Typed (Some "body") (generic "Valid" [generic "Json" [path "NewUser"]])] (Some (generic "Json" [path "User"]));
  Method "helper" [attr "inline"] [Receiver] None;
  Method "fail" [verb_attr "get" "/fail"; use_attr "use_filters" ["Problem"]] [Receiver] None].

Definition users_decorated : result rest_controller compile_error :=
  decorate (TNamed "UsersController") users_args [use_attr "use_interceptors" ["Timing"]] users_item users_methods.
Definition users_controller : rest_controller :=
  match users_decorated with
  | Ok rc => rc
  | Err _ => RestController (TNamed "") "" (ControllerStruct "" None (InjectableBody CtorUnit [] [] []) [] [] []) [] []
  end.

Definition layers (names : list string) : container :=
  build (apply_registrations (map (fun n => RProvide (TNamed n) (1 : @val Demo.payloads)) names) builder_new).

Definition ask (m : http_method) (path : string) (names : list string) : option (result response http_error * nat) :=
  r ← mount users_controller (layers names) []; '(_, ep) ← head r;
  Some (ep tt (Request m path [] [] "" ∅) 0).

Definition all_layers : list string := ["AuthGuard"; "Deny"; "Problem"; "Timing"].

(** The controller's interceptor is outside the guards of a route; a denial reaches no filter; and a layer of
    one route that is not registered keeps the whole controller from being mounted. *)
Example users_served :
  ask GET "/" all_layers = Some (Ok (Response 200 None [] "list"), 11) /\
  ask POST "/" all_layers = Some (Ok (Response 403 None [] "denied"), 11) /\
  ask GET "/fail" all_layers = Some (Ok (Response 500 (Some "application/problem+json") [] "/fail"), 10) /\
  ask GET "/" ["AuthGuard"; "Deny"; "Timing"] = None.
Proof. by vm_compute. Qed.

(** The payloads found in the signatures, and the tag of the struct. *)
Example users_documented :
  map (fun f => (rf_ident f, rf_summary f, match rf_request_payload f with Some s => Some (s []).2.*1 | None => None end,
                 match rf_response_payload f with Some s => Some (s []).2.*1 | None => None end)) (rc_fns users_controller) =
    [("list", None, None, Some ["User"]); ("create", Some "Create a user", Some ["NewUser"], Some ["User"]); ("fail", None, None, None)] /\
  map entry_names (rc_table users_controller) = [("/", [(Get, "list"); (Post, "create")]); ("/fail", [(Get, "fail")])].
Proof. by vm_compute. Qed.

(** What the decorators refuse. *)
Example refused_declarations :
  parse_controller_args (Ok [NameValue "version" (LitString "1")]) = Err "#[controller] requires `path = '...'`" /\
  parse_controller_args (Ok [NameValue "path" ValueOther]) = Err "expected a string literal" /\
  take_use_attr [use_attr "use_guards" ["A"]; use_attr "use_guards" ["B"]] "use_guards" =
    Err "at most one `#[use_guards(...)]` is allowed; list every entry in it" /\
  routes [Method "show" [verb_attr "get" "/:id"] [Receiver; Typed None (generic "Path" [path "Uuid"])] None] =
    Err "resolver/controller method arguments must be simple identifiers (no destructuring patterns)".
Proof. by vm_compute. Qed.

Lemma controller_mounts_as_declared_witness :
  is_Some (mount users_controller (layers all_layers) []) /\ mounted (declared users_controller) "/" Post "create".
Proof.
  destruct (controller_mounts_as_declared (ControllerCode0 := code) texts_same (TNamed "UsersController") users_args
    [use_attr "use_interceptors" ["Timing"]] users_item users_methods users_controller (layers all_layers) [] eq_refl) as (_ & Hm & _ & Ht).
  split.
  - apply Hm. assert (Hin : d_injected (controller_discoverable users_controller) =
      [TNamed "Timing"; TNamed "AuthGuard"; TNamed "Deny"; TNamed "Problem"]) by (by vm_compute).
    rewrite Hin. intros k [->|[->|[->|[->|[]%elem_of_nil]%elem_of_cons]%elem_of_cons]%elem_of_cons]%elem_of_cons;
      eexists; vm_compute; reflexivity.
  - apply Ht. eexists _, _. split; [left|]. split; [right; left|]. by vm_compute.
Defined.

End ControllerDemo.
