(* ===== verification/Resolver.v ===== *)
(** The [#[resolver]] decorator ([nestrs-graphql-macros/src/resolver.rs]): what the methods of a resolver
    lower to (the operations of the generated roots, the fields of the parents it extends), the guards
    each runs under, and the keys the resolver declares for them.

    syn's parsing is represented by its result; async-graphql calls the emitted methods, with a context
    that holds the container and the loaders of the request. *)

From S2P Require Import Prelude Container Codegen.

(** ** The impl block *)

Inductive verb := VQuery | VMutation | VField.

#[export] Instance verb_eq_dec : EqDecision verb.
Proof. solve_decision. Defined.

Inductive arg_type := Owned (t : syn_type) | Reference (t : syn_type).

(** A pattern that is not an identifier has no name. *)
Inductive fn_arg := Receiver | Typed (pat : option string) (t : arg_type).

Record impl_fn := ImplFn {
  fn_name : string;
  fn_verb : option verb;
  fn_use_guards : list (list syn_type);     (* its [#[use_guards(..)]] attributes *)
  fn_inputs : list fn_arg
}.

Inductive resolver_error :=
| GuardsOnStruct
| AtMostOneUseGuards
| ArgumentNotAnIdentifier
| FieldNeedsReceiver
| FieldNeedsParent
| ParentMustBeTyped
| ParentMustBeReference.

Definition take_use_guards (attrs : list (list syn_type)) : result (list syn_type) resolver_error :=
  match attrs with
  | [] => Ok []
  | [paths] => Ok paths
  | _ => Err AtMostOneUseGuards
  end.

(** [forwarded_idents]. *)
Fixpoint forwarded_idents (inputs : list fn_arg) : result (list string) resolver_error :=
  match inputs with
  | [] => Ok []
  | Receiver :: rest => forwarded_idents rest
  | Typed (Some i) _ :: rest => let? idents := forwarded_idents rest in Ok (i :: idents)
  | Typed None _ :: _ => Err ArgumentNotAnIdentifier
  end.

Definition last_segment (t : syn_type) : option string :=
  match t with TyPath segs => seg_ident <$> last segs | _ => None end.

Fixpoint ctx_param_ident (inputs : list fn_arg) : option string :=
  match inputs with
  | [] => None
  | Typed pat (Reference t) :: rest =>
      if bool_decide (last_segment t = Some "Context") then
        match pat with Some i => Some i | None => ctx_param_ident rest end
      else ctx_param_ident rest
  | _ :: rest => ctx_param_ident rest
  end.

Definition ensure_ctx_param (inputs : list fn_arg) : string := default "__guard_ctx" (ctx_param_ident inputs).

Definition is_dataloader (t : syn_type) : bool := bool_decide (last_segment t = Some "DataLoader").

(** ** What the methods lower to *)

Section lower.
Context `{Compiler}.

(** A method of a generated root: its guards, the context they are given (the method's own parameter, or one
    that is added) and the arguments forwarded to the inherent method. *)
Record operation := Operation {
  op_name : string;
  op_guards : list syn_type;
  op_ctx : option string;                   (* the context parameter the guards read *)
  op_args : list string
}.

(** A dependency of a field, bound before the call. *)
Inductive field_dep :=
| DepLoader (t : syn_type)
| DepService (t : syn_type) (msg : string).

Inductive call_arg := CallDep (i : nat) | CallArg (ident : string).

Record field_operation := FieldOperation {
  fo_name : string;
  fo_parent : syn_type;
  fo_guards : list syn_type;
  fo_deps : list field_dep;
  fo_gql_args : list string;
  fo_call : list call_arg
}.

(** The loop of [field_method] over the arguments after the parent. *)
Definition field_arg (method : string) (st : list field_dep * list string * list call_arg * list syn_type) (a : fn_arg)
  : list field_dep * list string * list call_arg * list syn_type :=
  let '(deps, gql, call, injected) := st in
  match a with
  | Typed (Some ident) (Reference t) =>
      if is_dataloader t then (deps ++ [DepLoader t], gql, call ++ [CallDep (length deps)], injected)
      else (deps ++ [DepService t ("#[field] `" +:+ method +:+ "`: no provider registered for `" +:+ token_text t +:+ "`")],
            gql, call ++ [CallDep (length deps)], injected ++ [t])
  | Typed (Some ident) (Owned _) => (deps, gql ++ [ident], call ++ [CallArg ident], injected)
  | _ => st
  end.

Definition field_method (f : impl_fn) (guards : list syn_type) : result (field_operation * list syn_type) resolver_error :=
  match fn_inputs f with
  | Receiver :: Typed _ (Reference parent) :: rest =>
      let? idents := forwarded_idents rest in
      let '(deps, gql, call, injected) := foldl (field_arg (fn_name f)) ([], [], [], []) rest in
      Ok (FieldOperation (fn_name f) parent guards deps gql call, injected)
  | Receiver :: Typed _ (Owned _) :: _ => Err ParentMustBeReference
  | Receiver :: Receiver :: _ => Err ParentMustBeTyped
  | [Receiver] => Err FieldNeedsParent
  | _ => Err FieldNeedsReceiver
  end.

(** The mutable locals of [resolver_impl]. *)
Record lowered := Lowered {
  lo_queries : list operation;
  lo_mutations : list operation;
  lo_fields : list (syn_type * list field_operation);
  lo_guards : list syn_type;
  lo_field_deps : list syn_type
}.

(** Fields of one parent share a [ComplexObject]: found by the text of its type. *)
Fixpoint push_field (parent : syn_type) (fo : field_operation) (groups : list (syn_type * list field_operation))
  : list (syn_type * list field_operation) :=
  match groups with
  | [] => [(parent, [fo])]
  | (t, fos) :: rest =>
      if String.eqb (token_text t) (token_text parent) then (t, fos ++ [fo]) :: rest
      else (t, fos) :: push_field parent fo rest
  end.

Definition lower_fn (resolver_guards : list syn_type) (st : lowered) (f : impl_fn) : result lowered resolver_error :=
  match fn_verb f with
  | None => Ok st
  | Some v =>
      let? method_guards := take_use_guards (fn_use_guards f) in
      let guards := lo_guards st ++ method_guards in
      let op_guards := resolver_guards ++ method_guards in
      match v with
      | VField =>
          let? fd := field_method f op_guards in
          Ok (Lowered (lo_queries st) (lo_mutations st) (push_field (fo_parent fd.1) fd.1 (lo_fields st)) guards (lo_field_deps st ++ fd.2))
      | _ =>
          let? args := forwarded_idents (fn_inputs f) in
          let op := Operation (fn_name f) op_guards (match op_guards with [] => None | _ => Some (ensure_ctx_param (fn_inputs f)) end) args in
          match v with
          | VQuery => Ok (Lowered (lo_queries st ++ [op]) (lo_mutations st) (lo_fields st) guards (lo_field_deps st))
          | _ => Ok (Lowered (lo_queries st) (lo_mutations st ++ [op]) (lo_fields st) guards (lo_field_deps st))
          end
      end
  end.

Definition resolver_impl (use_guards : list (list syn_type)) (fns : list impl_fn) : result lowered resolver_error :=
  let? resolver_guards := take_use_guards use_guards in
  for_each (lower_fn resolver_guards) fns (Lowered [] [] [] resolver_guards []).

(** [resolver_struct]: construction only. *)
Definition resolver_struct (use_guards : list (list syn_type)) (item : item_struct)
  : result (result injectable_body syn_error) resolver_error :=
  match use_guards with [] => Ok (build_injectable_body item) | _ => Err GuardsOnStruct end.

(** [Discoverable::injected]; the resolver registers nothing. *)
Definition resolver_injected (body : injectable_body) (lo : lowered) : list ty :=
  map type_id (ib_dep_keys body) ++ layer_inject_keys (lo_guards lo) ++ layer_inject_keys (lo_field_deps lo).

End lower.

(** ** Running an operation *)

Inductive call_value `{Payloads} := CvArg (ident : string) | CvDep (v : val).

(** The application's guards and methods, and the loaders in a request's context. *)
Class ResolverCode `{Payloads} (Ctx W Value GqlError : Type) := {
  check_guard : val -> Ctx -> W -> result unit GqlError * W;
  call_method : string -> val -> list call_value -> Ctx -> W -> result Value GqlError * W;
  ctx_loader : Ctx -> ty -> option val
}.

Section run.
Context {Ctx W Value GqlError : Type} `{Compiler} `{Structs} `{!ResolverCode Ctx W Value GqlError}.

Definition guard_message (p : syn_type) : string :=
  "#[use_guards] resolver guard `" +:+ token_text p +:+ "` is not registered — add it to a module's providers".

(** The emitted [guard_checks]: each guard is looked up when its turn comes. *)
Fixpoint guard_checks (c : container) (guards : list syn_type) (ctx : Ctx) (w : W) : result (result unit GqlError * W) panic :=
  match guards with
  | [] => Ok (Ok tt, w)
  | p :: rest =>
      let? g := expect (get (type_id p) c) (guard_message p) in
      match check_guard g ctx w with
      | (Err e, w1) => Ok (Err e, w1)
      | (Ok _, w1) => guard_checks c rest ctx w1
      end
  end.

(** A method of a root, on the resolver the root was built with. *)
Definition run_operation (c : container) (resolver : val) (op : operation) (ctx : Ctx) (w : W)
  : result (result Value GqlError * W) panic :=
  let? rw := guard_checks c (op_guards op) ctx w in
  match rw.1 with
  | Err e => Ok (Err e, rw.2)
  | Ok _ => Ok (call_method (op_name op) resolver (map CvArg (op_args op)) ctx rw.2)
  end.

Definition bind_dep (c : container) (ctx : Ctx) (d : field_dep) : result val panic :=
  match d with
  | DepLoader t => expect (ctx_loader ctx (type_id t)) "data_unchecked"
  | DepService t msg => expect (get (type_id t) c) msg
  end.

Definition call_arg_value (deps : list val) (a : call_arg) : option call_value :=
  match a with CallArg i => Some (CvArg i) | CallDep i => CvDep <$> deps !! i end.

(** A field: the guards, then the dependencies, then a resolver built for the call. *)
Definition run_field (c : container) (from_container : container -> result val panic) (fo : field_operation) (ctx : Ctx) (w : W)
  : result (result Value GqlError * W) panic :=
  let? rw := guard_checks c (fo_guards fo) ctx w in
  match rw.1 with
  | Err e => Ok (Err e, rw.2)
  | Ok _ =>
      let? deps := collect_results (bind_dep c ctx) (fo_deps fo) in
      let? resolver := from_container c in
      Ok (call_method (fo_name fo) resolver (omap (call_arg_value deps) (fo_call fo)) ctx rw.2)
  end.

(** The [build] of a root's registration. *)
Definition build_root (from_container : container -> result val panic) (c : container) : result val panic := from_container c.

End run.

(** ** Guarded operations *)

Section guarded.
Context {Ctx W Value GqlError : Type} `{Compiler} `{Structs} `{!ResolverCode Ctx W Value GqlError}.
Implicit Types (c : container) (ctx : Ctx) (w : W).

(** The guards of a list, in order, let the operation through. *)
Inductive passes c ctx : list syn_type -> W -> W -> Prop :=
| passes_nil w : passes c ctx [] w w
| passes_cons p ps g w w1 w2 : get (type_id p) c = Some g -> check_guard g ctx w = (Ok tt, w1) ->
    passes c ctx ps w1 w2 -> passes c ctx (p :: ps) w w2.

(** The first one that refuses. *)
Definition refused c ctx guards w e w' : Prop :=
  exists l1 p l2 g w1, guards = l1 ++ p :: l2 /\ passes c ctx l1 w w1 /\ get (type_id p) c = Some g /\ check_guard g ctx w1 = (Err e, w').

Lemma guard_checks_cases c ctx guards w : Forall (bound c) guards ->
  (exists w', guard_checks c guards ctx w = Ok (Ok tt, w') /\ passes c ctx guards w w') \/
  (exists e w', guard_checks c guards ctx w = Ok (Err e, w') /\ refused c ctx guards w e w').
Proof.
  intros Hb. revert w. induction Hb as [|p ps [g Hg] _ IH]; intros w; simpl.
  { left. exists w. split; [done|constructor]. }
  rewrite Hg. simpl. destruct (check_guard g ctx w) as [[[]|e] w1] eqn:E.
  - destruct (IH w1) as [(w' & -> & Hp)|(e & w' & -> & l1 & q & l2 & gq & w2 & -> & Hp & Hq & Hc)].
    + left. exists w'. split; [done|]. by econstructor.
    + right. exists e, w'. split; [done|]. exists (p :: l1), q, l2, gq, w2. split; [done|]. split; [by econstructor|done].
  - right. exists e, w1. split; [done|]. exists [], p, ps, g, w. split; [done|]. split; [constructor|done].
Qed.

(** *** What the block lowers to *)

(** The guards of a method: those of the resolver, then its own. *)
Definition guards_of (use_guards : list (list syn_type)) (f : impl_fn) : list syn_type :=
  List.concat use_guards ++ List.concat (fn_use_guards f).

Definition is_op (v : verb) (rg : list syn_type) (op : operation) (f : impl_fn) : Prop :=
  fn_verb f = Some v /\ op_name op = fn_name f /\ op_guards op = rg ++ List.concat (fn_use_guards f).

Definition is_field (rg : list syn_type) (fo : field_operation) (f : impl_fn) : Prop :=
  fn_verb f = Some VField /\ fo_name fo = fn_name f /\ fo_guards fo = rg ++ List.concat (fn_use_guards f) /\
  (exists pat rest, fn_inputs f = Receiver :: Typed pat (Reference (fo_parent fo)) :: rest).

Definition all_fields (lo : lowered) : list field_operation := List.concat (map snd (lo_fields lo)).

(** The services a field looks up in the container. *)
Definition services (fo : field_operation) : list syn_type :=
  omap (fun d => match d with DepService t _ => Some t | DepLoader _ => None end) (fo_deps fo).

Lemma push_field_all parent fo groups :
  List.concat (map snd (push_field parent fo groups)) ≡ₚ List.concat (map snd groups) ++ [fo].
Proof.
  induction groups as [|[t fos] groups IH]; simpl; [done|].
  destruct (String.eqb _ _); simpl; [|by rewrite IH, app_assoc].
  rewrite <- !app_assoc. apply Permutation_app_head, Permutation_app_comm.
Qed.

Lemma field_args_services method rest deps gql call injected :
  let '(deps', _, _, injected') := foldl (field_arg method) (deps, gql, call, injected) rest in
  forall got, omap (fun d => match d with DepService t _ => Some t | DepLoader _ => None end) deps = got ++ injected ->
    omap (fun d => match d with DepService t _ => Some t | DepLoader _ => None end) deps' = got ++ injected'.
Proof.
  revert deps gql call injected. induction rest as [|a rest IH]; intros deps gql call injected; simpl; [done|].
  destruct a as [|[i|] [t|t]]; simpl; try apply IH.
  destruct (is_dataloader t).
  - specialize (IH (deps ++ [DepLoader t]) gql (call ++ [CallDep (length deps)]) injected).
    destruct (foldl _ _ _) as [[[deps' gql'] call'] injected']. intros got Hg. apply IH. rewrite omap_app. simpl. by rewrite app_nil_r.
  - match goal with |- context [deps ++ [DepService t ?m]] =>
      specialize (IH (deps ++ [DepService t m]) gql (call ++ [CallDep (length deps)]) (injected ++ [t])) end.
    destruct (foldl _ _ _) as [[[deps' gql'] call'] injected']. intros got Hg. apply IH. rewrite omap_app, Hg. simpl. by rewrite app_assoc.
Qed.

Lemma field_method_spec f guards fo injected : field_method f guards = Ok (fo, injected) ->
  fo_name fo = fn_name f /\ fo_guards fo = guards /\ services fo = injected /\
  exists pat rest, fn_inputs f = Receiver :: Typed pat (Reference (fo_parent fo)) :: rest.
Proof.
  unfold field_method. destruct (fn_inputs f) as [|[|] [|[|pat [t|t]] rest]]; try done.
  destruct (forwarded_idents rest); [|done]. simpl.
  pose proof (field_args_services (fn_name f) rest [] [] [] []) as Hs.
  destruct (foldl _ _ _) as [[[deps gql] call] inj]. intros [= <- <-]. simpl.
  split; [done|]. split; [done|]. split; [by apply (Hs [])|]. by eexists _, _.
Qed.

(** The state of the loop, after some of the methods. *)
Record lowers (rg : list syn_type) (fns : list impl_fn) (lo : lowered) : Prop := {
  lw_queries : Forall2 (is_op VQuery rg) (lo_queries lo) (filter (fun f => fn_verb f = Some VQuery) fns);
  lw_mutations : Forall2 (is_op VMutation rg) (lo_mutations lo) (filter (fun f => fn_verb f = Some VMutation) fns);
  lw_fields : exists fos, all_fields lo ≡ₚ fos /\ Forall2 (is_field rg) fos (filter (fun f => fn_verb f = Some VField) fns);
  lw_groups : NoDup (map (fun g => token_text g.1) (lo_fields lo)) /\
    Forall (fun g : syn_type * list field_operation => Forall (fun fo => token_text (fo_parent fo) = token_text g.1) g.2) (lo_fields lo);
  lw_guards : forall p, p ∈ lo_guards lo <-> p ∈ rg \/ exists f, f ∈ fns /\ is_Some (fn_verb f) /\ p ∈ List.concat (fn_use_guards f);
  lw_deps : forall p, p ∈ lo_field_deps lo <-> exists fo, fo ∈ all_fields lo /\ p ∈ services fo
}.

Lemma take_use_guards_concat attrs l : take_use_guards attrs = Ok l -> l = List.concat attrs.
Proof. destruct attrs as [|g [|]]; simpl; [by intros [= <-]| |done]. intros [= <-]. by rewrite app_nil_r. Qed.

Lemma push_field_groups parent fo groups : token_text (fo_parent fo) = token_text parent ->
  NoDup (map (fun g : syn_type * list field_operation => token_text g.1) groups) /\
  Forall (fun g : syn_type * list field_operation => Forall (fun fo => token_text (fo_parent fo) = token_text g.1) g.2) groups ->
  let groups' := push_field parent fo groups in
  (NoDup (map (fun g => token_text g.1) groups') /\
   Forall (fun g : syn_type * list field_operation => Forall (fun fo => token_text (fo_parent fo) = token_text g.1) g.2) groups') /\
  forall x, x ∈ map (fun g => token_text g.1) groups' <-> x = token_text parent \/ x ∈ map (fun g => token_text g.1) groups.
Proof.
  intros Hfo. induction groups as [|[t fos] groups IH]; intros [Hnd Hall]; simpl.
  - split; [split; [apply NoDup_singleton|repeat constructor; exact Hfo]|]. intros x. set_solver.
  - apply NoDup_cons in Hnd as [Hn Hnd]. apply Forall_cons in Hall as [Ht Hall]. simpl in Ht.
    destruct (IH (conj Hnd Hall)) as [[Hnd' Hall'] Hx].
    destruct (String.eqb_spec (token_text t) (token_text parent)) as [E|Hne]; simpl.
    + split; [split|].
      * by constructor.
      * constructor; [|done]. simpl. apply Forall_app. split; [done|]. repeat constructor. by rewrite E.
      * intros x. rewrite elem_of_cons, E. tauto.
    + split; [split|].
      * constructor; [|done]. rewrite Hx. intros [?|?]; [done|]. by apply Hn.
      * by constructor.
      * intros x. rewrite !elem_of_cons, Hx. tauto.
Qed.

Lemma lower_fn_lowers rg fns f lo lo' : lowers rg fns lo -> lower_fn rg lo f = Ok lo' -> lowers rg (fns ++ [f]) lo'.
Proof.
  intros [Hq Hm (fos & Hfp & Hfs) Hg Hgu Hd] Hl. unfold lower_fn in Hl.
  assert (Hguards : forall mg, mg = List.concat (fn_use_guards f) -> is_Some (fn_verb f) ->
    forall p, p ∈ lo_guards lo ++ mg <-> p ∈ rg \/ exists f', f' ∈ fns ++ [f] /\ is_Some (fn_verb f') /\ p ∈ List.concat (fn_use_guards f')).
  { intros mg -> Hv p. rewrite elem_of_app, Hgu. setoid_rewrite elem_of_app. setoid_rewrite list_elem_of_singleton. naive_solver. }
  assert (Hnone : fn_verb f = None -> forall p, p ∈ lo_guards lo <->
    p ∈ rg \/ exists f', f' ∈ fns ++ [f] /\ is_Some (fn_verb f') /\ p ∈ List.concat (fn_use_guards f')).
  { intros Hv p. rewrite Hgu. setoid_rewrite elem_of_app. setoid_rewrite list_elem_of_singleton.
    split; [naive_solver|]. intros [?|(f' & [?| ->] & [x Hx] & ?)]; naive_solver. }
  assert (Hsplit : forall v, filter (fun f => fn_verb f = Some v) (fns ++ [f]) =
    filter (fun f => fn_verb f = Some v) fns ++ (if decide (fn_verb f = Some v) then [f] else [])).
  { intros v. rewrite filter_app. by rewrite (filter_cons _ f []). }
  destruct (fn_verb f) as [v|] eqn:Ev.
  2:{ injection Hl as <-. split; try done; try (rewrite Hsplit, decide_False by done; by rewrite app_nil_r); [|by apply Hnone].
      exists fos. by rewrite Hsplit, decide_False, app_nil_r by done. }
  destruct (take_use_guards (fn_use_guards f)) as [mg|] eqn:Et; [|done]. apply take_use_guards_concat in Et. simpl in Hl.
  specialize (Hguards mg Et ltac:(by eexists)).
  assert (Hkeep : forall v', v <> v' -> filter (fun f => fn_verb f = Some v') (fns ++ [f]) = filter (fun f => fn_verb f = Some v') fns).
  { intros v' Hne. rewrite Hsplit, decide_False by congruence. apply app_nil_r. }
  assert (Hadd : filter (fun f => fn_verb f = Some v) (fns ++ [f]) = filter (fun f => fn_verb f = Some v) fns ++ [f]).
  { by rewrite Hsplit, decide_True by congruence. }
  destruct v.
  - destruct (forwarded_idents (fn_inputs f)) as [args|]; [|done]. injection Hl as <-. split; simpl; try done.
    + rewrite Hadd. apply Forall2_app; [done|]. constructor; [|done]. split; [done|]. split; [done|]. simpl. by rewrite Et.
    + by rewrite Hkeep.
    + exists fos. by rewrite Hkeep.
  - destruct (forwarded_idents (fn_inputs f)) as [args|]; [|done]. injection Hl as <-. split; simpl; try done.
    + by rewrite Hkeep.
    + rewrite Hadd. apply Forall2_app; [done|]. constructor; [|done]. split; [done|]. split; [done|]. simpl. by rewrite Et.
    + exists fos. by rewrite Hkeep.
  - destruct (field_method f (rg ++ mg)) as [[fo injected]|] eqn:Ef; [|done]. simpl in Hl. injection Hl as <-.
    apply field_method_spec in Ef as (Hname & Hguard & Hserv & Hin).
    split; simpl; try done.
    + by rewrite Hkeep.
    + by rewrite Hkeep.
    + exists (fos ++ [fo]). unfold all_fields. simpl. rewrite push_field_all. split; [by rewrite <- Hfp|].
      rewrite Hadd. apply Forall2_app; [done|]. constructor; [|done]. split; [done|]. split; [done|].
      split; [by rewrite Hguard, Et|done].
    + by apply push_field_groups.
    + intros p. rewrite elem_of_app, Hd, <- Hserv. unfold all_fields. simpl. setoid_rewrite push_field_all.
      setoid_rewrite elem_of_app. setoid_rewrite list_elem_of_singleton. naive_solver.
Qed.

Lemma resolver_impl_lowers use_guards fns lo : resolver_impl use_guards fns = Ok lo -> lowers (List.concat use_guards) fns lo.
Proof.
  unfold resolver_impl. destruct (take_use_guards use_guards) as [rg|] eqn:Et; [|done]. simpl.
  apply take_use_guards_concat in Et as <-.
  assert (Hgen : forall fns done st lo, lowers rg done st -> for_each (lower_fn rg) fns st = Ok lo -> lowers rg (done ++ fns) lo).
  { clear. induction fns as [|f fns IH]; intros done st lo Hst Hf; simpl in Hf; [injection Hf as <-; by rewrite app_nil_r|].
    destruct (lower_fn rg st f) as [st1|] eqn:E; [|done]. apply (lower_fn_lowers rg done f) in E; [|done].
    specialize (IH _ _ _ E Hf). by rewrite <- app_assoc in IH. }
  apply (Hgen fns [] _ lo). split; simpl.
  - constructor.
  - constructor.
  - by exists [].
  - by split; constructor.
  - intros p. split; [by left|]. intros [?|(f & ?%elem_of_nil & _)]; done.
  - intros p. split; [by intros ?%elem_of_nil|]. by intros (fo & ?%elem_of_nil & _).
Qed.

(** *** What running them does *)

(** [out] is what a body gives once the guards have passed, or the refusal of the first one that does not. *)
Definition guarded_run c ctx guards (body : W -> result (result Value GqlError * W) panic) w
    (out : result (result Value GqlError * W) panic) : Prop :=
  (exists w', passes c ctx guards w w' /\ out = body w') \/
  (exists e w', refused c ctx guards w e w' /\ out = Ok (Err e, w')).

Definition field_body c from_container (fo : field_operation) ctx w : result (result Value GqlError * W) panic :=
  let? deps := collect_results (bind_dep c ctx) (fo_deps fo) in
  let? resolver := from_container c in
  Ok (call_method (fo_name fo) resolver (omap (call_arg_value deps) (fo_call fo)) ctx w).

Lemma run_operation_guarded c ctx resolver op w : Forall (bound c) (op_guards op) ->
  guarded_run c ctx (op_guards op) (fun w' => Ok (call_method (op_name op) resolver (map CvArg (op_args op)) ctx w')) w
    (run_operation c resolver op ctx w).
Proof.
  intros Hb. unfold run_operation, guarded_run. destruct (guard_checks_cases c ctx _ w Hb) as [(w' & -> & Hp)|(e & w' & -> & Hr)].
  - left. by exists w'.
  - right. by exists e, w'.
Qed.

Lemma run_field_guarded c ctx from_container fo w : Forall (bound c) (fo_guards fo) ->
  guarded_run c ctx (fo_guards fo) (field_body c from_container fo ctx) w (run_field c from_container fo ctx w).
Proof.
  intros Hb. unfold run_field, guarded_run. destruct (guard_checks_cases c ctx _ w Hb) as [(w' & -> & Hp)|(e & w' & -> & Hr)].
  - left. by exists w'.
  - right. by exists e, w'.
Qed.

(** The guards of any lowered method are among those the block gathers. *)
Lemma method_guards_bound rg fns lo c f : lowers rg fns lo -> Forall (bound c) (lo_guards lo) ->
  f ∈ fns -> is_Some (fn_verb f) -> Forall (bound c) (rg ++ List.concat (fn_use_guards f)).
Proof.
  intros Hl Hb Hf Hv. rewrite Forall_forall in *. intros p Hp. apply Hb, (lw_guards _ _ _ Hl).
  apply elem_of_app in Hp as [Hp|Hp]; [by left|]. right. by exists f.
Qed.

(** [C27] Every method a resolver tags as an operation is one operation, of its kind, and runs under the
    guards of the resolver followed by its own: its body runs exactly when all of them pass, one after
    the other; otherwise the answer is the refusal of the first that does not, and neither the body nor a
    later guard runs.  The fields of the resolver are spread over its parents, one object per parent. *)
Theorem resolver_operations_run_guarded use_guards fns lo c ctx from_container resolver :
  resolver_impl use_guards fns = Ok lo -> Forall (bound c) (lo_guards lo) ->
  let ops v := filter (fun f => fn_verb f = Some v) fns in
  let guarded op f := op_name op = fn_name f /\ forall w,
    guarded_run c ctx (guards_of use_guards f) (fun w' => Ok (call_method (fn_name f) resolver (map CvArg (op_args op)) ctx w')) w
      (run_operation c resolver op ctx w) in
  Forall2 guarded (lo_queries lo) (ops VQuery) /\
  Forall2 guarded (lo_mutations lo) (ops VMutation) /\
  (exists fos, all_fields lo ≡ₚ fos /\ Forall2 (fun fo f => fo_name fo = fn_name f /\
     forall w, guarded_run c ctx (guards_of use_guards f) (field_body c from_container fo ctx) w (run_field c from_container fo ctx w)) fos (ops VField)) /\
  NoDup (map (fun g => token_text g.1) (lo_fields lo)) /\
  Forall (fun g : syn_type * list field_operation => Forall (fun fo => token_text (fo_parent fo) = token_text g.1) g.2) (lo_fields lo).
Proof.
  intros Hl%resolver_impl_lowers Hb ops guarded.
  assert (Hops : forall v l, Forall2 (is_op v (List.concat use_guards)) l (ops v) -> Forall2 guarded l (ops v)).
  { intros v l Hall. apply Forall2_same_length_lookup_2; [by eapply Forall2_length|]. intros i op f Hop Hf.
    pose proof (Forall2_lookup_lr _ _ _ _ _ _ Hall Hop Hf) as (Hv & Hn & Hg). split; [done|]. intros w.
    rewrite <- Hn. unfold guards_of. rewrite <- Hg. apply run_operation_guarded. rewrite Hg.
    apply list_elem_of_lookup_2, list_elem_of_filter in Hf as [_ Hf]. eapply method_guards_bound; [exact Hl|done|done|by eexists]. }
  split; [by apply Hops, Hl|]. split; [by apply Hops, Hl|]. split; [|apply Hl].
  destruct (lw_fields _ _ _ Hl) as (fos & Hp & Hall). exists fos. split; [done|].
  apply Forall2_same_length_lookup_2; [by eapply Forall2_length|]. intros i fo f Hfo Hf.
  pose proof (Forall2_lookup_lr _ _ _ _ _ _ Hall Hfo Hf) as (Hv & Hn & Hg & _). split; [done|]. intros w.
  unfold guards_of. rewrite <- Hg. apply run_field_guarded. rewrite Hg.
  apply list_elem_of_lookup_2, list_elem_of_filter in Hf as [_ Hf]. eapply method_guards_bound; [exact Hl|done|done|by eexists].
Qed.

(** *** The declared keys are enough *)

Hypothesis same_text : forall a b, token_text a = token_text b -> type_id a = type_id b.

(** Loaders of a field are those the request was seeded with. *)
Definition seeded ctx (fo : field_operation) : Prop := forall t, DepLoader t ∈ fo_deps fo -> is_Some (ctx_loader ctx (type_id t)).

Lemma bind_deps_ok c ctx fo : seeded ctx fo -> Forall (bound c) (services fo) ->
  exists vs, collect_results (bind_dep c ctx) (fo_deps fo) = Ok vs.
Proof.
  unfold seeded, services. intros Hs Hb. induction (fo_deps fo) as [|d deps IH]; simpl; [by eexists|].
  assert (Hd : exists v, bind_dep c ctx d = Ok v).
  { destruct d as [t|t msg]; simpl in *.
    - destruct (Hs t ltac:(left)) as [v ->]. by eexists.
    - apply Forall_cons in Hb as [[v Hv] _]. rewrite Hv. by eexists. }
  destruct Hd as [v ->]. simpl. destruct IH as [vs ->]; [| |by eexists].
  - intros t Ht. apply Hs. by right.
  - destruct d; simpl in Hb; [done|]. by apply Forall_cons in Hb as [_ ?].
Qed.

Lemma guarded_run_no_panic c ctx guards body w out : guarded_run c ctx guards body w out ->
  (forall w', exists r, body w' = Ok r) -> exists r, out = Ok r.
Proof. intros [(w' & _ & ->)|(e & w' & _ & ->)] Hb; [apply Hb|by eexists]. Qed.

(** What a resolver declares to the access contract covers all it looks up: with every key of its
    [injected] bound and the request's loaders seeded, its roots build and no operation or field of it
    panics for want of a guard, a service or an injected dependency. *)
Lemma resolver_declares_what_it_looks_up use_guards fns lo item body c ctx :
  resolver_impl use_guards fns = Ok lo -> build_injectable_body item = Ok body ->
  (forall k, k ∈ resolver_injected body lo -> is_Some (get k c)) ->
  Forall (seeded ctx) (all_fields lo) ->
  let from_container := eval_ctor (i_ident item) (ib_ctor body) in
  exists resolver, build_root from_container c = Ok resolver /\
    Forall (fun op => forall w, exists r, run_operation c resolver op ctx w = Ok r) (lo_queries lo ++ lo_mutations lo) /\
    Forall (fun fo => forall w, exists r, run_field c from_container fo ctx w = Ok r) (all_fields lo).
Proof.
  intros Hl%resolver_impl_lowers Hbody Hk Hseed from_container.
  assert (Hkeys : (forall k, k ∈ map type_id (ib_dep_keys body) -> is_Some (get k c)) /\
                  Forall (bound c) (lo_guards lo) /\ Forall (bound c) (lo_field_deps lo)).
  { unfold resolver_injected in Hk. setoid_rewrite elem_of_app in Hk. setoid_rewrite elem_of_app in Hk.
    split; [auto|]. split; apply Forall_forall; intros p Hp; apply Hk; right; [left|right]; apply (elem_of_layer_keys same_text); by exists p. }
  destruct Hkeys as (Hinj & Hg & Hdeps). destruct (eval_ctor_ok item body c Hbody Hinj) as [resolver Hr].
  exists resolver. split; [exact Hr|]. split.
  - assert (Hops : forall v l, Forall2 (is_op v (List.concat use_guards)) l (filter (fun f => fn_verb f = Some v) fns) ->
      Forall (fun op => forall w, exists r, run_operation c resolver op ctx w = Ok r) l).
    { intros v l Hall. apply Forall_lookup. intros i op Hop w. destruct (Forall2_lookup_l _ _ _ _ _ Hall Hop) as (f & Hf & Hv & _ & Hgo).
      eapply guarded_run_no_panic; [apply run_operation_guarded|by intros w'; eexists]. rewrite Hgo.
      apply list_elem_of_lookup_2, list_elem_of_filter in Hf as [_ Hf]. eapply method_guards_bound; [exact Hl|done|done|by eexists]. }
    apply Forall_app. split; eapply Hops, Hl.
  - destruct (lw_fields _ _ _ Hl) as (fos & Hp & Hall). apply Forall_forall. intros fo Hfo w.
    assert (Hin : fo ∈ fos) by (by rewrite <- Hp). apply list_elem_of_lookup in Hin as [i Hi].
    destruct (Forall2_lookup_l _ _ _ _ _ Hall Hi) as (f & Hf & Hv & _ & Hgo & _).
    eapply guarded_run_no_panic; [apply run_field_guarded|].
    + rewrite Hgo. apply list_elem_of_lookup_2, list_elem_of_filter in Hf as [_ Hf]. eapply method_guards_bound; [exact Hl|done|done|by eexists].
    + intros w'. unfold field_body. destruct (bind_deps_ok c ctx fo) as [vs ->].
      * rewrite Forall_forall in Hseed. by apply Hseed.
      * rewrite Forall_forall in *. intros p Hps. apply Hdeps, (lw_deps _ _ _ Hl). by exists fo.
      * simpl. unfold from_container. rewrite Hr. by eexists.
Qed.

End guarded.

(** ** A resolver *)

Module ResolverDemo.
Import CodegenDemo.
#[local] Existing Instance texts.

Definition ref_to (n : string) : arg_type := Reference (path n).
Definition posts_loader : syn_type := TyPath [PathSegment "dataloader" PathNone; PathSegment "DataLoader" (AngleBracketed [GType (path "PostsByUser")])].

(** [#[use_guards(Auth)] impl Users { #[query] fn users(&self, ctx: &Context<'_>),
    #[mutation] #[use_guards(Admin)] fn purge(&self, days: u32), #[field] fn posts(&self, user: &User,
    loader: &DataLoader<PostsByUser>, audit: &Audit, first: u32) }] *)
Definition users_fns : list impl_fn :=
  [ImplFn "users" (Some VQuery) [] [Receiver; Typed (Some "ctx") (ref_to "Context")];
   ImplFn "helper" None [] [Receiver];
   ImplFn "purge" (Some VMutation) [[path "Admin"]] [Receiver; Typed (Some "days") (Owned (path "u32"))];
   ImplFn "posts" (Some VField) [] [Receiver; Typed (Some "user") (ref_to "User"); Typed (Some "loader") (Reference posts_loader);
                                    Typed (Some "audit") (ref_to "Audit"); Typed (Some "first") (Owned (path "u32"))]].

Definition users_lowered : lowered :=
  match resolver_impl [[path "Auth"]] users_fns with Ok lo => lo | Err _ => Lowered [] [] [] [] [] end.

Example users_lower :
  map (fun op => (op_name op, op_ctx op, op_args op)) (lo_queries users_lowered) = [("users", Some "ctx", ["ctx"])] /\
  map (fun op => (op_name op, op_ctx op, op_args op)) (lo_mutations users_lowered) = [("purge", Some "__guard_ctx", ["days"])] /\
  map (fun fo => (fo_name fo, fo_gql_args fo, fo_call fo)) (all_fields users_lowered) = [("posts", ["first"], [CallDep 0; CallDep 1; CallArg "first"])] /\
  resolver_injected (InjectableBody CtorUnit [] [] []) users_lowered = [TNamed "Auth"; TNamed "Admin"; TNamed "Audit"].
Proof. by vm_compute. Qed.

(** The guard 1 lets everyone in, the guard 2 nobody; the world counts what ran. *)
#[export] Instance code : ResolverCode nat (list string) string string := {
  check_guard g ctx w := if Nat.eqb (g : nat) 2 then (Err "forbidden", w) else (Ok tt, w ++ ["guard"]);
  call_method m _ args _ w := (Ok m, w ++ [m]);
  ctx_loader _ t := Some (9 : @val Demo.payloads)
}.

Definition app : container :=
  build (apply_registrations [RProvide (TNamed "Auth") (1 : @val Demo.payloads); RProvide (TNamed "Admin") (2 : @val Demo.payloads);
                              RProvide (TNamed "Audit") (3 : @val Demo.payloads)] builder_new).

Lemma app_bound : Forall (bound app) (lo_guards users_lowered).
Proof. repeat (apply Forall_cons; split; [eexists; vm_compute; reflexivity|]). constructor. Qed.

(** [purge] is refused by its own guard after the resolver's let it pass. *)
Lemma resolver_operations_run_guarded_witness :
  exists op, lo_mutations users_lowered = [op] /\
    guarded_run app 0 [path "Auth"; path "Admin"] (fun w' => Ok (call_method "purge" 0 (map CvArg (op_args op)) 0 w')) []
      (run_operation app 0 op 0 []) /\
    run_operation app 0 op 0 [] = Ok (Err "forbidden", ["guard"]).
Proof.
  destruct (resolver_operations_run_guarded [[path "Auth"]] users_fns users_lowered app 0 (fun _ => Ok 0) 0 eq_refl app_bound)
    as (_ & Hm & _).
  destruct (lo_mutations users_lowered) as [|op ops] eqn:E; [by vm_compute in E|].
  apply Forall2_cons in Hm as [[_ Hop] Hops]. apply Forall2_length in Hops.
  exists op. assert (ops = []) as -> by (destruct ops; [done|by vm_compute in Hops]). split; [done|]. split.
  - exact (Hop []).
  - assert (Eop : op = default op (head (lo_mutations users_lowered))) by (by rewrite E). rewrite Eop. by vm_compute.
Defined.

Lemma resolver_declares_what_it_looks_up_witness :
  exists resolver, build_root (eval_ctor "Users" CtorUnit) app = Ok resolver /\
    Forall (fun fo => forall w, exists r, run_field app (eval_ctor "Users" CtorUnit) fo 0 w = Ok r) (all_fields users_lowered).
Proof.
  destruct (resolver_declares_what_it_looks_up texts_same [[path "Auth"]] users_fns users_lowered (ItemStruct "Users" FieldsUnit)
              (InjectableBody CtorUnit [] [] []) app 0 eq_refl eq_refl) as (resolver & Hr & _ & Hf).
  - assert (E : resolver_injected (InjectableBody CtorUnit [] [] []) users_lowered = [TNamed "Auth"; TNamed "Admin"; TNamed "Audit"]) by (by vm_compute).
    rewrite E. intros k Hk. rewrite !elem_of_cons, elem_of_nil in Hk.
    destruct Hk as [->|[->|[->|[]]]]; eexists; vm_compute; reflexivity.
  - apply Forall_forall. intros fo _ t _. by eexists.
  - by exists resolver.
Defined.

Example declaration_errors :
  resolver_impl [[path "A"]; [path "B"]] [] = Err AtMostOneUseGuards /\
  resolver_impl [] [ImplFn "f" (Some VField) [] [Receiver; Typed (Some "u") (Owned (path "User"))]] = Err ParentMustBeReference /\
  resolver_impl [] [ImplFn "q" (Some VQuery) [] [Receiver; Typed None (Owned (path "Path"))]] = Err ArgumentNotAnIdentifier.
Proof. done. Qed.

End ResolverDemo.
