(* ===== verification/GraphqlCrud.v ===== *)
(** The operations [#[crud]] generates on a GraphQL resolver ([nestrs-graphql-macros/src/crud.rs]), with
    the names they are given ([nestrs-codegen/src/crud.rs]), over the same service as the REST handlers
    of [Crud].

    The parsing of an id, the conversion to the output type and the text of a database error are the
    parameters of [CrudParts]; async-graphql hands over the arguments and the request's context, of
    which the operations read the ability. *)

From S2P Require Import Prelude Container Http OpenApi Codegen Authz Orm AuthzHttp Crud Graphql Resolver.

(** ** Names and selection *)

(** [singular_of], of the last segment of the output path. *)
Definition singular_of (output : list string) : string :=
  match last output with Some seg => to_ascii_lowercase seg | None => "item" end.

Inductive gql_op := OpList | OpGet | OpCreate | OpUpdate | OpDelete.

#[export] Instance gql_op_eq_dec : EqDecision gql_op.
Proof. solve_decision. Defined.

Definition op_ident (singular : string) (o : gql_op) : string :=
  match o with
  | OpList => singular +:+ "s"
  | OpGet => singular
  | OpCreate => "create_" +:+ singular
  | OpUpdate => "update_" +:+ singular
  | OpDelete => "delete_" +:+ singular
  end.

Definition gql_generated (cfg : crud_args) (output : list string) (existing : list string) : list gql_op :=
  let missing o := bool_decide (op_ident (singular_of output) o ∉ existing) in
  (if missing OpList then [OpList] else []) ++
  (if missing OpGet then [OpGet] else []) ++
  (if cr_readonly cfg then []
   else (if cr_create cfg && missing OpCreate then [OpCreate] else []) ++
        (if cr_update cfg && missing OpUpdate then [OpUpdate] else []) ++
        (if missing OpDelete then [OpDelete] else [])).

(** The method the macro synthesises, and the block it re-emits under [#[resolver]]. *)
Definition op_inputs (o : gql_op) : list fn_arg :=
  let ctx := Typed (Some "__ctx") (Reference (TyPath [PathSegment "nestrs_graphql" PathNone; PathSegment "async_graphql" PathNone; PathSegment "Context" PathNone])) in
  let id := Typed (Some "id") (Owned (TyPath [PathSegment "std" PathNone; PathSegment "string" PathNone; PathSegment "String" PathNone])) in
  let input := Typed (Some "input") (Owned (TyOther "input")) in
  match o with
  | OpList => [Receiver; ctx]
  | OpGet | OpDelete => [Receiver; ctx; id]
  | OpCreate => [Receiver; ctx; input]
  | OpUpdate => [Receiver; ctx; id; input]
  end.

Definition op_fn (output : list string) (o : gql_op) : impl_fn :=
  ImplFn (op_ident (singular_of output) o) (Some (match o with OpList | OpGet => VQuery | _ => VMutation end)) [] (op_inputs o).

Definition crud_expand (cfg : crud_args) (output : list string) (items : list impl_fn) : list impl_fn :=
  map (op_fn output) (gql_generated cfg output (map fn_name items)) ++ items.

(** ** The generated operations *)

Section operations.
Context {X W T : Type} `{Orm} `{!Serde} `{!Queries W T} `{!CrudParts X W T}.
Context (parse_id_text : string -> result Z string) (e : ty).

(** [gql_err], and the refusal of a by-id operation, which unlike [Graphql.forbidden] has no code. *)
Definition gql_err (err : db_err) : gql_error := GqlError (db_err_string err) None.
Definition op_forbidden : gql_error := GqlError "forbidden" None.

(** [parse_id]. *)
Definition parse_id (id : string) : result Z gql_error :=
  let? u := map_err (fun msg => GqlError msg None) (parse_id_text id) in
  if negb (uuid_version u =? 7)%Z then Err (GqlError "id must be a UUID v7" None) else Ok u.

(** The match on [access]; the outer [None] is a panic of the instance check. *)
Definition on_access {A} (a : action) (id : string) (missing : A) (env : ambient T) (w : W)
    (found : model -> W -> result A gql_error * W) : option (result A gql_error * W) :=
  match parse_id id with
  | Err err => Some (Err err, w)
  | Ok u =>
      match access e a u env w with
      | None => None
      | Some (Err err, w1) => Some (Err (gql_err err), w1)
      | Some (Ok (Found m), w1) => Some (found m w1)
      | Some (Ok Denied, w1) => Some (Err op_forbidden, w1)
      | Some (Ok Missing, w1) => Some (Ok missing, w1)
      end
  end.

Definition gql_list (ctx : option ability) (env : ambient T) (w : W) : result (list json) gql_error * W :=
  match authorize Read e ctx with
  | Err err => (Err err, w)
  | Ok _ =>
      let '(r, w1) := service_list e env w in
      match r with Err err => (Err (gql_err err), w1) | Ok rows => (Ok (map output rows), w1) end
  end.

Definition gql_get (id : string) (env : ambient T) (w : W) : option (result (option json) gql_error * W) :=
  on_access Read id None env w (fun m w1 => (Ok (Some (output m)), w1)).

Definition gql_create (input : create_input) (ctx : option ability) (env : ambient T) (w : W) : result json gql_error * W :=
  match authorize Create e ctx with
  | Err err => (Err err, w)
  | Ok _ =>
      let '(r, w1) := service_create e input env w in
      match r with Err err => (Err (gql_err err), w1) | Ok row => (Ok (output row), w1) end
  end.

Definition gql_update (id : string) (input : update_input) (env : ambient T) (w : W) : option (result (option json) gql_error * W) :=
  on_access Update id None env w (fun m w1 =>
    let '(r, w2) := service_update e m input env w1 in
    match r with Err err => (Err (gql_err err), w2) | Ok row => (Ok (Some (output row)), w2) end).

Definition gql_delete (id : string) (env : ambient T) (w : W) : option (result bool gql_error * W) :=
  on_access Delete id false env w (fun m w1 =>
    let '(r, w2) := service_delete e m env w1 in
    match r with Err err => (Err (gql_err err), w2) | Ok _ => (Ok true, w2) end).

End operations.

(** ** Which operations a block ends up with *)

Lemma string_length_app s t : String.length (s +:+ t) = (String.length s + String.length t)%nat.
Proof. induction s as [|c s IH]; [done|]. change (S (String.length (s +:+ t)) = S (String.length s + String.length t)). by rewrite IH. Qed.

Lemma op_ident_length singular o : String.length (op_ident singular o) =
  (String.length singular + match o with OpList => 1 | OpGet => 0 | _ => 7 end)%nat.
Proof. destruct o; unfold op_ident; rewrite ?string_length_app; simpl; lia. Qed.

#[export] Instance op_ident_inj singular : Inj (=) (=) (op_ident singular).
Proof.
  intros o o' E. pose proof (f_equal String.length E) as El. rewrite !op_ident_length in El.
  destruct o, o'; simpl in El; try lia; try done; simpl in E; congruence.
Qed.

Lemma elem_of_generated cfg output existing o : o ∈ gql_generated cfg output existing <->
  (op_ident (singular_of output) o ∉ existing) /\
  match o with
  | OpList | OpGet => True
  | OpCreate => cr_readonly cfg = false /\ cr_create cfg = true
  | OpUpdate => cr_readonly cfg = false /\ cr_update cfg = true
  | OpDelete => cr_readonly cfg = false
  end.
Proof.
  unfold gql_generated. rewrite !elem_of_app.
  assert (Hif : forall (b : bool) (x : gql_op), o ∈ (if b then [x] else []) <-> b = true /\ o = x).
  { intros [] x; [rewrite list_elem_of_singleton|rewrite elem_of_nil]; naive_solver. }
  rewrite !Hif, !bool_decide_eq_true. destruct (cr_readonly cfg).
  - rewrite elem_of_nil. destruct o; naive_solver.
  - rewrite !elem_of_app, !Hif, !andb_true_iff, !bool_decide_eq_true. destruct o; naive_solver.
Qed.

Lemma generated_nodup cfg output existing : NoDup (gql_generated cfg output existing).
Proof. unfold gql_generated. by repeat case_match; apply (bool_decide_unpack _); vm_compute. Qed.

(** The expanded block has every standard operation the configuration asks for exactly once, written by hand
    or generated, and keeps what was written by hand. *)
Lemma crud_expand_complete cfg output items : NoDup (map fn_name items) ->
  NoDup (map fn_name (crud_expand cfg output items)) /\
  (forall f, f ∈ items -> f ∈ crud_expand cfg output items) /\
  (forall o, o = OpList \/ o = OpGet \/ (cr_readonly cfg = false /\
       (o = OpDelete \/ (o = OpCreate /\ cr_create cfg = true) \/ (o = OpUpdate /\ cr_update cfg = true))) ->
     op_ident (singular_of output) o ∈ map fn_name (crud_expand cfg output items)).
Proof.
  intros Hnd. unfold crud_expand. rewrite map_app, map_map. simpl. split; [|split].
  - apply NoDup_app. split; [apply (NoDup_fmap_2 _), generated_nodup|]. split; [|done].
    intros x (o & -> & Ho)%list_elem_of_fmap. by apply elem_of_generated in Ho as [? _].
  - intros f Hf. apply elem_of_app. by right.
  - intros o Ho. apply elem_of_app. destruct (decide (op_ident (singular_of output) o ∈ map fn_name items)) as [Hin|Hout]; [by right|left].
    apply (list_elem_of_fmap_2 (op_ident (singular_of output))), elem_of_generated. split; [done|]. destruct o; naive_solver.
Qed.

(** ** What the operations do *)

Section properties.
Context {X W T : Type} `{SqlSemantics} `{!Serde} `{!Queries W T} `{!QuerySemantics W T} `{!CrudParts X W T}
  `{!Extension X ability}.
Variable parse_id_text : string -> result Z string.
Implicit Types (specs : list rule_spec) (ex : executor T) (req : request X) (w : W) (e : ty).

(** A by-id operation: an id that is refused, or what the access check says. *)
Lemma on_access_cases {A} ex specs e (a : action) id (missing : A) w found :
  (exists err, parse_id parse_id_text id = Err err /\
     on_access parse_id_text e a id missing (request_env ex specs) w found = Some (Err err, w)) \/
  (exists u r w1, parse_id parse_id_text id = Ok u /\ access e a u (request_env ex specs) w = Some (r, w1) /\
     (forall e', rows ex e' w1 = rows ex e' w) /\
     match r with
     | Ok (Found m) => m ∈ rows ex e w /\ row_id e m = u /\ can (define specs) a e m = Some true /\
         on_access parse_id_text e a id missing (request_env ex specs) w found = Some (found m w1)
     | Ok Denied => on_access parse_id_text e a id missing (request_env ex specs) w found = Some (Err op_forbidden, w1)
     | Ok Missing => on_access parse_id_text e a id missing (request_env ex specs) w found = Some (Ok missing, w1)
     | Err err => on_access parse_id_text e a id missing (request_env ex specs) w found = Some (Err (gql_err err), w1)
     end).
Proof.
  unfold on_access. destruct (parse_id parse_id_text id) as [u|err]; [|left; by exists err].
  right. destruct (access_spec ex specs e a u w) as (r & w1 & Ha & Hr & Ho).
  exists u, r, w1. rewrite Ha. split; [done|]. split; [done|]. split; [done|].
  destruct r as [[m| |]|err]; try done. by destruct (Ho _ eq_refl) as (? & ? & ?).
Qed.

(** An answer about a row that exists and the caller is granted [a] on, or nothing changed. *)
Definition granted_or_unchanged {A} ex specs e (a : action) (id : string) w (positive : A -> Prop)
    (o : option (result A gql_error * W)) : Prop :=
  exists r w', o = Some (r, w') /\
    match r with
    | Ok x => positive x ->
        exists u m, parse_id parse_id_text id = Ok u /\ m ∈ rows ex e w /\ row_id e m = u /\ can (define specs) a e m = Some true
    | Err _ => True
    end /\
    (match r with Ok x => ~ positive x | Err _ => True end -> forall e', rows ex e' w' = rows ex e' w).

Lemma on_access_granted {A} ex specs e (a : action) id (missing : A) w found (positive : A -> Prop) :
  ~ positive missing ->
  (forall m w1, let '(r, w2) := found m w1 in
     match r with Ok x => positive x | Err _ => forall e', rows ex e' w2 = rows ex e' w1 end) ->
  granted_or_unchanged ex specs e a id w positive (on_access parse_id_text e a id missing (request_env ex specs) w found).
Proof.
  intros Hmiss Hfound. unfold granted_or_unchanged.
  destruct (on_access_cases ex specs e a id missing w found) as [(err & _ & ->)|(u & r & w1 & Hp & _ & Hw & Hr)].
  { by eexists _, _. }
  destruct r as [[m| |]|err].
  - destruct Hr as (Hin & Hid & Hc & ->). specialize (Hfound m w1). destruct (found m w1) as [[x|err] w2].
    + eexists _, _. split; [done|]. split; [by intros _; exists u, m|done].
    + eexists _, _. split; [done|]. split; [done|]. intros _ e'. by rewrite Hfound.
  - rewrite Hr. by eexists _, _.
  - rewrite Hr. by eexists _, _.
  - rewrite Hr. by eexists _, _.
Qed.

(** [C24] The generated GraphQL operations act on granted rows only. A listing changes nothing and has
    exactly the rows of the table that the pre-filter of the caller selects, each once: each of them is one
    the caller may read where its rules are well typed on it, and every row it may read is among them where
    besides no rule compares a NULL of it. A get, update or delete that answers with a row, or [true], is
    about a row, named by a UUID v7, that the caller is granted that action on; any other answer leaves every
    table as it was, and none of them panics. A listing or a creation for which no rule of the caller grants
    the action is refused without a query. *)
Theorem graphql_crud_needs_a_grant ex specs e w :
  let env := request_env ex specs in
  let ctx := Some (define specs) in
  (let '(r, w') := gql_list e ctx env w in
   (forall e', rows ex e' w' = rows ex e' w) /\
   forall outs, r = Ok outs -> exists ms, outs = map output ms /\
     ms ≡ₚ filter (selects (condition_for (define specs) Read e)) (rows ex e w) /\
     (forall m, m ∈ ms -> well_typed specs Read e m -> can (define specs) Read e m = Some true) /\
     (forall m, m ∈ rows ex e w -> can (define specs) Read e m = Some true -> well_typed specs Read e m ->
        (forall s, relevant specs Read e s -> definite m (rs_predicate s) = true) -> m ∈ ms)) /\
  (forall id, granted_or_unchanged ex specs e Read id w is_Some (gql_get parse_id_text e id env w)) /\
  (forall id input, granted_or_unchanged ex specs e Update id w is_Some (gql_update parse_id_text e id input env w)) /\
  (forall id, granted_or_unchanged ex specs e Delete id w (fun b => b = true) (gql_delete parse_id_text e id env w)) /\
  ((~ exists r, relevant specs Read e r /\ rs_inverted r = false) -> gql_list e ctx env w = (Err forbidden, w)) /\
  ((~ exists r, relevant specs Create e r /\ rs_inverted r = false) -> forall input, gql_create e input ctx env w = (Err forbidden, w)).
Proof.
  intros env ctx. unfold gql_list, gql_create, authorize, ctx. simpl.
  assert (Hno : forall a, (~ exists r, relevant specs a e r /\ rs_inverted r = false) -> can_class (define specs) a e = false).
  { intros a Hn. apply not_true_is_false. intros Hc%can_class_define. by apply Hn. }
  split; [|split; [|split; [|split; [|split]]]].
  - destruct (can_class (define specs) Read e); [|by split].
    unfold service_list. pose proof (repo_all_unchanged ex specs e w) as Hr. fold env in Hr.
    destruct (repo_all e env w) as [[ms|err] w1] eqn:Eq; (split; [exact Hr|]); [|done]. intros outs [= <-].
    exists ms. apply repo_all_granted in Eq as [Hms Hc]. rewrite Forall_forall in Hc. split_and!; [done..|].
    intros m Hin Hcan Ht Hd. rewrite Hms. apply list_elem_of_filter. split; [|done].
    by apply prefilter_agrees_without_nulls.
  - intros id. apply on_access_granted; [by intros [? ?]|]. by intros m w1.
  - intros id input. apply on_access_granted; [by intros [? ?]|]. intros m w1.
    pose proof (service_update_gated ex specs e m input w1) as Hu. unfold env.
    destruct (service_update e m input _ w1) as [[row|err] w2]; [done|exact Hu].
  - intros id. apply on_access_granted; [done|]. intros m w1.
    pose proof (service_delete_gated ex specs e m w1) as Hd. unfold env.
    destruct (service_delete e m _ w1) as [[[]|err] w2]; [done|exact Hd].
  - intros Hn. by rewrite Hno.
  - intros Hn input. by rewrite Hno.
Qed.

(** *** The two surfaces *)

(** The same outcome on both: [row] relates the two answers about a row that was acted on. *)
Inductive same_outcome {A} (missing : A) (row : response -> A -> Prop) : result response http_error -> result A gql_error -> Prop :=
| same_row resp x : row resp x -> same_outcome missing row (Ok resp) (Ok x)
| same_denied : same_outcome missing row (Err (error_from_status 403)) (Err op_forbidden)
| same_missing : same_outcome missing row (Err (error_from_status 404)) (Ok missing)
| same_version : same_outcome missing row (Err (error_from_string "path id must be a UUID v7" 400)) (Err (GqlError "id must be a UUID v7" None))
| same_failure err : same_outcome missing row (Err (internal err)) (Err (gql_err err)).

Lemma with_access_same {A} ex specs e (a : action) u id (missing : A) row w found_rest found :
  parse_id_text id = Ok u ->
  (forall m w1, let '(r, w2) := found_rest m w1 in let '(g, w3) := found m w1 in w3 = w2 /\ same_outcome missing row r g) ->
  let '(r, w') := match id_v7_check u with
                  | Err err => (Err err, w)
                  | Ok _ => with_access e a u (request_env ex specs) w found_rest
                  end in
  exists g, on_access parse_id_text e a id missing (request_env ex specs) w found = Some (g, w') /\ same_outcome missing row r g.
Proof.
  intros Hid Hfound. unfold on_access, parse_id, with_access, id_v7_check. rewrite Hid. simpl.
  destruct (negb (uuid_version u =? 7)%Z); simpl; [eexists; split; [done|constructor]|].
  destruct (access_spec ex specs e a u w) as (r & w1 & -> & _ & _).
  destruct r as [[m| |]|err]; [|eexists; split; [done|constructor]..].
  specialize (Hfound m w1). destruct (found_rest m w1) as [r w2], (found m w1) as [g w3]. destruct Hfound as [-> Hs]. by exists g.
Qed.

(** The mask around a method touches the answers about a row, and no other outcome. *)
Lemma route_same {A} ex specs e (a : action) h req w (missing : A) (row masked_row : response -> A -> Prop) found :
  ext_get req = Some (define specs) ->
  (forall resp x, row resp x -> forall masked, mask_response (define specs) a e resp = Some masked -> masked_row masked x) ->
  (let '(r, w') := h (request_env ex specs) req w in
   exists g, found = Some (g, w') /\ same_outcome missing row r g) ->
  let '(r, w') := generated_route e a h (request_env ex specs) req w in
  exists g, found = Some (g, w') /\ same_outcome missing masked_row r g.
Proof.
  intros Hab Hrow. pose proof (generated_route_run ex specs e a h req w Hab) as Hr.
  destruct (h (request_env ex specs) req w) as [[resp|err] w']; intros (g & Hg & Hs).
  - destruct Hr as (masked & Hm & ->). exists g. split; [done|]. inversion Hs; subst. constructor. by eapply Hrow.
  - rewrite Hr. exists g. split; [done|]. inversion Hs; subst; constructor.
Qed.

(** [C30] GraphQL and REST decide alike: for a caller some rule grants the action on the entity, an id both
    surfaces read as the same number and an input the REST pipe accepts, the generated get, update and delete
    of the two surfaces make the same changes to the tables, before the request's transaction is settled, and
    have the same outcome (the row, a refusal, an absence, an invalid id, a database failure). What differs
    is how the row is told: GraphQL answers its output as it is, the REST route what the caller's response
    mask makes of it, which is the fixed 500 answer when the output does not read back as a row, and then the
    transaction of the REST request rolls the write back. The REST gate that refuses a caller without any
    such rule before looking has no counterpart in the GraphQL operations, and the pipe that validates an
    input has none either. *)
Theorem graphql_crud_agrees_with_rest ex specs e req id u w :
  ext_get req = Some (define specs) -> extract_id req = Ok u -> parse_id_text id = Ok u ->
  let env := request_env ex specs in
  let grants a := exists r, relevant specs a e r /\ rs_inverted r = false in
  let is_row a resp x := exists m, x = Some (output m) /\
    mask_response (define specs) a e (answer_json (output m)) = Some resp in
  (grants Read -> let '(r, w') := crud_get e env req w in
     exists g, gql_get parse_id_text e id env w = Some (g, w') /\ same_outcome None (is_row Read) r g) /\
  (grants Update -> forall input, valid_from_request extract_update validate_update req = Ok input ->
     let '(r, w') := crud_update e env req w in
     exists g, gql_update parse_id_text e id input env w = Some (g, w') /\ same_outcome None (is_row Update) r g) /\
  (grants Delete -> let '(r, w') := crud_delete e env req w in
     exists g, gql_delete parse_id_text e id env w = Some (g, w') /\
       same_outcome false (fun resp x => x = true /\ resp = Response 204 None [] "") r g).
Proof.
  intros Hab Hext Hid env grants is_row.
  assert (Hgate : forall a body, grants a -> gated a e body env req w = body env req w).
  { intros a body Hg. rewrite (gated_cases a e body env req w _ Hab). by rewrite (proj2 (can_class_define specs a e) Hg). }
  split; [|split].
  - intros Hg. apply (route_same ex specs e Read _ req w None (fun resp x => exists m, x = Some (output m) /\ resp = answer_json (output m)));
      [done|by intros ? ? (m & -> & ->); by exists m|].
    unfold get_handler. fold env. rewrite (Hgate _ _ Hg), Hext. apply (with_access_same ex specs e Read u id); [done|].
    intros m w1. split; [done|]. constructor. by exists m.
  - intros Hg input Hin. apply (route_same ex specs e Update _ req w None (fun resp x => exists m, x = Some (output m) /\ resp = answer_json (output m)));
      [done|by intros ? ? (m & -> & ->); by exists m|].
    unfold update_handler. fold env. rewrite (Hgate _ _ Hg), Hext, Hin. apply (with_access_same ex specs e Update u id); [done|].
    intros m w1. unfold env. destruct (service_update e m input _ w1) as [[row|err] w2]; split; try done; constructor. by exists row.
  - intros Hg. apply (route_same ex specs e Delete _ req w false (fun resp x => x = true /\ resp = Response 204 None [] ""));
      [done|by intros ? ? [-> ->] ? [= <-]|].
    unfold delete_handler. fold env. rewrite (Hgate _ _ Hg), Hext. apply (with_access_same ex specs e Delete u id); [done|].
    intros m w1. unfold env. destruct (service_delete e m _ w1) as [[[]|err] w2]; split; try done; by constructor.
Qed.

(** The two differences.  Without a grant the GraphQL operations still look the row up, and answer a missing
    one otherwise than one that is refused; and an input is not validated. *)
Lemma graphql_get_reveals_existence ex e id u w :
  parse_id_text id = Ok u -> uuid_version u = 7%Z -> conn (T:=T) (request_env ex []) = Ok ex ->
  forall r w1, access e Read u (request_env ex []) w = Some (r, w1) ->
    (r = Ok Missing -> gql_get parse_id_text e id (request_env ex []) w = Some (Ok None, w1)) /\
    (r = Ok Denied -> gql_get parse_id_text e id (request_env ex []) w = Some (Err op_forbidden, w1)).
Proof.
  intros Hid Hv _ r w1 Ha. unfold gql_get, on_access, parse_id. rewrite Hid. simpl. rewrite Hv. simpl. rewrite Ha.
  split; by intros ->.
Qed.

End properties.

(** ** The users of the demo *)

Module GraphqlCrudDemo.
#[local] Existing Instance CodegenDemo.texts.
Import AuthzDemo OrmDemo AuthzHttpDemo CrudDemo.

(** An id is its decimal text. *)
Definition id_text (id : string) : result Z string :=
  match parse_u64 id with Some u => Ok u | None => Err "invalid character" end.

(** Both surfaces delete row 1, of the caller's organisation, and refuse row 2, of another. *)
Lemma graphql_crud_agrees_with_rest_witness :
  (let '(r, w') := crud_delete users (request_env Pool rules) (call "1" "") start in
   exists g, gql_delete id_text users "1" (request_env Pool rules) start = Some (g, w') /\ r = Ok (Response 204 None [] "") /\ g = Ok true) /\
  (let '(r, w') := crud_delete users (request_env Pool rules) (call "2" "") start in
   exists g, gql_delete id_text users "2" (request_env Pool rules) start = Some (g, w') /\
     r = Err (error_from_status 403) /\ g = Err op_forbidden).
Proof.
  assert (Hg : exists r, relevant rules Delete users r /\ rs_inverted r = false).
  { exists own_rows. split; [split; [left|split; [done|by right]]|done]. }
  split.
  - pose proof (proj2 (proj2 (graphql_crud_agrees_with_rest id_text Pool rules users (call "1" "") "1" 1%Z start eq_refl eq_refl eq_refl)) Hg) as Hs.
    destruct (crud_delete _ _ _ _) as [r w'] eqn:E. vm_compute in E. injection E as <- <-.
    destruct Hs as (g & Hd & Hs). exists g. split; [exact Hd|]. split; [done|].
    assert (Ed : (fst <$> gql_delete id_text users "1" (request_env Pool rules) start) = Some (Ok true)) by (by vm_compute).
    rewrite Hd in Ed. by injection Ed.
  - pose proof (proj2 (proj2 (graphql_crud_agrees_with_rest id_text Pool rules users (call "2" "") "2" 2%Z start eq_refl eq_refl eq_refl)) Hg) as Hs.
    destruct (crud_delete _ _ _ _) as [r w'] eqn:E. vm_compute in E. injection E as <- <-.
    destruct Hs as (g & Hd & Hs). exists g. split; [exact Hd|]. split; [done|].
    assert (Ed : (fst <$> gql_delete id_text users "2" (request_env Pool rules) start) = Some (Err op_forbidden)) by (by vm_compute).
    rewrite Hd in Ed. by injection Ed.
Defined.

(** A caller with no rule tells a row that exists from one that does not, which the REST gate hides. *)
Example existence_is_told :
  let env := request_env Pool [] in
  let anonymous id := ext_insert (define []) (Request GET "/users" [] [("id", id)] "" ∅) in
  (fst <$> gql_get id_text users "2" env start) = Some (Err op_forbidden) /\
  (fst <$> gql_get id_text users "77" env start) = Some (Ok None) /\
  fst (crud_get users env (anonymous "2") start) = fst (crud_get users env (anonymous "77") start).
Proof. split; [|split]; by vm_compute. Qed.

(** The service inserts what the validation of the REST pipe rejects. *)
Example graphql_input_is_not_validated :
  let unnamed : row := [("id", Some 9%Z)] in
  validate_create unnamed = Err None /\
  (gql_create users unnamed (Some (define rules)) (request_env Pool rules) start).1 = Ok (output unnamed).
Proof. split; by vm_compute. Qed.

(** [User] has the standard names; a helper method that happens to have one of them is kept and no
    operation replaces it: the schema has no [user] query. *)
Example helper_suppresses_an_operation :
  let cfg := CrudArgs true true true in
  map fn_name (crud_expand cfg ["crate"; "User"] [ImplFn "user" None [] [Receiver]]) = ["users"; "user"] /\
  map op_name (lo_queries (match resolver_impl [] (crud_expand cfg ["crate"; "User"] [ImplFn "user" None [] [Receiver]]) with
                           | Ok lo => lo | Err _ => Lowered [] [] [] [] [] end)) = ["users"].
Proof. split; by vm_compute. Qed.

End GraphqlCrudDemo.
