(* ===== verification/Resource.v ===== *)
(** The [#[expose]] attribute ([nestrs-resource-macros]): its grammar on a SeaORM entity, the output object
    with its conversion from a row, the input types of a creation and an update, and the conversions of an
    input to the [ActiveModel] that [CrudService] writes.

    syn's tokens are represented by the pieces the parser looks at; the text of a UUID, a fresh UUID v7, the
    default [ActiveModel] and the deserialization of one value are parameters.  A column is named by its
    identifier. *)

From stdpp Require Import functions.
From S2P Require Import Prelude Container Codegen.

(** ** The attributes of an entity ([attr.rs]) *)

(** One meta of [#[sea_orm(..)]]: a word, [word = expr] and whether the expression parses, or a list. *)
Inductive sea_meta := SeaWord (p : string) | SeaAssign (p : string) (parses : bool) | SeaList (p : string).

Definition sea_path (m : sea_meta) : string := match m with SeaWord p | SeaAssign p _ | SeaList p => p end.

(** One option of a field's [#[expose(..)]]. *)
Inductive field_option := FoSkip | FoInput (kinds : list string) | FoValidate (body : string) | FoUnknown (p : string).

Inductive field_attr := SeaOrm (metas : list sea_meta) | ExposeField (options : list field_option) | OtherAttr (tokens : string).

Record entity_field := EntityField { ef_ident : string; ef_ty : syn_type; ef_attrs : list field_attr }.

Inductive entity_fields := NamedFields (l : list entity_field) | UnnamedFields.

(** One option of the attribute itself; a name that is not a string literal is [None]. *)
Inductive expose_option := EoName (lit : option string) | EoComplex | EoPaginate | EoUnknown (p : string).

Inductive expose_error :=
| UnknownOption
| NameNotLiteral
| NameRequired
| NeedsNamedFields
| ExpectedCreateOrUpdate
| UnknownFieldOption
| SkipCannotBeInput (ident : string).

Record resource_field := ResourceField {
  rf_ident : string;
  rf_ty : syn_type;
  rf_skip : bool;
  rf_in_create : bool;
  rf_in_update : bool;
  rf_is_pk : bool;
  rf_validate : list string
}.

Definition in_output (f : resource_field) : bool := negb (rf_skip f).

Record resource_model := ResourceModel {
  rm_output_ident : string;
  rm_create_input_ident : string;
  rm_update_input_ident : string;
  rm_page_ident : string;
  rm_fields : list resource_field;
  rm_complex : bool;
  rm_paginate : bool
}.

(** The loop of [parse_nested_meta] over one [#[sea_orm(..)]]: the callback flags the key, then consumes a
    value; a value that does not parse, or an argument list, ends the loop, and the error is ignored. *)
Fixpoint sea_is_pk (metas : list sea_meta) (is_pk : bool) : bool :=
  match metas with
  | [] => is_pk
  | m :: rest =>
      let is_pk := String.eqb (sea_path m) "primary_key" || is_pk in
      match m with
      | SeaWord _ | SeaAssign _ true => sea_is_pk rest is_pk
      | SeaAssign _ false | SeaList _ => is_pk
      end
  end.

Definition attr_is_pk (is_pk : bool) (a : field_attr) : bool :=
  match a with SeaOrm metas => sea_is_pk metas is_pk | _ => is_pk end.

(** The mutable locals of the loop over the fields. *)
Record flags := Flags { fl_skip : bool; fl_create : bool; fl_update : bool; fl_validate : list string }.

Definition input_kind (st : flags) (k : string) : result flags expose_error :=
  if String.eqb k "create" then Ok (Flags (fl_skip st) true (fl_update st) (fl_validate st))
  else if String.eqb k "update" then Ok (Flags (fl_skip st) (fl_create st) true (fl_validate st))
  else Err ExpectedCreateOrUpdate.

Definition field_option_step (st : flags) (o : field_option) : result flags expose_error :=
  match o with
  | FoSkip => Ok (Flags true (fl_create st) (fl_update st) (fl_validate st))
  | FoInput kinds => for_each input_kind kinds st
  | FoValidate body => Ok (Flags (fl_skip st) (fl_create st) (fl_update st) (fl_validate st ++ [body]))
  | FoUnknown _ => Err UnknownFieldOption
  end.

Definition attr_flags (st : flags) (a : field_attr) : result flags expose_error :=
  match a with ExposeField options => for_each field_option_step options st | _ => Ok st end.

Definition parse_field (f : entity_field) : result resource_field expose_error :=
  let is_pk := foldl attr_is_pk false (ef_attrs f) in
  let? fl := for_each attr_flags (ef_attrs f) (Flags false false false []) in
  if fl_skip fl && (fl_create fl || fl_update fl) then Err (SkipCannotBeInput (ef_ident f))
  else Ok (ResourceField (ef_ident f) (ef_ty f) (fl_skip fl) (fl_create fl) (fl_update fl) is_pk (fl_validate fl)).

(** The fields as the ORM's macros see them. *)
Definition strip_field (f : entity_field) : entity_field :=
  EntityField (ef_ident f) (ef_ty f) (List.filter (fun a => match a with ExposeField _ => false | _ => true end) (ef_attrs f)).

Record expose_args := ExposeArgs { ea_name : option string; ea_complex : bool; ea_paginate : bool }.

Definition expose_option_step (st : expose_args) (o : expose_option) : result expose_args expose_error :=
  match o with
  | EoName (Some lit) => Ok (ExposeArgs (Some lit) (ea_complex st) (ea_paginate st))
  | EoName None => Err NameNotLiteral
  | EoComplex => Ok (ExposeArgs (ea_name st) true (ea_paginate st))
  | EoPaginate => Ok (ExposeArgs (ea_name st) (ea_complex st) true)
  | EoUnknown _ => Err UnknownOption
  end.

(** [attr::parse]; a name is an identifier. *)
Definition parse (args : list expose_option) (item : entity_fields)
  : result (resource_model * list entity_field) expose_error :=
  let? ea := for_each expose_option_step args (ExposeArgs None false false) in
  let? name := ok_or (ea_name ea) NameRequired in
  match item with
  | UnnamedFields => Err NeedsNamedFields
  | NamedFields l =>
      let? fields := collect_results parse_field l in
      Ok (ResourceModel name ("Create" +:+ name +:+ "Input") ("Update" +:+ name +:+ "Input") (name +:+ "Page")
            fields (ea_complex ea) (ea_paginate ea), map strip_field l)
  end.

Definition is_uuid (t : syn_type) : bool :=
  match t with TyPath segs => bool_decide (seg_ident <$> last segs = Some "Uuid") | _ => false end.

(** ** What is emitted *)

(** A column of an [ActiveModel]. *)
Inductive active_value (V : Type) := Set_ (v : V) | Unchanged (v : V) | NotSet.
Arguments Set_ {V} v.
Arguments Unchanged {V} v.
Arguments NotSet {V}.

Inductive output_type := OutString | OutNative (t : syn_type).

Section emitted.
Context {V : Type}.
Context (uuid_text : V -> V).                              (* the [ToString] of a [Uuid] *)
Context (active_default : string -> active_value V).       (* [<ActiveModel as Default>::default] *)

(** [dto::emit]: the declarations of the output object, and [From<&Model>]. *)
Definition output_decls (rm : resource_model) : list (string * output_type) :=
  map (fun f => (rf_ident f, if is_uuid (rf_ty f) then OutString else OutNative (rf_ty f)))
    (List.filter in_output (rm_fields rm)).

Definition output_from (rm : resource_model) (row : string -> V) : list (string * V) :=
  map (fun f => (rf_ident f, if is_uuid (rf_ty f) then uuid_text (row (rf_ident f)) else row (rf_ident f)))
    (List.filter in_output (rm_fields rm)).

(** [input_struct]: its fields with their validations; nothing when there is none. *)
Definition input_struct (rm : resource_model) (include : resource_field -> bool) : option (list resource_field) :=
  match List.filter include (rm_fields rm) with [] => None | fields => Some fields end.

(** One setter: [__am.name = Set(self.name)]; [self] has every field of its struct. *)
Definition setter (self : gmap string V) (am : string -> active_value V) (f : resource_field) : string -> active_value V :=
  match self !! rf_ident f with Some v => <[rf_ident f := Set_ v]> am | None => am end.

(** [emit_create]; [now] is the [Uuid::now_v7()] of the call. *)
Definition emit_create (rm : resource_model) : option (V -> gmap string V -> string -> active_value V) :=
  match List.filter (fun f => rf_in_create f && negb (rf_is_pk f)) (rm_fields rm) with
  | [] => None
  | setters => Some (fun now self =>
      let am :=
        match List.find rf_is_pk (rm_fields rm) with
        | Some pk => if is_uuid (rf_ty pk) then <[rf_ident pk := Set_ now]> active_default else active_default
        | None => active_default
        end in
      foldl (setter self) am setters)
  end.

(** [emit_update]. *)
Definition emit_update (rm : resource_model) : option (gmap string V -> (string -> active_value V) -> string -> active_value V) :=
  match List.filter rf_in_update (rm_fields rm) with
  | [] => None
  | setters => Some (fun self am => foldl (setter self) am setters)
  end.

(** The derived [Deserialize] of an input struct.  Of an object: a member that is no field is ignored, one that
    comes twice is an error, and the type of a field decides whether it may be missing.  Of an array: one
    element for each field, in order, none missing and none left. *)
Context (de_value : syn_type -> json -> option V) (de_missing : syn_type -> option V).

Definition de_member (fields : list resource_field) (self : gmap string V) (kv : string * json) : result (gmap string V) string :=
  match List.find (fun f => String.eqb (rf_ident f) kv.1) fields with
  | None => Ok self
  | Some f =>
      match self !! kv.1 with
      | Some _ => Err ("duplicate field `" +:+ kv.1 +:+ "`")
      | None => let? v := ok_or (de_value (rf_ty f) kv.2) "invalid value" in Ok (<[kv.1 := v]> self)
      end
  end.

Definition de_absent (self : gmap string V) (f : resource_field) : result (gmap string V) string :=
  match self !! rf_ident f with
  | Some _ => Ok self
  | None => let? v := ok_or (de_missing (rf_ty f)) ("missing field `" +:+ rf_ident f +:+ "`") in Ok (<[rf_ident f := v]> self)
  end.

Fixpoint de_elements (fields : list resource_field) (elements : list json) (self : gmap string V) : result (gmap string V) string :=
  match fields, elements with
  | [], [] => Ok self
  | [], _ :: _ => Err "trailing characters"
  | _ :: _, [] => Err "invalid length"
  | f :: fields', j :: elements' =>
      let? v := ok_or (de_value (rf_ty f) j) "invalid value" in de_elements fields' elements' (<[rf_ident f := v]> self)
  end.

Definition deserialize_input (fields : list resource_field) (body : json) : result (gmap string V) string :=
  match body with
  | JObject members => let? self := for_each (de_member fields) members ∅ in for_each de_absent fields self
  | JArray elements => de_elements fields elements ∅
  | _ => Err "invalid type"
  end.

(** The bodies of the requests to create and to update. *)
Definition create_from (rm : resource_model) (now : V) (body : json) : option (result (string -> active_value V) string) :=
  fields ← input_struct rm rf_in_create; into ← emit_create rm;
  Some (let? self := deserialize_input fields body in Ok (into now self)).

Definition update_from (rm : resource_model) (body : json) (am : string -> active_value V)
  : option (result (string -> active_value V) string) :=
  fields ← input_struct rm rf_in_update; apply ← emit_update rm;
  Some (let? self := deserialize_input fields body in Ok (apply self am)).

End emitted.

(** ** What a field's attributes ask for *)

(** A flag that each step of a loop may only raise. *)
Lemma for_each_flag {X S E} (body : S -> X -> result S E) (flag : S -> bool) (raises : X -> Prop) :
  (forall s x s', body s x = Ok s' -> flag s' = true <-> flag s = true \/ raises x) ->
  forall l s s', for_each body l s = Ok s' -> flag s' = true <-> flag s = true \/ Exists raises l.
Proof.
  intros Hb l. induction l as [|x l IH]; intros s s' Hf; simpl in Hf.
  - injection Hf as <-. rewrite Exists_nil. tauto.
  - destruct (body s x) as [s1|] eqn:E1; [|done]. simpl in Hf. rewrite (IH _ _ Hf), (Hb _ _ _ E1), Exists_cons. tauto.
Qed.

(** Some [#[expose(..)]] of the field has such an option. *)
Definition asks (attrs : list field_attr) (P : field_option -> Prop) : Prop :=
  Exists (fun a => match a with ExposeField options => Exists P options | _ => False end) attrs.

Definition is_skip (o : field_option) : Prop := o = FoSkip.
Definition is_input (kind : string) (o : field_option) : Prop := match o with FoInput kinds => Exists (fun k => k = kind) kinds | _ => False end.

Lemma attr_flag (flag : flags -> bool) (P : field_option -> Prop) :
  (forall s o s', field_option_step s o = Ok s' -> flag s' = true <-> flag s = true \/ P o) ->
  forall attrs s s', for_each attr_flags attrs s = Ok s' -> flag s' = true <-> flag s = true \/ asks attrs P.
Proof.
  intros Hs. apply for_each_flag. intros s a s' Ha. destruct a as [metas|options|t]; simpl in Ha.
  - injection Ha as <-. tauto.
  - exact (for_each_flag _ flag P Hs _ _ _ Ha).
  - injection Ha as <-. tauto.
Qed.

Lemma input_kind_flags s k s' : input_kind s k = Ok s' ->
  fl_skip s' = fl_skip s /\ (fl_create s' = true <-> fl_create s = true \/ k = "create") /\
  (fl_update s' = true <-> fl_update s = true \/ k = "update").
Proof.
  unfold input_kind. destruct (String.eqb_spec k "create") as [->|]; [|destruct (String.eqb_spec k "update") as [->|]; [|done]];
    intros [= <-]; simpl; naive_solver.
Qed.

Lemma option_step_flags s o s' : field_option_step s o = Ok s' ->
  (fl_skip s' = true <-> fl_skip s = true \/ is_skip o) /\
  (fl_create s' = true <-> fl_create s = true \/ is_input "create" o) /\
  (fl_update s' = true <-> fl_update s = true \/ is_input "update" o).
Proof.
  destruct o as [|kinds|body|p]; simpl; [intros [= <-]; unfold is_skip; naive_solver| |intros [= <-]; unfold is_skip; naive_solver|done].
  intros Hk. split; [|split].
  - assert (Hs : fl_skip s' = fl_skip s).
    { revert s Hk. induction kinds as [|k kinds IH]; intros s Hk; simpl in Hk; [by injection Hk as <-|].
      destruct (input_kind s k) as [s1|] eqn:E1; [|done]. rewrite (IH _ Hk). by apply input_kind_flags in E1 as [-> _]. }
    rewrite Hs. unfold is_skip. naive_solver.
  - refine (for_each_flag _ fl_create (fun k => k = "create") _ _ _ _ Hk). intros ??? He. by apply input_kind_flags in He as (_ & ? & _).
  - refine (for_each_flag _ fl_update (fun k => k = "update") _ _ _ _ Hk). intros ??? He. by apply input_kind_flags in He as (_ & _ & ?).
Qed.

(** The field as its attributes describe it: a skipped one is no input. *)
Record described (f : entity_field) (r : resource_field) : Prop := {
  ds_ident : rf_ident r = ef_ident f;
  ds_ty : rf_ty r = ef_ty f;
  ds_skip : rf_skip r = true <-> asks (ef_attrs f) is_skip;
  ds_create : rf_in_create r = true <-> asks (ef_attrs f) (is_input "create");
  ds_update : rf_in_update r = true <-> asks (ef_attrs f) (is_input "update");
  ds_exclusive : rf_skip r = true -> rf_in_create r = false /\ rf_in_update r = false
}.

Lemma parse_field_described f r : parse_field f = Ok r -> described f r.
Proof.
  unfold parse_field. destruct (for_each attr_flags _ _) as [fl|] eqn:E; [|done]. simpl.
  pose proof (attr_flag fl_skip is_skip ltac:(by intros ??? (? & ? & ?)%option_step_flags) _ _ _ E) as Hs.
  pose proof (attr_flag fl_create (is_input "create") ltac:(by intros ??? (? & ? & ?)%option_step_flags) _ _ _ E) as Hc.
  pose proof (attr_flag fl_update (is_input "update") ltac:(by intros ??? (? & ? & ?)%option_step_flags) _ _ _ E) as Hu.
  simpl in Hs, Hc, Hu. destruct (fl_skip fl && (fl_create fl || fl_update fl)) eqn:Ex; [done|]. intros [= <-].
  split; simpl; try done; [naive_solver..|]. destruct (fl_skip fl), (fl_create fl), (fl_update fl); naive_solver.
Qed.

Lemma parse_described args item rm item' : parse args item = Ok (rm, item') ->
  exists l, item = NamedFields l /\ Forall2 described l (rm_fields rm) /\ item' = map strip_field l.
Proof.
  unfold parse. destruct (for_each _ args _) as [ea|]; [|done]. simpl. destruct (ea_name ea); [|done]. simpl.
  destruct item as [l|]; [|done]. destruct (collect_results parse_field l) as [fields|] eqn:E; [|done]. simpl.
  intros [= <- <-]. exists l. split; [done|]. split; [|done]. apply collect_results_ok in E. simpl.
  eapply Forall2_impl; [exact E|]. apply parse_field_described.
Qed.

(** ** What is read and what is written *)

Section exposure.
Context {V : Type}.
Variable uuid_text : V -> V.
Variable active_default : string -> active_value V.
Variables (de_value : syn_type -> json -> option V) (de_missing : syn_type -> option V).
Implicit Types (self : gmap string V) (am : string -> active_value V) (members : list (string * json)) (body : json) (fs : list resource_field).

Definition field_named (fs : list resource_field) (col : string) : option resource_field :=
  List.find (fun f => String.eqb (rf_ident f) col) fs.

Lemma field_named_elem fs f : NoDup (map rf_ident fs) -> f ∈ fs -> field_named fs (rf_ident f) = Some f.
Proof.
  unfold field_named. induction fs as [|g fs IH]; intros Hnd Hin; [by apply elem_of_nil in Hin|].
  apply NoDup_cons in Hnd as [Hg Hnd]. simpl. apply elem_of_cons in Hin as [->|Hin]; [by rewrite String.eqb_refl|].
  destruct (String.eqb_spec (rf_ident g) (rf_ident f)) as [E|]; [|by apply IH].
  destruct Hg. rewrite E. by apply list_elem_of_fmap_2.
Qed.

Lemma same_field fs f g : NoDup (map rf_ident fs) -> f ∈ fs -> g ∈ fs -> rf_ident f = rf_ident g -> f = g.
Proof.
  intros Hnd Hf Hg E. pose proof (field_named_elem fs f Hnd Hf) as H1. pose proof (field_named_elem fs g Hnd Hg) as H2.
  rewrite E in H1. congruence.
Qed.

Lemma field_named_some fs col f : field_named fs col = Some f -> f ∈ fs /\ rf_ident f = col.
Proof. intros [Hin He]%find_some. split; [by apply list_elem_of_In|by apply String.eqb_eq]. Qed.

Lemma field_named_none fs col : field_named fs col = None -> col ∉ map rf_ident fs.
Proof.
  intros Hn (f & -> & Hin%list_elem_of_In)%list_elem_of_fmap. pose proof (find_none _ _ Hn _ Hin) as Hf. simpl in Hf.
  by rewrite String.eqb_refl in Hf.
Qed.

Lemma filter_fields_nodup (P : resource_field -> bool) fs : NoDup (map rf_ident fs) -> NoDup (map rf_ident (List.filter P fs)).
Proof.
  induction fs as [|f fs IH]; [done|]. intros [Hf Hnd]%NoDup_cons. simpl. destruct (P f); [|by apply IH].
  apply NoDup_cons. split; [|by apply IH]. intros (g & Hg & [Hin _]%list_elem_of_In%filter_In)%list_elem_of_fmap.
  destruct Hf. rewrite Hg. by apply list_elem_of_fmap_2, list_elem_of_In.
Qed.

(** The setters write the columns of their fields, each once, and no other. *)
Lemma setters_write self fs : NoDup (map rf_ident fs) -> forall am col,
  foldl (setter self) am fs col =
    match field_named fs col with
    | Some _ => match self !! col with Some v => Set_ v | None => am col end
    | None => am col
    end.
Proof.
  unfold field_named. induction fs as [|f fs IH]; intros Hnd am col; [done|]. apply NoDup_cons in Hnd as [Hf Hnd].
  simpl. rewrite IH by done. destruct (String.eqb_spec (rf_ident f) col) as [<-|Hne].
  - destruct (List.find _ fs) as [g|] eqn:Eg.
    { apply field_named_some in Eg as [Hg E]. destruct Hf. rewrite <- E. by apply list_elem_of_fmap_2. }
    unfold setter. destruct (self !! rf_ident f); [|done]. by rewrite fn_lookup_insert.
  - assert (Hs : setter self am f col = am col).
    { unfold setter. destruct (self !! rf_ident f); [|done]. by rewrite fn_lookup_insert_ne. }
    by rewrite Hs.
Qed.

(** *** Deserialization *)

Definition member_value (f : resource_field) members (v : V) : Prop :=
  (exists j, (rf_ident f, j) ∈ members /\ de_value (rf_ty f) j = Some v) \/
  ((rf_ident f ∉ map fst members) /\ de_missing (rf_ty f) = Some v).

(** The value a body gives the field [f] of the struct [fs]: by its name, or by its position. *)
Definition client_value fs body (f : resource_field) (v : V) : Prop :=
  match body with
  | JObject members => member_value f members v
  | JArray elements => exists i j, fs !! i = Some f /\ elements !! i = Some j /\ de_value (rf_ty f) j = Some v
  | _ => False
  end.

(** What the first pass has read. *)
Definition read_from fs members self : Prop :=
  forall f, f ∈ fs ->
    match self !! rf_ident f with
    | Some v => exists j, (rf_ident f, j) ∈ members /\ de_value (rf_ty f) j = Some v
    | None => rf_ident f ∉ map fst members
    end.

Lemma de_members_read fs members : NoDup (map rf_ident fs) -> forall done_ self self',
  read_from fs done_ self -> for_each (de_member de_value fs) members self = Ok self' -> read_from fs (done_ ++ members) self'.
Proof.
  intros Hnd. induction members as [|[k j] members IH]; intros done_ self self' Hr Hf; simpl in Hf.
  { injection Hf as <-. by rewrite app_nil_r. }
  rewrite (cons_middle (k, j) done_ members), app_assoc. unfold de_member in Hf at 1. simpl in Hf.
  assert (Hold : forall f, f ∈ fs -> rf_ident f <> k ->
      match self !! rf_ident f with
      | Some v => exists j', (rf_ident f, j') ∈ done_ ++ [(k, j)] /\ de_value (rf_ty f) j' = Some v
      | None => rf_ident f ∉ map fst (done_ ++ [(k, j)])
      end).
  { intros f Hin Hne. specialize (Hr f Hin). destruct (self !! rf_ident f) as [v|].
    - destruct Hr as (j' & ? & ?). exists j'. split; [|done]. apply elem_of_app. by left.
    - rewrite map_app, elem_of_app. simpl. rewrite list_elem_of_singleton. naive_solver. }
  destruct (List.find _ fs) as [f|] eqn:Ef.
  - apply field_named_some in Ef as [Hin <-]. destruct (self !! rf_ident f); [done|].
    destruct (de_value (rf_ty f) j) as [v|] eqn:Ev; [|done]. simpl in Hf. refine (IH _ _ _ _ Hf).
    intros g Hg. destruct (decide (rf_ident g = rf_ident f)) as [E|Hne].
    + rewrite (same_field fs g f) by done.
      rewrite lookup_insert_eq. exists j. split; [|done]. apply elem_of_app. right. by left.
    + rewrite lookup_insert_ne by congruence. by apply Hold.
  - simpl in Hf. refine (IH _ _ _ _ Hf). intros g Hg. apply Hold; [done|]. intros <-.
    apply field_named_none in Ef. destruct Ef. by apply list_elem_of_fmap_2.
Qed.

(** The second pass gives every field a value. *)
Lemma de_absent_fills fs members : forall todo, NoDup (map rf_ident todo) -> todo ⊆ fs -> forall self self',
  (forall f, f ∈ fs -> match self !! rf_ident f with
                       | Some v => member_value f members v
                       | None => (rf_ident f ∉ map fst members) /\ f ∈ todo
                       end) ->
  NoDup (map rf_ident fs) ->
  for_each (de_absent de_missing) todo self = Ok self' ->
  forall f, f ∈ fs -> exists v, self' !! rf_ident f = Some v /\ member_value f members v.
Proof.
  intros todo. induction todo as [|g todo IH]; intros Ht Hsub self self' Hs Hnd Hf f Hin; simpl in Hf.
  - injection Hf as <-. specialize (Hs f Hin). destruct (self !! rf_ident f) as [v|]; [by exists v|].
    by destruct Hs as [_ Hs%elem_of_nil].
  - apply NoDup_cons in Ht as [Hg Ht]. unfold de_absent in Hf at 1.
    assert (Hgfs : g ∈ fs) by (apply Hsub; by left).
    destruct (self !! rf_ident g) as [v|] eqn:Eg; [|destruct (de_missing (rf_ty g)) as [v|] eqn:Ev; [|done]]; simpl in Hf;
      refine (IH Ht _ _ _ _ Hnd Hf f Hin); try (intros x Hx; apply Hsub; by right).
    + intros h Hh. specialize (Hs h Hh). destruct (self !! rf_ident h) eqn:Eh; [done|]. destruct Hs as [Hm Hi]. split; [done|].
      apply elem_of_cons in Hi as [->|]; [congruence|done].
    + intros h Hh. destruct (decide (rf_ident h = rf_ident g)) as [E|Hne].
      * rewrite (same_field fs h g) by done. rewrite lookup_insert_eq. right. specialize (Hs g Hgfs). rewrite Eg in Hs. tauto.
      * rewrite lookup_insert_ne by congruence. specialize (Hs h Hh). destruct (self !! rf_ident h); [done|].
        destruct Hs as [Hm Hi]. split; [done|]. apply elem_of_cons in Hi as [->|]; [done|done].
Qed.

Lemma de_elements_kept fs : forall elements self self' col, col ∉ map rf_ident fs ->
  de_elements de_value fs elements self = Ok self' -> self' !! col = self !! col.
Proof.
  induction fs as [|f fs IH]; intros [|j elements] self self' col Hc Hd; simpl in Hd; try done; [by injection Hd as <-|].
  destruct (de_value (rf_ty f) j) as [v|]; [|done]. simpl in Hc. apply not_elem_of_cons in Hc as [Hne Hc].
  rewrite (IH _ _ _ _ Hc Hd). by rewrite lookup_insert_ne.
Qed.

Lemma de_elements_read fs : forall elements self self', NoDup (map rf_ident fs) ->
  de_elements de_value fs elements self = Ok self' ->
  forall i f, fs !! i = Some f -> exists j v, elements !! i = Some j /\ de_value (rf_ty f) j = Some v /\ self' !! rf_ident f = Some v.
Proof.
  induction fs as [|g fs IH]; intros [|j elements] self self' Hnd Hd i f Hi; simpl in Hd; try done.
  destruct (de_value (rf_ty g) j) as [v|] eqn:Ev; [|done]. simpl in Hnd. apply NoDup_cons in Hnd as [Hg Hnd].
  destruct i as [|i]; simpl in Hi; [|exact (IH _ _ _ Hnd Hd i f Hi)]. injection Hi as <-. exists j, v. split; [done|]. split; [done|].
  rewrite (de_elements_kept fs _ _ _ _ Hg Hd). by rewrite lookup_insert_eq.
Qed.

Lemma deserialize_client_values fs body self : NoDup (map rf_ident fs) ->
  deserialize_input de_value de_missing fs body = Ok self ->
  forall f, f ∈ fs -> exists v, self !! rf_ident f = Some v /\ client_value fs body f v.
Proof.
  intros Hnd. destruct body as [| | | |elements|members]; try done; simpl.
  - intros Hd f (i & Hi)%list_elem_of_lookup. destruct (de_elements_read _ _ _ _ Hnd Hd i f Hi) as (j & v & ? & ? & ?). eauto 8.
  - destruct (for_each _ members ∅) as [self1|] eqn:E1; [|done]. simpl. intros E2.
    apply (de_members_read fs members Hnd []) in E1; [|intros f _; rewrite lookup_empty; apply not_elem_of_nil].
    refine (de_absent_fills fs members fs Hnd ltac:(done) self1 self _ Hnd E2).
    intros f Hin. specialize (E1 f Hin). destruct (self1 !! rf_ident f); [by left|done].
Qed.

(** *** Writing *)

(** A column the conversion may write has the client's value of its field, among those the input declares,
    and any other the value it had. *)
Definition written (decl may : resource_field -> bool) (rm : resource_model) body (col : string) (before after : active_value V) : Prop :=
  match field_named (List.filter may (rm_fields rm)) col with
  | Some f => exists v, client_value (List.filter decl (rm_fields rm)) body f v /\ after = Set_ v
  | None => after = before
  end.

Lemma setters_written (decl may : resource_field -> bool) rm fields body self am col :
  NoDup (map rf_ident (rm_fields rm)) -> (forall f, may f = true -> decl f = true) ->
  input_struct rm decl = Some fields -> deserialize_input de_value de_missing fields body = Ok self ->
  written decl may rm body col (am col) (foldl (setter self) am (List.filter may (rm_fields rm)) col).
Proof.
  intros Hnd Hdecl Hs Hd. unfold input_struct in Hs.
  assert (fields = List.filter decl (rm_fields rm)) as -> by (destruct (List.filter decl _); [done|by injection Hs]).
  unfold written. rewrite setters_write by (by apply filter_fields_nodup).
  destruct (field_named _ col) as [f|] eqn:Ef; [|done]. apply field_named_some in Ef as [Hin <-].
  apply list_elem_of_In, filter_In in Hin as [Hin Hm].
  destruct (deserialize_client_values _ body self (filter_fields_nodup _ _ Hnd) Hd f) as (v & -> & Hv).
  - apply list_elem_of_In, filter_In. by auto.
  - by exists v.
Qed.

(** A fresh row before the client's values. *)
Definition seeded (now : V) (rm : resource_model) (col : string) : active_value V :=
  match List.find rf_is_pk (rm_fields rm) with
  | Some pk => if is_uuid (rf_ty pk) && String.eqb (rf_ident pk) col then Set_ now else active_default col
  | None => active_default col
  end.

Definition creatable (f : resource_field) : bool := rf_in_create f && negb (rf_is_pk f).

Lemma create_written rm now body am : NoDup (map rf_ident (rm_fields rm)) ->
  create_from active_default de_value de_missing rm now body = Some (Ok am) ->
  forall col, written rf_in_create creatable rm body col (seeded now rm col) (am col).
Proof.
  intros Hnd Hc col. unfold create_from in Hc. destruct (input_struct rm rf_in_create) as [fields|] eqn:Es; [|done].
  simpl in Hc. unfold emit_create in Hc. fold creatable in Hc.
  pose proof (fun before self => setters_written rf_in_create creatable rm fields body self before col Hnd
                ltac:(by intros f [? _]%andb_true_iff) Es) as Hw.
  change (fun f => rf_in_create f && negb (rf_is_pk f)) with creatable in Hc.
  destruct (List.filter creatable (rm_fields rm)) as [|g gs]; [done|].
  simpl in Hc. destruct (deserialize_input _ _ fields body) as [self|] eqn:Ed; [|done]. injection Hc as <-.
  match goal with |- context [setter self ?base g] => specialize (Hw base self eq_refl);
    assert (E : seeded now rm col = base col); [|rewrite E; exact Hw] end.
  unfold seeded. destruct (List.find rf_is_pk _) as [pk|]; [|done]. destruct (is_uuid _); [|done]. simpl.
  destruct (String.eqb_spec (rf_ident pk) col) as [<-|Hne]; [by rewrite fn_lookup_insert|by rewrite fn_lookup_insert_ne].
Qed.

Lemma update_written rm body am am' : NoDup (map rf_ident (rm_fields rm)) ->
  update_from de_value de_missing rm body am = Some (Ok am') ->
  forall col, written rf_in_update rf_in_update rm body col (am col) (am' col).
Proof.
  intros Hnd Hc col. unfold update_from in Hc. destruct (input_struct rm rf_in_update) as [fields|] eqn:Es; [|done].
  simpl in Hc. unfold emit_update in Hc.
  pose proof (fun self => setters_written rf_in_update rf_in_update rm fields body self am col Hnd ltac:(done) Es) as Hw.
  destruct (List.filter rf_in_update (rm_fields rm)) as [|g gs]; [done|].
  simpl in Hc. destruct (deserialize_input _ _ fields body) as [self|] eqn:Ed; [|done]. injection Hc as <-.
  exact (Hw self eq_refl).
Qed.

(** A column that may not be written is left alone. *)
Lemma written_other decl may rm body col before after f : NoDup (map rf_ident (rm_fields rm)) ->
  f ∈ rm_fields rm -> rf_ident f = col -> may f = false -> written decl may rm body col before after -> after = before.
Proof.
  intros Hnd Hin <- Hm. unfold written. destruct (field_named _ _) as [g|] eqn:Eg; [|done].
  apply field_named_some in Eg as [[Hg Hmg]%list_elem_of_In%filter_In E]. apply list_elem_of_In in Hg.
  rewrite (same_field _ _ _ Hnd Hg Hin E) in Hmg. congruence.
Qed.

(** [C22] An entity shows and takes the columns its attributes say, whatever a client sends.  The output object
    has the columns that are not skipped and depends on no other.  A creation sets the columns marked for it,
    the primary key excepted, to the values the client's object names or its array lists, gives a [Uuid] key a
    fresh id, and leaves every other column as the default row has it; an update overwrites the columns
    marked for it and no other.  A skipped column is therefore never read from a client, unless it is the
    key, which gets its fresh id. *)
Theorem exposed_columns_only args l rm item' :
  parse args (NamedFields l) = Ok (rm, item') -> NoDup (map ef_ident l) ->
  Forall2 described l (rm_fields rm) /\
  (forall row, map fst (output_from uuid_text rm row) = map rf_ident (List.filter in_output (rm_fields rm)) /\
     forall row', (forall f, f ∈ l -> ~ asks (ef_attrs f) is_skip -> row (ef_ident f) = row' (ef_ident f)) ->
       output_from uuid_text rm row = output_from uuid_text rm row') /\
  (forall now body am, create_from active_default de_value de_missing rm now body = Some (Ok am) ->
     (forall col, written rf_in_create creatable rm body col (seeded now rm col) (am col)) /\
     (forall f, f ∈ l -> asks (ef_attrs f) is_skip -> am (ef_ident f) = seeded now rm (ef_ident f))) /\
  (forall body am am', update_from de_value de_missing rm body am = Some (Ok am') ->
     (forall col, written rf_in_update rf_in_update rm body col (am col) (am' col)) /\
     (forall f, f ∈ l -> asks (ef_attrs f) is_skip -> am' (ef_ident f) = am (ef_ident f))).
Proof.
  intros Hp Hnd. apply parse_described in Hp as (? & [= <-] & Hd & _).
  assert (Hids : map rf_ident (rm_fields rm) = map ef_ident l).
  { clear Hnd. induction Hd as [|f r l rs [Hi _] _ IH]; [done|]. simpl. by rewrite IH, Hi. }
  rewrite <- Hids in Hnd.
  assert (Hback : forall f, f ∈ l -> exists r, r ∈ rm_fields rm /\ described f r).
  { intros f Hf. apply list_elem_of_lookup in Hf as [i Hi]. destruct (Forall2_lookup_l _ _ _ _ _ Hd Hi) as (r & Hr & ?).
    exists r. split; [by eapply list_elem_of_lookup_2|done]. }
  split; [done|]. split; [|split].
  - intros row. unfold output_from. rewrite map_map. split; [done|]. intros row' Heq. apply map_ext_in. intros r Hr.
    apply filter_In in Hr as [Hr Ho]. apply list_elem_of_In in Hr.
    apply list_elem_of_lookup in Hr as [i Hi]. destruct (Forall2_lookup_r _ _ _ _ _ Hd Hi) as (f & Hf & D).
    rewrite (ds_ident _ _ D), Heq; [done|by eapply list_elem_of_lookup_2|].
    rewrite <- (ds_skip _ _ D). unfold in_output in Ho. by destruct (rf_skip r).
  - intros now body am Hc. pose proof (create_written rm now body am Hnd Hc) as Hw. split; [exact Hw|].
    intros f Hf Hs. destruct (Hback f Hf) as (r & Hr & D). destruct (ds_exclusive _ _ D (proj2 (ds_skip _ _ D) Hs)) as [Hn _].
    refine (written_other _ _ rm body _ _ _ r Hnd Hr (ds_ident _ _ D) _ (Hw _)). unfold creatable. by rewrite Hn.
  - intros body am am' Hc. pose proof (update_written rm body am am' Hnd Hc) as Hw. split; [exact Hw|].
    intros f Hf Hs. destruct (Hback f Hf) as (r & Hr & D). destruct (ds_exclusive _ _ D (proj2 (ds_skip _ _ D) Hs)) as [_ Hn].
    exact (written_other _ _ rm body _ _ _ r Hnd Hr (ds_ident _ _ D) Hn (Hw _)).
Qed.

End exposure.

(** ** Entities *)

Module ResourceDemo.

Definition named (n : string) : syn_type := TyPath [PathSegment n PathNone].
Definition option_of (n : string) : syn_type := TyPath [PathSegment "Option" (AngleBracketed [GType (named n)])].

Definition de (t : syn_type) (j : json) : option json :=
  match t, j with
  | TyPath [PathSegment "Option" _], _ => Some j
  | _, JString _ => Some j
  | _, _ => None
  end.
Definition absent (t : syn_type) : option json := match t with TyPath [PathSegment "Option" _] => Some JNull | _ => None end.
Definition hyphenated (v : json) : json := match v with JString s => JString ("uuid:" +:+ s) | _ => v end.

(** The users of the crate documentation, with a nullable column. *)
Definition pk : list field_attr := [SeaOrm [SeaWord "primary_key"; SeaAssign "auto_increment" true]].
Definition users : list entity_field :=
  [EntityField "id" (named "Uuid") pk;
   EntityField "org_id" (named "Uuid") [ExposeField [FoSkip]];
   EntityField "name" (named "String") [ExposeField [FoInput ["create"; "update"]; FoValidate "length(min = 1)"]];
   EntityField "email" (named "String") [SeaOrm [SeaWord "unique"]; ExposeField [FoInput ["create"]; FoValidate "email"]];
   EntityField "bio" (option_of "String") [ExposeField [FoInput ["create"; "update"]]]].

Definition model_of (l : list entity_field) : resource_model :=
  match parse [EoName (Some "User"); EoComplex] (NamedFields l) with
  | Ok (rm, _) => rm
  | Err _ => ResourceModel "" "" "" "" [] false false
  end.

Definition none : string -> active_value json := fun _ => NotSet.
Definition ann : json := JObject [("name", JString "ann"); ("org_id", JString "theirs"); ("id", JString "9"); ("email", JString "a@b")].

(** A client that sends an organisation and an id sets neither. *)
Lemma exposed_columns_only_witness :
  exists am, create_from none de absent (model_of users) (JString "fresh") ann = Some (Ok am) /\
    am "org_id" = NotSet /\ am "id" = Set_ (JString "fresh") /\ am "name" = Set_ (JString "ann") /\ am "bio" = Set_ JNull.
Proof.
  destruct (create_from none de absent (model_of users) (JString "fresh") ann) as [[am|]|] eqn:E; [|by vm_compute in E..].
  exists am. split; [done|].
  destruct (exposed_columns_only hyphenated none de absent [EoName (Some "User"); EoComplex] users (model_of users) (map strip_field users)
              eq_refl ltac:(apply (bool_decide_unpack _); by vm_compute)) as (_ & _ & Hc & _).
  destruct (Hc _ _ _ E) as [_ Hskip]. split; [|split; [|split]].
  - apply (Hskip (EntityField "org_id" (named "Uuid") [ExposeField [FoSkip]])); [right; left|]. apply Exists_cons. left. by apply Exists_cons; left.
  - vm_compute in E. injection E as <-. done.
  - vm_compute in E. injection E as <-. done.
  - vm_compute in E. injection E as <-. done.
Defined.

Example users_shown :
  output_from hyphenated (model_of users) (fun col => JString col) =
    [("id", JString "uuid:id"); ("name", JString "name"); ("email", JString "email"); ("bio", JString "bio")] /\
  map rf_validate (rm_fields (model_of users)) = [[]; []; ["length(min = 1)"]; ["email"]; []].
Proof. split; by vm_compute. Qed.

(** An update that leaves a nullable column out clears it. *)
Example omitted_column_is_cleared :
  (fun r => result_map (fun am => (am "name", am "bio", am "email")) r) <$>
    update_from de absent (model_of users) (JObject [("name", JString "bea")]) (fun col => Unchanged (JString col)) =
  Some (Ok (Set_ (JString "bea"), Set_ JNull, Unchanged (JString "email"))).
Proof. by vm_compute. Qed.

(** An array gives the fields in order, every one of them; nothing else is an input. *)
Example input_by_position :
  let create := create_from none de absent (model_of users) (JString "fresh") in
  ((fun r => result_map (fun am => (am "id", am "org_id", am "name", am "email", am "bio")) r) <$>
     create (JArray [JString "ann"; JString "a@b"; JNull])) =
    Some (Ok (Set_ (JString "fresh"), NotSet, Set_ (JString "ann"), Set_ (JString "a@b"), Set_ JNull)) /\
  create (JArray [JString "ann"; JString "a@b"]) = Some (Err "invalid length") /\
  create (JArray [JString "ann"; JString "a@b"; JNull; JNull]) = Some (Err "trailing characters") /\
  create (JString "ann") = Some (Err "invalid type").
Proof. repeat split; by vm_compute. Qed.

(** An input whose only column is the key is declared without its conversion. *)
Example input_without_conversion :
  let rm := model_of [EntityField "slug" (named "String") (ExposeField [FoInput ["create"]] :: pk)] in
  is_Some (input_struct rm rf_in_create) /\ emit_create none rm = None.
Proof. split; [eexists|]; by vm_compute. Qed.

(** A creation never sets a key from the input, an update does: the loaded row takes another's id. *)
Example update_moves_the_key :
  let rm := model_of [EntityField "id" (named "Uuid") (ExposeField [FoInput ["create"; "update"]] :: pk);
                      EntityField "name" (named "String") [ExposeField [FoInput ["create"; "update"]]]] in
  let body := JObject [("id", JString "2"); ("name", JString "bea")] in
  ((fun r => result_map (fun am => am "id") r) <$> create_from none de absent rm (JString "fresh") body) = Some (Ok (Set_ (JString "fresh"))) /\
  ((fun r => result_map (fun am => am "id") r) <$> update_from de absent rm body (fun _ => Unchanged (JString "1"))) = Some (Ok (Set_ (JString "2"))).
Proof. split; by vm_compute. Qed.

(** Of a composite key only the first column is seeded, and none is taken from the input; a key that
    follows an option with arguments is not seen. *)
Example composite_key_is_left_unset :
  let rm := model_of [EntityField "org" (named "Uuid") pk;
                      EntityField "user" (named "Uuid") (ExposeField [FoInput ["create"]] :: pk);
                      EntityField "role" (named "String") [ExposeField [FoInput ["create"]]]] in
  ((fun r => result_map (fun am => (am "org", am "user")) r) <$>
     create_from none de absent rm (JString "fresh") (JObject [("user", JString "u"); ("role", JString "r")])) =
    Some (Ok (Set_ (JString "fresh"), NotSet)) /\
  sea_is_pk [SeaList "default_expr"; SeaWord "primary_key"] false = false.
Proof. split; by vm_compute. Qed.

Example rejected :
  parse [EoComplex] (NamedFields users) = Err NameRequired /\
  parse [EoName (Some "User")] (NamedFields [EntityField "a" (named "String") [ExposeField [FoSkip]; ExposeField [FoInput ["update"]]]]) =
    Err (SkipCannotBeInput "a") /\
  parse [EoName (Some "User")] (NamedFields [EntityField "a" (named "String") [ExposeField [FoInput ["creat"]]]]) = Err ExpectedCreateOrUpdate.
Proof. repeat split; by vm_compute. Qed.

End ResourceDemo.
