(* ===== verification/Config.v ===== *)
(** The configuration loaders ([nestrs-config/src/loader.rs], [error.rs]) and the text forms a setting is
    read from: [env_var], with empty as unset, and [str::parse::<f64>].

    figment, which merges a TOML file with the environment, is a parameter.  A string is ASCII. *)

From Stdlib Require Import Ascii SpecFloat.
From S2P Require Import Prelude Container Http OpenApi.

(** ** The environment *)

(** The value of a variable; [None] when it is not Unicode. *)
Abbreviation environment := (gmap string (option string)).

Definition env_var (env : environment) (name : string) : option string :=
  match env !! name with
  | Some (Some v) => if String.eqb v "" then None else Some v
  | _ => None
  end.

(** ** [load] *)

Class Figment (T Figure FigmentError ValidationErrors : Type) := {
  figment_new : Figure;
  merge_toml_file : string -> Figure -> Figure;
  merge_env : string -> string -> environment -> Figure -> Figure;    (* [Env::prefixed(p).split(s)] *)
  extract : Figure -> result T FigmentError;
  validate : T -> result unit ValidationErrors
}.

Inductive config_error (FigmentError ValidationErrors : Type) :=
| Source (e : FigmentError)
| Validation (e : ValidationErrors).
Arguments Source {_ _} e.
Arguments Validation {_ _} e.

Section load.
Context {T Figure FigmentError ValidationErrors : Type} `{!Figment T Figure FigmentError ValidationErrors}.

Definition load (env : environment) (toml_path : option string) : result T (config_error FigmentError ValidationErrors) :=
  let figment := figment_new in
  let figment := match toml_path with Some path => merge_toml_file path figment | None => figment end in
  map_err Source (extract (merge_env "NESTRS_" "__" env figment)).

Definition load_validated (env : environment) (toml_path : option string) : result T (config_error FigmentError ValidationErrors) :=
  let? value := load env toml_path in
  let? _ := map_err Validation (validate value) in
  Ok value.

Lemma load_validated_validates env toml_path value : load_validated env toml_path = Ok value ->
  load env toml_path = Ok value /\ validate value = Ok tt.
Proof.
  unfold load_validated. intros Hl. destruct (load env toml_path) as [v|]; [|done]. simpl in Hl.
  destruct (validate v) as [[]|] eqn:E; [|done]. by injection Hl as ->.
Qed.

End load.

(** ** [str::parse::<f64>] *)

Definition f64_zero : spec_float := S754_zero false.
Definition f64_one : spec_float := S754_finite false 4503599627370496 (-52).

Fixpoint digits_span (l : list ascii) : list ascii * list ascii :=
  match l with
  | c :: l' => if is_digit c then let '(d, r) := digits_span l' in (c :: d, r) else ([], l)
  | [] => ([], [])
  end.

Definition digits_value (l : list ascii) : Z := foldl (fun acc c => acc * 10 + (Z.of_nat (nat_of_ascii c) - 48))%Z 0%Z l.

(** An exponent, after its [e]: all of the rest. *)
Definition parse_exponent (l : list ascii) : option Z :=
  let '(negative, l) :=
    match l with
    | c :: l' => if Ascii.eqb c "-" then (true, l') else if Ascii.eqb c "+" then (false, l') else (false, l)
    | [] => (false, l)
    end in
  match digits_span l with
  | ([], _) | (_, _ :: _) => None
  | (ds, []) => Some (if negative then (- digits_value ds)%Z else digits_value ds)
  end.

(** A decimal number [m * 10 ^ e]. *)
Definition parse_number (l : list ascii) : option (Z * Z) :=
  let '(int, r) := digits_span l in
  let '(frac, r) :=
    match r with
    | c :: r' => if Ascii.eqb c "." then digits_span r' else ([], r)
    | [] => ([], [])
    end in
  match int ++ frac with
  | [] => None
  | digits =>
      let scale := (- Z.of_nat (length frac))%Z in
      match r with
      | [] => Some (digits_value digits, scale)
      | c :: r' => if Ascii.eqb (ascii_lower c) "e" then (fun x => (digits_value digits, (scale + x)%Z)) <$> parse_exponent r' else None
      end
  end.

(** The nearest [f64], ties to even. *)
Definition f64_of_decimal (m e : Z) : spec_float :=
  if (m =? 0)%Z then f64_zero
  else if (0 <=? e)%Z then binary_normalize 53 1024 (m * 10 ^ e) 0 false
  else let '(q, e', lost) := SFdiv_core_binary 53 1024 m 0 (10 ^ (- e)) 0 in binary_round_aux 53 1024 false q e' lost.

Definition parse_inf_nan (l : list ascii) : option spec_float :=
  let word := of_chars (map ascii_lower l) in
  if String.eqb word "nan" then Some S754_nan
  else if String.eqb word "inf" || String.eqb word "infinity" then Some (S754_infinity false)
  else None.

Definition parse_f64 (s : string) : option spec_float :=
  let '(negative, l) :=
    match chars s with
    | c :: l' => if Ascii.eqb c "-" then (true, l') else if Ascii.eqb c "+" then (false, l') else (false, c :: l')
    | [] => (false, [])
    end in
  (fun x => if negative then SFopp x else x) <$>
    match parse_number l with
    | Some me => Some (f64_of_decimal me.1 me.2)
    | None => parse_inf_nan l
    end.

(** [f64::clamp]. *)
Definition f64_clamp (x lo hi : spec_float) : spec_float :=
  let x := if SFltb x lo then lo else x in if SFltb hi x then hi else x.

Definition in_unit (x : spec_float) : bool := SFleb f64_zero x && SFleb x f64_one.

Lemma SFleb_of_not_ltb x y : x <> S754_nan -> y <> S754_nan -> SFltb y x = false -> SFleb x y = true.
Proof.
  intros Hx Hy. unfold SFltb, SFleb, SFcompare. destruct x as [|[]| |[] m e], y as [|[]| |[] m' e']; try done;
    rewrite (Z.compare_antisym e' e); destruct (Z.compare e' e); simpl; try done; change (Pos.compare_cont Eq) with Pos.compare; rewrite (Pos.compare_antisym m m');
    by destruct (Pos.compare m m').
Qed.

(** Clamping bounds every number; not a number stays what it is. *)
Lemma f64_clamp_unit x : x <> S754_nan -> in_unit (f64_clamp x f64_zero f64_one) = true.
Proof.
  intros Hx. unfold f64_clamp, in_unit.
  assert (Hc : exists y, (if SFltb x f64_zero then f64_zero else x) = y /\ y <> S754_nan /\ SFleb f64_zero y = true).
  { destruct (SFltb x f64_zero) eqn:E; eexists; (split; [done|]); (split; [done|]); [done|by apply SFleb_of_not_ltb]. }
  destruct Hc as (y & -> & Hy & H0). destruct (SFltb f64_one y) eqn:E; [done|]. rewrite H0. by apply SFleb_of_not_ltb.
Qed.

Lemma f64_clamp_nan lo hi : f64_clamp S754_nan lo hi = S754_nan.
Proof. unfold f64_clamp. simpl. by destruct hi as [| | |]. Qed.

Module ConfigDemo.

Example empty_is_unset :
  env_var {["A" := Some ""; "B" := Some "x"; "C" := None]} "A" = None /\
  env_var {["A" := Some ""; "B" := Some "x"; "C" := None]} "B" = Some "x" /\
  env_var {["A" := Some ""; "B" := Some "x"; "C" := None]} "C" = None.
Proof. repeat split; by vm_compute. Qed.

(** 0.1 is the double closest to a tenth, and so is 1e-1; 2.5 is exact. *)
Example decimals :
  parse_f64 "1" = Some f64_one /\
  parse_f64 "0.1" = Some (S754_finite false 7205759403792794 (-56)) /\
  parse_f64 "1e-1" = parse_f64 "+.1" /\
  parse_f64 "2.5" = Some (SFdiv 53 1024 (binary_normalize 53 1024 5 0 false) (binary_normalize 53 1024 2 0 false)) /\
  parse_f64 "1e400" = Some (S754_infinity false) /\ parse_f64 "-1e-400" = Some (S754_zero true) /\
  parse_f64 "-NaN" = Some S754_nan /\ parse_f64 "." = None /\ parse_f64 "1e" = None /\ parse_f64 "" = None /\ parse_f64 " 1" = None.
Proof. repeat split; by vm_compute. Qed.

End ConfigDemo.
