(* ===== verification/HttpEdge.v ===== *)
(** The edges of the HTTP surface: the TLS material of the transport and what it serves
    ([nestrs-http/src/tls.rs], [transport.rs]), the parse pipes and the extractor that applies a pipe to an
    argument ([nestrs-pipes/src/parse.rs], [nestrs-http/src/pipe.rs]), and the documentation page
    ([nestrs-openapi/src/ui.rs], [module.rs]).

    Files, sockets and poem's server are parameters; a string is its bytes. *)

From Stdlib Require Import DecimalString SpecFloat.
From S2P Require Import Prelude Container Authz Http OpenApi Orm AuthzHttp Crud Config.

(** ** TLS *)

Record tls_config := TlsConfig { tls_cert : string; tls_key : string }.

(** A file that cannot be read, under the context given, and a half-configured pair. *)
Inductive tls_error := Reading (context cause : string) | Bail (msg : string).

Section tls.
(** [std::fs::read], with the text of its error. *)
Context (read_file : string -> result string string).

Definition read_env_pem (env : environment) (inline_var file_var : string) : result (option string) tls_error :=
  match env_var env inline_var with
  | Some pem => Ok (Some pem)
  | None =>
      match env_var env file_var with
      | Some path =>
          let? bytes := map_err (Reading ("reading " +:+ file_var +:+ " at " +:+ path)) (read_file path) in
          Ok (Some bytes)
      | None => Ok None
      end
  end.

Definition tls_from_env (env : environment) : result (option tls_config) tls_error :=
  let? cert := read_env_pem env "NESTRS_HTTP__TLS_CERT" "NESTRS_HTTP__TLS_CERT_FILE" in
  let? key := read_env_pem env "NESTRS_HTTP__TLS_KEY" "NESTRS_HTTP__TLS_KEY_FILE" in
  match cert, key with
  | Some cert, Some key => Ok (Some (TlsConfig cert key))
  | None, None => Ok None
  | Some _, None => Err (Bail "NESTRS_HTTP__TLS_CERT is set but no key (NESTRS_HTTP__TLS_KEY / _FILE)")
  | None, Some _ => Err (Bail "NESTRS_HTTP__TLS_KEY is set but no certificate (NESTRS_HTTP__TLS_CERT / _FILE)")
  end.

(** What a variable or the file it names supplies. *)
Definition pem_source (env : environment) (inline_var file_var : string) (pem : string) : Prop :=
  env_var env inline_var = Some pem \/
  (env_var env inline_var = None /\ exists path, env_var env file_var = Some path /\ read_file path = Ok pem).

Definition pem_unset (env : environment) (inline_var file_var : string) : Prop :=
  env_var env inline_var = None /\ env_var env file_var = None.

Lemma read_env_pem_cases env i f :
  match read_env_pem env i f with
  | Ok (Some pem) => pem_source env i f pem
  | Ok None => pem_unset env i f
  | Err e => env_var env i = None /\ exists path cause, env_var env f = Some path /\ read_file path = Err cause /\
               e = Reading ("reading " +:+ f +:+ " at " +:+ path) cause
  end.
Proof.
  unfold read_env_pem, pem_source, pem_unset. destruct (env_var env i) as [pem|]; [by left|].
  destruct (env_var env f) as [path|]; [|done]. destruct (read_file path) as [bytes|cause] eqn:E; simpl; [right|]; eauto 10.
Qed.

(** TLS is all or nothing: material comes from a full pair, an inline variable before its file; plain HTTP only
    when all four variables are unset; and a half of the pair, or a file that cannot be read, is an
    error, never a fall back to plain HTTP. *)
Lemma tls_from_env_all_or_nothing env :
  let cert := ("NESTRS_HTTP__TLS_CERT", "NESTRS_HTTP__TLS_CERT_FILE") in
  let key := ("NESTRS_HTTP__TLS_KEY", "NESTRS_HTTP__TLS_KEY_FILE") in
  (forall t, tls_from_env env = Ok (Some t) -> pem_source env cert.1 cert.2 (tls_cert t) /\ pem_source env key.1 key.2 (tls_key t)) /\
  (tls_from_env env = Ok None <-> pem_unset env cert.1 cert.2 /\ pem_unset env key.1 key.2).
Proof.
  intros cert key. unfold tls_from_env, cert, key. cbn [fst snd].
  pose proof (read_env_pem_cases env "NESTRS_HTTP__TLS_CERT" "NESTRS_HTTP__TLS_CERT_FILE") as Hc.
  pose proof (read_env_pem_cases env "NESTRS_HTTP__TLS_KEY" "NESTRS_HTTP__TLS_KEY_FILE") as Hk.
  destruct (read_env_pem env "NESTRS_HTTP__TLS_CERT" _) as [[c|]|e]; simpl;
    (destruct (read_env_pem env "NESTRS_HTTP__TLS_KEY" _) as [[k|]|e']; simpl);
    (split; [intros t [= <-]; by split || done|]);
    (split; [done|intros [Hcu Hku]]); unfold pem_unset, pem_source in *; naive_solver.
Qed.

End tls.

(** ** Serving *)

Section serving.
Context {X W Env C Route : Type}.

(** The rest of the transport: where it binds, its TLS material and the endpoint [configure] leaves in it. *)
Record transport := Transport {
  tr_layers : http_transport (X:=X) (W:=W) (Env:=Env) (C:=C) (Route:=Route);
  tr_bind : string;
  tr_tls : option tls_config;
  tr_endpoint : option (endpoint X W Env)
}.

Definition new_transport : transport := Transport transport_new "0.0.0.0:3000" None None.
Definition set_bind (addr : string) (t : transport) : transport := Transport (tr_layers t) addr (tr_tls t) (tr_endpoint t).
Definition set_tls (tls : tls_config) (t : transport) : transport := Transport (tr_layers t) (tr_bind t) (Some tls) (tr_endpoint t).
Definition take_endpoint (t : transport) : option (endpoint X W Env) * transport :=
  (tr_endpoint t, Transport (tr_layers t) (tr_bind t) (tr_tls t) None).

Context (route_new : Route) (route_endpoint : Route -> endpoint X W Env).

(** [configure] drains what was registered into the endpoint. *)
Definition configure_transport {S} `{!Extension X S} (new_scope : C -> W -> S * W) (t : transport) (c : C)
    (d : discovered (X:=X) (W:=W) (Env:=Env)) : transport :=
  Transport transport_new (tr_bind t) (tr_tls t) (Some (configure route_new route_endpoint new_scope (tr_layers t) c d)).

Inductive listener := TcpListener (addr : string) | Rustls (addr : string) (tls : tls_config).

(** [serve]: [None] is the panic of the [expect]; running the server until it is cancelled is poem's. *)
Definition serve {R} (run : listener -> endpoint X W Env -> R) (t : transport) : option R :=
  ep ← tr_endpoint t;
  Some (run (match tr_tls t with Some tls => Rustls (tr_bind t) tls | None => TcpListener (tr_bind t) end) ep).

(** A configured transport serves the assembled endpoint, over TLS exactly when it was given material; one whose
    endpoint a test has taken panics. *)
Lemma configured_transport_serves {S R} `{!Extension X S} (new_scope : C -> W -> S * W) t c d (run : listener -> endpoint X W Env -> R) :
  let t' := configure_transport new_scope t c d in
  serve run t' = Some (run (match tr_tls t with Some tls => Rustls (tr_bind t) tls | None => TcpListener (tr_bind t) end)
                        (configure route_new route_endpoint new_scope (tr_layers t) c d)) /\
  fst (take_endpoint t') = Some (configure route_new route_endpoint new_scope (tr_layers t) c d) /\
  serve run (snd (take_endpoint t')) = None.
Proof. done. Qed.

(** Configuring again rebuilds the endpoint of what discovery finds, without the guards, filters, interceptors,
    mounts and CORS that the first run has drained. *)
Lemma configured_twice_drops_layers {S} `{!Extension X S} (new_scope : C -> W -> S * W) t c d :
  tr_endpoint (configure_transport new_scope (configure_transport new_scope t c d) c d) =
  Some (configure route_new route_endpoint new_scope transport_new c d).
Proof. done. Qed.

End serving.

(** ** Parse pipes *)

(** [rsplit("::").next()]: what follows the last separator. *)
Fixpoint after_last_colons (l : list Ascii.ascii) : option (list Ascii.ascii) :=
  match l with
  | [] => None
  | c :: r =>
      match after_last_colons r with
      | Some s => Some s
      | None => match r with c' :: r' => if Ascii.eqb c colon && Ascii.eqb c' colon then Some r' else None | [] => None end
      end
  end.

Definition short_type_name (name : string) : string := default name (of_chars <$> after_last_colons (chars name)).

Definition parse_pipe {A} (from_str : string -> option A) (type_name : string) (input : string) : result A pipe_error :=
  ok_or (from_str input) (pipe_error_new ("must be a valid " +:+ short_type_name type_name)).

(** [i64::from_str]. *)
Definition i64_min : Z := - 2 ^ 63.
Definition i64_max : Z := 2 ^ 63 - 1.

Definition parse_i64 (s : string) : option Z :=
  match strip_prefix "-" s with
  | Some digits =>
      if String.eqb digits "" then None
      else d ← NilEmpty.uint_of_string digits;
           let n := (- Z.of_N (N.of_uint d))%Z in if (i64_min <=? n)%Z then Some n else None
  | None => parse_uint i64_max s
  end.

(** [bool::from_str]. *)
Definition parse_bool (s : string) : option bool :=
  if String.eqb s "true" then Some true else if String.eqb s "false" then Some false else None.

Definition parse_int : string -> result Z pipe_error := parse_pipe parse_i64 "i64".
Definition parse_float : string -> result spec_float pipe_error := parse_pipe parse_f64 "f64".
Definition parse_bool_pipe : string -> result bool pipe_error := parse_pipe parse_bool "bool".

(** [Lowercase] and [Uppercase]; a string is ASCII here. *)
Definition fold_upper (c : Ascii.ascii) : Ascii.ascii :=
  let n := Ascii.nat_of_ascii c in if (97 <=? n)%nat && (n <=? 122)%nat then Ascii.ascii_of_nat (n - 32) else c.

Definition lowercase_pipe (input : string) : result string pipe_error := Ok (to_ascii_lowercase input).
Definition uppercase_pipe (input : string) : result string pipe_error := Ok (of_chars (map fold_upper (chars input))).

(** Folding to upper case after lower case is folding to upper case. *)
Lemma fold_twice input :
  (let? lower := lowercase_pipe input in uppercase_pipe lower) = uppercase_pipe input.
Proof.
  unfold lowercase_pipe, uppercase_pipe, to_ascii_lowercase. simpl. f_equal.
  assert (Hchars : forall l, chars (of_chars l) = l) by (induction l as [|c l IH]; simpl; congruence).
  rewrite Hchars, map_map. f_equal. apply map_ext. intros [[] [] [] [] [] [] [] []]; reflexivity.
Qed.

(** [i64::to_string]. *)
Definition show_i64 (n : Z) : string := if (n <? 0)%Z then "-" +:+ show_u64 (- n) else show_u64 n.

(** An integer argument is read exactly, and never wraps. *)
Lemma parse_i64_range s n : parse_i64 s = Some n -> (i64_min <= n <= i64_max)%Z.
Proof.
  unfold parse_i64. destruct (strip_prefix "-" s) as [digits|].
  - destruct (String.eqb digits ""); [done|]. destruct (NilEmpty.uint_of_string digits) as [d|]; simpl; [|done].
    case_match eqn:Hle; [|done]. intros [= <-]. apply Z.leb_le in Hle. unfold i64_max, i64_min in *. lia.
  - unfold parse_uint. case_match; [done|]. destruct (NilEmpty.uint_of_string _) as [d|]; simpl; [|done].
    case_match eqn:Hle; [|done]. intros [= <-]. apply Z.leb_le in Hle. unfold i64_max, i64_min in *. lia.
Qed.

Lemma strip_minus_digits s : Forall (fun c => is_digit c = true) (chars s) -> strip_prefix "-" s = None.
Proof.
  intros Hd. unfold strip_prefix. destruct (strip_chars (chars "-") (chars s)) as [r|] eqn:E; [|done].
  apply strip_chars_some in E. rewrite E in Hd. by inversion Hd.
Qed.

Lemma strip_minus s : strip_prefix "-" ("-" +:+ s) = Some s.
Proof. unfold strip_prefix. simpl. by rewrite of_chars_chars. Qed.

Lemma parse_show_i64 n : (i64_min <= n <= i64_max)%Z -> parse_i64 (show_i64 n) = Some n.
Proof.
  intros Hn. unfold show_i64. destruct (Z.ltb_spec n 0) as [Hneg|Hpos].
  - unfold parse_i64. rewrite strip_minus. destruct (String.eqb_spec (show_u64 (- n)) "") as [E|_]; [by apply show_u64_nonempty in E|].
    unfold show_u64. rewrite NilEmpty.usu. simpl. rewrite DecimalN.Unsigned.of_to, Z2N.id by lia. rewrite Z.opp_involutive.
    by rewrite (proj2 (Z.leb_le _ _)) by lia.
  - unfold parse_i64. rewrite strip_minus_digits by apply show_u64_digits. rewrite parse_show_digits by done.
    by rewrite (proj2 (Z.leb_le _ _)) by lia.
Qed.

(** ** The extractors *)

Section extractors.
Context {X : Type} `{Serde}.

(** [Piped<P, E>]: the extractor's own rejection, or the pipe's as a 400, or the value transformed. *)
Definition piped_from_request {In Out} (extract : request X -> result In http_error) (transform : In -> result Out pipe_error)
    (req : request X) : result Out http_error :=
  let? value := extract req in map_err reject (transform value).

(** [Valid<E>] is [Piped<ValidationPipe<T>, E>]. *)
Lemma valid_is_piped {A} (extract : request X -> result A http_error) (validate : A -> result unit (option json)) req :
  valid_from_request extract validate req = piped_from_request extract (validation_pipe validate) req.
Proof. done. Qed.

(** A handler behind a pipe is given only what the pipe let through; the answer otherwise is the extractor's
    own, or a 400 that names the pipe's reason. *)
Lemma piped_cases {In Out} (extract : request X -> result In http_error) (transform : In -> result Out pipe_error) req :
  match piped_from_request extract transform req with
  | Ok out => exists value, extract req = Ok value /\ transform value = Ok out
  | Err e => extract req = Err e \/
      exists value err, extract req = Ok value /\ transform value = Err err /\ e = reject err /\ status (into_response e) = 400%Z
  end.
Proof.
  unfold piped_from_request. destruct (extract req) as [value|e]; simpl; [|by left].
  destruct (transform value) as [out|err] eqn:E; simpl; [by exists value|]. right. by exists value, err.
Qed.

End extractors.

(** ** The documentation page *)

Section docs.
Context `{SchemaGenerator}.
(** The embedded files, and serde_json's pretty printer with its fall back. *)
Context (index_html swagger_css swagger_bundle_js swagger_preset_js : string) (pretty : json -> option string) (compact : json -> string).

Definition docs_path : string := "/api".
Definition spec_path : string := "/api-json".

Definition swagger_index : response := Response 200 (Some "text/html; charset=utf-8") [] index_html.

Definition asset (content_type body : string) : response :=
  Response 200 (Some content_type) [("cache-control", "public, max-age=31536000, immutable")] body.

Definition spec_endpoint (spec : string) : response := Response 200 (Some "application/json") [] spec.

(** The mount closure of the module: the [get] endpoints it adds to the route. *)
Definition docs_routes (controllers : list http_controller_meta) (options : open_api_options) : list (string * response) :=
  let document := build_document controllers (oa_title options) (oa_version options) (oa_description options) in
  let spec := default (compact document) (pretty document) in
  [(spec_path, spec_endpoint spec); (docs_path, swagger_index);
   ("/api/swagger-ui.css", asset "text/css" swagger_css);
   ("/api/swagger-ui-bundle.js", asset "application/javascript" swagger_bundle_js);
   ("/api/swagger-ui-standalone-preset.js", asset "application/javascript" swagger_preset_js)].

(** What [assets/index.html] asks for: its style sheet, its two scripts and the document. *)
Definition index_references : list string :=
  ["/api/swagger-ui.css"; "/api/swagger-ui-bundle.js"; "/api/swagger-ui-standalone-preset.js"; "/api-json"].

(** The page is whole: all it refers to is served beside it, each path once, the document as built from the
    controllers at the mount, and only the version-pinned assets are cached for good. *)
Lemma docs_page_is_whole controllers options :
  let routes := docs_routes controllers options in
  Forall (fun path => exists resp, (path, resp) ∈ routes /\ status resp = 200%Z) (docs_path :: index_references) /\
  NoDup routes.*1 /\
  (forall resp, (spec_path, resp) ∈ routes ->
     content_type resp = Some "application/json" /\ resp_headers resp = [] /\
     resp_body resp = let doc := build_document controllers (oa_title options) (oa_version options) (oa_description options) in
                 default (compact doc) (pretty doc)).
Proof.
  intros routes. split; [|split].
  - assert (Hok : Forall (fun r : string * response => status r.2 = 200%Z) routes) by (repeat (apply Forall_cons; split; [done|]); done).
    assert (Hin : Forall (fun path => path ∈ routes.*1) (docs_path :: index_references))
      by (apply (bool_decide_unpack _); by vm_compute).
    eapply Forall_impl; [exact Hin|]. intros path ([p resp] & -> & Hr)%list_elem_of_fmap. exists resp. split; [done|].
    rewrite Forall_forall in Hok. by apply (Hok (p, resp)).
  - apply (bool_decide_unpack _). by vm_compute.
  - intros resp Hr. unfold routes, docs_routes in Hr.
    apply elem_of_cons in Hr as [[= ->]|Hr]; [done|].
    repeat (apply elem_of_cons in Hr as [Hr|Hr]; [discriminate Hr|]). by apply elem_of_nil in Hr.
Qed.

End docs.

(** ** Concrete runs *)

Module HttpEdgeDemo.

Definition disk (path : string) : result string string :=
  if String.eqb path "/tls/tls.crt" then Ok "CERT" else if String.eqb path "/tls/tls.key" then Ok "KEY" else Err "not found".

Definition env_of (l : list (string * string)) : environment := list_to_map (map (fun kv => (kv.1, Some kv.2)) l).

(** Mounted files; an inline key before its file; an empty variable is unset; half a pair; a missing file. *)
Example tls_environments :
  tls_from_env disk (env_of [("NESTRS_HTTP__TLS_CERT_FILE", "/tls/tls.crt"); ("NESTRS_HTTP__TLS_KEY_FILE", "/tls/tls.key")])
    = Ok (Some (TlsConfig "CERT" "KEY")) /\
  tls_from_env disk (env_of [("NESTRS_HTTP__TLS_CERT_FILE", "/tls/tls.crt"); ("NESTRS_HTTP__TLS_KEY", "PEM"); ("NESTRS_HTTP__TLS_KEY_FILE", "/tls/tls.key")])
    = Ok (Some (TlsConfig "CERT" "PEM")) /\
  tls_from_env disk (env_of [("NESTRS_HTTP__TLS_CERT", ""); ("NESTRS_HTTP__TLS_KEY_FILE", "")]) = Ok None /\
  tls_from_env disk (env_of [("NESTRS_HTTP__TLS_CERT_FILE", "/tls/tls.crt")])
    = Err (Bail "NESTRS_HTTP__TLS_CERT is set but no key (NESTRS_HTTP__TLS_KEY / _FILE)") /\
  tls_from_env disk (env_of [("NESTRS_HTTP__TLS_KEY", "PEM"); ("NESTRS_HTTP__TLS_CERT_FILE", "/nowhere")])
    = Err (Reading "reading NESTRS_HTTP__TLS_CERT_FILE at /nowhere" "not found").
Proof. repeat split; vm_compute; reflexivity. Qed.

(** The message of a parse pipe names the type by its last segment; of a generic type it is the last segment
    of an argument, with what closes it. *)
Example parse_messages :
  parse_int "42" = Ok 42%Z /\ parse_int "-9223372036854775808" = Ok i64_min /\
  parse_int "9223372036854775808" = Err (PipeError "must be a valid i64" None) /\ parse_int "-" = Err (PipeError "must be a valid i64" None) /\
  parse_bool_pipe "yes" = Err (PipeError "must be a valid bool" None) /\
  uppercase_pipe "aB1" = Ok "AB1" /\ lowercase_pipe "Aa@X.IO" = Ok "aa@x.io" /\
  short_type_name "app::color::Color" = "Color" /\ short_type_name "app::Tagged<app::Color>" = "Color>".
Proof. repeat split; vm_compute; reflexivity. Qed.

End HttpEdgeDemo.
