(* ===== verification/Telemetry.v ===== *)
(** Telemetry ([nestrs-telemetry]): the configuration read from the environment ([config.rs]), the process-wide
    OpenTelemetry and subscriber state that [Telemetry::init] sets up and its guard shuts down
    ([telemetry.rs], [otlp.rs]), the module that requires it ([module.rs]) and the interceptor that observes
    each request ([interceptor.rs]).

    The OpenTelemetry SDK, tracing-subscriber and poem's streaming of a body are parameters: whether an
    exporter builds and a filter parses, the trace id of a span, and the sequence of polls a body sees. *)

From Stdlib Require Import Ascii SpecFloat.
From S2P Require Import Prelude Container Codegen Http OpenApi ServerTiming Config.

(** ** Configuration *)

Inductive log_format := Text | Json.

Definition parse_log_format (raw : string) : option log_format :=
  let word := to_ascii_lowercase (trim raw) in
  if String.eqb word "text" then Some Text else if String.eqb word "json" then Some Json else None.

Record telemetry_config := TelemetryConfig {
  service_name : string;
  service_version : option string;
  deployment_environment : option string;
  service_instance_id : option string;
  log_filter : string;
  log_format_ : log_format;
  otlp_endpoint : option string;
  trace_sample_ratio : spec_float
}.

Definition telemetry_config_new (name : string) : telemetry_config :=
  TelemetryConfig name None None None "info" Text None f64_one.

Definition from_env (env : environment) (name : string) : telemetry_config :=
  let cfg := telemetry_config_new name in
  TelemetryConfig
    (match env_var env "NESTRS_SERVICE__NAME" with Some v => v | None => service_name cfg end)
    (env_var env "NESTRS_SERVICE__VERSION")
    (env_var env "NESTRS_SERVICE__ENVIRONMENT")
    (env_var env "NESTRS_SERVICE__INSTANCE_ID")
    (match env_var env "NESTRS_LOG__LEVEL" with Some v => v | None => log_filter cfg end)
    (match env_var env "NESTRS_LOG__FORMAT" with
     | Some raw => match parse_log_format raw with Some fmt => fmt | None => log_format_ cfg end
     | None => log_format_ cfg
     end)
    (env_var env "NESTRS_TELEMETRY__OTLP_ENDPOINT")
    (match env_var env "NESTRS_TELEMETRY__SAMPLE_RATIO" with
     | Some raw => match parse_f64 raw with Some r => f64_clamp r f64_zero f64_one | None => trace_sample_ratio cfg end
     | None => trace_sample_ratio cfg
     end).

Definition with_log_filter (cfg : telemetry_config) (filter : string) : telemetry_config :=
  TelemetryConfig (service_name cfg) (service_version cfg) (deployment_environment cfg) (service_instance_id cfg)
    filter (log_format_ cfg) (otlp_endpoint cfg) (trace_sample_ratio cfg).
Definition with_log_format (cfg : telemetry_config) (format : log_format) : telemetry_config :=
  TelemetryConfig (service_name cfg) (service_version cfg) (deployment_environment cfg) (service_instance_id cfg)
    (log_filter cfg) format (otlp_endpoint cfg) (trace_sample_ratio cfg).
Definition with_otlp_endpoint (cfg : telemetry_config) (endpoint : string) : telemetry_config :=
  TelemetryConfig (service_name cfg) (service_version cfg) (deployment_environment cfg) (service_instance_id cfg)
    (log_filter cfg) (log_format_ cfg) (Some endpoint) (trace_sample_ratio cfg).
Definition with_service_version (cfg : telemetry_config) (version : string) : telemetry_config :=
  TelemetryConfig (service_name cfg) (Some version) (deployment_environment cfg) (service_instance_id cfg)
    (log_filter cfg) (log_format_ cfg) (otlp_endpoint cfg) (trace_sample_ratio cfg).
Definition with_deployment_environment (cfg : telemetry_config) (env : string) : telemetry_config :=
  TelemetryConfig (service_name cfg) (service_version cfg) (Some env) (service_instance_id cfg)
    (log_filter cfg) (log_format_ cfg) (otlp_endpoint cfg) (trace_sample_ratio cfg).
Definition with_trace_sample_ratio (cfg : telemetry_config) (ratio : spec_float) : telemetry_config :=
  TelemetryConfig (service_name cfg) (service_version cfg) (deployment_environment cfg) (service_instance_id cfg)
    (log_filter cfg) (log_format_ cfg) (otlp_endpoint cfg) (f64_clamp ratio f64_zero f64_one).

(** [OtelHttp::default]. *)
Definition access_log_enabled (env : environment) : bool :=
  match env_var env "NESTRS_HTTP__ACCESS_LOG" with
  | Some raw => negb (existsb (String.eqb (to_ascii_lowercase (trim raw))) ["0"; "false"; "off"; "no"])
  | None => true
  end.

(** ** The process-wide state *)

(** The console layer: JSON with or without the current span and the list of its parents. *)
Inductive console := TextLayer | JsonLayer (current_span span_list : bool).

Definition console_layer (format : log_format) : console :=
  match format with Text => TextLayer | Json => JsonLayer false false end.

Inductive sampler := TraceIdRatioBased (ratio : spec_float) | ParentBased (root : sampler).

(** A provider of the SDK: the attributes of its resource, how it samples and where it exports to. *)
Record sdk_provider := SdkProvider { pv_resource : list (string * string); pv_sampler : option sampler; pv_exporter : option string }.

(** Providers are numbered as they are built. *)
Record tracing_subscriber := Subscriber {
  sb_filter : string;
  sb_console : console;
  sb_tracer : option nat;                    (* the provider of the OpenTelemetry layer *)
  sb_logger : option (nat * string)          (* the provider of the appender layer, and its filter *)
}.

Record otel_state := OtelState {
  os_initialized : bool;                     (* [INITIALIZED] *)
  os_subscriber : option tracing_subscriber;         (* tracing's global default *)
  os_propagator : bool;
  os_tracer : option nat;                    (* OpenTelemetry's globals *)
  os_meter : option nat;
  os_built : list sdk_provider;
  os_shut_down : gset nat
}.

Inductive telemetry_error := InitFailed (msg : string) | OtlpFailed (msg : string).

Definition telemetry_error_text (e : telemetry_error) : string :=
  match e with
  | InitFailed msg => "telemetry init failed: " +:+ msg
  | OtlpFailed msg => "OTLP exporter build failed: " +:+ msg
  end.

Record exporters := Exporters { ex_tracer_provider : nat; ex_meter_provider : option nat; ex_logger_provider : option nat }.

(** The guard: the providers its drop shuts down. *)
Record telemetry := Telemetry { tl_tracer : option nat; tl_meter : option nat; tl_logger : option nat }.

Section init.
(** Whether the exporter for an endpoint builds, whether a filter is [EnvFilter] syntax, the text of a fresh
    UUID, and the error of a second subscriber. *)
Context (exporter_builds : string -> result unit string) (filter_parses : string -> bool) (now_v7 : otel_state -> string)
  (already_set : string).

Definition env_filter (text : string) : string := if filter_parses text then text else "info".

(** The attributes [build_resource] lists, under their names of the semantic conventions. *)
Definition build_resource (cfg : telemetry_config) (st : otel_state) : list (string * string) :=
  [("service.name", service_name cfg); ("service.instance.id", default (now_v7 st) (service_instance_id cfg))] ++
  match service_version cfg with Some v => [("service.version", v)] | None => [] end ++
  match deployment_environment cfg with Some d => [("deployment.environment.name", d)] | None => [] end.

(** A provider is built; the tracer's and the meter's are made global. *)
Definition build_tracer (p : sdk_provider) (st : otel_state) : nat * otel_state :=
  (length (os_built st), OtelState (os_initialized st) (os_subscriber st) (os_propagator st) (Some (length (os_built st))) (os_meter st)
                           (os_built st ++ [p]) (os_shut_down st)).
Definition build_meter (p : sdk_provider) (st : otel_state) : nat * otel_state :=
  (length (os_built st), OtelState (os_initialized st) (os_subscriber st) (os_propagator st) (os_tracer st) (Some (length (os_built st)))
                           (os_built st ++ [p]) (os_shut_down st)).
Definition build_logger (p : sdk_provider) (st : otel_state) : nat * otel_state :=
  (length (os_built st), OtelState (os_initialized st) (os_subscriber st) (os_propagator st) (os_tracer st) (os_meter st)
                           (os_built st ++ [p]) (os_shut_down st)).

Definition set_propagator (st : otel_state) : otel_state :=
  OtelState (os_initialized st) (os_subscriber st) true (os_tracer st) (os_meter st) (os_built st) (os_shut_down st).

(** [otlp::build]. *)
Definition build_exporters (cfg : telemetry_config) (st : otel_state) : result exporters telemetry_error * otel_state :=
  let st := set_propagator st in
  let resource := build_resource cfg st in
  let sampling := ParentBased (TraceIdRatioBased (trace_sample_ratio cfg)) in
  let endpoint := trim_end_slashes <$> otlp_endpoint cfg in
  let spans := match endpoint with Some base => exporter_builds (base +:+ "/v1/traces") | None => Ok tt end in
  match spans with
  | Err e => (Err (OtlpFailed e), st)
  | Ok _ =>
      let '(tracer, st) := build_tracer (SdkProvider resource (Some sampling) ((fun base => base +:+ "/v1/traces") <$> endpoint)) st in
      match endpoint with
      | None => (Ok (Exporters tracer None None), st)
      | Some base =>
          match exporter_builds (base +:+ "/v1/metrics") with
          | Err e => (Err (OtlpFailed e), st)
          | Ok _ =>
              let '(meter, st) := build_meter (SdkProvider resource None (Some (base +:+ "/v1/metrics"))) st in
              match exporter_builds (base +:+ "/v1/logs") with
              | Err e => (Err (OtlpFailed e), st)
              | Ok _ =>
                  let '(logger, st) := build_logger (SdkProvider resource None (Some (base +:+ "/v1/logs"))) st in
                  (Ok (Exporters tracer (Some meter) (Some logger)), st)
              end
          end
      end
  end.

(** [try_init]: the global default is set once. *)
Definition try_init (sb : tracing_subscriber) (st : otel_state) : result unit telemetry_error * otel_state :=
  match os_subscriber st with
  | Some _ => (Err (InitFailed already_set), st)
  | None => (Ok tt, OtelState (os_initialized st) (Some sb) (os_propagator st) (os_tracer st) (os_meter st) (os_built st) (os_shut_down st))
  end.

Definition mark_initialized (st : otel_state) : otel_state :=
  OtelState true (os_subscriber st) (os_propagator st) (os_tracer st) (os_meter st) (os_built st) (os_shut_down st).

(** [Telemetry::init_with]: with the [otlp] feature, and without it. *)
Definition init_otlp (cfg : telemetry_config) (st : otel_state) : result telemetry telemetry_error * otel_state :=
  let filter := env_filter (log_filter cfg) in
  let fmt_layer := console_layer (log_format_ cfg) in
  let '(built, st) := build_exporters cfg st in
  match built with
  | Err e => (Err e, st)
  | Ok ex =>
      let appender := (fun lp => (lp, env_filter (log_filter cfg))) <$> ex_logger_provider ex in
      let '(r, st) := try_init (Subscriber filter fmt_layer (Some (ex_tracer_provider ex)) appender) st in
      match r with
      | Err e => (Err e, st)
      | Ok _ => (Ok (Telemetry (Some (ex_tracer_provider ex)) (ex_meter_provider ex) (ex_logger_provider ex)), mark_initialized st)
      end
  end.

Definition init_console (cfg : telemetry_config) (st : otel_state) : result telemetry telemetry_error * otel_state :=
  let '(r, st) := try_init (Subscriber (env_filter (log_filter cfg)) (console_layer (log_format_ cfg)) None None) st in
  match r with
  | Err e => (Err e, st)
  | Ok _ => (Ok (Telemetry None None None), mark_initialized st)
  end.

Definition init_with (otlp : bool) (cfg : telemetry_config) (st : otel_state) : result telemetry telemetry_error * otel_state :=
  if otlp then init_otlp cfg st else init_console cfg st.

Definition init (otlp : bool) (env : environment) (name : string) (st : otel_state) : result telemetry telemetry_error * otel_state :=
  init_with otlp (from_env env name) st.

(** [Telemetry::init_for_tests], given [RUST_LOG]: a subscriber without OpenTelemetry, or the one that is
    there already. *)
Definition init_for_tests (rust_log : option string) (st : otel_state) : otel_state :=
  if os_initialized st then st
  else
    let filter := match rust_log with Some text => if filter_parses text then text else "warn" | None => "warn" end in
    mark_initialized (try_init (Subscriber filter (console_layer Text) None None) st).2.

(** The guard's [Drop]. *)
Definition telemetry_drop (t : telemetry) (st : otel_state) : otel_state :=
  OtelState (os_initialized st) (os_subscriber st) (os_propagator st) (os_tracer st) (os_meter st) (os_built st)
    (list_to_set (option_list (tl_tracer t) ++ option_list (tl_meter t) ++ option_list (tl_logger t)) ∪ os_shut_down st).

Definition in_quotes (s : string) : string := let q := String (ascii_of_nat 34) "" in q +:+ s +:+ q.

Definition not_initialized : string :=
  "TelemetryModule was imported without calling `Telemetry::init` first — the global tracer and meter are no-ops, " +:+
  "so traces and metrics would be silently dropped. Add `let _telemetry = nestrs_telemetry::Telemetry::init(" +:+
  in_quotes "<service>" +:+ ")?;` at the top of `main`, before building the app.".

(** [TelemetryModule::register]: [otel_http] is the interceptor's [Discoverable] impl under the [http]
    feature, and the meter is read off the globals under [otlp]. *)
Context `{Payloads}.

Definition telemetry_register (module_ty meter_ty : ty) (otel_http : option discoverable) (meter : option val) (st : otel_state) (b : container_builder)
  : result (list registration) panic :=
  let '(first, b1) := mark_registered module_ty b in
  if negb first then Ok []
  else if negb (os_initialized st) then Err (PanicExpect not_initialized)
  else
    let? rs := match otel_http with Some d => d_register d b1 | None => Ok [] end in
    Ok (RMarkRegistered module_ty :: rs ++ match meter with Some m => [RProvideArc meter_ty m] | None => [] end).

End init.

(** ** The interceptor *)

(** What is seen of a request: spans are numbered as they are opened. *)
Inductive observation (A : Type) :=
| SpanOpened (span : nat) (method : http_method) (path ip user_agent : string) (parent : option A)
| SpanRecorded (span : nat) (field : string) (value : Z)
| AccessEvent (method : http_method) (path : string) (status bytes : Z) (duration_ms : spec_float) (ip user_agent trace_id : string).
Arguments SpanOpened {A} _ _ _ _ _ _.
Arguments SpanRecorded {A} _ _ _.
Arguments AccessEvent {A} _ _ _ _ _ _ _ _.

(** A clock, what was observed, and the rest of the world. *)
Record observed_world (A W : Type) := ObservedWorld { ow_now : Z; ow_seen : list (observation A); ow_spans : nat; ow_rest : W }.
Arguments ObservedWorld {A W} _ _ _ _.
Arguments ow_now {A W} _.
Arguments ow_seen {A W} _.
Arguments ow_spans {A W} _.
Arguments ow_rest {A W} _.

Record access_log := AccessLog {
  al_method : http_method;
  al_path : string;
  al_status : Z;
  al_client_ip : string;
  al_user_agent : string;
  al_trace_id : string;
  al_start : Z;
  al_span : nat;
  al_access_log : bool
}.

Record access_log_body := AccessLogBody { alb_counted : Z; alb_log : option access_log }.

(** What the inner stream answers a poll with. *)
Inductive body_poll := Pending | Chunk (bytes : string) | Ended | Failed (err : string).

Inductive peer := Socket (ip : string) (port : Z) | OtherAddr (display : string).

Section interceptor.
Context {A W Env X : Type}.
Context (extract_parent : list (string * string) -> A)           (* the text map propagator *)
  (trace_id_of : nat -> option string)                           (* the id of a span's context, when it is valid *)
  (remote_addr : request X -> peer).
Context `{HeaderValues}.

Definition see (o : observation A) (w : observed_world A W) : observed_world A W :=
  ObservedWorld (ow_now w) (ow_seen w ++ [o]) (ow_spans w) (ow_rest w).

(** [AccessLog::emit]. *)
Definition emit_log (al : access_log) (bytes : Z) (w : observed_world A W) : observed_world A W :=
  let w := see (SpanRecorded (al_span al) "http.response.body.size" bytes) w in
  if al_access_log al then
    see (AccessEvent (al_method al) (al_path al) (al_status al) bytes (as_millis_f64 (saturating_sub (ow_now w) (al_start al)))
           (al_client_ip al) (al_user_agent al) (al_trace_id al)) w
  else w.

Definition emit_once (b : access_log_body) (w : observed_world A W) : access_log_body * observed_world A W :=
  match alb_log b with
  | Some al => (AccessLogBody (alb_counted b) None, emit_log al (alb_counted b) w)
  | None => (b, w)
  end.

(** [poll_next], given the inner stream's answer, which it passes on; and [drop]. *)
Definition poll_next (p : body_poll) (b : access_log_body) (w : observed_world A W) : access_log_body * observed_world A W :=
  match p with
  | Chunk bytes => (AccessLogBody (wrap_u64 (alb_counted b + Z.of_nat (String.length bytes))) (alb_log b), w)
  | Ended | Failed _ => emit_once b w
  | Pending => (b, w)
  end.

Definition drop_body (b : access_log_body) (w : observed_world A W) : observed_world A W := (emit_once b w).2.

(** The life of a body: polled at some times, then dropped. *)
Definition at_time (t : Z) (w : observed_world A W) : observed_world A W := ObservedWorld t (ow_seen w) (ow_spans w) (ow_rest w).

Definition poll_at (bw : access_log_body * observed_world A W) (tp : Z * body_poll) : access_log_body * observed_world A W :=
  poll_next tp.2 bw.1 (at_time tp.1 bw.2).

Definition transmit (b : access_log_body) (polls : list (Z * body_poll)) (dropped : Z) (w : observed_world A W) : observed_world A W :=
  let '(b1, w1) := foldl poll_at (b, w) polls in drop_body b1 (at_time dropped w1).

Definition header (name : string) (req : request X) : option string :=
  snd <$> List.find (fun kv : string * string => String.eqb kv.1 name) (rq_headers req).

Definition uri_path (uri : string) : string := default uri (head (split "?" uri)).

Definition client_ip (req : request X) : string := match remote_addr req with Socket ip _ => ip | OtherAddr d => d end.

(** [HeaderValue::to_str]: visible ASCII and tabs. *)
Definition to_str (v : string) : option string :=
  if forallb (fun c => visible c || Ascii.eqb c (ascii_of_nat 9)) (chars v) then Some v else None.

Definition user_agent (req : request X) : option string := header "user-agent" req ≫= to_str.

(** [headers_mut().insert]. *)
Definition insert_header (name value : string) (r : response) : response :=
  Response (status r) (content_type r) (List.filter (fun kv : string * string => negb (String.eqb kv.1 name)) (resp_headers r) ++ [(name, value)])
    (resp_body r).

(** [OtelHttp::intercept]: the response, and the body it is sent through. *)
Definition otel_http (log_enabled : bool) (next : endpoint X (observed_world A W) Env) (env : Env) (req : request X) (w : observed_world A W)
  : response * access_log_body * observed_world A W :=
  let method := rq_method req in
  let path := uri_path (rq_uri req) in
  let ip := client_ip req in
  let agent := default "" (user_agent req) in
  let span := ow_spans w in
  let parent := match header "traceparent" req with Some _ => Some (extract_parent (rq_headers req)) | None => None end in
  let w := ObservedWorld (ow_now w) (ow_seen w ++ [SpanOpened span method path ip agent parent]) (S span) (ow_rest w) in
  let trace_id := default "" (trace_id_of span) in
  let trace_header := from_str trace_id in
  let start := ow_now w in
  let '(out, w) := next env req w in
  let response := match out with Ok r => r | Err err => into_response err end in
  let w := see (SpanRecorded span "http.response.status_code" (status response)) w in
  let response := match trace_header with Some val => insert_header "x-trace-id" val response | None => response end in
  (response, AccessLogBody 0 (Some (AccessLog method path (status response) ip agent trace_id start span log_enabled)), w).

(** As a layer of the pipeline, which answers before the body is sent. *)
Definition otel_interceptor (log_enabled : bool) : interceptor X (observed_world A W) Env := fun next env req w =>
  let '(response, _, w1) := otel_http log_enabled next env req w in (Ok response, w1).

End interceptor.

(** ** The settings *)

Definition telemetry_variables : list string :=
  ["NESTRS_SERVICE__NAME"; "NESTRS_SERVICE__VERSION"; "NESTRS_SERVICE__ENVIRONMENT"; "NESTRS_SERVICE__INSTANCE_ID";
   "NESTRS_LOG__LEVEL"; "NESTRS_LOG__FORMAT"; "NESTRS_TELEMETRY__OTLP_ENDPOINT"; "NESTRS_TELEMETRY__SAMPLE_RATIO"].

Lemma from_env_ext env env' name :
  (forall k, k ∈ telemetry_variables -> env_var env k = env_var env' k) -> from_env env name = from_env env' name.
Proof.
  intros He. unfold from_env.
  rewrite (He "NESTRS_SERVICE__NAME"), (He "NESTRS_SERVICE__VERSION"), (He "NESTRS_SERVICE__ENVIRONMENT"), (He "NESTRS_SERVICE__INSTANCE_ID"),
    (He "NESTRS_LOG__LEVEL"), (He "NESTRS_LOG__FORMAT"), (He "NESTRS_TELEMETRY__OTLP_ENDPOINT"), (He "NESTRS_TELEMETRY__SAMPLE_RATIO");
    [done|unfold telemetry_variables; set_solver..].
Qed.

Lemma env_var_delete (env : environment) k k' : env_var env k = None -> env_var (delete k env) k' = env_var env k'.
Proof.
  unfold env_var. intros Hk. destruct (decide (k' = k)) as [->|]; [by rewrite lookup_delete_eq, Hk|by rewrite lookup_delete_ne].
Qed.

(** The settings read from the environment.  They are a function of eight variables, and a variable that is
    empty or not Unicode is as good as removed.  The sampling ratio is within the unit interval, or it is
    not a number, which happens exactly when the variable spells [nan]; text that is no number leaves the
    default, to sample every trace, as does an unset variable. *)
Lemma telemetry_settings_from_environment env name :
  (forall env', (forall k, k ∈ telemetry_variables -> env_var env k = env_var env' k) -> from_env env name = from_env env' name) /\
  (forall k, env_var env k = None -> from_env (delete k env) name = from_env env name) /\
  match env_var env "NESTRS_TELEMETRY__SAMPLE_RATIO" ≫= parse_f64 with
  | None => trace_sample_ratio (from_env env name) = f64_one
  | Some S754_nan => trace_sample_ratio (from_env env name) = S754_nan
  | Some _ => in_unit (trace_sample_ratio (from_env env name)) = true
  end.
Proof.
  split; [intros env'; apply from_env_ext|]. split.
  - intros k Hk. apply from_env_ext. intros k' _. by apply env_var_delete.
  - unfold from_env. simpl. destruct (env_var env "NESTRS_TELEMETRY__SAMPLE_RATIO") as [raw|]; [|done]. simpl.
    destruct (parse_f64 raw) as [[s|s| |s m e]|]; [by apply f64_clamp_unit..|apply f64_clamp_nan|by apply f64_clamp_unit|done].
Qed.

(** ** The access log *)

(** What reaches the client of a body: the chunks before its end, its failure or its drop. *)
Fixpoint sent (polls : list (Z * body_poll)) : Z :=
  match polls with
  | [] => 0
  | (_, Chunk bytes) :: rest => Z.of_nat (String.length bytes) + sent rest
  | (_, Pending) :: rest => sent rest
  | (_, Ended) :: _ | (_, Failed _) :: _ => 0
  end.

Fixpoint finished (polls : list (Z * body_poll)) (dropped : Z) : Z :=
  match polls with
  | [] => dropped
  | (t, Ended) :: _ | (t, Failed _) :: _ => t
  | _ :: rest => finished rest dropped
  end.

Section observed.
Context {A W Env X : Type}.
Variables (extract_parent : list (string * string) -> A) (trace_id_of : nat -> option string) (remote_addr : request X -> peer).
Context `{HeaderValues}.
Implicit Types (w : observed_world A W) (b : access_log_body) (al : access_log).

Definition emitted al (bytes now : Z) : list (observation A) :=
  SpanRecorded (al_span al) "http.response.body.size" bytes ::
  (if al_access_log al then
     [AccessEvent (al_method al) (al_path al) (al_status al) bytes (as_millis_f64 (saturating_sub now (al_start al)))
        (al_client_ip al) (al_user_agent al) (al_trace_id al)]
   else []).

Lemma emit_log_seen al bytes w : ow_seen (emit_log al bytes w) = ow_seen w ++ emitted al bytes (ow_now w) /\
  ow_rest (emit_log al bytes w) = ow_rest w.
Proof. unfold emit_log, emitted. destruct (al_access_log al); simpl; by rewrite <- ?app_assoc. Qed.

(** A body that has logged observes nothing more. *)
Lemma transmit_logged c polls dropped w :
  ow_seen (transmit (AccessLogBody c None) polls dropped w) = ow_seen w /\ ow_rest (transmit (AccessLogBody c None) polls dropped w) = ow_rest w.
Proof.
  unfold transmit. revert c w. induction polls as [|[t p] polls IH]; intros c w; [done|]. simpl. unfold poll_at at 2 4. simpl.
  destruct p; simpl; exact (IH _ (at_time t w)).
Qed.

Lemma transmit_once al polls dropped : forall c w, u64 c ->
  ow_seen (transmit (AccessLogBody c (Some al)) polls dropped w) = ow_seen w ++ emitted al (wrap_u64 (c + sent polls)) (finished polls dropped) /\
  ow_rest (transmit (AccessLogBody c (Some al)) polls dropped w) = ow_rest w.
Proof.
  assert (Hlast : forall c w, u64 c -> wrap_u64 (c + 0) = c).
  { intros c w Hc. unfold wrap_u64. rewrite Z.add_0_r. apply Z.mod_small. unfold u64, u64_max in Hc. lia. }
  induction polls as [|[t p] polls IH]; intros c w Hc.
  - unfold transmit. simpl. rewrite (Hlast c w Hc). unfold drop_body, emit_once. simpl. apply (emit_log_seen al c (at_time dropped w)).
  - destruct p as [|bytes| |err].
    + exact (IH c (at_time t w) Hc).
    + simpl sent. simpl finished. rewrite Z.add_assoc.
      assert (Hu : u64 (wrap_u64 (c + Z.of_nat (String.length bytes)))).
      { unfold u64, u64_max, wrap_u64. pose proof (Z.mod_pos_bound (c + Z.of_nat (String.length bytes)) (2 ^ 64)). lia. }
      destruct (IH _ (at_time t w) Hu) as [Hs Hr].
      replace (wrap_u64 (c + Z.of_nat (String.length bytes) + sent polls)) with (wrap_u64 (wrap_u64 (c + Z.of_nat (String.length bytes)) + sent polls))
        by (unfold wrap_u64; by rewrite Zplus_mod_idemp_l).
      exact (conj Hs Hr).
    + change (transmit (AccessLogBody c (Some al)) ((t, Ended) :: polls) dropped w)
        with (transmit (AccessLogBody c None) polls dropped (emit_log al c (at_time t w))).
      destruct (transmit_logged c polls dropped (emit_log al c (at_time t w))) as [-> ->]. simpl sent. simpl finished.
      rewrite (Hlast c w Hc). apply (emit_log_seen al c (at_time t w)).
    + change (transmit (AccessLogBody c (Some al)) ((t, Failed err) :: polls) dropped w)
        with (transmit (AccessLogBody c None) polls dropped (emit_log al c (at_time t w))).
      destruct (transmit_logged c polls dropped (emit_log al c (at_time t w))) as [-> ->]. simpl sent. simpl finished.
      rewrite (Hlast c w Hc). apply (emit_log_seen al c (at_time t w)).
Qed.

(** What a client sees of an outcome, but for the trace header. *)
Definition unobserved (out : result response http_error) : response := match out with Ok r => r | Err err => into_response err end.

(** A request is observed once, and exactly.  Whatever the inner endpoint does and however the response
    body is polled before it is dropped, its span gets the response's status and then, at the end of the
    body, its failure or its drop, whichever is first, the number of bytes that were sent; with the access log
    on, one access event carries the same number, the time the request took until then, and the request's
    method, path and address.  The response is the one of the inner endpoint, an error rendered, with the
    trace header. *)
Lemma access_log_observes_once log_enabled (next : endpoint X (observed_world A W) Env) env req w polls dropped :
  let span := ow_spans w in
  let opened := ObservedWorld (ow_now w)
    (ow_seen w ++ [SpanOpened span (rq_method req) (uri_path (rq_uri req)) (client_ip remote_addr req) (default "" (user_agent req))
       (match header "traceparent" req with Some _ => Some (extract_parent (rq_headers req)) | None => None end)]) (S span) (ow_rest w) in
  let '(out, w0) := next env req opened in
  let '(resp, body, w1) := otel_http extract_parent trace_id_of remote_addr log_enabled next env req w in
  let bytes := wrap_u64 (sent polls) in
  ow_seen (transmit body polls dropped w1) =
    ow_seen w0 ++ [SpanRecorded span "http.response.status_code" (status resp); SpanRecorded span "http.response.body.size" bytes] ++
    (if log_enabled then
       [AccessEvent (rq_method req) (uri_path (rq_uri req)) (status resp) bytes
          (as_millis_f64 (saturating_sub (finished polls dropped) (ow_now w)))
          (client_ip remote_addr req) (default "" (user_agent req)) (default "" (trace_id_of span))]
     else []) /\
  ow_rest (transmit body polls dropped w1) = ow_rest w0 /\
  resp = match from_str (default "" (trace_id_of span)) with
         | Some v => insert_header "x-trace-id" v (unobserved out)
         | None => unobserved out
         end.
Proof.
  cbv zeta. unfold otel_http. destruct (next env req _) as [out w0]. fold (unobserved out).
  assert (Hst : status (match from_str (default "" (trace_id_of (ow_spans w))) with
                        | Some v => insert_header "x-trace-id" v (unobserved out) | None => unobserved out end) = status (unobserved out))
    by (by destruct (from_str _)).
  match goal with |- context [transmit (AccessLogBody 0 (Some ?al)) _ _ ?w1] =>
    destruct (transmit_once al polls dropped 0 w1 ltac:(unfold u64, u64_max; lia)) as [Hs Hr]; rewrite Hs, Hr end.
  rewrite Hst. split; [|done]. unfold emitted. simpl. rewrite <- app_assoc. by destruct log_enabled.
Qed.

End observed.

(** ** Setting up *)

Section setup.
Variables (exporter_builds : string -> result unit string) (filter_parses : string -> bool) (now_v7 : otel_state -> string)
  (already_set : string).
Implicit Types (st : otel_state) (cfg : telemetry_config).

(** Every exporter of the configuration builds. *)
Definition exporters_build cfg : Prop :=
  match trim_end_slashes <$> otlp_endpoint cfg with
  | None => True
  | Some base => exporter_builds (base +:+ "/v1/traces") = Ok tt /\ exporter_builds (base +:+ "/v1/metrics") = Ok tt /\
      exporter_builds (base +:+ "/v1/logs") = Ok tt
  end.

Ltac failed_build := repeat (split; [done|]); split; [|done]; split; [done|]; intros (? & ? & ?); congruence.

(** What an initialisation builds: providers of one resource, which names the service and tells its instance,
    one that samples by the ratio and, with an endpoint, one per signal that exports below it. *)
Definition providers_of cfg st : list sdk_provider :=
  let resource := build_resource now_v7 cfg (set_propagator st) in
  SdkProvider resource (Some (ParentBased (TraceIdRatioBased (trace_sample_ratio cfg))))
    ((fun base => trim_end_slashes base +:+ "/v1/traces") <$> otlp_endpoint cfg) ::
  match otlp_endpoint cfg with
  | Some base => map (fun signal => SdkProvider resource None (Some (trim_end_slashes base +:+ signal))) ["/v1/metrics"; "/v1/logs"]
  | None => []
  end.

Lemma build_exporters_spec cfg st : let '(r, st') := build_exporters exporter_builds now_v7 cfg st in
  os_initialized st' = os_initialized st /\ os_subscriber st' = os_subscriber st /\ os_shut_down st' = os_shut_down st /\
  (is_ok r = true <-> exporters_build cfg) /\
  (forall ex, r = Ok ex -> os_tracer st' = Some (ex_tracer_provider ex) /\
     os_meter st' = match ex_meter_provider ex with Some m => Some m | None => os_meter st end /\
     os_built st' = os_built st ++ providers_of cfg st /\ ex_tracer_provider ex = length (os_built st)).
Proof.
  unfold build_exporters, exporters_build, providers_of. destruct (otlp_endpoint cfg) as [base|]; simpl.
  - destruct (exporter_builds (trim_end_slashes base +:+ "/v1/traces")) as [[]|] eqn:E1; [|by failed_build].
    destruct (exporter_builds (trim_end_slashes base +:+ "/v1/metrics")) as [[]|] eqn:E2; [|by failed_build].
    destruct (exporter_builds (trim_end_slashes base +:+ "/v1/logs")) as [[]|] eqn:E3; [|by failed_build].
    split_and!; try done. intros ex [= <-]. cbn. by rewrite <- !(assoc_L (++)).
  - split_and!; try done. by intros ex [= <-].
Qed.

(** Telemetry is set up once, with the exporters or without: an initialisation succeeds exactly when its
    exporters build and no subscriber is installed yet, and then marks the process; one that fails leaves
    the mark and the subscriber as they were. *)
Lemma init_once otlp cfg st : let '(r, st') := init_with exporter_builds filter_parses now_v7 already_set otlp cfg st in
  (is_ok r = true <-> (otlp = true -> exporters_build cfg) /\ os_subscriber st = None) /\
  (forall t, r = Ok t -> os_initialized st' = true /\
     (exists sb, os_subscriber st' = Some sb /\ sb_tracer sb = tl_tracer t /\
        sb_filter sb = env_filter filter_parses (log_filter cfg) /\ sb_console sb = console_layer (log_format_ cfg)) /\
     if otlp then os_tracer st' = tl_tracer t /\ tl_tracer t = Some (length (os_built st)) /\ os_built st' = os_built st ++ providers_of cfg st
     else t = Telemetry None None None /\ os_built st' = os_built st) /\
  (forall e, r = Err e -> os_initialized st' = os_initialized st /\ os_subscriber st' = os_subscriber st).
Proof.
  unfold init_with, init_otlp, init_console. destruct otlp.
  - pose proof (build_exporters_spec cfg st) as Hb. destruct (build_exporters _ _ cfg st) as [r st1].
    destruct Hb as (Hi & Hs & _ & Hiff & Hg). destruct r as [ex|e].
    + destruct (Hg _ eq_refl) as (Ht & _ & Hbl & Hn). unfold try_init. rewrite Hs.
      assert (exporters_build cfg) by by apply Hiff.
      destruct (os_subscriber st) as [sb|] eqn:Es; simpl; (split; [naive_solver|]); (split; [|done]); [done|].
      intros t [= <-]. split; [done|]. split; [by eexists|]. simpl. by rewrite Ht, Hn, Hbl.
    + split; [split; [done|]|split; [done|]].
      * intros [He _]. by apply Hiff, He.
      * intros e' _. by rewrite Hi, Hs.
  - unfold try_init. destruct (os_subscriber st) as [sb|] eqn:Es; simpl; (split; [naive_solver|]); (split; [|done]); [done|].
    intros t [= <-]. split; [done|]. split; [by eexists|done].
Qed.

(** The guard shuts down what an initialisation built, and nothing else. *)
Lemma guard_flushes_what_it_built cfg st : let '(r, st') := init_otlp exporter_builds filter_parses now_v7 already_set cfg st in
  forall t, r = Ok t -> os_shut_down (telemetry_drop t st') = list_to_set (seq (length (os_built st)) (length (providers_of cfg st))) ∪ os_shut_down st.
Proof.
  unfold init_otlp, build_exporters, providers_of. destruct (otlp_endpoint cfg) as [base|]; simpl.
  - destruct (exporter_builds (trim_end_slashes base +:+ "/v1/traces")) as [[]|]; [|done].
    destruct (exporter_builds (trim_end_slashes base +:+ "/v1/metrics")) as [[]|]; [|done].
    destruct (exporter_builds (trim_end_slashes base +:+ "/v1/logs")) as [[]|]; [|done].
    unfold try_init. simpl. destruct (os_subscriber st); [done|]. simpl. intros t [= <-]. simpl.
    by rewrite !length_app, !Nat.add_1_r.
  - unfold try_init. simpl. destruct (os_subscriber st); [done|]. simpl. by intros t [= <-].
Qed.

(** The module insists on it. *)
Lemma telemetry_module_requires_init `{Payloads} module_ty meter_ty otel_http meter st b :
  module_ty ∉ registered_modules b ->
  (os_initialized st = false -> exists p, telemetry_register module_ty meter_ty otel_http meter st b = Err p) /\
  (os_initialized st = true -> forall rs,
     match otel_http with Some d => d_register d (mark_registered module_ty b).2 = Ok rs | None => rs = [] end ->
     telemetry_register module_ty meter_ty otel_http meter st b =
       Ok (RMarkRegistered module_ty :: rs ++ match meter with Some m => [RProvideArc meter_ty m] | None => [] end)).
Proof.
  intros Hn. unfold telemetry_register, mark_registered. rewrite bool_decide_eq_false_2 by done. simpl.
  split; intros ->; simpl; [by eexists|]. intros rs Hrs. destruct otel_http as [d|]; [|by subst]. simpl in Hrs. by rewrite Hrs.
Qed.

End setup.

(** ** A process *)

Module TelemetryDemo.

Definition env : environment := {["NESTRS_SERVICE__NAME" := Some "api"; "NESTRS_SERVICE__VERSION" := Some "";
  "NESTRS_LOG__FORMAT" := Some " JSON "; "NESTRS_TELEMETRY__SAMPLE_RATIO" := Some "2.5"]}.

Example configured :
  let cfg := from_env env "svc" in
  service_name cfg = "api" /\ service_version cfg = None /\ log_filter cfg = "info" /\ log_format_ cfg = Json /\ trace_sample_ratio cfg = f64_one.
Proof. repeat split; by vm_compute. Qed.

Lemma telemetry_settings_from_environment_witness :
  from_env (delete "NESTRS_SERVICE__VERSION" env) "svc" = from_env env "svc" /\
  from_env (<["PATH" := Some "/bin"]> env) "svc" = from_env env "svc".
Proof.
  split.
  - apply (proj1 (proj2 (telemetry_settings_from_environment env "svc"))). by vm_compute.
  - symmetry. apply (proj1 (telemetry_settings_from_environment env "svc")). intros k Hk.
    unfold telemetry_variables in Hk. rewrite !elem_of_cons, elem_of_nil in Hk.
    destruct Hk as [->|[->|[->|[->|[->|[->|[->|[->|[]]]]]]]]]; vm_compute; reflexivity.
Defined.

(** The documented range is not kept. *)
Example ratio_not_a_number :
  let cfg := from_env {["NESTRS_TELEMETRY__SAMPLE_RATIO" := Some "nan"]} "svc" in
  trace_sample_ratio cfg = S754_nan /\ in_unit (trace_sample_ratio cfg) = false.
Proof. split; by vm_compute. Qed.

Definition fresh_process : otel_state := OtelState false None false None None [] ∅.
Definition builds (_ : string) : result unit string := Ok tt.
Definition parses (_ : string) : bool := true.
Definition drawn (st : otel_state) : string := "uuid-" +:+ show_u64 (Z.of_nat (length (os_built st))).
Definition start (exporter : string -> result unit string) := init_with exporter parses drawn "already set" true.

(** A second initialisation fails, and has replaced OpenTelemetry's tracer by one that no guard shuts down:
    what is exported through the globals from then on is not flushed. *)
Example failed_init_takes_the_globals :
  let '(first, st1) := start builds (telemetry_config_new "a") fresh_process in
  let '(second, st2) := start builds (telemetry_config_new "b") st1 in
  first = Ok (Telemetry (Some 0) None None) /\ second = Err (InitFailed "already set") /\
  os_tracer st1 = Some 0 /\ os_tracer st2 = Some 1 /\ os_subscriber st2 = os_subscriber st1 /\
  os_shut_down (telemetry_drop (Telemetry (Some 0) None None) st2) = {[0]}.
Proof. repeat split; by vm_compute. Qed.

(** With an endpoint the three signals are exported below it, as one service. *)
Example three_signals :
  let cfg := with_deployment_environment (with_otlp_endpoint (telemetry_config_new "api") "http://otel:4318/") "prod" in
  let resource := [("service.name", "api"); ("service.instance.id", "uuid-0"); ("deployment.environment.name", "prod")] in
  let '(r, st) := start builds cfg fresh_process in
  r = Ok (Telemetry (Some 0) (Some 1) (Some 2)) /\
  os_built st = [SdkProvider resource (Some (ParentBased (TraceIdRatioBased f64_one))) (Some "http://otel:4318/v1/traces");
                 SdkProvider resource None (Some "http://otel:4318/v1/metrics"); SdkProvider resource None (Some "http://otel:4318/v1/logs")].
Proof. split; by vm_compute. Qed.

(** A log exporter that does not build leaves the tracer and meter of a failed initialisation behind. *)
Example failed_build_takes_the_globals :
  let endpoint := TelemetryConfig "a" None None None "info" Text (Some "http://otel:4318/") f64_one in
  let no_logs url := if String.eqb url "http://otel:4318/v1/logs" then Err "no client" else Ok tt in
  let '(r, st) := start no_logs endpoint fresh_process in
  r = Err (OtlpFailed "no client") /\ os_tracer st = Some 0 /\ os_meter st = Some 1 /\ os_initialized st = false.
Proof. repeat split; by vm_compute. Qed.

#[export] Instance any_value : HeaderValues.
Proof. refine {| from_str s := Some s |}; [done|by intros s v [= <-]]. Defined.

Definition get_users : request unit := Request GET "/users?page=2" [("user-agent", "curl")] [] "" ∅.
Definition world0 : observed_world unit unit := ObservedWorld 1000000 [] 0 tt.
Definition not_found : endpoint unit (observed_world unit unit) unit := fun _ _ w => (Err (error_from_string "no such user" 404), at_time 2000000 w).
Definition observed_request (trace : option string) := otel_http (fun _ => tt) (fun _ => trace) (fun _ => Socket "10.0.0.1" 5000) true not_found tt get_users world0.

(** A client that disconnects after six of twelve bytes. *)
Example disconnect_is_logged :
  let '(resp, body, w1) := observed_request (Some "4bf9") in
  let w2 := transmit body [(3000000, Chunk "no suc"); (4000000, Pending)]%Z 5000000 w1 in
  resp_headers resp = [("x-trace-id", "4bf9")] /\
  ow_seen w2 = [SpanOpened 0 GET "/users" "10.0.0.1" "curl" None; SpanRecorded 0 "http.response.status_code" 404;
                SpanRecorded 0 "http.response.body.size" 6;
                AccessEvent GET "/users" 404 6 (as_millis_f64 4000000) "10.0.0.1" "curl" "4bf9"].
Proof. split; by vm_compute. Qed.

(** A span that is disabled has no trace id: the header is sent all the same, empty. *)
Example trace_header_is_empty :
  resp_headers (observed_request None).1.1 = [("x-trace-id", "")].
Proof. by vm_compute. Qed.

(** An interceptor outside this one is shown a response where the inner endpoint failed. *)
Example errors_are_swallowed :
  (otel_interceptor (fun _ => tt) (fun _ => None) (fun _ => OtherAddr "") true not_found tt get_users world0).1 =
    Ok (insert_header "x-trace-id" "" (into_response (error_from_string "no such user" 404))).
Proof. by vm_compute. Qed.

End TelemetryDemo.
