(* ===== verification/Testing.v ===== *)
(** The test harness ([nestrs-testing]): the throwaway databases of end-to-end runs ([database.rs]) and the
    builder that boots an application in process ([app.rs], [headless.rs]).

    Postgres is a parameter: which databases a [LIKE] selects and whether a statement fails.  The shared
    server is a set of database names; tests, in one process or several, interleave at every await: a
    process has its own counter of names and its own lock, and stands for its id. *)

From Stdlib Require Import Ascii.
From S2P Require Import Prelude Container Access Codegen Register Lifecycle App.

(** ** Names *)

Definition underscore : ascii := ascii_of_nat 95.

(** [u128::MAX]. *)
Definition u128_max : Z := 2 ^ 128 - 1.

(** [unique_name], of the process id, the clock and the process-wide counter. *)
Definition unique_name (pid nanos seq : Z) : string :=
  "nestrs_e2e_" +:+ show_u64 pid +:+ "_" +:+ show_u64 nanos +:+ "_" +:+ show_u64 seq.

Definition stale_after_nanos : Z := 5 * 60 * 1000000000.

(** The age gate of [reap_stale]: the creation time is the fourth field of the name. *)
Definition stale (now : Z) (name : string) : bool :=
  match split underscore name !! 3%nat ≫= parse_uint u128_max with
  | Some created => (stale_after_nanos <? saturating_sub now created)%Z
  | None => true
  end.

(** ** The server *)

Inductive create_error := AlreadyExists | CreateRefused | MigrationFailed.

(** Where the call of a test is: its name is drawn, it holds the lock of its process, it walks the rows the
    reaper selected, it migrates, its guard is alive. *)
Inductive phase :=
| Named
| Locked
| Reaping (now : Z) (rows : list (option string))
| Migrating
| Live
| Failed (e : create_error)
| Dropped.

Record task := Task { tk_pid : Z; tk_nanos : Z; tk_seq : Z; tk_phase : phase }.

Definition task_name (a : task) : string := unique_name (tk_pid a) (tk_nanos a) (tk_seq a).
Definition at_phase (a : task) (p : phase) : task := Task (tk_pid a) (tk_nanos a) (tk_seq a) p.

(** The databases of the server; [SEQ] and [CREATE_LOCK] of each process; the tests. *)
Record harness := Harness { hn_dbs : gset string; hn_seq : gmap Z Z; hn_locks : gset Z; hn_tasks : gmap Z task }.

Definition next_seq (pid : Z) (h : harness) : Z := default 0%Z (hn_seq h !! pid).

Section server.
(** The rows of [SELECT datname .. LIKE], [None] for a failed query or a name that is not text; and whether
    a [DROP DATABASE], a [CREATE DATABASE] of a new name or what follows it fails. *)
Context (select_like : string -> gset string -> option (list (option string))) (drop_fails create_fails migration_fails : string -> bool).

Definition drop_database (name : string) (dbs : gset string) : gset string :=
  if drop_fails name then dbs else dbs ∖ {[name]}.

(** A turn of the reaper's loop. *)
Definition reap_row (now : Z) (dbs : gset string) (row : option string) : gset string :=
  match row with
  | None => dbs
  | Some name => if stale now name then drop_database name dbs else dbs
  end.

Definition reap_stale (now : Z) (dbs : gset string) : gset string :=
  match select_like "nestrs_e2e_%" dbs with
  | None => dbs
  | Some rows => foldl (reap_row now) dbs rows
  end.

(** [CREATE DATABASE]. *)
Definition create_database (name : string) (dbs : gset string) : result unit create_error * gset string :=
  if decide (name ∈ dbs) then (Err AlreadyExists, dbs)
  else if create_fails name then (Err CreateRefused, dbs) else (Ok tt, {[name]} ∪ dbs).

(** [create_with], uninterrupted: [nanos] is read before the lock is taken, [now] under it. *)
Definition create_with (pid nanos now : Z) (h : harness) : result string create_error * harness :=
  let name := unique_name pid nanos (next_seq pid h) in
  let seq := <[pid := wrap_u64 (next_seq pid h + 1)]> (hn_seq h) in
  let '(created, dbs) := create_database name (reap_stale now (hn_dbs h)) in
  let h := Harness dbs seq (hn_locks h) (hn_tasks h) in
  match created with
  | Err e => (Err e, h)
  | Ok _ => if migration_fails name then (Err MigrationFailed, h) else (Ok name, h)
  end.

(** What happens between two awaits of a test. *)
Inductive harness_op :=
| OpName (t pid nanos : Z)
| OpLock (t : Z)
| OpSelect (t now : Z)
| OpReap (t : Z)
| OpCreate (t : Z)
| OpMigrate (t : Z)
| OpDrop (t : Z) (name : string).

Definition set_task (t : Z) (a : task) (p : phase) (dbs : gset string) (locks : gset Z) (h : harness) : harness :=
  Harness dbs (hn_seq h) locks (<[t := at_phase a p]> (hn_tasks h)).

(** One step of one test; [None] where the test is not there. *)
Definition harness_step (h : harness) (op : harness_op) : option harness :=
  match op with
  | OpName t pid nanos =>
      match hn_tasks h !! t with
      | Some _ => None
      | None =>
          let seq := next_seq pid h in
          Some (Harness (hn_dbs h) (<[pid := wrap_u64 (seq + 1)]> (hn_seq h)) (hn_locks h)
                  (<[t := Task pid nanos seq Named]> (hn_tasks h)))
      end
  | OpLock t =>
      a ← hn_tasks h !! t;
      match tk_phase a with
      | Named =>
          if decide (tk_pid a ∈ hn_locks h) then None
          else Some (set_task t a Locked (hn_dbs h) ({[tk_pid a]} ∪ hn_locks h) h)
      | _ => None
      end
  | OpSelect t now =>
      a ← hn_tasks h !! t;
      match tk_phase a with
      | Locked => Some (set_task t a (Reaping now (default [] (select_like "nestrs_e2e_%" (hn_dbs h)))) (hn_dbs h) (hn_locks h) h)
      | _ => None
      end
  | OpReap t =>
      a ← hn_tasks h !! t;
      match tk_phase a with
      | Reaping now (row :: rows) => Some (set_task t a (Reaping now rows) (reap_row now (hn_dbs h) row) (hn_locks h) h)
      | _ => None
      end
  | OpCreate t =>
      a ← hn_tasks h !! t;
      match tk_phase a with
      | Reaping _ [] =>
          let '(created, dbs) := create_database (task_name a) (hn_dbs h) in
          Some (set_task t a (match created with Ok _ => Migrating | Err e => Failed e end) dbs (hn_locks h ∖ {[tk_pid a]}) h)
      | _ => None
      end
  | OpMigrate t =>
      a ← hn_tasks h !! t;
      match tk_phase a with
      | Migrating => Some (set_task t a (if migration_fails (task_name a) then Failed MigrationFailed else Live) (hn_dbs h) (hn_locks h) h)
      | _ => None
      end
  | OpDrop t name =>
      a ← hn_tasks h !! t;
      match tk_phase a with
      | Live =>
          if decide (task_name a = name) then Some (set_task t a Dropped (drop_database name (hn_dbs h)) (hn_locks h) h) else None
      | _ => None
      end
  end.

Fixpoint harness_run (h : harness) (ops : list harness_op) : option harness :=
  match ops with
  | [] => Some h
  | op :: ops' => h' ← harness_step h op; harness_run h' ops'
  end.

End server.

(** [str::split_once] and [rsplit_once] at a character. *)
Fixpoint split_once_chars (c : ascii) (l : list ascii) : option (list ascii * list ascii) :=
  match l with
  | [] => None
  | d :: l' => if Ascii.eqb c d then Some ([], l') else prod_map (cons d) id <$> split_once_chars c l'
  end.

Definition split_once (c : ascii) (s : string) : option (string * string) :=
  prod_map of_chars of_chars <$> split_once_chars c (chars s).

Definition rsplit_once (c : ascii) (s : string) : option (string * string) :=
  (fun lr => (of_chars (rev lr.2), of_chars (rev lr.1))) <$> split_once_chars c (rev (chars s)).

Definition swap_database (url db : string) : string :=
  let '(base, query) := match split_once "?" url with Some (b, q) => (b, Some q) | None => (url, None) end in
  let prefix := match rsplit_once "/" base with Some (p, _) => p | None => base end in
  match query with
  | Some q => prefix +:+ "/" +:+ db +:+ "?" +:+ q
  | None => prefix +:+ "/" +:+ db
  end.

(** ** The builder *)

Section test_app.
Context `{SetIter} `{Compiler} `{Structs} `{!UserCode}.
Context (impls : gmap ty module_impl) (descriptors : list module_descriptor) (resolvers : list resolver_descriptor).
(** [HttpTransport::configure] and the endpoint it leaves to take; a transport that [serve]s until cancelled. *)
Context {T E : Type} (default_transport : T) (configure : T -> container -> result E failure).

Record test_app_builder := TestAppBuilder { tb_inner : app_builder; tb_http : option T }.

Definition test_builder : test_app_builder := TestAppBuilder app_builder_new None.

(** The delegating methods. *)
Definition on_inner (f : app_builder -> app_builder) (tb : test_app_builder) : test_app_builder :=
  TestAppBuilder (f (tb_inner tb)) (tb_http tb).
Definition test_module (m : ty) : test_app_builder -> test_app_builder := on_inner (app_module m).
Definition test_provide (t : ty) (v : val) : test_app_builder -> test_app_builder := on_inner (app_provide t v).
Definition test_provide_arc (t : ty) (v : val) : test_app_builder -> test_app_builder := on_inner (app_provide_arc t v).
Definition test_provide_dyn (t : ty) (v : val) : test_app_builder -> test_app_builder := on_inner (app_provide_dyn t v).
Definition test_provide_factory (t : ty) (f : factory_fn) : test_app_builder -> test_app_builder := on_inner (app_provide_factory t f).
Definition test_override_value (t : ty) (v : val) : test_app_builder -> test_app_builder := on_inner (override_value t v).
Definition test_override_dyn (t : ty) (v : val) : test_app_builder -> test_app_builder := on_inner (override_dyn t v).
Definition test_http (transport : T) (tb : test_app_builder) : test_app_builder := TestAppBuilder (tb_inner tb) (Some transport).

Inductive test_error := BootFailed (e : boot_error) | ConfigureRejected (e : failure).

(** [build] and [build_headless]; neither runs a hook. *)
Definition test_build (tb : test_app_builder) : option (result (result (container * E) test_error) panic) :=
  r ← app_build impls descriptors resolvers (tb_inner tb);
  Some (let? built := r in
        Ok (let? c := map_err BootFailed built in
            let? ep := map_err ConfigureRejected (configure (default default_transport (tb_http tb)) c) in
            Ok (c, ep))).

Definition build_headless (tb : test_app_builder) : option (result (result container boot_error) panic) :=
  app_build impls descriptors resolvers (tb_inner tb).

End test_app.

(** [HeadlessApp::spawn_transport], then [TransportHandle::shutdown] of the task it spawned, which a panic
    ends with a [JoinError]. *)
Definition spawn_transport {T C F} (configure : T -> C -> result unit F) (t : T) (c : C) : result T F :=
  let? _ := configure t c in Ok t.

Inductive shutdown_error (F : Type) := TaskPanicked | ServeError (e : F).
Arguments TaskPanicked {F}.
Arguments ServeError {F} e.

Definition transport_shutdown {F} (ended : option (result unit F)) : result unit (shutdown_error F) :=
  match ended with
  | None => Err TaskPanicked
  | Some r => map_err ServeError r
  end.

(** ** The reaper's age gate *)

Lemma show_no_char c n : is_digit c = false -> c ∉ chars (show_u64 n).
Proof. intros Hc Hin. pose proof (show_u64_digits n) as Hd. rewrite Forall_forall in Hd. specialize (Hd c Hin). congruence. Qed.

Lemma unique_name_fields pid nanos seq :
  split underscore (unique_name pid nanos seq) = ["nestrs"; "e2e"; show_u64 pid; show_u64 nanos; show_u64 seq].
Proof.
  rewrite <- (split_join_char underscore ["nestrs"; "e2e"; show_u64 pid; show_u64 nanos; show_u64 seq]); [done|done|].
  repeat (apply Forall_cons; split; [|]); try (by apply show_no_char); [..|by apply Forall_nil];
    apply (bool_decide_unpack _); vm_compute; reflexivity.
Qed.

Lemma stale_unique_name pid nanos seq now : (0 <= nanos <= u128_max)%Z ->
  stale now (unique_name pid nanos seq) = (stale_after_nanos <? saturating_sub now nanos)%Z.
Proof.
  intros [H0 H1]. unfold stale. rewrite unique_name_fields. simpl. rewrite parse_show_digits by done.
  by rewrite (proj2 (Z.leb_le _ _)).
Qed.

Lemma unique_name_inj pid nanos seq pid' nanos' seq' :
  (0 <= pid)%Z -> (0 <= nanos)%Z -> (0 <= seq)%Z -> (0 <= pid')%Z -> (0 <= nanos')%Z -> (0 <= seq')%Z ->
  unique_name pid nanos seq = unique_name pid' nanos' seq' -> pid = pid' /\ nanos = nanos' /\ seq = seq'.
Proof.
  intros ?????? E. apply (f_equal (split underscore)) in E. rewrite !unique_name_fields in E. injection E as E1 E2 E3.
  assert (Hinj : forall a b, (0 <= a)%Z -> (0 <= b)%Z -> show_u64 a = show_u64 b -> a = b).
  { intros a b Ha Hb Es. apply (f_equal (parse_uint (Z.max a b))) in Es. rewrite !parse_show_digits in Es by done.
    rewrite !(proj2 (Z.leb_le _ _)) in Es by lia. congruence. }
  split; [|split]; by apply Hinj.
Qed.

Section survival.
Variables (select_like : string -> gset string -> option (list (option string))) (drop_fails create_fails migration_fails : string -> bool).
Implicit Types (h : harness) (dbs : gset string).

Abbreviation step := (harness_step select_like drop_fails create_fails migration_fails).
Abbreviation run := (harness_run select_like drop_fails create_fails migration_fails).
Abbreviation create := (create_with select_like drop_fails create_fails migration_fails).

(** *** What is reaped *)

Lemma elem_of_drop_database name x dbs : x ∈ drop_database drop_fails name dbs <-> x ∈ dbs /\ (x <> name \/ drop_fails name = true).
Proof. unfold drop_database. destruct (drop_fails name); set_solver. Qed.

Lemma elem_of_reap_row now x dbs row : x ∈ reap_row drop_fails now dbs row <->
  x ∈ dbs /\ ~ (row = Some x /\ stale now x = true /\ drop_fails x = false).
Proof.
  destruct row as [n|]; simpl; [|intuition congruence].
  destruct (stale now n) eqn:E; [rewrite elem_of_drop_database; destruct (drop_fails n) eqn:Ef|];
    destruct (decide (x = n)) as [->|]; intuition congruence.
Qed.

Lemma elem_of_reap_rows now x rows : forall dbs,
  x ∈ foldl (reap_row drop_fails now) dbs rows <-> x ∈ dbs /\ ~ (Some x ∈ rows /\ stale now x = true /\ drop_fails x = false).
Proof.
  induction rows as [|row rows IH]; intros dbs; simpl; [set_solver|]. rewrite IH, elem_of_cons, elem_of_reap_row.
  naive_solver.
Qed.

Lemma elem_of_reap now x dbs : x ∈ reap_stale select_like drop_fails now dbs <->
  x ∈ dbs /\ ~ (exists rows, select_like "nestrs_e2e_%" dbs = Some rows /\ Some x ∈ rows /\ stale now x = true /\ drop_fails x = false).
Proof.
  unfold reap_stale. destruct (select_like _ dbs) as [rows|]; [rewrite elem_of_reap_rows|]; naive_solver.
Qed.

Lemma elem_of_create_database x name dbs : x ∈ dbs -> x ∈ (create_database create_fails name dbs).2.
Proof. unfold create_database. intros Hx. case_decide; [done|]. destruct (create_fails name); simpl; set_solver. Qed.

(** *** A database under the steps of others *)

(** No step drops the database [name], created at [nanos], nor reads a clock more than five minutes later. *)
Definition spares (name : string) (nanos : Z) (op : harness_op) : Prop :=
  match op with OpSelect _ now => (now - nanos <= stale_after_nanos)%Z | OpDrop _ n => n <> name | _ => True end.

#[export] Instance spares_dec name nanos op : Decision (spares name nanos op).
Proof. destruct op; simpl; apply _. Defined.

(** Neither has a reaper that is under way. *)
Definition undisturbed (nanos : Z) h : Prop :=
  forall t a now rows, hn_tasks h !! t = Some a -> tk_phase a = Reaping now rows -> (now - nanos <= stale_after_nanos)%Z.

Lemma undisturbed_set nanos t a p dbs locks h : undisturbed nanos h ->
  (forall now rows, p = Reaping now rows -> (now - nanos <= stale_after_nanos)%Z) -> undisturbed nanos (set_task t a p dbs locks h).
Proof.
  intros Hu Hp t' a' now rows Ht Ha. simpl in Ht. destruct (decide (t = t')) as [->|Hne].
  - rewrite lookup_insert_eq in Ht. injection Ht as <-. by eapply Hp.
  - rewrite lookup_insert_ne in Ht by done. by eapply Hu.
Qed.

Lemma fresh_not_stale pid nanos seq now : (0 <= nanos <= u128_max)%Z -> (now - nanos <= stale_after_nanos)%Z ->
  stale now (unique_name pid nanos seq) = false.
Proof.
  intros Hn Hnow. rewrite stale_unique_name by done. apply Z.ltb_ge. unfold saturating_sub, stale_after_nanos in *. lia.
Qed.

Lemma step_spares pid nanos seq h op h' : (0 <= nanos <= u128_max)%Z -> step h op = Some h' ->
  spares (unique_name pid nanos seq) nanos op -> undisturbed nanos h -> unique_name pid nanos seq ∈ hn_dbs h ->
  undisturbed nanos h' /\ unique_name pid nanos seq ∈ hn_dbs h'.
Proof.
  intros Hn Hstep Hs Hu Hin. destruct op as [t p0 n0|t|t now|t|t|t|t n]; simpl in Hstep, Hs; destruct (hn_tasks h !! t) as [a|] eqn:Ea; try done; simpl in Hstep.
  - injection Hstep as <-. split; [|done]. intros t' a' now rows Ht Ha. simpl in Ht. destruct (decide (t = t')) as [->|Hne].
    + rewrite lookup_insert_eq in Ht. by injection Ht as <-.
    + rewrite lookup_insert_ne in Ht by done. by eapply Hu.
  - destruct (tk_phase a); try done. case_decide; [done|]. injection Hstep as <-. split; [|done]. by apply undisturbed_set.
  - destruct (tk_phase a); try done. injection Hstep as <-. split; [|done]. apply undisturbed_set; [done|]. by intros ? ? [= <- _].
  - destruct (tk_phase a) as [| |now [|row rows]| | | |] eqn:Ep; try done. injection Hstep as <-. pose proof (Hu _ _ _ _ Ea Ep) as Hnow.
    split; [apply undisturbed_set; [done|]; by intros ? ? [= <- _]|]. simpl. apply elem_of_reap_row. split; [done|].
    intros (_ & Hst & _). by rewrite fresh_not_stale in Hst.
  - destruct (tk_phase a) as [| |now [|row rows]| | | |]; try done. pose proof (elem_of_create_database _ (task_name a) _ Hin) as Hc.
    destruct (create_database _ _ _) as [created dbs]. injection Hstep as <-. split; [|done].
    apply undisturbed_set; [done|]. by destruct created.
  - destruct (tk_phase a); try done. injection Hstep as <-. split; [|done]. apply undisturbed_set; [done|]. by destruct (migration_fails _).
  - destruct (tk_phase a); try done. case_decide; [|done]. injection Hstep as <-. split; [by apply undisturbed_set|].
    simpl. apply elem_of_drop_database. split; [done|]. left. congruence.
Qed.

(** *** Names *)

(** [n] names have been drawn: those of one process have different numbers. *)
Definition numbered (n : Z) h : Prop :=
  (forall pid, (0 <= next_seq pid h <= n)%Z) /\
  (forall t a, hn_tasks h !! t = Some a -> (0 <= tk_pid a)%Z /\ (0 <= tk_nanos a)%Z /\ (0 <= tk_seq a < next_seq (tk_pid a) h)%Z) /\
  (forall t a t' a', hn_tasks h !! t = Some a -> hn_tasks h !! t' = Some a' ->
     tk_pid a = tk_pid a' -> tk_seq a = tk_seq a' -> t = t').

Definition op_ok (op : harness_op) : Prop := match op with OpName _ pid nanos => (0 <= pid)%Z /\ (0 <= nanos)%Z | _ => True end.

Lemma numbered_set n t a p dbs locks h : numbered n h -> hn_tasks h !! t = Some a -> numbered n (set_task t a p dbs locks h).
Proof.
  intros (Hseq & Hok & Hinj) Ha.
  assert (Hold : forall t' a', hn_tasks (set_task t a p dbs locks h) !! t' = Some a' ->
    exists a0, hn_tasks h !! t' = Some a0 /\ tk_pid a0 = tk_pid a' /\ tk_nanos a0 = tk_nanos a' /\ tk_seq a0 = tk_seq a').
  { intros t' a' Ht. simpl in Ht. destruct (decide (t = t')) as [->|Hne].
    - rewrite lookup_insert_eq in Ht. injection Ht as <-. by exists a.
    - rewrite lookup_insert_ne in Ht by done. by exists a'. }
  split_and!.
  - exact Hseq.
  - intros t' a' (a0 & H0 & Hp & Hn & Hs)%Hold. rewrite <-Hp, <-Hn, <-Hs. exact (Hok _ _ H0).
  - intros t1 a1 t2 a2 (b1 & H1 & Hp1 & _ & Hs1)%Hold (b2 & H2 & Hp2 & _ & Hs2)%Hold Hp Hs.
    apply (Hinj _ b1 _ b2); congruence.
Qed.

Lemma next_seq_insert h pid pid' v dbs locks tasks :
  next_seq pid' (Harness dbs (<[pid := v]> (hn_seq h)) locks tasks) = if decide (pid = pid') then v else next_seq pid' h.
Proof. unfold next_seq. simpl. case_decide; subst; [by rewrite lookup_insert_eq|by rewrite lookup_insert_ne]. Qed.

Lemma step_numbered n h op h' : step h op = Some h' -> op_ok op -> (0 <= n < u64_max)%Z -> numbered n h -> numbered (n + 1) h'.
Proof.
  intros Hstep Hop Hn Hnum. assert (Hmore : numbered (n + 1) h).
  { destruct Hnum as (Hseq & ? & ?). split; [|done]. intros pid. specialize (Hseq pid). lia. }
  destruct op as [t pid nanos|t|t now|t|t|t|t m]; simpl in Hstep; destruct (hn_tasks h !! t) as [a|] eqn:Ea; try done; simpl in Hstep;
    try (destruct (tk_phase a) as [| |now0 [|row rows]| | | |]; try done; repeat case_decide; try done;
         try (destruct (create_database _ _ _) as [created dbs]); injection Hstep as <-; by apply numbered_set).
  injection Hstep as <-. destruct Hnum as (Hseq & Hok & Hinj). pose proof (Hseq pid) as Hp.
  rewrite wrap_u64_small by (unfold u64, u64_max in *; lia). split_and!.
  - intros pid'. rewrite next_seq_insert. specialize (Hseq pid'). case_decide; lia.
  - intros t' a' Ht. simpl in Ht. destruct (decide (t = t')) as [->|Hne].
    + rewrite lookup_insert_eq in Ht. injection Ht as <-. simpl. rewrite next_seq_insert, decide_True by done. destruct Hop. lia.
    + rewrite lookup_insert_ne in Ht by done. destruct (Hok _ _ Ht) as (? & ? & ?). rewrite next_seq_insert.
      case_decide as E; [rewrite <-E in *|]; lia.
  - intros t1 a1 t2 a2 H1 H2 Hpid Hs. simpl in H1, H2. destruct (decide (t = t1)) as [<-|N1], (decide (t = t2)) as [<-|N2]; [done|..].
    + rewrite lookup_insert_eq in H1. rewrite lookup_insert_ne in H2 by done. injection H1 as <-. simpl in *.
      destruct (Hok _ _ H2) as (_ & _ & Hlt). rewrite <-Hpid in Hlt. lia.
    + rewrite lookup_insert_eq in H2. rewrite lookup_insert_ne in H1 by done. injection H2 as <-. simpl in *.
      destruct (Hok _ _ H1) as (_ & _ & Hlt). rewrite Hpid in Hlt. lia.
    + rewrite lookup_insert_ne in H1, H2 by done. by eapply Hinj.
Qed.

Lemma run_numbered ops : forall n h h', run h ops = Some h' -> Forall op_ok ops -> (0 <= n)%Z ->
  (n + Z.of_nat (length ops) <= u64_max)%Z -> numbered n h -> numbered (n + Z.of_nat (length ops)) h'.
Proof.
  induction ops as [|op ops IH]; intros n h h' Hrun Hok Hn Hlen Hnum; simpl in Hrun.
  { injection Hrun as <-. by replace (n + Z.of_nat (length []))%Z with n by (simpl; lia). }
  apply Forall_cons in Hok as [Ho Hok]. cbn [length] in *. destruct (step h op) as [h1|] eqn:E; [|done].
  replace (n + Z.of_nat (S (length ops)))%Z with (n + 1 + Z.of_nat (length ops))%Z by lia.
  eapply IH; [done|done|lia|lia|]. by eapply step_numbered; [| |lia|].
Qed.

(** *** One creation without interruption *)

Lemma run_app ops1 ops2 h : run h (ops1 ++ ops2) = h1 ← run h ops1; run h1 ops2.
Proof. revert h. induction ops1 as [|op ops1 IH]; intros h; [done|]. simpl. destruct (step h op); [apply IH|done]. Qed.

Lemma run_reap t a now rows : forall h, hn_tasks h !! t = Some a -> tk_phase a = Reaping now rows ->
  exists h1, run h (replicate (length rows) (OpReap t)) = Some h1 /\
    hn_dbs h1 = foldl (reap_row drop_fails now) (hn_dbs h) rows /\ hn_seq h1 = hn_seq h /\ hn_locks h1 = hn_locks h /\
    hn_tasks h1 !! t = Some (at_phase a (Reaping now [])).
Proof.
  revert a. induction rows as [|row rows IH]; intros a h Ht Hp.
  { exists h. split_and!; [done..|]. rewrite Ht. destruct a. simpl in *. by subst. }
  cbn [length replicate harness_run]. simpl step. rewrite Ht. cbn [mbind option_bind]. rewrite Hp.
  destruct (IH (at_phase a (Reaping now rows)) (set_task t a (Reaping now rows) (reap_row drop_fails now (hn_dbs h) row) (hn_locks h) h))
    as (h1 & Hrun & Hd & Hq & Hl & Ht1); [apply lookup_insert_eq|done|].
  exists h1. by split_and!.
Qed.

(** The steps of one test, in a row. *)
Definition uninterrupted (t pid nanos now : Z) h (r : result string create_error) : list harness_op :=
  [OpName t pid nanos; OpLock t; OpSelect t now] ++
  replicate (length (default [] (select_like "nestrs_e2e_%" (hn_dbs h)))) (OpReap t) ++ [OpCreate t] ++
  match r with Err AlreadyExists | Err CreateRefused => [] | _ => [OpMigrate t] end.

(** The next step of the test [t], whose entry is known. *)
Ltac step_test H := cbn [app harness_run harness_step hn_tasks set_task]; first [rewrite H | rewrite lookup_insert_eq]; cbn [mbind option_bind tk_phase at_phase tk_pid hn_locks].

Lemma uninterrupted_creates t pid nanos now h : hn_tasks h !! t = None -> pid ∉ hn_locks h ->
  let '(r, h1) := create pid nanos now h in
  exists h2 a, run h (uninterrupted t pid nanos now h r) = Some h2 /\ hn_dbs h2 = hn_dbs h1 /\ hn_seq h2 = hn_seq h1 /\
    hn_locks h2 = hn_locks h /\ hn_tasks h2 !! t = Some a /\
    task_name a = unique_name pid nanos (next_seq pid h) /\ tk_phase a = match r with Ok _ => Live | Err e => Failed e end.
Proof.
  intros Ht Hl. destruct (create pid nanos now h) as [r h1] eqn:Ec. unfold uninterrupted.
  set (rows := default [] _). step_test Ht. step_test Ht. rewrite decide_False by done. cbn [mbind option_bind]. step_test Ht.
  rewrite run_app.
  match goal with |- context [run (set_task _ ?a _ _ _ _) (replicate _ _)] => set (a0 := a) end.
  match goal with |- context [run ?g (replicate _ _)] => set (h0 := g) end.
  destruct (run_reap t (at_phase a0 (Reaping now rows)) now rows h0) as (h2 & Hrun & Hd & Hq & Hk & Ht2); [apply lookup_insert_eq|done|].
  rewrite Hrun. simpl in Hd, Hq, Hk.
  assert (Hreap : hn_dbs h2 = reap_stale select_like drop_fails now (hn_dbs h)).
  { rewrite Hd. unfold reap_stale, rows. by destruct (select_like _ _). }
  assert (Hkeep : ({[pid]} ∪ hn_locks h) ∖ {[pid]} = hn_locks h) by set_solver.
  cbn [mbind option_bind]. cbn [app harness_run harness_step]. rewrite Ht2. cbn [mbind option_bind tk_phase at_phase tk_pid a0].
  unfold task_name. cbn [tk_pid tk_nanos tk_seq at_phase a0]. rewrite Hreap.
  unfold create_with in Ec. destruct (create_database _ _ _) as [[[]|e] dbs] eqn:Ecd.
  - destruct (migration_fails (unique_name pid nanos (next_seq pid h))) eqn:Em; injection Ec as <- <-; cbn [mbind option_bind]; step_test Ht;
      unfold task_name; cbn [tk_pid tk_nanos tk_seq at_phase a0]; rewrite Em; eexists _, _; (split; [reflexivity|]);
      (split_and!; [done|exact Hq|simpl; by rewrite Hk|apply lookup_insert_eq|done|done]).
  - injection Ec as <- <-. assert (e <> MigrationFailed) as He.
    { unfold create_database in Ecd. intros ->. case_decide; [done|]. by destruct (create_fails _). }
    eexists _, _. split; [destruct e; [reflexivity|reflexivity|done]|].
    split_and!; [done|exact Hq|simpl; by rewrite Hk|apply lookup_insert_eq|done|done].
Qed.

(** [C40] The throwaway databases of concurrent runs leave each other alone.  A database on the server whose
    name says it was created at a time stays there, however the steps of other tests and processes interleave
    - their draws of a name, their queries, each drop of a reaper, their creations and migrations -, as long
    as no reaper reads a clock more than five minutes after that time and its own guard is not dropped.
    Whatever the interleaving, no two tests are ever given the same name, before a process has counted to
    2^64.  A creation, which uninterrupted is the sequence of these steps, makes a database that was not
    there, under a name no other process, time or counter gives; and it removes every database its query
    lists whose time is further back, unless that drop fails. *)
Theorem ephemeral_databases_coexist pid nanos seq h :
  (0 <= nanos <= u128_max)%Z ->
  (forall ops h', run h ops = Some h' -> unique_name pid nanos seq ∈ hn_dbs h -> undisturbed nanos h ->
     Forall (spares (unique_name pid nanos seq) nanos) ops -> unique_name pid nanos seq ∈ hn_dbs h') /\
  (hn_tasks h = ∅ -> hn_seq h = ∅ -> forall ops h', run h ops = Some h' -> Forall op_ok ops ->
     (Z.of_nat (length ops) < 2 ^ 64)%Z -> forall t a t' a', hn_tasks h' !! t = Some a -> hn_tasks h' !! t' = Some a' ->
     task_name a = task_name a' -> t = t') /\
  (forall t pid' nanos' now, hn_tasks h !! t = None -> pid' ∉ hn_locks h ->
     let '(r, h1) := create pid' nanos' now h in
     exists h2 a, run h (uninterrupted t pid' nanos' now h r) = Some h2 /\ hn_dbs h2 = hn_dbs h1 /\ hn_seq h2 = hn_seq h1 /\
       hn_locks h2 = hn_locks h /\ hn_tasks h2 !! t = Some a /\
       task_name a = unique_name pid' nanos' (next_seq pid' h) /\ tk_phase a = match r with Ok _ => Live | Err e => Failed e end) /\
  (forall pid' nanos' now, let '(r, h') := create pid' nanos' now h in
     (forall name, r = Ok name -> name = unique_name pid' nanos' (next_seq pid' h) /\ name ∈ hn_dbs h' /\
        (name ∉ reap_stale select_like drop_fails now (hn_dbs h)) /\
        (forall seq', (0 <= pid)%Z -> (0 <= pid')%Z -> (0 <= nanos')%Z -> (0 <= next_seq pid' h)%Z -> (0 <= seq')%Z ->
           name = unique_name pid nanos seq' -> pid' = pid /\ nanos' = nanos /\ next_seq pid' h = seq')) /\
     (forall rows, select_like "nestrs_e2e_%" (hn_dbs h) = Some rows -> Some (unique_name pid nanos seq) ∈ rows ->
        (stale_after_nanos < now - nanos)%Z -> drop_fails (unique_name pid nanos seq) = false ->
        unique_name pid nanos seq ∉ reap_stale select_like drop_fails now (hn_dbs h))).
Proof.
  intros Hn. split; [|split; [|split]].
  - intros ops. revert h. induction ops as [|op ops IH]; intros h h' Hrun Hin Hu Hs; simpl in Hrun; [by injection Hrun as <-|].
    apply Forall_cons in Hs as [Ho Hs]. destruct (step h op) as [h1|] eqn:E; [|done].
    destruct (step_spares _ _ _ _ _ _ Hn E Ho Hu Hin) as [Hu1 Hin1]. by eapply IH.
  - intros Ht Hq ops h' Hrun Hok Hlen t a t' a' Ha Ha' Hname.
    destruct (run_numbered ops 0 h h' Hrun Hok) as (_ & Hpos & Hinj); [lia|unfold u64_max; lia| |].
    { split_and!; unfold next_seq; [intros ?; by rewrite Hq|by intros ? ?; rewrite Ht|by intros ? ? ? ?; rewrite Ht]. }
    destruct (Hpos _ _ Ha) as (? & ? & ?), (Hpos _ _ Ha') as (? & ? & ?).
    apply unique_name_inj in Hname as (? & _ & ?); [|lia..]. by eapply Hinj.
  - intros. by apply uninterrupted_creates.
  - intros pid' nanos' now. destruct (create pid' nanos' now h) as [r h'] eqn:E. split.
    + intros name ->. unfold create_with, create_database in E. case_decide as Hd; [done|]. destruct (create_fails _); [done|].
      destruct (migration_fails _); [done|].
      injection E as <- <-. split; [done|]. split; [simpl; set_solver|]. split; [done|].
      intros seq' Hp Hp' Hn' Hs Hs' Eu. by apply unique_name_inj in Eu; [|lia..].
    + intros rows Hsel Hin Hold Hd. rewrite elem_of_reap. intros [_ Hr]. apply Hr. exists rows.
      split; [done|]. split; [done|]. split; [|done]. rewrite stale_unique_name by done. apply Z.ltb_lt.
      unfold saturating_sub. lia.
Qed.

End survival.

(** ** A server *)

Module TestingDemo.

(** SQL's [LIKE]: [%] any text, [_] any one character. *)
Fixpoint like (p l : list ascii) : bool :=
  match p with
  | [] => match l with [] => true | _ => false end
  | c :: p' =>
      if Ascii.eqb c "%" then (fix any l := like p' l || match l with [] => false | _ :: l' => any l' end) l
      else match l with [] => false | d :: l' => (Ascii.eqb c underscore || Ascii.eqb c d) && like p' l' end
  end.

Definition select (pattern : string) (dbs : gset string) : option (list (option string)) :=
  Some (map Some (List.filter (fun n => like (chars pattern) (chars n)) (elements dbs))).

Definition never (_ : string) : bool := false.

Definition minutes (n : Z) : Z := n * 60 * 1000000000.

(** A server with these databases, before any test. *)
Definition server (dbs : gset string) : harness := Harness dbs ∅ ∅ ∅.

Abbreviation run := (harness_run select never never never).

(** Two processes create a database each, the second four minutes after the first: its reaper, its creation
    and the drop of its guard pass between the migration of the first and its end. *)
Definition first_ops : list harness_op :=
  [OpName 1 7 (minutes 100); OpName 2 8 (minutes 104); OpLock 1; OpSelect 1 (minutes 100); OpCreate 1].
Definition second_ops : list harness_op :=
  [OpLock 2; OpSelect 2 (minutes 104); OpReap 2; OpMigrate 1; OpCreate 2; OpMigrate 2; OpDrop 2 "nestrs_e2e_8_6240000000000_0"].

Lemma ephemeral_databases_coexist_witness :
  (exists h, run (server {["app"]}) (first_ops ++ second_ops) = Some h /\ "nestrs_e2e_7_6000000000000_0" ∈ hn_dbs h) /\
  (create_with select never never never 7 (minutes 100) (minutes 100) (server {["app"]})).1 = Ok "nestrs_e2e_7_6000000000000_0".
Proof.
  split; [|by vm_compute].
  destruct (run (server {["app"]}) first_ops) as [h1|] eqn:E1; [|by vm_compute in E1].
  destruct (run h1 second_ops) as [h2|] eqn:E2; cycle 1.
  { exfalso. assert (Hn : is_Some (run (server {["app"]}) (first_ops ++ second_ops))) by (apply (bool_decide_unpack _); by vm_compute).
    rewrite run_app, E1 in Hn. cbn [mbind option_bind] in Hn. rewrite E2 in Hn. by destruct Hn. }
  exists h2. split; [rewrite run_app, E1; exact E2|].
  assert (Hu : (0 <= minutes 100 <= u128_max)%Z) by (unfold minutes, u128_max; lia).
  refine (proj1 (ephemeral_databases_coexist select never never never 7 (minutes 100) 0 h1 Hu) second_ops h2 E2 _ _ _).
  - assert (Hin : "nestrs_e2e_7_6000000000000_0" ∈ default ∅ (hn_dbs <$> run (server {["app"]}) first_ops))
      by (apply (bool_decide_unpack _); by vm_compute). rewrite E1 in Hin. exact Hin.
  - assert (Hp : map_Forall (fun _ a => match tk_phase a with Reaping _ _ => False | _ => True end)
      (default ∅ (hn_tasks <$> run (server {["app"]}) first_ops))).
    { apply map_Forall_to_list. vm_compute. by repeat constructor. }
    rewrite E1 in Hp. intros t a now rows Ha Hph. specialize (Hp t a Ha). cbv beta in Hp. rewrite Hph in Hp. destruct Hp.
  - apply (bool_decide_unpack _). vm_compute. reflexivity.
Defined.

(** [_] is a wildcard: the pattern selects databases that are not the harness's, and a name that does not
    parse is taken for an old one. *)
Example reaper_drops_a_foreign_database :
  hn_dbs (create_with select never never never 7 (minutes 100) (minutes 100) (server {["nestrs-e2e-production"; "app"]})).2 =
    {["app"; "nestrs_e2e_7_6000000000000_0"]}.
Proof. vm_compute. reflexivity. Qed.

(** The migration of a fresh database fails: it stays on the server, without a guard. *)
Example failed_migration_leaves_the_database :
  let '(r, h) := create_with select never never (fun _ => true) 7 (minutes 100) (minutes 100) (server ∅) in
  r = Err MigrationFailed /\ hn_dbs h = {["nestrs_e2e_7_6000000000000_0"]}.
Proof. vm_compute. by split. Qed.

(** The lock is the process's: two processes may be between their query and their creation at once, two tests
    of one process may not. *)
Example lock_is_per_process :
  is_Some (run (server ∅) [OpName 1 7 0; OpName 2 8 0; OpLock 1; OpLock 2]) /\
  run (server ∅) [OpName 1 7 0; OpName 2 7 0; OpLock 1; OpLock 2] = None.
Proof. split; [by eexists|by vm_compute]. Qed.

Example swapped :
  swap_database "postgres://u:p@db:5432/app?sslmode=off" "x" = "postgres://u:p@db:5432/x?sslmode=off" /\
  swap_database "postgres://u:p@db:5432" "x" = "postgres://x" /\
  swap_database "postgres://db/app?options=a/b" "x" = "postgres://db/x?options=a/b".
Proof. repeat split; by vm_compute. Qed.

End TestingDemo.
