(* ===== verification/Infrastructure.v ===== *)
(** The modules that own a resource: [DatabaseModule] ([nestrs-orm/src/module.rs]), [AuthModule] and [OAuth2Module]
    ([nestrs-auth/src/module.rs]) and [ThrottlerModule] ([nestrs-throttler/src/module.rs]).  Each is configured
    at its import site by a value, queues a factory in the collect phase and, the database's, registers what
    needs the resource in the register phase.

    SeaORM's connection, the JWT keys and the HTTP client are parameters; a resource is wrapped as the value
    the container keeps. *)

From S2P Require Import Prelude Container Access Codegen Register Lifecycle App Throttler Auth.

(** ** Options *)

Record database_options := DatabaseOptions {
  db_url : string;
  max_connections : option Z;
  min_connections : option Z;
  connect_timeout : option Z;
  sqlx_logging : bool
}.

Definition database_options_default : database_options := DatabaseOptions "" None None None false.

(** The [ConnectOptions] setters, in the order they are called. *)
Inductive connect_option := MaxConnections (n : Z) | MinConnections (n : Z) | ConnectTimeout (d : Z) | SqlxLogging (on : bool).

Definition connect_options (o : database_options) : string * list connect_option :=
  (db_url o,
   option_list (MaxConnections <$> max_connections o) ++ option_list (MinConnections <$> min_connections o) ++
   option_list (ConnectTimeout <$> connect_timeout o) ++ [SqlxLogging (sqlx_logging o)]).

(** The configured modules. *)
Inductive setup :=
| DatabaseSetup (options : database_options)
| AuthSetup (options : jwt_options)
| OAuth2Setup (config : oauth_config)
| ThrottlerSetup (default : throttle).

(** ** What they queue and register *)

Section setups.
Context `{SetIter} `{Compiler} `{Structs} `{!UserCode} `{JwtEngine}.

(** The types involved, and the code that opens the resources. *)
Class Resources := {
  conn_ty : ty; jwt_ty : ty; oauth_ty : ty; throttler_ty : ty;
  db_context_ty : ty; http_interceptor_meta_ty : ty; job_context_ty : ty;
  conn_syn : syn_type;
  conn_syn_id : type_id conn_syn = conn_ty;
  conn_not_dyn : is_trait_object conn_syn = false;
  db_connect : string * list connect_option -> result val failure;
  http_client : result unit string;
  bail : string -> failure;
  auth_failure : auth_error -> failure;
  wrap_jwt : jwt_service -> val;
  wrap_oauth : oauth_config -> val;
  wrap_throttler : throttler -> val
}.
Context `{!Resources}.

Definition setup_key (s : setup) : ty :=
  match s with DatabaseSetup _ => conn_ty | AuthSetup _ => jwt_ty | OAuth2Setup _ => oauth_ty | ThrottlerSetup _ => throttler_ty end.

(** [OAuth2Client::new]. *)
Definition oauth_client_new (c : oauth_config) : result oauth_config auth_error :=
  let? _ := map_err Failed http_client in Ok c.

(** The body of the queued factory; none looks at the container it is given. *)
Definition open_setup (s : setup) : result val failure :=
  match s with
  | DatabaseSetup o => if String.eqb (db_url o) "" then Err (bail "DATABASE_URL must be set") else db_connect (connect_options o)
  | AuthSetup o => result_map wrap_jwt (map_err auth_failure (jwt_new o))
  | OAuth2Setup c => result_map wrap_oauth (map_err auth_failure (oauth_client_new c))
  | ThrottlerSetup d => Ok (wrap_throttler (throttler_new d))
  end.

(** The factory closures are compiled code: their call runs the body. *)
Class SetupFactories := {
  setup_factory : setup -> factory_fn;
  setup_factory_runs : forall s c, call_factory (setup_factory s) c = open_setup s
}.
Context `{!SetupFactories}.

(** [DynamicModule::collect]. *)
Definition setup_collect (s : setup) (b : container_builder) : list registration :=
  [RProvideFactory (setup_key s) (setup_factory s)].

(** [DbContext] and [WorkerDbContext]: a struct whose [db] field injects the connection. *)
Definition db_struct (name : string) : item_struct :=
  ItemStruct name (FieldsNamed [Field "db" (TyPath [PathSegment "Arc" (AngleBracketed [GType conn_syn])]) true]).

(** The [from_container] of a decorated struct; one that does not compile has none. *)
Definition struct_from_container (item : item_struct) (c : container) : result val panic :=
  match build_injectable_body item with
  | Ok body => eval_ctor (i_ident item) (ib_ctor body) c
  | Err _ => Err (PanicExpect "")
  end.

(** [DatabaseSetup::register]: the interceptor, then the job context built from a snapshot; the others register
    nothing. *)
Definition setup_register (s : setup) (b : container_builder) : result (list registration) panic :=
  match s with
  | DatabaseSetup _ =>
      let? ctx := struct_from_container (db_struct "DbContext") (snapshot b) in
      let rs := [RAttachMeta db_context_ty http_interceptor_meta_ty (interceptor_meta ctx)] in
      let? job := struct_from_container (db_struct "WorkerDbContext") (snapshot (apply_registrations rs b)) in
      Ok (rs ++ [RProvideDyn job_context_ty job])
  | _ => Ok []
  end.

Definition setup_import (s : setup) : import_t := ImportDynamic (setup_register s) (setup_collect s).

(** ** Ready by the register phase *)

Implicit Types (b : container_builder) (s : setup) (ss : list setup).

Lemma collect_setups (collect : ty -> container_builder -> option container_builder) ss b :
  exists b', collect_calls collect (map setup_import ss) b = Some b' /\ b_providers b' = b_providers b /\
    factories b' = factories b ++ map (fun s => (setup_key s, setup_factory s)) ss /\ (builder_wf b -> builder_wf b').
Proof.
  revert b. induction ss as [|s ss IH]; intros b; simpl; [exists b; by rewrite app_nil_r|].
  destruct (IH (provide_factory (setup_key s) (setup_factory s) b)) as (b' & Hc & Hp & Hf & Hw). exists b'.
  split; [exact Hc|]. split; [exact Hp|]. rewrite Hf. simpl. rewrite <- app_assoc. split; [done|].
  intros Hwf. apply Hw. by apply (apply_registration_wf (RProvideFactory (setup_key s) (setup_factory s))).
Qed.

Lemma db_struct_body name : exists k names, build_injectable_body (db_struct name) = Ok (InjectableBody k [conn_syn] names []).
Proof.
  unfold build_injectable_body, db_struct. simpl. unfold scan_field. simpl. rewrite conn_not_dyn. simpl. by eexists _, _.
Qed.

(** A struct that injects the connection builds when it is bound, and only then. *)
Lemma db_struct_builds name b : builder_wf b -> contains conn_ty b = true ->
  exists v, struct_from_container (db_struct name) (snapshot b) = Ok v.
Proof.
  intros Hwf Hc. unfold struct_from_container. destruct (db_struct_body name) as (k & names & Hb). rewrite Hb.
  apply (eval_ctor_ok _ _ _ Hb). simpl. intros t Ht%list_elem_of_singleton. subst t. rewrite conn_syn_id.
  change (snapshot b) with (build b). rewrite get_build_eq by apply Hwf. apply contains_iff in Hc as [a ->]. by eexists.
Qed.

Lemma db_struct_panics name b : builder_wf b -> contains conn_ty b = false ->
  exists msg, struct_from_container (db_struct name) (snapshot b) = Err (PanicExpect msg).
Proof.
  intros Hwf Hc. unfold struct_from_container. destruct (db_struct_body name) as (k & names & Hb). rewrite Hb.
  apply (eval_ctor_missing _ _ _ conn_ty Hb); [simpl; rewrite conn_syn_id; by left|].
  change (snapshot b) with (build b). rewrite get_build_eq by apply Hwf.
  destruct (b_providers b !! conn_ty) eqn:E; [|done]. apply not_true_iff_false in Hc. destruct Hc. apply contains_iff. by rewrite E.
Qed.

(** Registering after the factories never panics. *)
Lemma setup_register_ok s b : builder_wf b -> contains (setup_key s) b = true ->
  exists rs, setup_register s b = Ok rs /\ (forall o, s = DatabaseSetup o -> TArc job_context_ty ∈ bound_keys rs).
Proof.
  intros Hwf Hc. destruct s as [o|o|c|d]; simpl in *; [|by eexists..].
  destruct (db_struct_builds "DbContext" b Hwf Hc) as [ctx ->]. simpl.
  set (b1 := attach_meta _ _ _ b).
  destruct (db_struct_builds "WorkerDbContext" b1) as [job ->].
  - apply (apply_registration_wf (RAttachMeta db_context_ty http_interceptor_meta_ty (interceptor_meta ctx)) b Hwf).
  - exact Hc.
  - simpl. eexists. split; [done|]. intros _ _. unfold bound_keys. simpl. set_solver.
Qed.

Lemma import_setups_ok register ss : forall b, builder_wf b -> (forall s, s ∈ ss -> contains (setup_key s) b = true) ->
  exists b', import_calls register (map setup_import ss) b = Some (Ok b') /\ (forall k, contains k b = true -> contains k b' = true) /\
    (forall o, DatabaseSetup o ∈ ss -> contains (TArc job_context_ty) b' = true).
Proof.
  induction ss as [|s ss IH]; intros b Hwf Hs.
  { exists b. split; [done|]. split; [done|]. by intros o Ho%elem_of_nil. }
  destruct (setup_register_ok s b Hwf (Hs s ltac:(left))) as (rs & Hr & Hj). simpl. rewrite Hr.
  assert (Hgrow : forall k, contains k b = true -> contains k (apply_registrations rs b) = true)
    by (intros k Hk; apply contains_apply_registrations; by left).
  destruct (IH (apply_registrations rs b)) as (b' & Hi & Hg & Hd).
  - by apply apply_registrations_wf.
  - intros s' Hs'. apply Hgrow, Hs. by right.
  - exists b'. split; [exact Hi|]. split; [auto|]. intros o [Ho|Ho]%elem_of_cons; [|by eapply Hd].
    apply Hg, contains_apply_registrations. right. by apply (Hj o).
Qed.

(** *** The factory phase *)

Lemma run_factories_wf l b b' : builder_wf b -> for_each run_factory l b = Ok b' -> builder_wf b'.
Proof.
  revert b. induction l as [|[t f] l IH]; intros b Hwf; simpl; [by intros [= <-]|]. unfold run_factory at 1. simpl.
  destruct (contains t b); simpl; [by apply IH|]. destruct (call_factory f (snapshot b)) as [v|]; simpl; [|done].
  apply IH. by apply (apply_registration_wf (RProvide t v)).
Qed.

Lemma run_factories_err l e : forall b, for_each run_factory l b = Err e ->
  exists t f b1 e0, (t, f) ∈ l /\ contains t b = false /\ call_factory f (snapshot b1) = Err e0 /\ e = FactoryFailed e0.
Proof.
  induction l as [|[t f] l IH]; intros b Hf; simpl in Hf; [done|].
  destruct (run_factory b (t, f)) as [b1|e1] eqn:E; simpl in Hf.
  - destruct (IH _ Hf) as (t' & f' & b2 & e0 & Hin & Hc & He). exists t', f', b2, e0. split; [by right|]. split; [|done].
    apply run_factory_ok in E as (_ & Hiff & _). apply not_true_iff_false. intros Ht. apply not_true_iff_false in Hc.
    apply Hc, Hiff. by left.
  - injection Hf as ->. unfold run_factory in E. simpl in E. destruct (contains t b) eqn:Ec; [done|].
    destruct (call_factory f (snapshot b)) as [v|e0] eqn:Ef; [done|]. injection E as <-.
    exists t, f, b, e0. split; [by left|]. done.
Qed.

(** [C31] An imported resource is there before anything is built. Collecting any list of configured modules
    queues one factory each. When the factory phase then succeeds, every resource is bound and a seed is left
    as it was; the first module configured for a resource that is not seeded opened it, and in the register
    phase, however far it has got, importing the modules cannot panic and binds the job context of a
    database. When it fails, the error is that of a resource that was not seeded and did not open, or of
    another factory. *)
Theorem infrastructure_is_ready collect ss b0 : builder_wf b0 ->
  exists b1, collect_calls collect (map setup_import ss) b0 = Some b1 /\
    match factory_phase b1 with
    | Ok b2 =>
        (forall s, s ∈ ss -> contains (setup_key s) b2 = true) /\
        (forall t, contains t b0 = true -> b_providers b2 !! t = b_providers b0 !! t) /\
        (forall ss1 s ss2, ss = ss1 ++ s :: ss2 -> contains (setup_key s) b0 = false ->
           (setup_key s ∉ map fst (factories b0) ++ map setup_key ss1) ->
           exists v, open_setup s = Ok v /\ b_providers b2 !! setup_key s = Some (AnyArc (setup_key s) v)) /\
        (forall register b3, grows b2 b3 ->
           exists b4, import_calls register (map setup_import ss) b3 = Some (Ok b4) /\
             forall o, DatabaseSetup o ∈ ss -> contains (TArc job_context_ty) b4 = true)
    | Err e =>
        exists e0, e = FactoryFailed e0 /\
          ((exists s, s ∈ ss /\ contains (setup_key s) b0 = false /\ open_setup s = Err e0) \/
           (exists t f b, (t, f) ∈ factories b0 /\ contains t b0 = false /\ call_factory f (snapshot b) = Err e0))
    end.
Proof.
  intros Hwf. destruct (collect_setups collect ss b0) as (b1 & Hc & Hp & Hf & Hw). exists b1. split; [exact Hc|].
  change (factory_phase b1) with (for_each run_factory (factories b1) (take_factories b1).2). rewrite Hf.
  set (start := (take_factories b1).2). set (own := map (fun s => (setup_key s, setup_factory s)) ss).
  assert (Hcs : forall t, contains t start = contains t b0) by (intros t; unfold contains; simpl; by rewrite Hp).
  assert (Hkeys : map fst own = map setup_key ss) by (unfold own; by rewrite map_map).
  destruct (for_each run_factory (factories b0 ++ own) start) as [b2|e] eqn:E.
  - destruct (run_factories_ok _ _ _ E) as [Hsub Hiff]. simpl in Hsub. rewrite Hp in Hsub.
    assert (Hwf2 : builder_wf b2) by (eapply run_factories_wf, E; destruct (Hw Hwf); by split).
    assert (Hall : forall s, s ∈ ss -> contains (setup_key s) b2 = true).
    { intros s Hs. apply Hiff. right. rewrite map_app, elem_of_app, Hkeys. right. by apply list_elem_of_fmap_2. }
    split; [exact Hall|]. split; [|split].
    + intros t Ht. apply contains_iff in Ht as [a Ha]. rewrite Ha. by eapply lookup_weaken.
    + intros ss1 s ss2 -> Hc0 Hno. unfold own in E. rewrite map_app, app_assoc, for_each_app in E.
      destruct (for_each run_factory _ start) as [b3|] eqn:E1; [|done]. cbn [result_bind map for_each] in E.
      destruct (run_factory b3 _) as [b4|] eqn:E2; [|done]. simpl in E.
      destruct (run_factories_ok _ _ _ E1) as [_ Hc1]. destruct (run_factories_ok _ _ _ E) as [Hs2 _].
      destruct (run_factory_ok _ _ _ E2) as (_ & _ & Hv). simpl in Hv. destruct Hv as (v & Hv & Hl).
      { apply not_true_iff_false. rewrite Hc1, Hcs, Hc0, map_app, map_map. simpl. by intros [?|?]. }
      exists v. rewrite setup_factory_runs in Hv. split; [done|]. by eapply lookup_weaken.
    + intros register b3 [Hg1 Hg2 _]. destruct (import_setups_ok register ss b3) as (b4 & Hi & _ & Hd); [by apply Hg1|by auto|].
      by exists b4.
  - apply run_factories_err in E as (t & f & b & e0 & Hin & Hct & Hcall & ->). exists e0. split; [done|].
    apply elem_of_app in Hin as [Hin|Hin].
    + right. exists t, f, b. by rewrite <- Hcs.
    + left. apply list_elem_of_fmap in Hin as (s & [= -> ->] & Hs). exists s. rewrite <- Hcs. split; [done|]. split; [done|].
      by rewrite setup_factory_runs in Hcall.
Qed.

(** On the synchronous path ([App::new]) nothing is collected: importing the database panics. *)
Lemma database_needs_the_factory_phase o b : builder_wf b -> contains conn_ty b = false ->
  exists msg, setup_register (DatabaseSetup o) b = Err (PanicExpect msg).
Proof.
  intros Hwf Hc. simpl. destruct (db_struct_panics "DbContext" b Hwf Hc) as [msg ->]. by exists msg.
Qed.

End setups.

(** ** An application's imports *)

Module InfrastructureDemo.
Import AuthDemo.
#[local] Existing Instance CodegenDemo.demo_compiler.

(** A factory closure is the module it was made for. *)
#[export] Instance payloads : Payloads := {| val := string; scoped_fn := unit; factory_fn := setup; failure := string |}.

#[export] Instance structs : Structs := {
  construct := fun name _ => name : @val payloads; default_value := fun name => name : @val payloads;
  scoped_ctor := fun _ => tt : @scoped_fn payloads; interceptor_meta := fun v => v
}.

(** Databases of one host can be reached. *)
#[export] Instance resources : Resources.
Proof.
  refine {| conn_ty := TNamed "DatabaseConnection"; jwt_ty := TNamed "JwtService"; oauth_ty := TNamed "OAuth2Client";
            throttler_ty := TNamed "InMemoryThrottler"; db_context_ty := TNamed "DbContext";
            http_interceptor_meta_ty := TNamed "HttpInterceptorMeta"; job_context_ty := TDyn "JobContext";
            conn_syn := TyPath [PathSegment "DatabaseConnection" PathNone];
            db_connect o := if String.eqb o.1 "postgres://db/app" then Ok ("pool" : @val payloads) else Err ("unreachable" : @failure payloads);
            http_client := Ok tt; bail := fun msg => msg : @failure payloads; auth_failure := fun _ => "auth" : @failure payloads;
            wrap_jwt := fun _ => "jwt" : @val payloads; wrap_oauth := fun _ => "oauth" : @val payloads;
            wrap_throttler := fun _ => "throttler" : @val payloads |}; done.
Defined.

#[export] Instance user_code : UserCode := {| call_scoped := fun _ _ _ => "" : @val payloads; call_factory := fun s _ => open_setup s |}.

#[export] Instance setup_factories : SetupFactories.
Proof. refine {| setup_factory := fun s => s : @factory_fn payloads |}; done. Defined.

Definition database (url : string) : setup := DatabaseSetup (DatabaseOptions url (Some 10%Z) None None false).
Definition imports : list setup := [database "postgres://db/app"; AuthSetup (options_new "secret"); ThrottlerSetup (Throttle 5 1000)].

Definition booted (ss : list setup) (b : container_builder) : result container_builder boot_error :=
  match collect_calls (fun _ b => Some b) (map setup_import ss) b with
  | Some b1 => factory_phase b1
  | None => Ok b
  end.

Lemma infrastructure_is_ready_witness :
  exists b2, booted imports builder_new = Ok b2 /\
    (forall s, s ∈ imports -> contains (setup_key s) b2 = true) /\
    exists b4, import_calls (fun _ b => Some (Ok b)) (map setup_import imports) b2 = Some (Ok b4) /\
      contains (TArc (TDyn "JobContext")) b4 = true.
Proof.
  destruct (infrastructure_is_ready (fun _ b => Some b) imports builder_new builder_wf_new) as (b1 & Hc & Hr).
  unfold booted. rewrite Hc. destruct (factory_phase b1) as [b2|e] eqn:E.
  - exists b2. destruct Hr as (Hall & _ & _ & Hreg). split; [done|]. split; [exact Hall|].
    destruct (Hreg (fun _ b => Some (Ok b)) b2 ltac:(done)) as (b4 & Hi & Hj). exists b4. split; [exact Hi|].
    apply (Hj (DatabaseOptions "postgres://db/app" (Some 10%Z) None None false)). by left.
  - exfalso. assert (Hok : is_ok (booted imports builder_new) = true) by (by vm_compute).
    unfold booted in Hok. rewrite Hc, E in Hok. done.
Defined.

(** An empty URL aborts the boot, unless a connection is seeded; two configurations of one resource connect once,
    to the first. *)
Example boots :
  booted [database ""] builder_new = Err (FactoryFailed "DATABASE_URL must be set") /\
  result_map (fun b => any_val <$> b_providers b !! TNamed "DatabaseConnection")
    (booted [database ""] (provide (TNamed "DatabaseConnection") ("ephemeral" : @val payloads) builder_new)) = Ok (Some "ephemeral") /\
  is_ok (booted [database "postgres://db/app"; database "postgres://elsewhere/app"] builder_new) = true.
Proof. split; [|split]; by vm_compute. Qed.

(** A database imported through two modules is registered twice: each request runs inside two [DbContext]s, and
    a mutating one holds two transactions. *)
Example imported_twice_wraps_twice :
  let twice := [database "postgres://db/app"; database "postgres://db/app"] in
  match booted twice builder_new with
  | Ok b => match import_calls (fun _ b => Some (Ok b)) (map setup_import twice) b with
            | Some (Ok b') => length (discovery_meta (TNamed "HttpInterceptorMeta") (build b'))
            | _ => 0
            end
  | Err _ => 0
  end = 2.
Proof. by vm_compute. Qed.

End InfrastructureDemo.
