(* ===== verification/Dataloader.v ===== *)
(** The [#[dataloader]] decorator ([nestrs-graphql-macros/src/dataloader.rs]): the loader each batch method of a data
    layer becomes; and the extension that seeds every linked loader into a GraphQL request
    ([nestrs-graphql/src/loader.rs]), where the fields of [Resolver] read them.

    syn's parsing is represented by its result; async-graphql batches the keys and keeps the values of a
    request by type. *)

From S2P Require Import Prelude Container Codegen OpenApi Resolver.

(** ** The batch methods *)

(** A parameter after the receiver: a reference to a slice, another reference, or an owned value. *)
Inductive keys_type := RefSlice (elem : syn_type) | RefOther | OwnedKeys.
Inductive loader_input := LoaderReceiver | LoaderTyped (t : keys_type).

Record loader_sig := LoaderSig {
  ls_name : string;
  ls_inputs : list loader_input;
  ls_output : option syn_type                 (* [ReturnType]: the unit return has no type *)
}.

Inductive dataloader_error :=
| NeedsReceiver
| NeedsKeys
| KeysMustBeTyped
| KeysMustBeReference
| KeysMustBeSlice
| MustReturnMapOrResult
| MustReturnMap.

Definition loader_key_type (sig : loader_sig) : result syn_type dataloader_error :=
  match ls_inputs sig with
  | LoaderReceiver :: keys =>
      match keys with
      | [] => Err NeedsKeys
      | LoaderReceiver :: _ => Err KeysMustBeTyped
      | LoaderTyped (RefSlice elem) :: _ => Ok elem
      | LoaderTyped RefOther :: _ => Err KeysMustBeSlice
      | LoaderTyped OwnedKeys :: _ => Err KeysMustBeReference
      end
  | _ => Err NeedsReceiver
  end.

Definition generic_args (t : syn_type) (expected : string) : option (list syn_type) :=
  match t with
  | TyPath segs =>
      match last segs with
      | Some (PathSegment ident args) =>
          if negb (String.eqb ident expected) then None
          else match args with AngleBracketed l => Some (omap generic_type l) | _ => None end
      | None => None
      end
  | _ => None
  end.

Definition hashmap_value (t : syn_type) : result syn_type dataloader_error :=
  match generic_args t "HashMap" with
  | Some [_; v] => Ok v
  | _ => Err MustReturnMap
  end.

Definition loader_value_and_error (output : option syn_type) : result (syn_type * option syn_type) dataloader_error :=
  match output with
  | None => Err MustReturnMapOrResult
  | Some t =>
      match generic_args t "Result" with
      | Some [map; e] => let? v := hashmap_value map in Ok (v, Some e)
      | _ => let? v := hashmap_value t in Ok (v, None)
      end
  end.

(** [char::to_uppercase], on ASCII. *)
Definition ascii_upper (c : Ascii.ascii) : Ascii.ascii :=
  let n := Ascii.nat_of_ascii c in if Nat.leb 97 n && Nat.leb n 122 then Ascii.ascii_of_nat (n - 32) else c.

(** [pascal_case]. *)
Fixpoint pascal_chars (l : list Ascii.ascii) (upper : bool) : list Ascii.ascii :=
  match l with
  | [] => []
  | c :: l' =>
      if Ascii.eqb c (Ascii.ascii_of_nat 95) then pascal_chars l' true
      else (if upper then ascii_upper c else c) :: pascal_chars l' false
  end.

Definition pascal_case (s : string) : string := of_chars (pascal_chars (chars s) true).

(** A generated loader; without an error type its [load] is infallible. *)
Record loader := Loader {
  ld_name : string;
  ld_self : syn_type;
  ld_method : string;
  ld_key : syn_type;
  ld_value : syn_type;
  ld_error : option syn_type;
  ld_missing : string
}.

Section macro.
Context `{Compiler}.

Definition dataloader_for_method (self : syn_type) (base : string) (sig : loader_sig) : result loader dataloader_error :=
  let? key := loader_key_type sig in
  let? ve := loader_value_and_error (ls_output sig) in
  let name := base +:+ pascal_case (ls_name sig) in
  Ok (Loader name self (ls_name sig) key ve.1 ve.2 (name +:+ ": no provider registered for `" +:+ token_text self +:+ "`")).

(** [dataloader_impl], of the methods of the block; [base] is the ident of its type. *)
Definition dataloader_impl (self : syn_type) (base : string) (methods : list loader_sig) : result (list loader) dataloader_error :=
  collect_results (dataloader_for_method self base) methods.

End macro.

(** ** The loaders of a request *)

(** What a method returns: the map, or a [Result] of it. *)
Inductive batch_output (M E : Type) := BareMap (m : M) | MapResult (r : result M E).
Arguments BareMap {M E} m.
Arguments MapResult {M E} r.

(** The emitted [load]. *)
Definition load_body {M E} (out : batch_output M E) : result M E :=
  match out with BareMap m => Ok m | MapResult r => r end.

(** A [LoaderRegistration]: the loader and the type of its [DataLoader], which the request keeps it under. *)
Record loader_registration := LoaderRegistration { lr_loader : loader; lr_type : ty }.

Section requests.
Context `{Compiler} `{Payloads}.

(** The emitted [seed].  The data of a GraphQL request is kept by type: of a loader, the data layer it wraps. *)
Definition seed_loader (c : container) (reg : loader_registration) (data : gmap ty val) : result (gmap ty val) panic :=
  let? service := expect (get (type_id (ld_self (lr_loader reg))) c) (ld_missing (lr_loader reg)) in
  Ok (<[lr_type reg := service]> data).

(** [LoaderExtension::prepare_request]: every linked loader, whatever the request selects. *)
Definition prepare_request (c : container) (inventory : list loader_registration) (data : gmap ty val) : result (gmap ty val) panic :=
  for_each (fun data reg => seed_loader c reg data) inventory data.

Implicit Types (inventory : list loader_registration) (data : gmap ty val) (c : container).

Definition data_layer_bound c (reg : loader_registration) : Prop := is_Some (get (type_id (ld_self (lr_loader reg))) c).

Lemma seeded_request_ok c inventory : Forall (data_layer_bound c) inventory -> forall data,
  exists data', prepare_request c inventory data = Ok data' /\
    (forall t, is_Some (data !! t) -> is_Some (data' !! t)) /\ (forall reg, reg ∈ inventory -> is_Some (data' !! lr_type reg)).
Proof.
  induction 1 as [|reg inventory [v Hv] _ IH]; intros data.
  { exists data. split; [done|]. split; [done|]. by intros reg Hr%elem_of_nil. }
  unfold prepare_request. simpl. unfold seed_loader at 1. rewrite Hv. simpl.
  destruct (IH (<[lr_type reg := v]> data)) as (data' & Hp & Hk & Hi). exists data'. split; [exact Hp|].
  assert (Hs : is_Some (data' !! lr_type reg)) by (apply Hk; rewrite lookup_insert_eq; by eexists).
  split.
  - intros t Ht. destruct (decide (t = lr_type reg)) as [->|Hne]; [done|]. apply Hk. by rewrite lookup_insert_ne.
  - intros r [->|Hr]%elem_of_cons; [done|by apply Hi].
Qed.

Lemma prepare_request_panics c inventory reg : reg ∈ inventory -> get (type_id (ld_self (lr_loader reg))) c = None -> forall data,
  exists reg', reg' ∈ inventory /\ get (type_id (ld_self (lr_loader reg'))) c = None /\
    prepare_request c inventory data = Err (PanicExpect (ld_missing (lr_loader reg'))).
Proof.
  intros Hin Hn. induction inventory as [|r inventory IH]; intros data; [by apply elem_of_nil in Hin|].
  unfold prepare_request. simpl. unfold seed_loader at 1. destruct (get (type_id (ld_self (lr_loader r))) c) as [v|] eqn:Er; simpl.
  - apply elem_of_cons in Hin as [->|Hin]; [congruence|]. destruct (IH Hin (<[lr_type r := v]> data)) as (r' & Hr' & Hg & Hp).
    exists r'. split; [by right|]. by split.
  - exists r. split; [by left|]. done.
Qed.

(** The data layers behind the dependencies of a field: what [Resolver.seeded] asks of the context. *)
Definition loaders_linked inventory (fo : field_operation) : Prop :=
  forall t, DepLoader t ∈ fo_deps fo -> exists reg, reg ∈ inventory /\ lr_type reg = type_id t.

(** The loaders of a request.  A request is prepared exactly when the data layer of every linked loader is bound in the
    container; otherwise the preparation panics with the message of a loader whose data layer is missing,
    whatever the request asks for.  A prepared request holds every linked loader, so that no field whose loaders
    are linked fails to find them. *)
Lemma requests_carry_every_linked_loader c inventory data :
  (is_ok (prepare_request c inventory data) = true <-> Forall (data_layer_bound c) inventory) /\
  (forall e, prepare_request c inventory data = Err e -> exists reg, reg ∈ inventory /\
     get (type_id (ld_self (lr_loader reg))) c = None /\ e = PanicExpect (ld_missing (lr_loader reg))) /\
  (forall data', prepare_request c inventory data = Ok data' -> forall fo, loaders_linked inventory fo ->
     forall t, DepLoader t ∈ fo_deps fo -> is_Some (data' !! type_id t)).
Proof.
  destruct (decide (Forall (fun reg => get (type_id (ld_self (lr_loader reg))) c <> None) inventory)) as [Hall|Hsome].
  - assert (Hs : Forall (data_layer_bound c) inventory) by (eapply Forall_impl; [exact Hall|]; intros r; apply not_eq_None_Some).
    destruct (seeded_request_ok c inventory Hs data) as (data' & -> & _ & Hi). split; [done|]. split; [done|].
    intros d [= <-] fo Hl t Ht. destruct (Hl t Ht) as (reg & Hr & <-). by apply Hi.
  - apply not_Forall_Exists in Hsome; [|intros r; apply _]. apply Exists_exists in Hsome as (reg & Hr & Hn). apply dec_stable in Hn.
    destruct (prepare_request_panics c inventory reg Hr Hn data) as (reg' & Hr' & Hn' & ->).
    split; [|split; [|done]].
    + split; [done|]. intros Hs. rewrite Forall_forall in Hs. destruct (Hs reg Hr) as [v Hv]. congruence.
    + intros e [= <-]. by exists reg'.
Qed.

End requests.

(** ** A data layer *)

Module DataloaderDemo.
Import CodegenDemo.
#[local] Existing Instance texts.

Definition map_of (k v : string) : syn_type := TyPath [PathSegment "HashMap" (AngleBracketed [GType (path k); GType (path v)])].
Definition fallible (t e : syn_type) : syn_type := TyPath [PathSegment "Result" (AngleBracketed [GType t; GType e])].

(** [impl PostsService { async fn by_user(&self, keys: &[Uuid]) -> Result<HashMap<Uuid, Posts>, DbErr>, .. }] *)
Definition by_user : loader_sig := LoaderSig "by_user" [LoaderReceiver; LoaderTyped (RefSlice (path "Uuid"))] (Some (fallible (map_of "Uuid" "Posts") (path "DbErr"))).
Definition counts : loader_sig := LoaderSig "count__by_user" [LoaderReceiver; LoaderTyped (RefSlice (path "Uuid"))] (Some (map_of "Uuid" "u64")).

Definition loaders : list loader :=
  match dataloader_impl (path "PostsService") "PostsService" [by_user; counts] with Ok l => l | Err _ => [] end.

Example posts_loaders :
  map (fun l => (ld_name l, ld_error l)) loaders = [("PostsServiceByUser", Some (path "DbErr")); ("PostsServiceCountByUser", None)].
Proof. by vm_compute. Qed.

Definition linked : list loader_registration := map (fun l => LoaderRegistration l (TNamed (ld_name l))) loaders.

Definition with_posts : container := build (provide (TNamed "PostsService") (4 : @val Demo.payloads) builder_new).

Lemma requests_carry_every_linked_loader_witness :
  is_ok (prepare_request with_posts linked ∅) = true /\ is_ok (prepare_request (build builder_new) linked ∅) = false.
Proof.
  split.
  - apply (requests_carry_every_linked_loader with_posts linked ∅).
    repeat (apply Forall_cons; split; [eexists; vm_compute; reflexivity|]). by apply Forall_nil.
  - apply not_true_is_false. intros Hok. apply (requests_carry_every_linked_loader (build builder_new) linked ∅) in Hok.
    apply Forall_cons in Hok as [[v Hv] _]. by vm_compute in Hv.
Defined.

(** A crate that is linked without its module: every request panics, one that selects no field of it too. *)
Example linked_without_its_module :
  prepare_request (build builder_new) linked ∅ =
    Err (PanicExpect ("PostsServiceByUser: no provider registered for `" +:+ token_text (path "PostsService") +:+ "`")).
Proof. by vm_compute. Qed.

(** Names that differ in the case or the number of their underscores name one loader. *)
Example names_collide : pascal_case "by_user" = "ByUser" /\ pascal_case "by__user" = "ByUser" /\ pascal_case "byUser" = "ByUser".
Proof. repeat split; by vm_compute. Qed.

Example loader_declaration_errors :
  dataloader_impl (path "S") "S" [LoaderSig "f" [LoaderReceiver; LoaderTyped RefOther] None] = Err KeysMustBeSlice /\
  dataloader_impl (path "S") "S" [LoaderSig "f" [LoaderReceiver; LoaderTyped (RefSlice (path "u8"))] None] = Err MustReturnMapOrResult /\
  dataloader_impl (path "S") "S" [LoaderSig "f" [LoaderReceiver; LoaderTyped (RefSlice (path "u8"))]
    (Some (TyPath [PathSegment "Result" (AngleBracketed [GType (map_of "u8" "u8")])]))] = Err MustReturnMap.
Proof. repeat split; by vm_compute. Qed.

End DataloaderDemo.
