(* ===== verification/MacroArgs.v ===== *)
(** The argument grammars of the decorators: [parse_named_str_arg] ([nestrs-codegen/src/args.rs]), [#[crud(..)]]
    ([nestrs-codegen/src/crud.rs]), [#[injectable(scope = ..)]] ([nestrs-macros/src/injectable.rs])
    and [#[module(..)]] ([nestrs-macros/src/module.rs]).

    A token stream is a list of the tokens these grammars look at; a path of one segment is an identifier. *)

From S2P Require Import Prelude Container Crud.

Inductive token := TIdent (s : string) | TPath (segments : list string) | TEq | TComma | TStr (s : string) | TOther (s : string).

(** [input.parse::<Ident>()], [::<Path>()], [::<Token![=]>()] and [::<LitStr>()]. *)
Definition parse_ident (ts : list token) : result (string * list token) string :=
  match ts with TIdent s :: ts' => Ok (s, ts') | _ => Err "expected identifier" end.

Definition parse_path (ts : list token) : result (list string * list token) string :=
  match ts with TIdent s :: ts' => Ok ([s], ts') | TPath p :: ts' => Ok (p, ts') | _ => Err "expected identifier" end.

Definition parse_eq (ts : list token) : result (list token) string :=
  match ts with TEq :: ts' => Ok ts' | _ => Err "expected `=`" end.

Definition parse_lit_str (ts : list token) : result (string * list token) string :=
  match ts with TStr s :: ts' => Ok (s, ts') | _ => Err "expected string literal" end.

(** [parse2]: nothing may be left. *)
Definition parse2 {A} (r : result (A * list token) string) : result A string :=
  let? at_ := r in match at_.2 with [] => Ok at_.1 | _ => Err "unexpected token" end.

(** ** One string, and a scope *)

Definition parse_named_str_arg (args : list token) (key attr : string) : result string string :=
  parse2 (let? ft := parse_ident args in
          if negb (String.eqb ft.1 key) then Err ("expected `" +:+ key +:+ " = ...` as the only #[" +:+ attr +:+ "] argument")
          else let? ts := parse_eq ft.2 in parse_lit_str ts).

Definition parse_injectable_scope (args : list token) : result bool string :=
  match args with
  | [] => Ok false
  | _ =>
      parse2 (let? kt := parse_ident args in
              if negb (String.eqb kt.1 "scope") then Err "expected `scope = request` or `scope = singleton`"
              else
                let? ts := parse_eq kt.2 in
                let? vt := parse_ident ts in
                if String.eqb vt.1 "request" then Ok (true, vt.2)
                else if String.eqb vt.1 "singleton" then Ok (false, vt.2)
                else Err ("unknown scope `" +:+ vt.1 +:+ "` (expected `request` or `singleton`)"))
  end.

(** ** [#[crud(..)]] *)

Inductive paginate := Cursor | Page.

Record crud_config := CrudConfig {
  cc_service : string;
  cc_entity : list string;
  cc_output : list string;
  cc_create : option (list string);
  cc_update : option (list string);
  cc_readonly : bool;
  cc_paginate : option paginate
}.

(** The mutable locals of [parse]. *)
Record crud_locals := CrudLocals {
  cl_service : option string;
  cl_entity : option (list string);
  cl_output : option (list string);
  cl_create : option (list string);
  cl_update : option (list string);
  cl_readonly : bool;
  cl_paginate : option paginate
}.

Definition crud_locals_new : crud_locals := CrudLocals None None None None None false None.

(** The match on a key, up to the comma. *)
Definition crud_key (key : string) (ts : list token) (st : crud_locals) : result (crud_locals * list token) string :=
  let '(CrudLocals service entity output create update readonly paginate) := st in
  if String.eqb key "service" then
    let? ts := parse_eq ts in let? v := parse_ident ts in Ok (CrudLocals (Some v.1) entity output create update readonly paginate, v.2)
  else if String.eqb key "entity" then
    let? ts := parse_eq ts in let? v := parse_path ts in Ok (CrudLocals service (Some v.1) output create update readonly paginate, v.2)
  else if String.eqb key "output" then
    let? ts := parse_eq ts in let? v := parse_path ts in Ok (CrudLocals service entity (Some v.1) create update readonly paginate, v.2)
  else if String.eqb key "create" then
    let? ts := parse_eq ts in let? v := parse_path ts in Ok (CrudLocals service entity output (Some v.1) update readonly paginate, v.2)
  else if String.eqb key "update" then
    let? ts := parse_eq ts in let? v := parse_path ts in Ok (CrudLocals service entity output create (Some v.1) readonly paginate, v.2)
  else if String.eqb key "readonly" then Ok (CrudLocals service entity output create update true paginate, ts)
  else if String.eqb key "paginate" then
    let? ts := parse_eq ts in
    let? v := parse_ident ts in
    if String.eqb v.1 "cursor" then Ok (CrudLocals service entity output create update readonly (Some Cursor), v.2)
    else if String.eqb v.1 "page" then Ok (CrudLocals service entity output create update readonly (Some Page), v.2)
    else Err "expected `cursor` or `page`"
  else Err ("unknown #[crud] option `" +:+ key +:+ "`").

(** The loop; each turn consumes a key, so that the tokens are fuel enough. *)
Fixpoint crud_loop (fuel : nat) (ts : list token) (st : crud_locals) : option (result (crud_locals * list token) string) :=
  match ts, fuel with
  | [], _ => Some (Ok (st, []))
  | _, O => None
  | _, S fuel' =>
      match (let? kt := parse_ident ts in crud_key kt.1 kt.2 st) with
      | Err e => Some (Err e)
      | Ok (st', TComma :: ts') => crud_loop fuel' ts' st'
      | Ok (st', ts') => Some (Ok (st', ts'))
      end
  end.

Definition crud_finish (st : crud_locals) : result crud_config string :=
  let? service := ok_or (cl_service st) "#[crud] requires `service = <field>` (the injected CrudService to delegate to)" in
  let? entity := ok_or (cl_entity st) "#[crud] requires `entity = ...::Entity`" in
  let? output := ok_or (cl_output st) "#[crud] requires `output = OutputType`" in
  Ok (CrudConfig service entity output (cl_create st) (cl_update st) (cl_readonly st) (cl_paginate st)).

(** [parse_crud_args]; tokens left over are reported after a missing option. *)
Definition parse_crud_args (args : list token) : option (result crud_config string) :=
  r ← crud_loop (length args) args crud_locals_new;
  Some (let? sr := r in
        let? cfg := crud_finish sr.1 in
        match sr.2 with [] => Ok cfg | _ => Err "unexpected token" end).

(** What the REST generator reads of it. *)
Definition crud_args_of (cfg : crud_config) : crud_args :=
  CrudArgs (cc_readonly cfg) (bool_decide (is_Some (cc_create cfg))) (bool_decide (is_Some (cc_update cfg))).

(** ** Writing and reading *)

(** An option as it is written. *)
Inductive crud_option :=
| CoService (s : string) | CoEntity (p : list string) | CoOutput (p : list string) | CoCreate (p : list string)
| CoUpdate (p : list string) | CoReadonly | CoPaginate (m : paginate).

Definition path_token (p : list string) : token := match p with [s] => TIdent s | _ => TPath p end.

Definition show_option (o : crud_option) : list token :=
  match o with
  | CoService s => [TIdent "service"; TEq; TIdent s]
  | CoEntity p => [TIdent "entity"; TEq; path_token p]
  | CoOutput p => [TIdent "output"; TEq; path_token p]
  | CoCreate p => [TIdent "create"; TEq; path_token p]
  | CoUpdate p => [TIdent "update"; TEq; path_token p]
  | CoReadonly => [TIdent "readonly"]
  | CoPaginate Cursor => [TIdent "paginate"; TEq; TIdent "cursor"]
  | CoPaginate Page => [TIdent "paginate"; TEq; TIdent "page"]
  end.

(** The attribute's arguments: options between commas, and perhaps one at the end. *)
Fixpoint show_options (l : list crud_option) (trailing : bool) : list token :=
  match l with
  | [] => []
  | [o] => show_option o ++ (if trailing then [TComma] else [])
  | o :: l' => show_option o ++ TComma :: show_options l' trailing
  end.

Definition set_option (st : crud_locals) (o : crud_option) : crud_locals :=
  let '(CrudLocals service entity output create update readonly paginate) := st in
  match o with
  | CoService s => CrudLocals (Some s) entity output create update readonly paginate
  | CoEntity p => CrudLocals service (Some p) output create update readonly paginate
  | CoOutput p => CrudLocals service entity (Some p) create update readonly paginate
  | CoCreate p => CrudLocals service entity output (Some p) update readonly paginate
  | CoUpdate p => CrudLocals service entity output create (Some p) readonly paginate
  | CoReadonly => CrudLocals service entity output create update true paginate
  | CoPaginate m => CrudLocals service entity output create update readonly (Some m)
  end.

Lemma parse_path_token p ts : parse_path (path_token p :: ts) = Ok (p, ts).
Proof. by destruct p as [|s [|s' p]]. Qed.

Lemma crud_key_show st o ts : exists k rest, show_option o = TIdent k :: rest /\ crud_key k (rest ++ ts) st = Ok (set_option st o, ts).
Proof.
  destruct st, o as [s|p|p|p|p| |[]]; (eexists _, _; split; [reflexivity|]); unfold crud_key; cbn -[parse_path path_token]; rewrite ?parse_path_token; done.
Qed.

Lemma show_option_length o : (1 <= length (show_option o))%nat.
Proof. destruct o as [| | | | | |[]]; simpl; lia. Qed.

Lemma crud_loop_show trailing l : forall st fuel, (length (show_options l trailing) <= fuel)%nat ->
  crud_loop fuel (show_options l trailing) st = Some (Ok (foldl set_option st l, [])).
Proof.
  induction l as [|o l IH]; intros st fuel Hf; [by destruct fuel|].
  assert (Hshow : show_options (o :: l) trailing = show_option o ++ match l with [] => if trailing then [TComma] else [] | _ => TComma :: show_options l trailing end)
    by (by destruct l).
  rewrite Hshow in *. set (after := match l with [] => _ | _ => _ end) in *.
  destruct (crud_key_show st o after) as (k & rest & Ek & Hk). rewrite Ek in Hf |- *. simpl in Hf. rewrite length_app in Hf.
  destruct fuel as [|fuel]; [lia|]. simpl. rewrite Hk. unfold after in *. destruct l as [|o' l].
  - destruct trailing; [by destruct fuel|done].
  - apply IH. revert Hf. generalize (show_options (o' :: l) trailing). intros shown Hf. simpl in Hf. lia.
Qed.

(** Which of the required options have been set. *)
Lemma required_options l : forall st,
  (is_Some (cl_service (foldl set_option st l)) <-> is_Some (cl_service st) \/ exists s, CoService s ∈ l) /\
  (is_Some (cl_entity (foldl set_option st l)) <-> is_Some (cl_entity st) \/ exists p, CoEntity p ∈ l) /\
  (is_Some (cl_output (foldl set_option st l)) <-> is_Some (cl_output st) \/ exists p, CoOutput p ∈ l).
Proof.
  induction l as [|o l IH]; intros st; simpl.
  - repeat split; try tauto; intros [?|(? & ?%elem_of_nil)]; done.
  - destruct (IH (set_option st o)) as (-> & -> & ->). destruct st as [s e u c d r p].
    destruct o; simpl; repeat split; setoid_rewrite elem_of_cons; rewrite ?is_Some_alt; naive_solver.
Qed.

(** A turn of the loop consumes a token. *)
Lemma crud_key_consumes key ts st st' ts' : crud_key key ts st = Ok (st', ts') -> (length ts' <= length ts)%nat.
Proof.
  destruct st. unfold crud_key, parse_eq, parse_ident, parse_path. intros Hk.
  repeat (case_match; simplify_eq/=; try lia).
Qed.

Lemma crud_loop_total fuel : forall ts st, (length ts <= fuel)%nat -> is_Some (crud_loop fuel ts st).
Proof.
  induction fuel as [|fuel IH]; intros [|t ts] st Hl; simpl in *; [by eexists|lia|by eexists|].
  destruct t; simpl; try by eexists. destruct (crud_key s ts st) as [[st' ts']|e] eqn:E; [|by eexists].
  apply crud_key_consumes in E. destruct ts' as [|[] ts']; try by eexists. apply IH. simpl in E. lia.
Qed.

Lemma crud_finish_ok st : is_ok (crud_finish st) = true <-> is_Some (cl_service st) /\ is_Some (cl_entity st) /\ is_Some (cl_output st).
Proof.
  unfold crud_finish. destruct st as [[s|] [e|] [o|] c u r p]; simpl; (split; [intros Hk|intros ([? ?] & [? ?] & [? ?])]); try done.
Qed.

(** Reading what was written.  The options of [crud], in any order, with or without a comma at the end, are read back
    as what they set, the last of a key winning; the attribute is accepted exactly when the service, the entity
    and the output are among them, and always decided. *)
Lemma crud_arguments_round_trip l trailing :
  parse_crud_args (show_options l trailing) = Some (crud_finish (foldl set_option crud_locals_new l)) /\
  (is_ok (crud_finish (foldl set_option crud_locals_new l)) = true <->
     (exists s, CoService s ∈ l) /\ (exists p, CoEntity p ∈ l) /\ (exists p, CoOutput p ∈ l)) /\
  (forall ts, is_Some (parse_crud_args ts)).
Proof.
  split; [|split].
  - unfold parse_crud_args. rewrite crud_loop_show by done. simpl. by destruct (crud_finish _).
  - rewrite crud_finish_ok. destruct (required_options l crud_locals_new) as (-> & -> & ->). simpl.
    assert (Hnone : forall A (P : Prop), is_Some (@None A) \/ P <-> P) by (intros A P; split; [by intros [[? ?]|]|by right]).
    by rewrite !Hnone.
  - intros ts. unfold parse_crud_args. destruct (crud_loop_total (length ts) ts crud_locals_new ltac:(done)) as [r ->]. by eexists.
Qed.

(** ** [#[module(..)]] *)

(** The tokens of the attribute, with an import's expression and a trait's type as syn reads them. *)
Inductive module_token :=
| MIdent (s : string) | MPath (p : list string) | MExpr (text : string) | MType (text : string)
| MAs | MEq | MComma | MBrackets (content : list module_token).

Inductive provider_binding := ConcreteBinding (p : list string) | DynBinding (p : list string) (trait_ty : string).

Record module_args := ModuleArgs { ma_imports : list string; ma_providers : list provider_binding }.

Definition parse_import (ts : list module_token) : result (string * list module_token) string :=
  match ts with MExpr e :: ts' => Ok (e, ts') | _ => Err "expected an expression" end.

Definition parse_binding (ts : list module_token) : result (provider_binding * list module_token) string :=
  match ts with
  | MPath p :: MAs :: MType t :: ts' => Ok (DynBinding p t, ts')
  | MPath p :: MAs :: _ => Err "expected one of: `for`, parentheses, `fn`, `unsafe`, `extern`, identifier"
  | MPath p :: ts' => Ok (ConcreteBinding p, ts')
  | _ => Err "expected identifier"
  end.

(** [Punctuated::parse_terminated]: elements between commas, and perhaps one at the end. *)
Fixpoint parse_terminated {A} (parse : list module_token -> result (A * list module_token) string) (fuel : nat) (ts : list module_token)
  : option (result (list A) string) :=
  match ts, fuel with
  | [], _ => Some (Ok [])
  | _, O => None
  | _, S fuel' =>
      match parse ts with
      | Err e => Some (Err e)
      | Ok (a, []) => Some (Ok [a])
      | Ok (a, MComma :: ts') => r ← parse_terminated parse fuel' ts'; Some (let? l := r in Ok (a :: l))
      | Ok _ => Some (Err "expected `,`")
      end
  end.

(** One key with its brackets. *)
Definition module_key (key : string) (content : list module_token) (args : module_args) : option (result module_args string) :=
  if String.eqb key "imports" then
    r ← parse_terminated parse_import (length content) content;
    Some (let? l := r in Ok (ModuleArgs (ma_imports args ++ l) (ma_providers args)))
  else if String.eqb key "providers" then
    r ← parse_terminated parse_binding (length content) content;
    Some (let? l := r in Ok (ModuleArgs (ma_imports args) (ma_providers args ++ l)))
  else Some (Err ("unknown #[module] key `" +:+ key +:+ "` (expected `imports` or `providers`)")).

(** The loop of [ModuleArgs::parse]: keys between commas; the tokens are fuel enough. *)
Fixpoint module_loop (fuel : nat) (ts : list module_token) (args : module_args) : option (result module_args string) :=
  match ts, fuel with
  | [], _ => Some (Ok args)
  | _, O => None
  | MIdent key :: MEq :: MBrackets content :: rest, S fuel' =>
      r ← module_key key content args;
      match r, rest with
      | Err e, _ => Some (Err e)
      | Ok args', [] => Some (Ok args')
      | Ok args', MComma :: rest' => module_loop fuel' rest' args'
      | Ok _, _ => Some (Err "expected `,`")
      end
  | MIdent _ :: MEq :: _, _ => Some (Err "expected square brackets")
  | MIdent _ :: _, _ => Some (Err "expected `=`")
  | _, _ => Some (Err "expected identifier")
  end.

Definition parse_module_args (ts : list module_token) : option (result module_args string) := module_loop (length ts) ts (ModuleArgs [] []).

(** *** Writing and reading *)

Fixpoint show_terminated {A} (show : A -> list module_token) (l : list A) (trailing : bool) : list module_token :=
  match l with
  | [] => []
  | [a] => show a ++ (if trailing then [MComma] else [])
  | a :: l' => show a ++ MComma :: show_terminated show l' trailing
  end.

Definition show_binding (b : provider_binding) : list module_token :=
  match b with ConcreteBinding p => [MPath p] | DynBinding p t => [MPath p; MAs; MType t] end.

Inductive module_entry := Imports (l : list string) (trailing : bool) | Providers (l : list provider_binding) (trailing : bool).

Definition show_entry (e : module_entry) : list module_token :=
  match e with
  | Imports l t => [MIdent "imports"; MEq; MBrackets (show_terminated (fun x => [MExpr x]) l t)]
  | Providers l t => [MIdent "providers"; MEq; MBrackets (show_terminated show_binding l t)]
  end.

Definition listed_imports (es : list module_entry) : list string := List.concat (map (fun e => match e with Imports l _ => l | _ => [] end) es).
Definition listed_providers (es : list module_entry) : list provider_binding :=
  List.concat (map (fun e => match e with Providers l _ => l | _ => [] end) es).

Lemma parse_terminated_show {A} parse (show : A -> list module_token) (l : list A) trailing :
  (forall a ts, head ts <> Some MAs -> parse (show a ++ ts) = Ok (a, ts)) -> (forall a, exists t ts, show a = t :: ts) ->
  forall fuel, (length (show_terminated show l trailing) <= fuel)%nat ->
  parse_terminated parse fuel (show_terminated show l trailing) = Some (Ok l).
Proof.
  intros Hparse Hsome. induction l as [|a l IH]; intros fuel Hf; [by destruct fuel|]. destruct (Hsome a) as (t & ts & Ea).
  assert (Hs : show_terminated show (a :: l) trailing = show a ++ match l with [] => if trailing then [MComma] else [] | _ => MComma :: show_terminated show l trailing end)
    by (by destruct l).
  rewrite Hs in *. set (after := match l with [] => _ | _ => _ end) in *.
  assert (Hp : parse (show a ++ after) = Ok (a, after)) by (apply Hparse; unfold after; by destruct l, trailing).
  rewrite Ea in Hp, Hf |- *. simpl in Hf. rewrite length_app in Hf. destruct fuel as [|fuel]; [lia|]. simpl in Hp |- *. rewrite Hp.
  unfold after in *. destruct l as [|a' l].
  - destruct trailing; [by destruct fuel|done].
  - rewrite IH; [done|]. revert Hf. generalize (show_terminated show (a' :: l) trailing). intros shown Hf. simpl in Hf. lia.
Qed.

Lemma module_key_show e args : exists k content,
  show_entry e = [MIdent k; MEq; MBrackets content] /\
  module_key k content args = Some (Ok (ModuleArgs (ma_imports args ++ listed_imports [e]) (ma_providers args ++ listed_providers [e]))).
Proof.
  destruct e as [l t|l t]; (eexists _, _; split; [done|]); unfold module_key, listed_imports, listed_providers; simpl; rewrite !app_nil_r.
  - rewrite (parse_terminated_show parse_import (fun x => [MExpr x])); [done|done|intros ?; by eexists _, _|done].
  - rewrite (parse_terminated_show parse_binding show_binding); [done| |intros []; by eexists _, _|done].
    intros [p|p ty] ts Hh; [|done]. simpl. destruct ts as [|[] ts]; done.
Qed.

(** The entries of [#[module]], in any order and each any number of times, are read back as all that they
    list, in order. *)
Lemma module_arguments_round_trip (es : list module_entry) trailing :
  parse_module_args (show_terminated show_entry es trailing) = Some (Ok (ModuleArgs (listed_imports es) (listed_providers es))).
Proof.
  assert (Hgen : forall es args fuel, (length (show_terminated show_entry es trailing) <= fuel)%nat ->
    module_loop fuel (show_terminated show_entry es trailing) args =
      Some (Ok (ModuleArgs (ma_imports args ++ listed_imports es) (ma_providers args ++ listed_providers es))));
    [|unfold parse_module_args; by rewrite Hgen].
  clear es. induction es as [|e es IH]; intros args fuel Hf.
  { unfold listed_imports, listed_providers. simpl. rewrite !app_nil_r. by destruct fuel, args. }
  assert (Hs : show_terminated show_entry (e :: es) trailing =
    show_entry e ++ match es with [] => if trailing then [MComma] else [] | _ => MComma :: show_terminated show_entry es trailing end) by (by destruct es).
  rewrite Hs in *. destruct (module_key_show e args) as (k & content & Ee & Hk). rewrite Ee in Hf |- *. simpl in Hf.
  destruct fuel as [|fuel]; [lia|]. cbn [app module_loop]. rewrite Hk. cbn [mbind option_bind].
  change (listed_imports (e :: es)) with (listed_imports ([e] ++ es)). change (listed_providers (e :: es)) with (listed_providers ([e] ++ es)).
  unfold listed_imports, listed_providers in *. rewrite !map_app, !concat_app, !(assoc_L (++)). destruct es as [|e' es].
  - simpl. rewrite !app_nil_r. destruct trailing; [by destruct fuel|done].
  - rewrite IH; [done|]. revert Hf. generalize (show_terminated show_entry (e' :: es) trailing). intros shown Hf. simpl in Hf. lia.
Qed.

(** Any tokens are decided. *)
Lemma parse_terminated_total {A} (parse : list module_token -> result (A * list module_token) string) :
  (forall ts a ts', parse ts = Ok (a, ts') -> (length ts' < length ts)%nat) ->
  forall fuel ts, (length ts <= fuel)%nat -> is_Some (parse_terminated parse fuel ts).
Proof.
  intros Hp. induction fuel as [|fuel IH]; intros [|t ts] Hl; simpl in Hl |- *; [by eexists|lia|by eexists|].
  destruct (parse (t :: ts)) as [[a ts']|e] eqn:E; [|by eexists]. apply Hp in E. simpl in E.
  destruct ts' as [|[] ts']; try by eexists. simpl in E. destruct (IH ts' ltac:(lia)) as [r ->]. by eexists.
Qed.

Lemma module_loop_total : forall fuel ts args, (length ts <= fuel)%nat -> is_Some (module_loop fuel ts args).
Proof.
  assert (Hkey : forall key content args, is_Some (module_key key content args)).
  { intros. unfold module_key. destruct (String.eqb key "imports"); [|destruct (String.eqb key "providers"); [|by eexists]].
    - destruct (parse_terminated_total parse_import) with (fuel := length content) (ts := content) as [r ->]; [|done|by eexists].
      intros [|[] ts] a ts'; try done. simpl. intros [= _ <-]. lia.
    - destruct (parse_terminated_total parse_binding) with (fuel := length content) (ts := content) as [r ->]; [|done|by eexists].
      intros ts a ts' Hb. unfold parse_binding in Hb. repeat (case_match; simplify_eq/=; try lia). }
  induction fuel as [|fuel IH]; intros [|t ts] args Hl; simpl in Hl |- *; [by eexists|lia|by eexists|].
  destruct t; try by eexists. destruct ts as [|[] ts]; try by eexists. destruct ts as [|[] ts]; try by eexists.
  destruct (Hkey s content args) as [[args'|e] ->]; [|by eexists]. simpl in Hl |- *.
  destruct ts as [|[] ts]; try by eexists. apply IH. simpl in Hl. lia.
Qed.

Lemma parse_module_args_total ts : is_Some (parse_module_args ts).
Proof. by apply module_loop_total. Qed.

Module MacroArgsDemo.

Definition users_crud : list crud_option :=
  [CoService "users"; CoEntity ["users"; "entity"; "Entity"]; CoOutput ["User"]; CoCreate ["CreateUserInput"]; CoPaginate Cursor; CoReadonly].

Example users_crud_read :
  parse_crud_args (show_options users_crud true) =
    Some (Ok (CrudConfig "users" ["users"; "entity"; "Entity"] ["User"] (Some ["CreateUserInput"]) None true (Some Cursor))).
Proof. by vm_compute. Qed.

(** There is no [guards] option. *)
Example rejected_arguments :
  parse_crud_args (show_options [CoService "users"; CoEntity ["E"]] false) = Some (Err "#[crud] requires `output = OutputType`") /\
  parse_crud_args [TIdent "guards"; TEq; TOther "["] = Some (Err "unknown #[crud] option `guards`") /\
  parse_crud_args (show_options users_crud false ++ [TIdent "x"]) = Some (Err "unexpected token") /\
  parse_named_str_arg [TIdent "path"; TEq; TStr "/users"] "path" "controller" = Ok "/users" /\
  parse_injectable_scope [TIdent "scope"; TEq; TIdent "request"] = Ok true /\ parse_injectable_scope [] = Ok false.
Proof. repeat split; by vm_compute. Qed.

Example module_arguments :
  parse_module_args [MIdent "providers"; MEq; MBrackets [MPath ["Client"]; MAs; MType "dyn Provider"; MComma; MPath ["Tool"]; MComma]; MComma;
                     MIdent "imports"; MEq; MBrackets [MExpr "HealthModule"]] =
    Some (Ok (ModuleArgs ["HealthModule"] [DynBinding ["Client"] "dyn Provider"; ConcreteBinding ["Tool"]])) /\
  parse_module_args [MIdent "exports"; MEq; MBrackets []] = Some (Err "unknown #[module] key `exports` (expected `imports` or `providers`)") /\
  parse_module_args [MIdent "imports"; MEq; MBrackets [MExpr "A"; MExpr "B"]] = Some (Err "expected `,`").
Proof. repeat split; by vm_compute. Qed.

End MacroArgsDemo.
