(* ===== verification/Mcp.v ===== *)
(** The [#[mcp]] decorator ([nestrs-mcp-macros/src/mcp.rs]) and the endpoint it mounts ([nestrs-mcp/src/endpoint.rs]).

    The protocol is rmcp's, behind a parameter: the service it makes of a handler factory, and poem's nesting of
    an endpoint under a path. *)

From S2P Require Import Prelude Container Codegen MacroArgs.

Section mcp.
Context `{Compiler} `{Structs}.
(** rmcp's [StreamableHttpService] over a factory, and the routes it is nested in. *)
Context {Service Route : Type} (streamable_http : (unit -> result val panic) -> Service) (nest : string -> Service -> Route -> Route).

Inductive mcp_error := BadArguments (msg : string) | BadStruct (e : syn_error).

(** [endpoint]: the factory runs on every session. *)
Definition mcp_endpoint (factory : unit -> result val panic) : Service := streamable_http factory.

(** The decorated type: its path, its [Discoverable] impl, the mount of the [HttpEndpointMeta] and the handler a new
    session gets. *)
Record mcp_decl := McpDecl {
  mcp_path : string;
  mcp_discoverable : discoverable;
  mcp_mount : container -> Route -> Route;
  mcp_session : container -> result val panic
}.

(** [meta] is the [HttpEndpointMeta] as the container keeps it. *)
Definition mcp (args : list token) (self meta_ty : ty) (meta : val) (item : item_struct) : result mcp_decl mcp_error :=
  let? path := map_err BadArguments (parse_named_str_arg args "path" "mcp") in
  let? body := map_err BadStruct (build_injectable_body item) in
  let from_container := eval_ctor (i_ident item) (ib_ctor body) in
  Ok (McpDecl path
        {| d_dependencies := []; d_injected := map type_id (ib_dep_keys body); d_dependency_names := [];
           d_optional_dependencies := []; d_from_container := from_container; d_register := fun _ => Ok [RAttachMeta self meta_ty meta] |}
        (fun c r => nest path (mcp_endpoint (fun _ => from_container c)) r)
        from_container).

(** A session of a mounted handler is served exactly when what the handler injects is bound: its declared keys. *)
Lemma mcp_session_when_wired args self meta_ty meta item d c : mcp args self meta_ty meta item = Ok d ->
  (exists v, mcp_session d c = Ok v) <-> (forall k, k ∈ d_injected (mcp_discoverable d) -> is_Some (get k c)).
Proof.
  unfold mcp. destruct (parse_named_str_arg args "path" "mcp"); simpl; [|done].
  destruct (build_injectable_body item) as [body|] eqn:Eb; simpl; [|done]. intros [= <-]. simpl.
  by apply eval_ctor_ok_iff.
Qed.

End mcp.
