(* ===== verification/Identity.v ===== *)
(** The identity contract [crates/identity] and the application that issues it, [apps/auth]: the claims of a
    token with their serialized form ([claims.rs]), the token endpoint and the two OAuth routes
    ([oauth/controller.rs]), the issuer ([oauth/service.rs]) and the strategy behind the OAuth guard
    ([oauth/strategy.rs]), composed with the JWT service, the guard and the OAuth2 client of [Auth].

    UUID text, form and query decoding, the generator of secrets and the provider are parameters. *)

From S2P Require Import Prelude Container Http Auth.

(** ** Claims *)

(** The [uuid] crate: the hyphenated text of an id, and [Uuid::parse_str]. *)
Class Uuids := {
  uuid_text : Z -> string;
  uuid_parse : string -> option Z;
  uuid_parse_text u : (0 <= u < 2 ^ 128)%Z -> uuid_parse (uuid_text u) = Some u
}.

Inductive role := Admin | User.

#[export] Instance role_eq_dec : EqDecision role.
Proof. solve_decision. Defined.

(** serde, with [rename_all = "lowercase"] *)
Definition role_to_value (r : role) : json := JString (match r with Admin => "admin" | User => "user" end).

Definition role_from_value (v : json) : option role :=
  match v with
  | JString s => if String.eqb s "admin" then Some Admin else if String.eqb s "user" then Some User else None
  | _ => None
  end.

Record claims := Claims { org_id : Z; roles : list role; exp : Z }.

Definition is_admin (c : claims) : bool := bool_decide (Admin ∈ roles c).

Section claims_serde.
Context `{Uuids}.

Definition claims_to_value (c : claims) : json :=
  JObject [("org_id", JString (uuid_text (org_id c))); ("roles", JArray (map role_to_value (roles c)));
           ("exp", JNumber (exp c))].

(** The fields, whichever form of the struct they come in. *)
Definition claims_of_fields (o r e : json) : option claims :=
  match o, r, e with
  | JString text, JArray rs, JNumber at_ =>
      org ← uuid_parse text; rs ← mapM role_from_value rs;
      if decide (0 <= at_ <= u64_max)%Z then Some (Claims org rs at_) else None
  | _, _, _ => None
  end.

(** The derived [Deserialize]: a map with the three fields, or a sequence of them. *)
Definition claims_from_value (v : json) : option claims :=
  match v with
  | JObject ms =>
      o ← member "org_id" ms; r ← member "roles" ms; e ← member "exp" ms; claims_of_fields o r e
  | JArray [o; r; e] => claims_of_fields o r e
  | _ => None
  end.

Lemma roles_round_trip rs : mapM role_from_value (map role_to_value rs) = Some rs.
Proof. induction rs as [|[] rs IH]; simpl; [done|by rewrite IH..]. Qed.

Lemma claims_round_trip c : (0 <= org_id c < 2 ^ 128)%Z -> u64 (exp c) ->
  claims_from_value (claims_to_value c) = Some c.
Proof.
  intros Ho He. destruct c as [o rs e]. unfold claims_to_value, claims_of_fields. simpl in *.
  rewrite uuid_parse_text by done. simpl. rewrite roles_round_trip. simpl. unfold u64 in He. by rewrite decide_True.
Qed.

(** The two kinds of token the application signs with one key cannot stand for each other. *)
Lemma transactions_are_no_claims t : claims_from_value (transaction_to_value t) = None.
Proof. done. Qed.

Lemma claims_are_no_transaction c : transaction_from_value (claims_to_value c) = None.
Proof. done. Qed.

End claims_serde.

(** ** The token endpoint *)

(** [str::split_whitespace], on ASCII *)
Fixpoint words_from (l acc : list Ascii.ascii) : list (list Ascii.ascii) :=
  let flush := match acc with [] => [] | _ => [rev acc] end in
  match l with
  | [] => flush
  | c :: l' => if is_space c then flush ++ words_from l' [] else words_from l' (c :: acc)
  end.

Definition split_whitespace (s : string) : list string := map of_chars (words_from (chars s) []).

Definition role_of_word (s : string) : option role :=
  if String.eqb s "admin" then Some Admin else if String.eqb s "user" then Some User else None.

Definition roles_from_scope (scope : option string) : list role :=
  match omap role_of_word (split_whitespace (default "" scope)) with [] => [User] | rs => rs end.

Record token_request := TokenRequest { tr_grant_type : string; tr_org_id : Z; tr_scope : option string }.
Record token_response := TokenResponse { access_token : string; token_type : string; token_expires_in : Z }.

Definition token_response_value (t : token_response) : json :=
  JObject [("access_token", JString (access_token t)); ("token_type", JString (token_type t));
           ("expires_in", JNumber (token_expires_in t))].

(** The principal of the OAuth guard. *)
Record caller := Caller { ca_org_id : Z; ca_roles : list role }.

Definition demo_caller : caller := Caller 0x018f0000000070008000000000000001 [User].

Record callback_query := CallbackQuery { cq_code : option string; cq_state : option string }.

Section auth_app.
Context {X W Env : Type} `{Uuids} `{JwtEngine} `{!OAuthEngine W} `{!Extension X caller}.
Context (jwt : jwt_service) (oauth : oauth_config) (clock : W -> Z) (to_str : string -> option string).
(** poem's form and query extractors, and its answer of a JSON value. *)
Context (form : request X -> result token_request http_error) (params : request X -> option callback_query).
Context (answer_json : json -> response).
(** The CSRF state and the PKCE verifier the generator draws, and the provider's profile endpoint. *)
Context (draw : W -> (string * string) * W).
Context (http_get : string -> string -> W -> result (Z * result string string) string * W).
Context (status_error : Z -> string) (from_str : string -> result json string).

(** [TokenIssuer::issue] *)
Definition issue (org : Z) (rs : list role) (w : W) : result (string * Z) auth_error :=
  let? token := sign jwt (claims_to_value (Claims org rs (expiry jwt (clock w)))) in
  Ok (token, ttl_secs jwt).

(** [OAuthController::issue] *)
Definition controller_issue (org : Z) (rs : list role) (w : W) : result token_response http_error :=
  let? tt_ := map_err (fun err => error_from_string (auth_error_text err) 500) (issue org rs w) in
  Ok (TokenResponse tt_.1 "Bearer" tt_.2).

Definition answer_token (r : result token_response http_error) (w : W) : result response http_error * W :=
  match r with
  | Ok t => (Ok (answer_json (token_response_value t)), w)
  | Err err => (Err err, w)
  end.

Definition token : endpoint X W Env := fun _ req w =>
  match form req with
  | Err err => (Err err, w)
  | Ok (TokenRequest grant_type org scope) =>
      if negb (String.eqb grant_type "client_credentials")
      then (Err (error_from_string "unsupported_grant_type" 400), w)
      else answer_token (controller_issue org (roles_from_scope scope) w) w
  end.

Definition authorize : endpoint X W Env := fun _ _ w => (Ok (Response 200 None [] ""), w).

Definition callback : endpoint X W Env := fun _ req w =>
  match ctx_from_request (A:=caller) "auth::oauth::strategy::Caller" req with
  | Err err => (Err err, w)
  | Ok c => answer_token (controller_issue (ca_org_id c) (ca_roles c) w) w
  end.

(** ** The strategy *)

Definition transaction_cookie_name : string := "oauth_tx".
Definition semicolon : Ascii.ascii := Ascii.ascii_of_N 59.

Definition transaction_pair (pair : string) : option string :=
  strip_prefix transaction_cookie_name (trim pair) ≫= strip_prefix "=".

Definition transaction_cookie (req : request X) : option string :=
  h ← header_get "cookie" req ≫= to_str;
  head (omap transaction_pair (split semicolon h)).

Definition redirect_to_provider (az : authorization) : response :=
  Response 302 None
    [("location", az_url az);
     ("set-cookie", transaction_cookie_name +:+ "=" +:+ az_transaction az +:+
        "; HttpOnly; SameSite=Lax; Path=/; Max-Age=600")] "".

(** The callback leg, from its code; the profile is read and not used. *)
Definition complete (code : string) (state : option string) (req : request X) (w : W)
  : result (outcome_t caller) auth_error * W :=
  match state, transaction_cookie req with
  | None, _ => (Err (Failed "OAuth callback missing state"), w)
  | Some _, None => (Err (Failed "OAuth transaction cookie missing"), w)
  | Some state, Some transaction =>
      let '(exchanged, w1) := oauth_exchange oauth jwt (clock w) transaction state code w in
      match exchanged with
      | Err err => (Err err, w1)
      | Ok access_token =>
          let '(profile, w2) := userinfo http_get status_error from_str oauth access_token w1 in
          match profile with
          | Err err => (Err err, w2)
          | Ok _ => (Ok (Authenticated demo_caller), w2)
          end
      end
  end.

Definition authenticate : strategy (X:=X) (W:=W) caller := fun req w =>
  let query := default (CallbackQuery None None) (params req) in
  match cq_code query with
  | None =>
      let '((csrf, pkce), w1) := draw w in
      match oauth_authorize oauth jwt (clock w) csrf pkce with
      | Err err => (Err err, req, w1)
      | Ok az => (Ok (Challenge (redirect_to_provider az)), req, w1)
      end
  | Some code => let '(r, w1) := complete code (cq_state query) req w in (r, req, w1)
  end.

(** [OAuthGuard], and a route with it. *)
Definition oauth_guard : guard X W Env := auth_guard authenticate.
Definition oauth_guarded (h : endpoint X W Env) : endpoint X W Env := guard_endpoint oauth_guard h.

End auth_app.

(** ** What the scope asks for *)

Lemma words_from_spec l : forall acc,
  Forall (fun c => is_space c = false) acc ->
  Forall (fun w => w <> [] /\ Forall (fun c => is_space c = false) w) (words_from l acc).
Proof.
  assert (Hflush : forall acc : list Ascii.ascii, Forall (fun c => is_space c = false) acc ->
    Forall (fun w => w <> [] /\ Forall (fun c => is_space c = false) w)
      (match acc with [] => [] | _ => [rev acc] end)).
  { intros [|c acc] Ha; constructor; [|done]. split; [|by apply Forall_rev].
    simpl. by destruct (rev acc). }
  induction l as [|c l IH]; intros acc Ha; simpl; [by apply Hflush|].
  destruct (is_space c) eqn:Ec; [|by apply IH; constructor].
  apply Forall_app. split; [by apply Hflush|by apply IH].
Qed.

Lemma role_of_word_admin s : role_of_word s = Some Admin <-> s = "admin".
Proof.
  unfold role_of_word. destruct (String.eqb_spec s "admin") as [->|N]; [done|].
  destruct (String.eqb_spec s "user"); split; intros E; simplify_eq.
Qed.

(** The admin role is granted exactly to a scope with the word for it; every other scope, an empty or a
    malformed one too, gets the user role. *)
Lemma roles_from_scope_admin scope :
  (Admin ∈ roles_from_scope scope <-> "admin" ∈ split_whitespace (default "" scope)) /\
  roles_from_scope scope <> [].
Proof.
  unfold roles_from_scope. set (ws := split_whitespace _).
  assert (Hin : Admin ∈ omap role_of_word ws <-> "admin" ∈ ws).
  { rewrite list_elem_of_omap. split.
    - intros (s & Hs & Hr). apply role_of_word_admin in Hr. by subst.
    - intros Hs. by exists "admin". }
  destruct (omap role_of_word ws) as [|r rs]; [|by split].
  split; [|done]. rewrite <- Hin. split; intros Hr; [by apply list_elem_of_singleton in Hr|by apply elem_of_nil in Hr].
Qed.

(** ** Tokens across the two applications *)

Section across.
Context `{JwtSemantics}.

(** What one service signs another verifies, when it holds the key that goes with it. *)
Lemma verify_across {C} (de : json -> option C) o s o' s' k members exp :
  jwt_new o = Ok s -> encoding s = Some k -> signable o = true ->
  jwt_new o' = Ok s' -> paired k (decoding s') -> jo_algorithm o = jo_algorithm o' ->
  member "exp" members = Some (JNumber exp) ->
  exists token, sign s (JObject members) = Ok token /\ forall now,
    verify de s' token now =
      match de (JObject members) with
      | Some c => if (exp <? now - 60)%Z then Err Expired else Ok c
      | None => Err InvalidToken
      end.
Proof.
  intros Hnew Hk Hsign Hnew' Hpair Halg Hexp. pose proof (sign_cases o s k (JObject members) Hnew Hk) as Hcases.
  rewrite Hsign in Hcases. destruct Hcases as (token & Ht & _). exists token.
  apply jwt_new_parts in Hnew as (Hh & _), Hnew' as (_ & _ & Hv & _).
  unfold sign, verify. rewrite Hk. simpl. rewrite Ht. split; [done|]. intros now'.
  rewrite (decode_signed de (header s) members exp k (decoding s') (sv_validation s') token now')
    by (rewrite ?Hv; simpl; congruence || done).
  rewrite Hv. simpl. destruct (de (JObject members)); [|done]. by destruct (exp <? now' - 60)%Z.
Qed.

End across.

Section issued.
Context {X W Env : Type} `{Uuids} `{JwtSemantics} `{!OAuthEngine W} `{!Extension X caller} `{!Extension X claims}.
Context (to_str : string -> option string) (form : request X -> result token_request http_error).
Context (answer_json : json -> response).

(** [C10] A token the authorization server issues is the principal it was issued for, at any resource server
    that holds the public key.  The token endpoint answers a client-credentials request for an
    organisation with a token whose claims are that organisation and the roles of the scope — the
    admin role exactly when the scope has that word —; a request to the other application with the
    token as its bearer passes the guard with those claims attached until a minute past the lifetime,
    and is refused with 401 from then on.  A server whose algorithm is not of the family of its key
    answers every such request with a 500.  Any other grant type is a 400 and signs nothing; neither the
    OAuth transaction nor the access token is accepted in place of the other. *)
Theorem issued_token_is_the_principal o s o' s' k (clock clock' : W -> Z) (env : Env) (req : request X) (w : W) tr :
  jwt_new o = Ok s -> encoding s = Some k -> paired k (decoding s) ->
  jwt_new o' = Ok s' -> paired k (decoding s') -> jo_algorithm o = jo_algorithm o' ->
  u64 (clock w + jo_expires_in o) -> (0 <= tr_org_id tr < 2 ^ 128)%Z ->
  form req = Ok tr ->
  let out := token (Env:=Env) s clock form answer_json env req w in
  let c := Claims (tr_org_id tr) (roles_from_scope (tr_scope tr)) (clock w + jo_expires_in o) in
  if String.eqb (tr_grant_type tr) "client_credentials" then if signable o then
    (is_admin c = true <-> "admin" ∈ split_whitespace (default "" (tr_scope tr))) /\
    exists tok, out = (Ok (answer_json (token_response_value (TokenResponse tok "Bearer" (jo_expires_in o)))), w) /\
      (forall now, verify transaction_from_value s tok now = Err InvalidToken) /\
      forall (api_req : request X) (w' : W), bearer_token to_str api_req = Some tok ->
        let verdict := auth_guard (jwt_strategy to_str claims_from_value s' clock') env api_req w' in
        if (clock' w' <=? clock w + jo_expires_in o + 60)%Z
        then verdict = (Ok tt, ext_insert c api_req, w')
        else verdict = (Err (auth_error_response Expired), api_req, w')
  else exists msg, out = (Err (error_from_string (auth_error_text (Failed msg)) 500), w)
  else out = (Err (error_from_string "unsupported_grant_type" 400), w).
Proof.
  intros Hnew Hk Hself Hnew' Hpair Halg Hu Ho Hf. destruct tr as [grant org scope]. simpl in *.
  unfold token. rewrite Hf. destruct (String.eqb grant "client_credentials"); simpl; [|done].
  destruct (signable o) eqn:Hsign; cycle 1.
  { pose proof (sign_cases o s k (claims_to_value (Claims org (roles_from_scope scope) (expiry s (clock w)))) Hnew Hk) as Hcases.
    rewrite Hsign in Hcases. destruct Hcases as [msg Hmsg]. exists msg.
    unfold answer_token, controller_issue, issue. by rewrite Hmsg. }
  split; [unfold is_admin; simpl; rewrite bool_decide_eq_true; apply roles_from_scope_admin|].
  pose proof (jwt_new_parts o s Hnew) as (_ & He & _).
  assert (Hexp : expiry s (clock w) = (clock w + jo_expires_in o)%Z) by (unfold expiry; by rewrite He, wrap_u64_small).
  set (c := Claims org (roles_from_scope scope) (clock w + jo_expires_in o)).
  pose proof (claims_round_trip c Ho Hu) as Hc. pose proof (claims_are_no_transaction c) as Ht.
  unfold claims_to_value in Hc, Ht. set (members := [_; _; _]) in Hc, Ht.
  destruct (verify_across claims_from_value o s o' s' k members (exp c) Hnew Hk Hsign Hnew' Hpair Halg eq_refl) as (tok & Hs & Hv).
  destruct (verify_across transaction_from_value o s o s k members (exp c) Hnew Hk Hsign Hnew Hself eq_refl eq_refl) as (tok1 & Hs1 & Hv1).
  exists tok. unfold answer_token, controller_issue, issue, claims_to_value. rewrite Hexp. fold c members. rewrite Hs. simpl.
  split; [unfold ttl_secs; by rewrite He|]. split.
  - intros now. assert (tok1 = tok) as -> by congruence. by rewrite Hv1, Ht.
  - intros api_req w' Hb. unfold auth_guard, jwt_strategy. rewrite Hb. simpl. rewrite Hv, Hc. subst c. simpl.
    destruct (Z.ltb_spec (clock w + jo_expires_in o) (clock' w' - 60)),
      (Z.leb_spec (clock' w') (clock w + jo_expires_in o + 60)); try lia; done.
Qed.

End issued.

(** ** The OAuth flow of the application *)

Section flow.
Context {X W Env : Type} `{Uuids} `{JwtSemantics} `{!OAuthEngine W} `{!Extension X caller}.
Context (jwt : jwt_service) (oauth : oauth_config) (clock : W -> Z) (to_str : string -> option string).
Context (params : request X -> option callback_query) (answer_json : json -> response).
Context (draw : W -> (string * string) * W).
Context (http_get : string -> string -> W -> result (Z * result string string) string * W).
Context (status_error : Z -> string) (from_str : string -> result json string).

(** What admits a request: a code, a state and the cookie of a transaction this service signed with that
    state, traded at the provider for an access token its profile endpoint accepts. *)
Definition flow_completed (req : request X) (w w' : W) : Prop :=
  exists code state transaction tx access w1 profile,
    default (CallbackQuery None None) (params req) = CallbackQuery (Some code) (Some state) /\
    transaction_cookie to_str req = Some transaction /\
    verify transaction_from_value jwt transaction (clock w) = Ok tx /\ csrf tx = state /\
    request_token oauth code (pkce tx) w = (Ok access, w1) /\
    userinfo http_get status_error from_str oauth access w1 = (Ok profile, w').

(** The verdicts, one by one. *)
Lemma guard_verdict (env : Env) (req : request X) (w : W) :
  let '(verdict, req1, w') := oauth_guard jwt oauth clock to_str params draw http_get status_error from_str env req w in
  match verdict with
  | Ok _ => req1 = ext_insert demo_caller req /\ flow_completed req w w' /\ Admin ∉ ca_roles demo_caller
  | Err resp => req1 = req /\
      (status resp = 302%Z ->
         cq_code (default (CallbackQuery None None) (params req)) = None /\
         exists az, oauth_authorize oauth jwt (clock w) (draw w).1.1 (draw w).1.2 = Ok az /\
           w' = (draw w).2 /\ resp = redirect_to_provider az) /\
      (status resp = 302%Z \/ status resp = 401%Z) /\
      (forall code, cq_code (default (CallbackQuery None None) (params req)) = Some code ->
         (~ exists state transaction tx, cq_state (default (CallbackQuery None None) (params req)) = Some state /\
            transaction_cookie to_str req = Some transaction /\
            verify transaction_from_value jwt transaction (clock w) = Ok tx /\ csrf tx = state) -> w' = w)
  end.
Proof.
  unfold oauth_guard, auth_guard, authenticate. set (q := default _ _). destruct q as [[code|] state] eqn:Eq; subst q; cbn [cq_code cq_state].
  - unfold complete. destruct state as [state|]; [|simpl; split_and!; try done; by right].
    destruct (transaction_cookie to_str req) as [transaction|] eqn:Ec; [|simpl; split_and!; try done; by right].
    unfold oauth_exchange. destruct (verify _ jwt transaction (clock w)) as [tx|err] eqn:Ev;
      [|simpl; split_and!; try done; by right].
    destruct (String.eqb_spec (csrf tx) state) as [Es|Ns]; simpl; [|split_and!; try done; by right].
    assert (Hchecked : exists state' transaction' tx', Some state = Some state' /\ Some transaction = Some transaction' /\
      verify transaction_from_value jwt transaction' (clock w) = Ok tx' /\ csrf tx' = state') by (by exists state, transaction, tx).
    destruct (basic_client oauth) as [[]|err]; simpl; [|split_and!; try done; by right].
    destruct (request_token oauth code (pkce tx) w) as [[access|err] w1] eqn:Et; simpl; [|split_and!; try done; by right].
    destruct (userinfo http_get status_error from_str oauth access w1) as [[profile|err] w2] eqn:Eu; simpl;
      [|split_and!; try done; by right].
    split; [done|]. split; [|by rewrite list_elem_of_singleton].
    exists code, state, transaction, tx, access, w1, profile. done.
  - destruct (draw w) as [[csrf0 pkce0] w1]. destruct (oauth_authorize oauth jwt (clock w) csrf0 pkce0) as [az|err] eqn:Ea; simpl.
    + split_and!; try done; [|by left]. intros _. split; [done|]. by exists az.
    + split_and!; try done. by right.
Qed.

(** [C34] The guard of the OAuth routes admits a completed flow and nothing else.  A request it admits has
    carried a code, a state and the cookie of a transaction this service signed with that
    very state, the provider has traded the code for a token under the verifier of that transaction, and
    the profile endpoint has accepted it; the principal is then the demonstration caller, never an
    admin, whoever logged in; and every such request is admitted.  A request without a code is a 302 to
    the URL of the provider that sets the cookie of the transaction just signed (a 401 where the
    client's URLs do not parse or the service cannot sign), one whose transaction does not check out is
    a 401, and neither reaches the provider. *)
Theorem callback_needs_a_completed_flow (env : Env) (req : request X) (w : W) :
  let '(verdict, req1, w') := oauth_guard jwt oauth clock to_str params draw http_get status_error from_str env req w in
  let query := default (CallbackQuery None None) (params req) in
  (cq_code query = None -> req1 = req /\ w' = (draw w).2 /\
     match oauth_authorize oauth jwt (clock w) (draw w).1.1 (draw w).1.2 with
     | Ok az => verdict = Err (Response 302 None
         [("location", az_url az);
          ("set-cookie", "oauth_tx=" +:+ az_transaction az +:+ "; HttpOnly; SameSite=Lax; Path=/; Max-Age=600")] "")
     | Err err => verdict = Err (auth_error_response err)
     end) /\
  (forall w'', basic_client oauth = Ok tt -> flow_completed req w w'' -> verdict = Ok tt /\ w' = w'') /\
  match verdict with
  | Ok _ => req1 = ext_insert demo_caller req /\ flow_completed req w w' /\ Admin ∉ ca_roles demo_caller
  | Err resp => req1 = req /\
      (status resp = 302%Z ->
         cq_code (default (CallbackQuery None None) (params req)) = None /\
         exists az, oauth_authorize oauth jwt (clock w) (draw w).1.1 (draw w).1.2 = Ok az /\
           w' = (draw w).2 /\ resp = redirect_to_provider az) /\
      (status resp = 302%Z \/ status resp = 401%Z) /\
      (forall code, cq_code (default (CallbackQuery None None) (params req)) = Some code ->
         (~ exists state transaction tx, cq_state (default (CallbackQuery None None) (params req)) = Some state /\
            transaction_cookie to_str req = Some transaction /\
            verify transaction_from_value jwt transaction (clock w) = Ok tx /\ csrf tx = state) -> w' = w)
  end.
Proof.
  pose proof (guard_verdict env req w) as Hv. destruct (oauth_guard _ _ _ _ _ _ _ _ _ env req w) as [[verdict req1] w'] eqn:Eg.
  cbv zeta. split; [|split; [|exact Hv]]; unfold oauth_guard, auth_guard, authenticate in Eg.
  - intros Hcode. rewrite Hcode in Eg. destruct (draw w) as [[csrf0 pkce0] w1]. cbn [fst snd].
    by destruct (oauth_authorize oauth jwt (clock w) csrf0 pkce0); injection Eg as <- <- <-.
  - intros w'' Hc (code & state & transaction & tx & access & w1 & profile & Hq & Ht & Hver & Hs & Hreq & Hu).
    rewrite Hq in Eg. cbn [cq_code cq_state] in Eg. unfold complete in Eg. rewrite Ht in Eg.
    unfold oauth_exchange in Eg. rewrite Hver, (proj2 (String.eqb_eq _ _) Hs), Hc, Hreq in Eg. simpl in Eg. rewrite Hu in Eg.
    by injection Eg as <- _ <-.
Qed.

End flow.

(** ** A concrete deployment: the engine of [AuthDemo], the issuer and a resource server on one secret *)

Module IdentityDemo.
Import AuthDemo.

#[export] Instance uuids : Uuids.
Proof.
  refine {| uuid_text := show_u64; uuid_parse := parse_uint (2 ^ 128 - 1) |}.
  intros u Hu. rewrite parse_show_digits by lia. by rewrite (proj2 (Z.leb_le _ _)) by lia.
Defined.

Inductive ext := XCaller (c : caller) | XClaims (c : claims).

#[export] Instance caller_ext : Extension ext caller.
Proof.
  refine {| ext_key := TNamed "Caller"; erase := XCaller;
            recover x := match x with XCaller c => Some c | _ => None end |}. done.
Defined.

#[export] Instance claims_ext : Extension ext claims.
Proof.
  refine {| ext_key := TNamed "Claims"; erase := XClaims;
            recover x := match x with XClaims c => Some c | _ => None end |}. done.
Defined.

(** The world is the log of the provider, whatever the time. *)
Definition world : Type := list (string * string).
Definition at_ (now : Z) (w : world) : Z := now.
Definition req (headers : list (string * string)) : request ext := Request GET "/" headers [] "" ∅.
(** The answer, by the token in it. *)
Definition json_answer (j : json) : response :=
  Response 200 (Some "application/json") [] (match j with JObject ((_, JString t) :: _) => t | _ => "" end).

Definition wants (grant scope : string) (r : request ext) : result token_request http_error :=
  Ok (TokenRequest grant 7 (Some scope)).

Lemma issued_token_is_the_principal_witness :
  exists tok,
    (token (Env:=unit) service (at_ 43200) (wants "client_credentials" "openid admin") json_answer tt (req []) ([] : world)).1 =
      Ok (json_answer (token_response_value (TokenResponse tok "Bearer" 3600))) /\
    bearer_token Some (req [("authorization", "Bearer " +:+ tok)]) = Some tok /\
    auth_guard (jwt_strategy Some claims_from_value service (at_ 46860)) tt (req [("authorization", "Bearer " +:+ tok)]) ([] : world)
      = (Ok tt, ext_insert (Claims 7 [Admin] 46800) (req [("authorization", "Bearer " +:+ tok)]), []).
Proof.
  destruct (issued_token_is_the_principal (Env:=unit) Some (wants "client_credentials" "openid admin") json_answer
    (options_new "secret") service (options_new "secret") service (demo_secret "secret") (at_ 43200) (at_ 46860) tt (req []) []
    (TokenRequest "client_credentials" 7 (Some "openid admin"))
    service_new eq_refl (secret_paired "secret") service_new (secret_paired "secret") eq_refl
    ltac:(by vm_compute) ltac:(by vm_compute) eq_refl) as (_ & tok & Hout & _ & Hadmit).
  exists tok. split; [by rewrite Hout|]. split; [|apply (Hadmit _ [])].
  all: vm_compute in Hout; injection Hout as <-; by vm_compute.
Defined.

(** The whole flow at the callback, and a provider that reports a refusal: without a code the browser is sent
    to it again. *)
Definition draws (w : world) : (string * string) * world := (("state-1", "verifier-1"), w).
Definition profile (url tok : string) (w : world) : result (Z * result string string) string * world :=
  (Ok (200%Z, Ok "{}"), w ++ [("profile", tok)]).
Definition guarded_callback (query : callback_query) : endpoint ext world unit :=
  oauth_guarded service config (at_ 43200) Some (fun _ => Some query) draws profile show_u64 (fun _ => Ok (JObject []))
    (callback service (at_ 43200) json_answer).

Definition cookie_of (resp : response) : string :=
  default "" (snd <$> List.find (fun kv : string * string => String.eqb kv.1 "set-cookie") (resp_headers resp)).

Example redirected_then_admitted :
  match guarded_callback (CallbackQuery None None) tt (req []) [] with
  | (Ok redirect, []) =>
      status redirect = 302%Z /\
      let '(out, log) := guarded_callback (CallbackQuery (Some "code") (Some "state-1")) tt
                           (req [("cookie", "theme=dark; " +:+ cookie_of redirect)]) [] in
      log = [("code", "verifier-1"); ("profile", "token-for-code")] /\
      (tok ← result_ok (result_map resp_body out); result_ok (verify claims_from_value service tok 43200)) =
        Some (Claims (ca_org_id demo_caller) [User] 46800)
  | _ => False
  end.
Proof. by vm_compute. Qed.

(** A provider that answers the callback with an error and no code gets the user back. *)
Example a_refusal_starts_over :
  (guarded_callback (CallbackQuery None (Some "state-1")) tt (req []) []).1 =
    (guarded_callback (CallbackQuery None None) tt (req []) []).1.
Proof. done. Qed.

Lemma callback_needs_a_completed_flow_witness :
  exists redirect, guarded_callback (CallbackQuery None None) tt (req []) [] = (Ok redirect, []) /\
    flow_completed service config (at_ 43200) Some (fun _ => Some (CallbackQuery (Some "code") (Some "state-1")))
      profile show_u64 (fun _ => Ok (JObject []))
      (req [("cookie", cookie_of redirect)]) [] [("code", "verifier-1"); ("profile", "token-for-code")].
Proof.
  eexists. split; [reflexivity|].
  set (r := req _).
  pose proof (callback_needs_a_completed_flow (Env:=unit) service config (at_ 43200) Some
    (fun _ => Some (CallbackQuery (Some "code") (Some "state-1"))) draws profile show_u64 (fun _ => Ok (JObject [])) tt r []) as Hf.
  match type of Hf with context [oauth_guard ?a ?b ?c ?d ?e ?f ?g ?h ?i ?j ?k ?l] => set (run := oauth_guard a b c d e f g h i j k l) in Hf; assert (E : (run.1.1, run.2) = (Ok tt, [("code", "verifier-1"); ("profile", "token-for-code")])) by (by vm_compute); destruct run as [[verdict req1] w'] end.
  injection E as -> ->.
  exact (proj1 (proj2 (proj2 (proj2 Hf)))).
Defined.

End IdentityDemo.
