(* ===== verification/Api.v ===== *)
(** The demonstration API, [apps/api]: its two entities ([users/entity.rs], [orgs/entity.rs]), the ability of a
    caller ([authz/ability.rs]), the services and their loaders ([users/service.rs], [orgs/service.rs]), the
    field resolvers ([users/resolver.rs], [orgs/resolver.rs]) and the gateway ([users/gateway.rs]) — the ORM,
    the engine and the executors of the library at the types of one application.

    sea-query's conditions, the statements run on a connection and the [validator] crate's e-mail check are
    parameters; [ApiDatabase] states what is documented of the writes. *)

From S2P Require Import Prelude Container Authz Http Orm Resource Identity.

(** ** Entities *)

Record user_row := UserRow { u_id : Z; u_org_id : Z; u_name : string; u_email : string }.
Record org_row := OrgRow { o_id : Z; o_name : string }.

(** A row of either table. *)
Inductive api_model := MUser (u : user_row) | MOrg (o : org_row).

#[export] Instance user_row_eq_dec : EqDecision user_row.
Proof. solve_decision. Defined.
#[export] Instance org_row_eq_dec : EqDecision org_row.
Proof. solve_decision. Defined.
#[export] Instance api_model_eq_dec : EqDecision api_model.
Proof. solve_decision. Defined.

Inductive api_column := UserId | UserOrgId | UserName | UserEmail | OrgId | OrgName.

(** The two variants of [sea_query::Value] the columns use, each nullable. *)
Inductive api_value := VUuid (id : option Z) | VString (s : option string).

#[export] Instance api_value_eq_dec : EqDecision api_value.
Proof. solve_decision. Defined.

Definition users : ty := TNamed "users::Entity".
Definition orgs : ty := TNamed "orgs::Entity".

Definition column_name (c : api_column) : string :=
  match c with
  | UserId | OrgId => "id" | UserOrgId => "org_id" | UserName | OrgName => "name" | UserEmail => "email"
  end.

Definition model_id (m : api_model) : Z := match m with MUser u => u_id u | MOrg o => o_id o end.

(** [ModelTrait::get]. A column is read of a row of its own entity, as the types demand; of another row the key
    is its key and everything else is null. *)
Definition column_value (m : api_model) (c : api_column) : api_value :=
  match m, c with
  | _, UserId | _, OrgId => VUuid (Some (model_id m))
  | MUser u, UserOrgId => VUuid (Some (u_org_id u))
  | MUser u, UserName => VString (Some (u_name u))
  | MUser u, UserEmail => VString (Some (u_email u))
  | MOrg o, OrgName => VString (Some (o_name o))
  | _, _ => VString None
  end.

(** The derived [Serialize] of the two models; the emitted outputs [User] and [Org] have the same members, the
    relations being neither columns nor exposed. *)
Definition model_value `{Uuids} (m : api_model) : json :=
  match m with
  | MUser u => JObject [("id", JString (uuid_text (u_id u))); ("org_id", JString (uuid_text (u_org_id u)));
                        ("name", JString (u_name u)); ("email", JString (u_email u))]
  | MOrg o => JObject [("id", JString (uuid_text (o_id o))); ("name", JString (o_name o))]
  end.

(** sea-query, without the types of the application. *)
Class SeaQuery := {
  sq_condition : Type;
  sq_expr : Type;
  sq_all : sq_condition;
  sq_any : sq_condition;
  sq_add : sq_condition -> sq_condition -> sq_condition;
  sq_add_expr : sq_condition -> sq_expr -> sq_condition;
  sq_not : sq_condition -> sq_condition;
  sq_is_empty : sq_condition -> bool;
  sq_eq : api_column -> api_value -> sq_expr;
  sq_is_in : api_column -> list api_value -> sq_expr;
  sq_cust : string -> sq_expr
}.

#[export] Instance api_orm `{Uuids} `{SeaQuery} : Orm := {|
  column := api_column; value := api_value; model := api_model;
  as_str := column_name; model_get := column_value;
  value_eqb u v := bool_decide (u = v);
  to_value m := Some (model_value m);
  condition := sq_condition; sql_expr := sq_expr;
  condition_all := sq_all; condition_any := sq_any; condition_add := sq_add;
  condition_add_expr := sq_add_expr; condition_not := sq_not; condition_is_empty := sq_is_empty;
  col_eq := sq_eq; col_is_in := sq_is_in; expr_cust := sq_cust |}.

(** ** The ability of a caller *)

Section ability.
Context `{Uuids} `{SeaQuery}.

Definition org_is (c : api_column) (actor : claims) : predicate := PEq (c : column) (VUuid (Some (org_id actor)) : value).

(** [AppAbility::define] *)
Definition app_ability (actor : claims) : list rule_spec :=
  if is_admin actor then
    [spec_when (org_is UserOrgId actor) (spec_can Read users);
     spec_when (org_is UserOrgId actor) (spec_can Manage users);
     spec_can Manage orgs]
  else
    [spec_fields [UserId : column; UserName : column] (spec_when (org_is UserOrgId actor) (spec_can Read users));
     spec_when (org_is UserOrgId actor) (spec_can Create users);
     spec_when (org_is OrgId actor) (spec_can Read orgs)].

End ability.

(** ** Inputs *)

(** [CreateUserInput] and [UpdateUserInput] have the same two fields, [CreateOrgInput] and [UpdateOrgInput] the
    same one. *)
Inductive api_input := IUser (name email : string) | IOrg (name : string).

(** The active models of the two entities. *)
Inductive api_active :=
| AUser (id org : active_value Z) (name email : active_value string)
| AOrg (id : active_value Z) (name : active_value string).

(** The emitted conversions. [now] is the key [Uuid::now_v7] draws. *)
Definition input_active (now : Z) (i : api_input) : api_active :=
  match i with
  | IUser name email => AUser (Set_ now) NotSet (Set_ name) (Set_ email)
  | IOrg name => AOrg (Set_ now) (Set_ name)
  end.

Definition input_apply (i : api_input) (a : api_active) : api_active :=
  match i, a with
  | IUser name email, AUser id org _ _ => AUser id org (Set_ name) (Set_ email)
  | IOrg name, AOrg id _ => AOrg id (Set_ name)
  | _, _ => a
  end.

Definition model_active_values (m : api_model) : api_active :=
  match m with
  | MUser u => AUser (Unchanged (u_id u)) (Unchanged (u_org_id u)) (Unchanged (u_name u)) (Unchanged (u_email u))
  | MOrg o => AOrg (Unchanged (o_id o)) (Unchanged (o_name o))
  end.

(** sea-orm's [is_noop]: no column but the key is [Set]. *)
Definition is_set {V} (v : active_value V) : bool := match v with Set_ _ => true | _ => false end.
Definition sets_nothing (a : api_active) : bool :=
  match a with
  | AUser _ org name email => negb (is_set org || is_set name || is_set email)
  | AOrg _ name => negb (is_set name)
  end.

(** The derived [Validate] of the inputs; the [validator] crate decides what an e-mail address is.  The answer
    lists the fields that fail. *)
Definition invalid_fields (is_email : string -> bool) (i : api_input) : list string :=
  match i with
  | IUser name email =>
      (if String.eqb name "" then ["name"] else []) ++ (if is_email email then [] else ["email"])
  | IOrg name => if String.eqb name "" then ["name"] else []
  end.

Definition input_validate (is_email : string -> bool) (i : api_input) : bool :=
  match invalid_fields is_email i with [] => true | _ => false end.

(** ** The services *)

(** The statements run on a connection, at the types of the application; [now_v7] is the key drawn for the row
    a request creates. *)
Class Statements (W T : Type) `{SeaQuery} := {
  now_v7 : Z;
  st_all : executor T -> ty -> sq_condition -> W -> result (list api_model) db_err * W;
  st_by_id : executor T -> ty -> Z -> sq_condition -> W -> result (option api_model) db_err * W;
  st_cursor : executor T -> ty -> sq_condition -> api_column -> option Z -> Z -> W -> result (list api_model) db_err * W;
  st_insert : executor T -> ty -> api_active -> W -> result api_model db_err * W;
  st_update : executor T -> ty -> api_active -> sq_condition -> W -> result api_model db_err * W;
  st_delete : executor T -> ty -> api_model -> sq_condition -> W -> result Z db_err * W
}.

#[export] Instance api_queries {W T} `{Uuids} `{SeaQuery} `{!Statements W T} : Queries W T := {
  active_model := api_active; create_input := api_input; update_input := api_input;
  into_active_model := input_active now_v7; apply_to := input_apply; model_active := model_active_values;
  active_is_noop := sets_nothing;
  table_name e := if decide (e = orgs) then "org" else "user";
  pk_col e := (if decide (e = orgs) then OrgId else UserId) : column;
  value_uuid v := match v with VUuid id => id | VString _ => None end;
  parse_uuid := uuid_parse;
  q_all := st_all; q_by_id := st_by_id; q_cursor := st_cursor;
  q_insert := st_insert; q_update := st_update; q_delete := st_delete }.

(** The emitted outputs. *)
Record user_out := UserOut { uo_id : string; uo_org_id : string; uo_name : string; uo_email : string }.
Record org_out := OrgOut { oo_id : string; oo_name : string }.

Definition user_from `{Uuids} (u : user_row) : user_out :=
  UserOut (uuid_text (u_id u)) (uuid_text (u_org_id u)) (u_name u) (u_email u).
Definition org_from `{Uuids} (o : org_row) : org_out := OrgOut (uuid_text (o_id o)) (o_name o).

(** The rows of a query on one entity, at its type. *)
Definition user_of (m : api_model) : option user_row := match m with MUser u => Some u | MOrg _ => None end.
Definition org_of (m : api_model) : option org_row := match m with MOrg o => Some o | MUser _ => None end.

(** The errors of [create_in_org]. *)
Inductive create_err := ValidationErrors (fields : list string) | CreateDb (err : db_err).

Section services.
Context {W T : Type} `{Uuids} `{SeaQuery} `{!Statements W T} (is_email : string -> bool).

(** [UsersService::create_in_org] *)
Definition create_in_org (name email : string) (org : Z) (env : ambient T) (w : W) : result api_model create_err * W :=
  match invalid_fields is_email (IUser name email) with
  | [] =>
      match conn env with
      | Err err => (Err (CreateDb err), w)
      | Ok ex =>
          let '(r, w1) := q_insert ex users (AUser (Set_ now_v7) (Set_ org) (Set_ name) (Set_ email)) w in
          (map_err CreateDb r, w1)
      end
  | fields => (Err (ValidationErrors fields), w)
  end.

(** [Repo::<E>::scoped(Read).filter(col.is_in(keys)).all(..)], an error logged and read as no row. *)
Definition scoped_in (e : ty) (c : api_column) (keys : list api_value) (env : ambient T) (w : W) : list api_model * W :=
  match conn env with
  | Err _ => ([], w)
  | Ok ex =>
      let cond := foldl condition_add condition_all
        [repo_scoped e Read env; condition_add_expr condition_all (col_is_in (c : column) (keys : list value))] in
      let '(r, w1) := q_all ex e cond w in
      (match r with Ok rows => rows | Err _ => [] end, w1)
  end.

Definition bucket_push {K} `{Countable K} (key : user_row -> K) (buckets : gmap K (list user_out)) (u : user_row)
  : gmap K (list user_out) :=
  match buckets !! key u with
  | Some bucket => <[key u := bucket ++ [user_from u]]> buckets
  | None => buckets
  end.

Definition by_name (names : list string) (env : ambient T) (w : W) : gmap string (list user_out) * W :=
  let buckets := list_to_map (map (fun name => (name, [])) names) in
  let '(rows, w1) := scoped_in users UserName (map (fun name => VString (Some name)) names) env w in
  (foldl (bucket_push u_name) buckets (omap user_of rows), w1).

Definition by_org (org_ids : list Z) (env : ambient T) (w : W) : gmap Z (list user_out) * W :=
  let buckets := list_to_map (map (fun id => (id, [])) org_ids) in
  let '(rows, w1) := scoped_in users UserOrgId (map (fun id => VUuid (Some id)) org_ids) env w in
  (foldl (bucket_push u_org_id) buckets (omap user_of rows), w1).

Definition by_id (ids : list Z) (env : ambient T) (w : W) : gmap Z org_out * W :=
  let '(rows, w1) := scoped_in orgs OrgId (map (fun id => VUuid (Some id)) ids) env w in
  (foldl (fun m o => <[o_id o := org_from o]> m) ∅ (omap org_of rows), w1).

(** ** The field resolvers

    The loader answers a key from the batch it is gathered in, here with the [others]. *)

Definition load_users (key : string) (others : list string) (env : ambient T) (w : W) : option (list user_out) * W :=
  let '(m, w1) := by_name (key :: others) env w in (m !! key, w1).

Definition namesakes (parent : user_out) (others : list string) (env : ambient T) (w : W) : list user_out * W :=
  let '(same_name, w1) := load_users (uo_name parent) others env w in
  (filter (fun u => uo_id u <> uo_id parent) (default [] same_name), w1).

(** [None] is the error of an id that does not parse. *)
Definition user_org (parent : user_out) (others : list Z) (env : ambient T) (w : W) : option (option org_out) * W :=
  match uuid_parse (uo_org_id parent) with
  | None => (None, w)
  | Some id => let '(m, w1) := by_id (id :: others) env w in (Some (m !! id), w1)
  end.

Definition org_users (parent : org_out) (others : list Z) (env : ambient T) (w : W) : option (list user_out) * W :=
  match uuid_parse (oo_id parent) with
  | None => (None, w)
  | Some id => let '(m, w1) := by_org (id :: others) env w in (Some (default [] (m !! id)), w1)
  end.

(** ** The gateway *)

(** [UsersGateway::list], the event [users.list]. *)
Definition gateway_list (env : ambient T) (w : W) : list user_out * W :=
  let '(r, w1) := service_list users env w in
  (match r with Ok rows => map user_from (omap user_of rows) | Err _ => [] end, w1).

End services.

(** ** What a caller may do *)

Definition entity_of (m : api_model) : ty := match m with MUser _ => users | MOrg _ => orgs end.

(** The policy, read off the rules: users within the caller's organisation only — an admin does anything with
    them, anyone else reads and creates —; organisations all of them for an admin, the own one to read for
    anyone else. *)
Definition may (c : claims) (a : action) (m : api_model) : bool :=
  match m with
  | MUser u => bool_decide (u_org_id u = org_id c) && (is_admin c || bool_decide (a = Read \/ a = Create))
  | MOrg o => is_admin c || (bool_decide (a = Read) && bool_decide (o_id o = org_id c))
  end.

(** The class gate: whether some rule grants the action at all. *)
Definition may_class (c : claims) (a : action) (user : bool) : bool :=
  is_admin c || bool_decide (a = Read) || (user && bool_decide (a = Create)).

(** The members of a row that are left to a caller by the mask of an action. *)
Definition shown `{Uuids} (c : claims) (a : action) (u : user_row) : json :=
  if is_admin c || bool_decide (a <> Read) then model_value (MUser u)
  else JObject [("id", JString (uuid_text (u_id u))); ("name", JString (u_name u))].

(** What a caller is shown of any row: nothing of one it may not act on, all of an organisation. *)
Definition visible `{Uuids} (c : claims) (a : action) (m : api_model) : json :=
  if may c a m then match m with MUser u => shown c a u | MOrg _ => model_value m end else JObject [].

Definition same_variant (u v : api_value) : bool :=
  match u, v with VUuid _, VUuid _ | VString _, VString _ => true | _, _ => false end.

(** What sea-query and the database make of the application's values: they are null as written, two ids are
    compared as such, and two texts by a deterministic collation. *)
Class ApiSql `{Uuids} `{SeaQuery} `{!SqlSemantics} : Prop := {
  is_null_value (v : api_value) : is_null v = match v with VUuid None | VString None => true | _ => false end;
  comparable_variant (u v : api_value) : same_variant u v = true -> comparable u v = true
}.

Section policy.
Context `{Uuids} `{SeaQuery}.
Implicit Types (c : claims) (m : api_model).

Lemma specs_for_app c a :
  specs_for (app_ability c) a users =
    match is_admin c, a with
    | true, Read => [spec_when (org_is UserOrgId c) (spec_can Read users); spec_when (org_is UserOrgId c) (spec_can Manage users)]
    | true, _ => [spec_when (org_is UserOrgId c) (spec_can Manage users)]
    | false, Read => [spec_fields [UserId : column; UserName : column] (spec_when (org_is UserOrgId c) (spec_can Read users))]
    | false, Create => [spec_when (org_is UserOrgId c) (spec_can Create users)]
    | false, _ => []
    end /\
  specs_for (app_ability c) a orgs =
    match is_admin c, a with
    | true, _ => [spec_can Manage orgs]
    | false, Read => [spec_when (org_is OrgId c) (spec_can Read orgs)]
    | false, _ => []
    end.
Proof. unfold app_ability. destruct (is_admin c); destruct a; split; reflexivity. Qed.

Lemma value_eqb_uuid (x y : Z) : value_eqb (VUuid (Some x) : value) (VUuid (Some y) : value) = bool_decide (x = y).
Proof. simpl. apply bool_decide_ext. split; congruence. Qed.

Lemma org_matches u o c :
  matches (org_is UserOrgId c) (MUser u : model) = bool_decide (u_org_id u = org_id c) /\
  matches (org_is OrgId c) (MOrg o : model) = bool_decide (o_id o = org_id c).
Proof. unfold org_is. cbn [matches]. split; apply value_eqb_uuid. Qed.

(** The instance check on a row of its entity. *)
Lemma can_app c a m : can (define (app_ability c)) a (entity_of m) (m : model) = Some (may c a m).
Proof.
  rewrite can_define. f_equal. destruct (specs_for_app c a) as [Hu Ho].
  destruct m as [u|o]; cbn [entity_of]; [rewrite Hu|rewrite Ho]; unfold may; destruct (is_admin c), a; cbn -[matches org_is];
    rewrite ?(proj1 (org_matches u (OrgRow 0 "") c)), ?(proj2 (org_matches (UserRow 0 0 "" "") o c)); simpl;
    by repeat case_bool_decide.
Qed.

(** The class gate. *)
Lemma can_class_app c a :
  can_class (define (app_ability c)) a users = may_class c a true /\
  can_class (define (app_ability c)) a orgs = may_class c a false.
Proof.
  unfold can_class, may_class. rewrite !rules_for_define. destruct (specs_for_app c a) as [-> ->].
  by destruct (is_admin c), a.
Qed.

(** The fields an action leaves of a row. *)
Lemma permitted_app c a m :
  permitted_fields (define (app_ability c)) a (entity_of m) (m : model) =
    Some (if may c a m then
            match m with
            | MUser _ => if is_admin c || bool_decide (a <> Read) then AllFields else OnlyFields (list_to_set ["id"; "name"])
            | MOrg _ => AllFields
            end
          else OnlyFields ∅).
Proof.
  assert (Hall : forall l : list rule_spec, Forall (fun s => rs_inverted s = false) l ->
    filter (fun r => inverted r = false) (map rule_of l) = map rule_of l).
  { intros l Hl. induction Hl as [|s l Hs _ IH]; [done|]. cbn [map]. by rewrite filter_cons_True, IH. }
  unfold permitted_fields. rewrite rules_for_define, Hall.
  2: { apply Forall_forall. intros s (Hs & _)%elem_of_specs_for. unfold app_ability in Hs.
       destruct (is_admin c); rewrite !elem_of_cons, elem_of_nil in Hs; by destruct_or?; subst. }
  destruct (specs_for_app c a) as [Hu Ho]. destruct m as [u|o]; cbn [entity_of]; [rewrite Hu|rewrite Ho]; unfold may;
    [pose proof (proj1 (org_matches u (OrgRow 0 "") c)) as Hm|pose proof (proj2 (org_matches (UserRow 0 0 "" "") o c)) as Hm];
    destruct (is_admin c), a; cbn -[matches org_is]; unfold predicate_of; cbn -[matches org_is];
    rewrite ?decide_True by done; cbn -[matches org_is]; rewrite ?Hm; cbn; repeat case_bool_decide; try done; naive_solver.
Qed.

(** The mask of any row. *)
Lemma mask_app_any c a m : mask (define (app_ability c)) a (entity_of m) (m : model) = Some (visible c a m).
Proof.
  unfold mask. rewrite permitted_app. unfold visible, shown. destruct m as [u|o], (may c a _); cbn [mbind option_bind]; try done.
  by destruct (_ || _).
Qed.

(** The mask of a user the caller may act on. *)
Lemma mask_app c a u : may c a (MUser u) = true -> mask (define (app_ability c)) a users (MUser u : model) = Some (shown c a u).
Proof. intros Hmay. pose proof (mask_app_any c a (MUser u)) as Hm. unfold visible in Hm. by rewrite Hmay in Hm. Qed.

End policy.

(** ** Queries of a caller *)

Section scope.
Context `{Uuids} `{SeaQuery} `{!SqlSemantics} `{!ApiSql}.
Implicit Types (c : claims) (m : api_model).

(** The rules compare ids with ids. *)
Lemma app_well_typed c a m : well_typed (app_ability c) a (entity_of m) (m : model).
Proof.
  intros s Hs%elem_of_specs_for. destruct (specs_for_app c a) as [Hu Ho].
  assert (Hc : forall x y, compares (VUuid x : value) (VUuid y : value) = true).
  { intros x y. unfold compares. rewrite comparable_variant by done. apply orb_true_r. }
  destruct m as [u|o]; cbn [entity_of] in Hs; [rewrite Hu in Hs|rewrite Ho in Hs]; destruct (is_admin c), a;
    rewrite ?elem_of_cons, ?elem_of_nil in Hs; destruct_or?; subst; try done; apply Hc.
Qed.

(** The filter of a query lets through exactly what the policy allows: no column the rules read is null. *)
Lemma selects_app c a m :
  selects (condition_for (define (app_ability c)) a (entity_of m)) (m : model) <-> may c a m = true.
Proof.
  rewrite prefilter_agrees_without_nulls; [rewrite can_app; split; congruence|apply app_well_typed|].
  intros s Hs%elem_of_specs_for. destruct (specs_for_app c a) as [Hu Ho].
  destruct m as [u|o]; cbn [entity_of] in Hs; [rewrite Hu in Hs|rewrite Ho in Hs]; destruct (is_admin c), a;
    rewrite ?elem_of_cons, ?elem_of_nil in Hs; destruct_or?; subst; try done; cbn [rs_predicate spec_when spec_can spec_fields definite org_is];
    by rewrite !is_null_value.
Qed.

End scope.

(** ** The database of the application *)

(** The columns an active model sets, and a row that has them, the others as in [old]. *)
Definition sets_columns (a : api_active) (old : option api_model) (m : api_model) : Prop :=
  let keeps {V} (f : active_value V) (before : option V) (after : V) :=
    match f with Set_ v => after = v | _ => match before with Some v => after = v | None => True end end in
  match a, m with
  | AUser id org name email, MUser u =>
      let o := old ≫= user_of in
      keeps id (u_id <$> o) (u_id u) /\ keeps org (u_org_id <$> o) (u_org_id u) /\
      keeps name (u_name <$> o) (u_name u) /\ keeps email (u_email <$> o) (u_email u)
  | AOrg id name, MOrg r =>
      let o := old ≫= org_of in keeps id (o_id <$> o) (o_id r) /\ keeps name (o_name <$> o) (o_name r)
  | _, _ => False
  end.

Definition active_entity (a : api_active) : ty := match a with AUser _ _ _ _ => users | AOrg _ _ => orgs end.

(** What is documented of the tables and of the statements that write them: a table holds rows of its own
    entity, by their ids; an insert adds the row it answers, an update replaces the row of that id, a delete
    removes it — which takes other tables along only where something references the row, and nothing
    references a user. *)
Class ApiDatabase (W T : Type) `{Uuids} `{SeaQuery} `{!SqlSemantics} `{!Statements W T} `{!QuerySemantics W T} : Prop := {
  rows_entity ex e w (m : model) : m ∈ rows ex e w -> e = entity_of m;
  row_id_model e (m : model) : row_id e m = model_id m;
  rows_uuids ex w (u : user_row) : (MUser u : model) ∈ rows ex users w ->
    (0 <= u_id u < 2 ^ 128)%Z /\ (0 <= u_org_id u < 2 ^ 128)%Z;
  insert_adds ex e a w : let '(r, w1) := q_insert ex e a w in
    match r with
    | Ok m => rows ex e w1 ≡ₚ m :: rows ex e w /\ (forall e', e' <> e -> rows ex e' w1 = rows ex e' w) /\
              sets_columns a None m
    | Err _ => forall e', rows ex e' w1 = rows ex e' w
    end;
  update_replaces ex e a c w m w1 : sets_nothing a = false -> q_update ex e a c w = (Ok m, w1) ->
    exists old l, rows ex e w ≡ₚ old :: l /\ rows ex e w1 ≡ₚ m :: l /\ selects c old /\
      sets_columns a (Some old) m /\ forall e', e' <> e -> rows ex e' w1 = rows ex e' w;
  delete_removes ex (u : user_row) c w n w1 : q_delete ex users (MUser u : model) c w = (Ok n, w1) -> n <> 0%Z ->
    exists old l, rows ex users w ≡ₚ old :: l /\ rows ex users w1 ≡ₚ l /\ selects c old /\
      forall e', e' <> users -> rows ex e' w1 = rows ex e' w
}.

(** ** Loaders *)

Section loaders.
Context {W T : Type} `{Uuids} `{SeaQuery} `{!SqlSemantics} `{!ApiSql} `{!Statements W T} `{!QuerySemantics W T}
  `{!ApiDatabase W T}.
Implicit Types (c : claims) (ex : executor T) (w : W).

Definition caller_env ex c : ambient T := request_env ex (app_ability c).

Definition non_null (v : api_value) : Prop := match v with VUuid None | VString None => False | _ => True end.

Lemma eq_definite (u v : api_value) : same_variant u v = true -> non_null u -> non_null v ->
  sql_eq (u : value) (v : value) = tri_of (bool_decide (u = v)).
Proof.
  intros Hs Hu Hv. rewrite sql_eq_value; [done|by apply comparable_variant|rewrite is_null_value..];
    by destruct u as [[]|[]], v as [[]|[]].
Qed.

Lemma filter_ext_elem {A} (P Q : A -> Prop) `{forall x, Decision (P x)} `{forall x, Decision (Q x)} (l : list A) :
  (forall x, x ∈ l -> P x <-> Q x) -> filter P l = filter Q l.
Proof.
  induction l as [|x l IH]; intros Hx; [done|]. rewrite !filter_cons, IH by (intros y Hy; apply Hx; by right).
  pose proof (Hx x ltac:(by left)). repeat case_decide; tauto.
Qed.

(** A filtered read of a caller: the rows of the entity the policy allows and the keys ask for, or nothing
    when the query fails. *)
Lemma scoped_in_spec ex c e (col : api_column) (keys : list api_value) w :
  Forall non_null keys ->
  (forall m, entity_of m = e -> non_null (column_value m col) /\ Forall (fun v => same_variant (column_value m col) v = true) keys) ->
  let '(l, w1) := scoped_in e col keys (caller_env ex c) w in
  (forall e', rows ex e' w1 = rows ex e' w) /\
  (l = [] \/ l ≡ₚ filter (fun m => may c Read m = true /\ column_value m col ∈ keys) (rows ex e w)).
Proof.
  intros Hk Hcol. unfold scoped_in. cbn [conn caller_env request_env current_executor amb_executor ok_or].
  unfold repo_scoped. change (scope_for e Read (caller_env ex c)) with (condition_for (define (app_ability c)) Read e).
  set (cond := foldl _ _ _). pose proof (q_all_spec ex e cond w) as Hq.
  destruct (q_all ex e cond w) as [[l|err] w1]; destruct Hq as [Hr Hq]; split; [done| |done|by left].
  right. rewrite (Hq l eq_refl). erewrite filter_ext_elem; [done|]. intros m Hm. cbn beta.
  apply rows_entity in Hm as ->. rewrite <- selects_app. unfold selects, cond. rewrite holds_all. cbn [map].
  rewrite holds_in, (tri_any_of _ (fun v => bool_decide (column_value m col = v))); cycle 1.
  { destruct (Hcol m eq_refl) as [Hn Hs]. rewrite Forall_forall in Hk, Hs |- *. intros v Hv.
    by apply eq_definite; [apply Hs|..|apply Hk]. }
  assert (Hin : existsb (fun v => bool_decide (column_value m col = v)) keys = true <-> column_value m col ∈ keys).
  { rewrite existsb_exists. setoid_rewrite bool_decide_eq_true. setoid_rewrite <- list_elem_of_In. naive_solver. }
  cbn. rewrite <- Hin. destruct (holds _ m), (existsb _ keys); cbn; naive_solver.
Qed.

(** Rows fall into the buckets that wait for them, in their order. *)
Lemma bucket_lookup {K} `{Countable K} (key : user_row -> K) (us : list user_row) : forall (buckets : gmap K (list user_out)) k,
  foldl (bucket_push key) buckets us !! k = (fun b => b ++ map user_from (filter (fun u => key u = k) us)) <$> buckets !! k.
Proof.
  induction us as [|u us IH]; intros buckets k; simpl.
  { destruct (buckets !! k); simpl; by rewrite ?app_nil_r. }
  rewrite IH. unfold bucket_push. rewrite filter_cons. destruct (decide (key u = k)) as [<-|Hne].
  - destruct (buckets !! key u) eqn:E; [|by rewrite E]. rewrite lookup_insert_eq. simpl. by rewrite <- (assoc_L (++)).
  - destruct (buckets !! key u); [|done]. by rewrite lookup_insert_ne.
Qed.

Lemma empty_buckets {K} `{Countable K} (keys : list K) k : k ∈ keys ->
  (list_to_map (map (fun k => (k, [])) keys) : gmap K (list user_out)) !! k = Some [].
Proof.
  intros Hk. destruct (_ !! k) as [b|] eqn:E.
  - apply elem_of_list_to_map_2, list_elem_of_fmap in E as (k' & [= -> ->] & _). done.
  - apply not_elem_of_list_to_map_2 in E. destruct E. rewrite <- list_fmap_compose. by apply list_elem_of_fmap; exists k.
Qed.

(** The rows of a filtered read, at their type. *)
Lemma users_of_filter (P : api_model -> Prop) (Q : user_row -> Prop) `{forall m, Decision (P m)} `{forall u, Decision (Q u)} (l : list api_model) :
  (forall m, m ∈ l -> entity_of m = users) -> (forall u, P (MUser u) <-> Q u) ->
  omap user_of (filter P l) = filter Q (omap user_of l).
Proof.
  intros Hl HPQ. induction l as [|[u|o] l IH]; [done| |].
  - rewrite filter_cons. cbn [omap list_omap user_of]. rewrite filter_cons.
    pose proof (HPQ u). repeat case_decide; try tauto; cbn [omap list_omap user_of]; rewrite IH by (intros m Hm; apply Hl; by right); done.
  - by pose proof (Hl (MOrg o) ltac:(by left)).
Qed.

(** The users an executor sees, and those of one organisation. *)
Definition user_rows ex w : list user_row := omap user_of (rows ex users w : list api_model).
Definition org_rows ex (org : Z) w : list user_row := filter (fun u => u_org_id u = org) (user_rows ex w).

Lemma may_read_user c u : may c Read (MUser u) = true <-> u_org_id u = org_id c.
Proof. unfold may. rewrite andb_true_iff, bool_decide_eq_true. destruct (is_admin c); naive_solver. Qed.

Lemma loaded_bucket {K} `{Countable K} (key : user_row -> K) (val : K -> api_value) (col : api_column) ex c w (keys : list K) k :
  (forall u, column_value (MUser u) col = val (key u)) -> Inj (=) (=) val -> (forall k, non_null (val k)) ->
  (forall k k', same_variant (val k) (val k') = true) -> k ∈ keys ->
  let '(l, w1) := scoped_in users col (map val keys) (caller_env ex c) w in
  (forall e', rows ex e' w1 = rows ex e' w) /\
  exists us, foldl (bucket_push key) (list_to_map (map (fun k => (k, [])) keys)) (omap user_of l) !! k = Some (map user_from us) /\
    (us = [] \/ us ≡ₚ filter (fun u => key u = k) (org_rows ex (org_id c) w)).
Proof.
  intros Hcol Hinj Hnn Hsame Hk. pose proof (scoped_in_spec ex c users col (map val keys) w) as Hs.
  destruct (scoped_in users col (map val keys) (caller_env ex c) w) as [l w1]. destruct Hs as [Hr Hl].
  { apply Forall_fmap, Forall_forall. intros k' _. apply Hnn. }
  { intros [u|o] He; [|done]. rewrite Hcol. split; [done|]. apply Forall_fmap, Forall_forall. intros k' _. apply Hsame. }
  split; [done|]. eexists. split; [rewrite bucket_lookup, empty_buckets by done; reflexivity|].
  destruct Hl as [->|Hl]; [by left|right]. rewrite Hl. unfold org_rows.
  rewrite (users_of_filter _ (fun u => u_org_id u = org_id c /\ key u ∈ keys)); cycle 1.
  { intros m Hm. by apply rows_entity in Hm. }
  { intros u. rewrite may_read_user, Hcol. split; intros [? Hin]; split; try done.
    - apply list_elem_of_fmap in Hin as (k' & E & ?). by apply Hinj in E as ->.
    - by apply list_elem_of_fmap_2. }
  rewrite !list_filter_filter. erewrite filter_ext_elem; [done|]. intros u _. cbn beta. naive_solver.
Qed.

Lemma users_of_rows ex w u : u ∈ user_rows ex w <-> (MUser u : model) ∈ rows ex users w.
Proof.
  unfold user_rows. rewrite list_elem_of_omap. split; [|by exists (MUser u)]. intros ([u'|o] & Hin & Hu); [|done]. by injection Hu as ->.
Qed.

(** What the loader of organisations has for an id. *)
Lemma org_map_lookup (os : list org_row) : forall (m : gmap Z org_out) i,
  foldl (fun m o => <[o_id o := org_from o]> m) m os !! i = m !! i \/
  exists r, foldl (fun m o => <[o_id o := org_from o]> m) m os !! i = Some (org_from r) /\ r ∈ os /\ o_id r = i.
Proof.
  induction os as [|o os IH]; intros m i; [by left|]. simpl.
  destruct (IH (<[o_id o := org_from o]> m) i) as [->|(r & -> & ? & ?)]; [|right; exists r; split_and!; [done|by right|done]].
  destruct (decide (o_id o = i)) as [<-|Hne]; [|left; by rewrite lookup_insert_ne].
  right. exists o. rewrite lookup_insert_eq. split_and!; [done|by left|done].
Qed.

(** [C23] Following a relation in GraphQL leads to rows of the caller's organisation only, however the loader
    batches its keys and whatever is asked for: the namesakes of a user are the other users of that name
    in the caller's organisation, the users of an organisation are those of the caller's, the
    organisation of a user is one the policy lets the caller read; a query that fails answers nobody. *)
Theorem relations_stay_in_the_org ex c w :
  (forall p others, p ∈ user_rows ex w ->
     let '(us, w1) := namesakes (user_from p) others (caller_env ex c) w in
     (forall e, rows ex e w1 = rows ex e w) /\
     exists l, us = map user_from l /\
       (l = [] \/ l ≡ₚ filter (fun u => u_name u = u_name p /\ u_id u <> u_id p) (org_rows ex (org_id c) w))) /\
  (forall id name others, (0 <= id < 2 ^ 128)%Z ->
     let '(us, w1) := org_users (OrgOut (uuid_text id) name) others (caller_env ex c) w in
     (forall e, rows ex e w1 = rows ex e w) /\
     exists l, us = Some (map user_from l) /\
       (l = [] \/ l ≡ₚ filter (fun u => u_org_id u = id) (org_rows ex (org_id c) w))) /\
  (forall p others, p ∈ user_rows ex w ->
     let '(o, w1) := user_org (user_from p) others (caller_env ex c) w in
     (forall e, rows ex e w1 = rows ex e w) /\
     (o = Some None \/ exists r, o = Some (Some (org_from r)) /\ o_id r = u_org_id p /\
        (MOrg r : model) ∈ rows ex orgs w /\ may c Read (MOrg r) = true)).
Proof.
  split; [|split].
  - intros p others Hp. unfold namesakes, load_users, by_name. cbn [user_from uo_name uo_id].
    pose proof (loaded_bucket u_name (fun n => VString (Some n)) UserName ex c w (u_name p :: others) (u_name p)
      ltac:(done) ltac:(intros ? ? E; by injection E) ltac:(done) ltac:(done) ltac:(by left)) as Hb.
    destruct (scoped_in _ _ _ _ w) as [l w1]. destruct Hb as (Hr & us & -> & Hus). split; [done|]. cbn [from_option id].
    exists (filter (fun u => u_id u <> u_id p) us). split.
    + assert (Hids : forall u, u ∈ us -> uuid_text (u_id u) <> uuid_text (u_id p) <-> u_id u <> u_id p).
      { intros u Hu. split; [by intros Hne E; apply Hne; rewrite E|]. intros Hne E. apply Hne.
        assert (Hin : u ∈ user_rows ex w).
        { destruct Hus as [->|Hus]; [by apply elem_of_nil in Hu|]. rewrite Hus in Hu. unfold org_rows in Hu.
          by apply list_elem_of_filter in Hu as [_ [_ ?]%list_elem_of_filter]. }
        apply users_of_rows, rows_uuids in Hin as [Hi _]. apply users_of_rows, rows_uuids in Hp as [Hp _].
        apply (f_equal uuid_parse) in E. rewrite !uuid_parse_text in E by done. by injection E. }
      clear Hus. induction us as [|u us IH]; [done|]. cbn [map]. rewrite !filter_cons. cbn [uo_id user_from].
      pose proof (Hids u ltac:(by left)). rewrite IH by (intros; apply Hids; by right).
      repeat case_decide; tauto.
    + destruct Hus as [->|Hus]; [by left|right]. rewrite Hus, list_filter_filter.
      erewrite filter_ext_elem; [done|]. intros u _. cbn beta. tauto.
  - intros id name others Hid. unfold org_users, by_org. cbn [oo_id]. rewrite uuid_parse_text by done.
    pose proof (loaded_bucket u_org_id (fun n => VUuid (Some n)) UserOrgId ex c w (id :: others) id
      ltac:(done) ltac:(intros ? ? E; by injection E) ltac:(done) ltac:(done) ltac:(by left)) as Hb.
    destruct (scoped_in _ _ _ _ w) as [l w1]. destruct Hb as (Hr & us & -> & Hus). split; [done|]. by exists us.
  - intros p others Hp. pose proof Hp as Hp'. apply users_of_rows, rows_uuids in Hp' as [_ Ho].
    unfold user_org, by_id. cbn [user_from uo_org_id]. rewrite uuid_parse_text by done.
    pose proof (scoped_in_spec ex c orgs OrgId (map (fun id => VUuid (Some id)) (u_org_id p :: others)) w) as Hs.
    destruct (scoped_in _ _ _ _ w) as [l w1]. destruct Hs as [Hr Hl].
    { apply Forall_fmap, Forall_forall. done. }
    { intros [u|o] He; [done|]. split; [done|]. by apply Forall_fmap, Forall_forall. }
    split; [done|].
    destruct (org_map_lookup (omap org_of l) ∅ (u_org_id p)) as [->|(r & -> & Hr' & Hi)]; [by left|right].
    exists r. split; [done|]. split; [done|]. apply list_elem_of_omap in Hr' as ([u|r'] & Hin & [= ->]).
    destruct Hl as [->|Hl]; [by apply elem_of_nil in Hin|]. rewrite Hl in Hin. by apply list_elem_of_filter in Hin as [[? _] ?].
Qed.

(** [C18] The declarations of the application are its policy, in every layer that enforces them: whatever the
    caller and the row, the instance check of the engine, the filter of a query and the class gate decide
    as the policy [may] does, and the mask of any row leaves what the policy makes visible: nothing of a
    row the caller may not act on; of a user, the id and the name to a caller without the admin role who
    reads, every column otherwise; of an organisation, every column. *)
Theorem app_rules_are_the_policy c a m :
  can (define (app_ability c)) a (entity_of m) (m : model) = Some (may c a m) /\
  (selects (condition_for (define (app_ability c)) a (entity_of m)) (m : model) <-> may c a m = true) /\
  can_class (define (app_ability c)) a (entity_of m) = may_class c a (match m with MUser _ => true | MOrg _ => false end) /\
  mask (define (app_ability c)) a (entity_of m) (m : model) =
    Some (if may c a m then
            match m with
            | MUser u => if is_admin c || bool_decide (a <> Read) then model_value m
                         else JObject [("id", JString (uuid_text (u_id u))); ("name", JString (u_name u))]
            | MOrg o => JObject [("id", JString (uuid_text (o_id o))); ("name", JString (o_name o))]
            end
          else JObject []).
Proof.
  split; [apply can_app|]. split; [apply selects_app|]. destruct (can_class_app c a) as [Hu Ho].
  split; [by destruct m|]. rewrite mask_app_any. by destruct m.
Qed.

(** ** The service and the gateway *)

(** A user is created in the organisation given, by a validated input, and every other row is left alone. *)
Lemma create_in_org_spec is_email name email org ex c w :
  let '(r, w1) := create_in_org is_email name email org (caller_env ex c) w in
  match r with
  | Ok m => exists u, m = MUser u /\ u_id u = now_v7 /\ u_org_id u = org /\ u_name u = name /\ u_email u = email /\
      name <> "" /\ is_email email = true /\
      (rows ex users w1 : list api_model) ≡ₚ MUser u :: rows ex users w /\ rows ex orgs w1 = rows ex orgs w
  | Err (ValidationErrors fields) => w1 = w /\ fields = invalid_fields is_email (IUser name email) /\ fields <> []
  | Err (CreateDb _) => forall e, rows ex e w1 = rows ex e w
  end.
Proof.
  unfold create_in_org. destruct (invalid_fields is_email (IUser name email)) as [|f fs] eqn:Ev; [|done].
  assert (name <> "" /\ is_email email = true) as [Hn He].
  { unfold invalid_fields in Ev. destruct (String.eqb_spec name ""), (is_email email); done. }
  cbn [conn caller_env request_env current_executor amb_executor ok_or].
  set (a := AUser _ _ _ _). pose proof (insert_adds ex users a w) as Hi.
  destruct (q_insert (Queries:=api_queries) ex users a w) as [[m|err] w1]; [|done]. simpl.
  destruct Hi as (Hrows & Hother & Hset). destruct m as [u|o]; [|done]. destruct Hset as (? & ? & ? & ?).
  exists u. split_and!; try done. by apply Hother.
Qed.

(** A listing in a request: the users of the caller's organisation. *)
Lemma service_list_spec ex c w :
  let '(r, w1) := service_list users (caller_env ex c) w in
  (forall e, rows ex e w1 = rows ex e w) /\
  forall l, r = Ok l -> exists us, l = map MUser us /\ us ≡ₚ org_rows ex (org_id c) w.
Proof.
  unfold service_list, repo_all. cbn [conn caller_env request_env current_executor amb_executor ok_or].
  change (scope_for users Read _) with (condition_for (define (app_ability c)) Read users).
  set (cond := condition_for _ _ _). pose proof (q_all_spec ex users cond w) as Hq.
  destruct (q_all ex users cond w) as [[l|err] w1]; destruct Hq as [Hr Hq]; (split; [done|]); [|done].
  intros l' [= <-]. specialize (Hq l eq_refl). exists (omap user_of l). split.
  - assert (Hall : forall m, m ∈ l -> entity_of m = users).
    { intros m Hm. rewrite Hq in Hm. apply list_elem_of_filter in Hm as [_ Hm]. by apply rows_entity in Hm. }
    clear Hq. induction l as [|[u|o] l IH]; [done| |by pose proof (Hall (MOrg o) ltac:(by left))].
    cbn. f_equal. apply IH. intros m Hm. apply Hall. by right.
  - rewrite Hq. unfold org_rows, user_rows. rewrite (users_of_filter _ (fun u => u_org_id u = org_id c)); [done| |].
    + intros m Hm. by apply rows_entity in Hm.
    + intros u. rewrite <- may_read_user. exact (selects_app c Read (MUser u)).
Qed.

(** The socket answers the users of the caller's organisation with every column, whatever the role. *)
Lemma gateway_list_spec ex c w :
  let '(us, w1) := gateway_list (caller_env ex c) w in
  (forall e, rows ex e w1 = rows ex e w) /\
  exists l, us = map user_from l /\ (l = [] \/ l ≡ₚ org_rows ex (org_id c) w).
Proof.
  unfold gateway_list. pose proof (service_list_spec ex c w) as Hl.
  destruct (service_list users (caller_env ex c) w) as [[l|err] w1]; destruct Hl as [Hr Hl]; (split; [done|]);
    [|by exists []; split; [|left]].
  destruct (Hl l eq_refl) as (us & -> & Hus). exists us. split; [|by right]. f_equal.
  clear. induction us as [|u us IH]; [done|]. cbn. by f_equal.
Qed.

End loaders.

(** ** A concrete database: two tables in memory, conditions by their meaning *)

Module ApiDemo.
Import IdentityDemo.

Record demo_condition := DemoCondition { dc_any : bool; dc_parts : list (api_model -> tri) }.

Definition demo_holds (c : demo_condition) (m : api_model) : tri :=
  (if dc_any c then tri_any else tri_all) (map (fun f => f m) (dc_parts c)).

Definition null (v : api_value) : bool := match v with VUuid None | VString None => true | _ => false end.
Definition demo_eq (u v : api_value) : tri := if null u || null v then TUnknown else tri_of (bool_decide (u = v)).

#[export] Instance demo_query : SeaQuery := {|
  sq_condition := demo_condition; sq_expr := api_model -> tri;
  sq_all := DemoCondition false []; sq_any := DemoCondition true [];
  sq_add c d := DemoCondition (dc_any c) (dc_parts c ++ [demo_holds d]);
  sq_add_expr c e := DemoCondition (dc_any c) (dc_parts c ++ [e]);
  sq_not c := DemoCondition false [fun m => tri_not (demo_holds c m)];
  sq_is_empty c := match dc_parts c with [] => true | _ => false end;
  sq_eq c v m := demo_eq (column_value m c) v;
  sq_is_in c vs m := tri_any (map (demo_eq (column_value m c)) vs);
  sq_cust _ _ := TFalse |}.

Lemma api_fold (a : bool) (l : list demo_condition) parts :
  foldl sq_add (DemoCondition a parts) l = DemoCondition a (parts ++ map demo_holds l).
Proof.
  revert parts. induction l as [|c l IH]; intros parts; simpl; [by rewrite app_nil_r|].
  rewrite IH. simpl. by rewrite <- (assoc_L (++)).
Qed.

Lemma api_fold_holds (a : bool) (l : list demo_condition) m :
  demo_holds (foldl sq_add (DemoCondition a []) l) m =
    (if a then tri_any else tri_all) (map (fun c => demo_holds c m) l).
Proof. rewrite api_fold. unfold demo_holds at 1. simpl. by rewrite map_map. Qed.

Lemma tri_one t : tri_and t TTrue = t.
Proof. by destruct t. Qed.

#[export] Instance demo_sql : SqlSemantics.
Proof.
  refine {| is_null := null : value -> bool; holds := demo_holds : condition -> model -> tri; sql_eq := demo_eq : value -> value -> tri;
            comparable _ _ := true |}.
  - intros u v Hn. cbn. unfold demo_eq. by rewrite Hn.
  - intros u v _ Hu Hv. cbn. unfold demo_eq. by rewrite Hu, Hv.
  - intros u v. apply bool_decide_ext. split; congruence.
  - intros l m. exact (api_fold_holds false l m).
  - intros l m. exact (api_fold_holds true l m).
  - intros c m. apply tri_one.
  - intros c v m. apply tri_one.
  - intros c vs m. apply tri_one.
  - done.
  - intros l. pose proof (api_fold true l []) as E.
    change (sq_is_empty (foldl sq_add (DemoCondition true []) l) = bool_decide (l = [])). rewrite E. by destruct l.
Defined.

#[export] Instance demo_api_sql : ApiSql.
Proof. done. Qed.

(** Tables by id; a row with a number that is no id is not there. *)
Record world := World { tb_users : gmap Z user_row; tb_orgs : gmap Z org_row }.

Definition id_ok (z : Z) : bool := (0 <=? z)%Z && (z <? 2 ^ 128)%Z.
Definition row_ok (u : user_row) : bool := id_ok (u_id u) && id_ok (u_org_id u).

Definition keyed_user (kr : Z * user_row) : user_row := UserRow kr.1 (u_org_id kr.2) (u_name kr.2) (u_email kr.2).
Definition keyed_org (kr : Z * org_row) : org_row := OrgRow kr.1 (o_name kr.2).

Definition demo_rows (e : ty) (w : world) : list api_model :=
  if decide (e = users) then map MUser (filter (fun u => row_ok u = true) (map keyed_user (map_to_list (tb_users w))))
  else if decide (e = orgs) then map MOrg (map keyed_org (map_to_list (tb_orgs w))) else [].

Definition find_row (e : ty) (id : Z) (c : demo_condition) (w : world) : option api_model :=
  head (filter (fun m => model_id m = id /\ demo_holds c m = TTrue) (demo_rows e w)).

Definition apply_value {V} (f : active_value V) (before : V) : V := match f with Set_ v => v | _ => before end.

(** An insert needs every column and a new id; an update keeps the id and a known organisation, and is a
    read by the id when it sets nothing. *)
Definition demo_insert (a : api_active) (w : world) : result api_model db_err * world :=
  match a with
  | AUser (Set_ id) (Set_ org) (Set_ name) (Set_ email) =>
      let u := UserRow id org name email in
      if row_ok u && negb (bool_decide (is_Some (tb_users w !! id)))
      then (Ok (MUser u), World (<[id := u]> (tb_users w)) (tb_orgs w)) else (Err (DbCustom "duplicate"), w)
  | AOrg (Set_ id) (Set_ name) =>
      if bool_decide (is_Some (tb_orgs w !! id)) then (Err (DbCustom "duplicate"), w)
      else (Ok (MOrg (OrgRow id name)), World (tb_users w) (<[id := OrgRow id name]> (tb_orgs w)))
  | _ => (Err (DbCustom "NOT NULL"), w)
  end.

Definition active_id_of (a : api_active) : Z :=
  match a with AUser (Set_ i | Unchanged i) _ _ _ | AOrg (Set_ i | Unchanged i) _ => i | _ => 0 end.

Definition demo_update (a : api_active) (c : demo_condition) (w : world) : result api_model db_err * world :=
  if sets_nothing a then
    match find_row (active_entity a) (active_id_of a) sq_all w with Some m => (Ok m, w) | None => (Err RecordNotUpdated, w) end
  else
  match a, find_row (active_entity a) (active_id_of a) c w with
  | AUser (Unchanged _) (Unchanged _) name email, Some (MUser o) =>
      let u := UserRow (u_id o) (u_org_id o) (apply_value name (u_name o)) (apply_value email (u_email o)) in
      (Ok (MUser u), World (<[u_id o := u]> (tb_users w)) (tb_orgs w))
  | AOrg (Unchanged _) name, Some (MOrg o) =>
      let r := OrgRow (o_id o) (apply_value name (o_name o)) in
      (Ok (MOrg r), World (tb_users w) (<[o_id o := r]> (tb_orgs w)))
  | _, _ => (Err RecordNotUpdated, w)
  end.

Definition demo_delete (e : ty) (m : api_model) (c : demo_condition) (w : world) : result Z db_err * world :=
  match find_row e (model_id m) c w with
  | Some (MUser o) => (Ok 1%Z, World (delete (u_id o) (tb_users w)) (tb_orgs w))
  | Some (MOrg o) => (Ok 1%Z, World (tb_users w) (delete (o_id o) (tb_orgs w)))
  | None => (Ok 0%Z, w)
  end.

#[export] Instance demo_statements : Statements world unit := {
  now_v7 := 9%Z;
  st_all _ e c w := (Ok (filter (fun m => demo_holds c m = TTrue) (demo_rows e w)), w);
  st_by_id _ e id c w := (Ok (find_row e id c w), w);
  st_cursor _ e c _ after n w :=
    (Ok (take (Z.to_nat n) (filter (fun m => past after (model_id m))
           (stable_sort (fun x y => Z.leb (model_id x) (model_id y))
              (filter (fun m => demo_holds c m = TTrue) (demo_rows e w))))), w);
  st_insert _ e a w := if decide (e = active_entity a) then demo_insert a w else (Err (DbCustom "entity"), w);
  st_update _ e a c w := if decide (e = active_entity a) then demo_update a c w else (Err RecordNotUpdated, w);
  st_delete _ e m c w := demo_delete e m c w
}.

Lemma found_row_spec e id c w :
  match find_row e id c w with
  | Some m => m ∈ demo_rows e w /\ model_id m = id /\ demo_holds c m = TTrue
  | None => forall m, m ∈ demo_rows e w -> model_id m = id -> demo_holds c m <> TTrue
  end.
Proof.
  unfold find_row. destruct (head _) as [m|] eqn:E.
  - assert (Hin : m ∈ filter (fun m => model_id m = id /\ demo_holds c m = TTrue) (demo_rows e w)).
    { destruct (filter _ _); [done|]. injection E as ->. by left. }
    apply list_elem_of_filter in Hin. tauto.
  - intros m Hin Hid Hh. assert (Hf : m ∈ filter (fun m => model_id m = id /\ demo_holds c m = TTrue) (demo_rows e w))
      by (by apply list_elem_of_filter).
    destruct (filter _ _); [by apply elem_of_nil in Hf|done].
Qed.

Lemma demo_ids e w : NoDup (map model_id (demo_rows e w)).
Proof.
  unfold demo_rows. repeat case_decide; [| |constructor]; rewrite map_map.
  - change (NoDup (u_id <$> filter (fun u => row_ok u = true) (keyed_user <$> map_to_list (tb_users w)))).
    assert (Hnd : NoDup (u_id <$> (keyed_user <$> map_to_list (tb_users w))))
      by (rewrite <- list_fmap_compose; apply (NoDup_fst_map_to_list (tb_users w))).
    eapply sublist_NoDup; [exact Hnd|apply fmap_sublist, sublist_filter].
  - rewrite map_map. apply (NoDup_fst_map_to_list (tb_orgs w)).
Qed.

#[export] Instance demo_queries : QuerySemantics world unit.
Proof.
  refine {| rows := (fun _ => demo_rows) : executor unit -> ty -> world -> list model;
            row_id := (fun _ => model_id) : ty -> model -> Z; active_id := (fun _ => active_id_of) : ty -> active_model -> Z |}.
  - intros e m. cbn. by destruct (decide _), m.
  - intros ex e w. apply demo_ids.
  - intros ex e c w. split; [done|]. by intros ms [= <-].
  - intros ex e id c w. pose proof (found_row_spec e id c w) as Hf. split; [done|]. by intros o [= <-].
  - intros ex e c after n w. split; [done|]. by intros ms [= <-].
  - intros ex e a c w. cbn. case_decide as He; [|done]. subst e. unfold demo_update. destruct (sets_nothing a).
    { pose proof (found_row_spec (active_entity a) (active_id_of a) sq_all w) as Hf.
      destruct (find_row _ _ _ w) as [m|]; [|done]. exists m. by destruct Hf as (? & ? & _). }
    pose proof (found_row_spec (active_entity a) (active_id_of a) c w) as Hf.
    destruct a as [[v|v|] [o|o|] nm em|[v|v|] nm]; cbn [active_entity active_id_of] in *;
      destruct (find_row _ _ _ w) as [[u|r]|]; try done; by eexists.
  - intros ex e m0 c w. cbn. unfold demo_delete. pose proof (found_row_spec e (model_id m0) c w) as Hf.
    destruct (find_row e (model_id m0) c w) as [[u|o]|]; [| |done]; (split; [done|]); intros _; by eexists.
Defined.

(** The tables under an insertion and a removal. *)
Lemma users_insert (m : gmap Z user_row) i r : m !! i = None -> row_ok (keyed_user (i, r)) = true ->
  filter (fun u => row_ok u = true) (map keyed_user (map_to_list (<[i := r]> m))) ≡ₚ
    keyed_user (i, r) :: filter (fun u => row_ok u = true) (map keyed_user (map_to_list m)).
Proof.
  intros Hi Hok. change (filter (fun u => row_ok u = true) (keyed_user <$> map_to_list (<[i := r]> m)) ≡ₚ
    keyed_user (i, r) :: filter (fun u => row_ok u = true) (keyed_user <$> map_to_list m)).
  rewrite map_to_list_insert by done. rewrite fmap_cons. by rewrite filter_cons_True.
Qed.

Lemma users_present (m : gmap Z user_row) u :
  u ∈ filter (fun u => row_ok u = true) (map keyed_user (map_to_list m)) ->
  row_ok u = true /\ exists l, filter (fun u => row_ok u = true) (map keyed_user (map_to_list m)) ≡ₚ u :: l /\
    l = filter (fun u => row_ok u = true) (map keyed_user (map_to_list (delete (u_id u) m))).
Proof.
  intros [Hok Hin]%list_elem_of_filter. split; [done|]. eexists. split; [|reflexivity].
  apply (list_elem_of_fmap keyed_user) in Hin as ([i r] & -> & Hir%elem_of_map_to_list).
  rewrite <- (insert_delete_id m i r Hir) at 1. apply users_insert; [apply lookup_delete_eq|done].
Qed.

Lemma orgs_insert (m : gmap Z org_row) i r : m !! i = None ->
  map keyed_org (map_to_list (<[i := r]> m)) ≡ₚ keyed_org (i, r) :: map keyed_org (map_to_list m).
Proof.
  intros Hi. change (keyed_org <$> map_to_list (<[i := r]> m) ≡ₚ keyed_org (i, r) :: (keyed_org <$> map_to_list m)).
  by rewrite map_to_list_insert.
Qed.

Lemma orgs_present (m : gmap Z org_row) o : o ∈ map keyed_org (map_to_list m) ->
  map keyed_org (map_to_list m) ≡ₚ o :: map keyed_org (map_to_list (delete (o_id o) m)).
Proof.
  intros Hin. apply (list_elem_of_fmap keyed_org) in Hin as ([i r] & -> & Hir%elem_of_map_to_list).
  rewrite <- (insert_delete_id m i r Hir) at 1. apply orgs_insert, lookup_delete_eq.
Qed.

Lemma demo_rows_users w : demo_rows users w = map MUser (filter (fun u => row_ok u = true) (map keyed_user (map_to_list (tb_users w)))).
Proof. done. Qed.
Lemma demo_rows_orgs w : demo_rows orgs w = map MOrg (map keyed_org (map_to_list (tb_orgs w))).
Proof. done. Qed.

Lemma demo_rows_other e us us' os os' : e <> users \/ us = us' -> e <> orgs \/ os = os' ->
  demo_rows e (World us os) = demo_rows e (World us' os').
Proof. intros [?| ->] [?| ->]; unfold demo_rows; by repeat case_decide. Qed.

(** A row found in a table, and the rest of it. *)
Lemma found_user u w : MUser u ∈ demo_rows users w -> row_ok u = true /\ exists l,
  demo_rows users w ≡ₚ MUser u :: l /\ demo_rows users (World (delete (u_id u) (tb_users w)) (tb_orgs w)) = l.
Proof.
  rewrite demo_rows_users. intros (u' & [= ->] & Hin)%(list_elem_of_fmap MUser).
  destruct (users_present _ _ Hin) as (Hok & l & Hp & ->). split; [done|]. eexists. split; [|reflexivity].
  by rewrite (fmap_Permutation MUser _ _ Hp).
Qed.

Lemma found_org o w : MOrg o ∈ demo_rows orgs w -> exists l,
  demo_rows orgs w ≡ₚ MOrg o :: l /\ demo_rows orgs (World (tb_users w) (delete (o_id o) (tb_orgs w))) = l.
Proof.
  rewrite demo_rows_orgs. intros (o' & [= ->] & Hin)%(list_elem_of_fmap MOrg). eexists. split; [|reflexivity].
  by rewrite (fmap_Permutation MOrg _ _ (orgs_present _ _ Hin)).
Qed.

Lemma put_user us os i r : us !! i = None -> u_id r = i -> row_ok r = true ->
  demo_rows users (World (<[i := r]> us) os) ≡ₚ MUser r :: demo_rows users (World us os).
Proof.
  intros Hi <- Hok. rewrite !demo_rows_users. cbn [tb_users]. destruct r as [i o n e].
  rewrite (fmap_Permutation MUser _ _ (users_insert us i (UserRow i o n e) Hi Hok)). done.
Qed.

Lemma put_org us os i r : os !! i = None -> o_id r = i ->
  demo_rows orgs (World us (<[i := r]> os)) ≡ₚ MOrg r :: demo_rows orgs (World us os).
Proof.
  intros Hi <-. rewrite !demo_rows_orgs. cbn [tb_orgs]. destruct r as [i n].
  rewrite (fmap_Permutation MOrg _ _ (orgs_insert os i (OrgRow i n) Hi)). done.
Qed.

#[export] Instance demo_database : ApiDatabase world unit.
Proof.
  constructor.
  - intros ex e w m. change (m ∈ demo_rows e w -> e = entity_of m). unfold demo_rows.
    repeat case_decide; subst; [| |by intros ?%elem_of_nil].
    + by intros (? & -> & _)%(list_elem_of_fmap MUser).
    + by intros (? & -> & _)%(list_elem_of_fmap MOrg).
  - done.
  - intros ex w u Hin. destruct (found_user u w Hin) as [Hok _]. unfold row_ok, id_ok in Hok.
    repeat match goal with H : _ && _ = true |- _ => apply andb_true_iff in H as [? ?] end.
    repeat match goal with H : (_ <=? _)%Z = true |- _ => apply Z.leb_le in H | H : (_ <? _)%Z = true |- _ => apply Z.ltb_lt in H end. lia.
  - intros ex e a w. cbn. case_decide as He; [|done]. subst e. unfold demo_insert.
    destruct a as [[i| |] [o| |] [n| |] [em| |]|[i| |] [n| |]]; cbn [active_entity]; try done.
    + destruct (row_ok (UserRow i o n em)) eqn:Hok; [|done]. case_bool_decide as Hp; [done|]. cbn [negb andb].
      destruct w as [us os]. cbn in Hp. apply eq_None_not_Some in Hp. split; [by apply put_user|]. split; [|done].
      intros e' Hne. apply demo_rows_other; [by left|by right].
    + case_bool_decide as Hp; [done|]. destruct w as [us os]. cbn in Hp. apply eq_None_not_Some in Hp.
      split; [by apply put_org|]. split; [|done]. intros e' Hne. apply demo_rows_other; [by right|by left].
  - intros ex e a c w m w1 Hset. cbn. case_decide as He; [|done]. subst e. unfold demo_update. rewrite Hset.
    pose proof (found_row_spec (active_entity a) (active_id_of a) c w) as Hf.
    destruct a as [[v|v|] [o|o|] nm em|[v|v|] nm]; cbn [active_entity active_id_of] in *;
      destruct (find_row _ _ _ w) as [[u|r]|]; try done; intros [= <- <-]; destruct Hf as (Hin & Hid & Hsel).
    + destruct (found_user u w Hin) as (Hok & l & Hw & Hl). exists (MUser u), l.
      destruct w as [us os]. cbn [tb_users tb_orgs] in *. split_and!; [done| |done| |].
      * rewrite <- insert_delete_eq, <- Hl. apply put_user; [apply lookup_delete_eq|done|].
        unfold row_ok in *. done.
      * cbn. by destruct nm, em.
      * intros e' Hne. apply demo_rows_other; [by left|by right].
    + destruct (found_org r w Hin) as (l & Hw & Hl). exists (MOrg r), l.
      destruct w as [us os]. cbn [tb_users tb_orgs] in *. split_and!; [done| |done| |].
      * rewrite <- insert_delete_eq, <- Hl. by apply put_org; [apply lookup_delete_eq|].
      * cbn. by destruct nm.
      * intros e' Hne. apply demo_rows_other; [by right|by left].
  - intros ex u c w n w1. cbn. unfold demo_delete. pose proof (found_row_spec users (u_id u) c w) as Hf. cbn [model_id].
    destruct (find_row users (u_id u) c w) as [[o|o]|]; [| |by intros [= <- <-]]; destruct Hf as (Hin & _ & Hsel).
    + intros [= <- <-] _. destruct (found_user o w Hin) as (_ & l & Hw & Hl). exists (MUser o), l.
      destruct w as [us os]. cbn [tb_users tb_orgs] in *. split_and!; [done|by rewrite Hl|done|].
      intros e' Hne. apply demo_rows_other; [by left|by right].
    + rewrite demo_rows_users in Hin. by apply (list_elem_of_fmap MUser) in Hin as (? & ? & _).
Qed.

(** Three users of one name in two organisations. *)
Definition ann : user_row := UserRow 1 1 "Ann" "ann@acme.test".
Definition start : world :=
  World {[1%Z := ann; 2%Z := UserRow 2 2 "Ann" "ann@globex.test"; 3%Z := UserRow 3 1 "Ann" "ann2@acme.test"]}
    {[1%Z := OrgRow 1 "Acme"; 2%Z := OrgRow 2 "Globex"]}.

Definition plain : claims := Claims 1 [User] 0.
Definition admin : claims := Claims 1 [Admin; User] 0.

Lemma app_rules_are_the_policy_witness :
  can (define (app_ability plain)) Delete users (MUser ann : model) = Some false /\
  can (define (app_ability admin)) Delete users (MUser ann : model) = Some true /\
  mask (define (app_ability plain)) Read users (MUser ann : model) = Some (JObject [("id", JString "1"); ("name", JString "Ann")]).
Proof.
  split; [|split].
  - exact (proj1 (app_rules_are_the_policy plain Delete (MUser ann))).
  - exact (proj1 (app_rules_are_the_policy admin Delete (MUser ann))).
  - exact (proj2 (proj2 (proj2 (app_rules_are_the_policy plain Read (MUser ann))))).
Defined.

(** The namesakes of Ann of Acme, to a caller of Acme: not the one of Globex. *)
Lemma relations_stay_in_the_org_witness :
  (namesakes (user_from ann) ["Bob"] (caller_env (T:=unit) Pool plain) start).1 = [user_from (UserRow 3 1 "Ann" "ann2@acme.test")] /\
  (exists l, (namesakes (user_from ann) ["Bob"] (caller_env (T:=unit) Pool plain) start).1 = map user_from l /\
     (l = [] \/ l ≡ₚ filter (fun u => u_name u = u_name ann /\ u_id u <> u_id ann) (org_rows (T:=unit) Pool 1 start))) /\
  (user_org (user_from ann) [] (caller_env (T:=unit) Pool plain) start).1 = Some (Some (OrgOut "1" "Acme")).
Proof.
  split; [by vm_compute|]. split; [|by vm_compute].
  pose proof (proj1 (relations_stay_in_the_org (T:=unit) Pool plain start) ann ["Bob"]) as Hn.
  destruct (namesakes (user_from ann) ["Bob"] (caller_env Pool plain) start) as [us w1]. apply Hn.
  apply (bool_decide_unpack _). by vm_compute.
Defined.

(** Creation checks the input before it asks for a connection. *)
Example creation_validates :
  (create_in_org (T:=unit) (String.eqb "a@b") "" "a@b" 1 no_ambient start).1 = Err (ValidationErrors ["name"]) /\
  (create_in_org (T:=unit) (String.eqb "a@b") "A" "a@b" 1 (caller_env Pool plain) start).1 = Ok (MUser (UserRow 9 1 "A" "a@b")).
Proof. split; by vm_compute. Qed.

(** The socket and the relations answer an e-mail address to a caller whose rule lists the id and the name. *)
Example email_leaves_unmasked :
  uo_email <$> (gateway_list (caller_env (T:=unit) Pool plain) start).1 = ["ann2@acme.test"; "ann@acme.test"] /\
  uo_email <$> (namesakes (user_from ann) [] (caller_env (T:=unit) Pool plain) start).1 = ["ann2@acme.test"].
Proof. split; by vm_compute. Qed.

(** An update that sets nothing answers with the row, whatever the scope of the caller. *)
Example empty_update_skips_the_scope :
  can (define (app_ability plain)) Update users (MUser ann : model) = Some false /\
  repo_update users (model_active_values (MUser ann)) (caller_env (T:=unit) Pool plain) start = (Ok (MUser ann), start).
Proof. split; by vm_compute. Qed.

End ApiDemo.
