(* ===== verification/ApiRoutes.v ===== *)
(** The users controller of [apps/api] ([users/controller.rs]) behind its guards ([authn/], [authz/guard.rs]):
    the hand-written handlers and the ones [#[crud]] generates, at the entities of [Api], composed with the
    bearer strategy, the ability guard, the response mask and the layers of a controller.

    poem's router and extractors, and the text of serde_json, are parameters. *)

From S2P Require Import Prelude Container Authz Http Orm AuthzHttp Crud Auth Resource Identity Api.

(** poem and serde_json, as the controller uses them. *)
Class Wire (X : Type) := {
  path_id : request X -> result Z http_error;                      (* [Path<Uuid>] *)
  user_body : request X -> result (string * string) http_error;    (* [Json<CreateUserInput>], [Json<UpdateUserInput>] *)
  page_query : request X -> result page_params http_error;
  errors_value : list string -> json;                              (* the serialized [ValidationErrors] *)
  errors_text : list string -> string;                             (* and its [Display] *)
  email_ok : string -> bool;
  version_of : Z -> Z;
  db_text : db_err -> string;
  to_text : json -> string;
  model_of_text : ty -> string -> option api_model;
  models_of_text : ty -> string -> option (list api_model)
}.

(** An id of 128 bits. *)
Definition uuid_row (u : user_row) : Prop := (0 <= u_id u < 2 ^ 128)%Z /\ (0 <= u_org_id u < 2 ^ 128)%Z.

Definition user_value `{Uuids} (u : user_row) : json := model_value (MUser u).

(** What is documented of the text: rows are read back from it, and it starts as its value does. *)
Class WireLaws (X : Type) `{Uuids} `{!Wire X} : Prop := {
  models_read us : Forall uuid_row us -> models_of_text users (to_text (JArray (map user_value us))) = Some (map MUser us);
  model_read u : uuid_row u -> model_of_text users (to_text (user_value u)) = Some (MUser u);
  array_text js : first_nonblank (to_text (JArray js)) = Some open_bracket;
  object_text ms : first_nonblank (to_text (JObject ms)) = Some open_brace
}.

#[export] Instance api_serde {X} `{Uuids} `{SeaQuery} `{!Wire X} : Serde | 10 := {
  parse_model := model_of_text; parse_models := models_of_text;
  to_vec j := Some (to_text j); into_bytes b := Some b }.

(** [Json] as an answer. *)
Definition json_response {X} `{!Wire X} (j : json) : response :=
  Response 200 (Some "application/json; charset=utf-8") [] (to_text j).

Definition validate_user {X} `{!Wire X} (input : string * string) : result unit (option json) :=
  match invalid_fields email_ok (IUser input.1 input.2) with [] => Ok tt | fields => Err (Some (errors_value fields)) end.

(** The parts the macro takes from the users. *)
#[export] Instance user_parts {X W T} `{Uuids} `{SeaQuery} `{!Statements W T} `{!Wire X} : CrudParts X W T := {
  extract_id := path_id; uuid_version := version_of;
  extract_create req := result_map (fun i => IUser i.1 i.2 : create_input) (user_body req);
  extract_update req := result_map (fun i => IUser i.1 i.2 : update_input) (user_body req);
  extract_page := page_query;
  validate_create (i : api_input) := match i with IUser name email => validate_user (name, email) | IOrg _ => Ok tt end;
  validate_update (i : api_input) := match i with IUser name email => validate_user (name, email) | IOrg _ => Ok tt end;
  output (m : api_model) := model_value m; answer_json := json_response;
  show_uuid := uuid_text; db_err_string := db_text }.

Section controller.
Context {X W T : Type} `{Uuids} `{SeaQuery} `{!Statements W T} `{!Wire X} `{JwtEngine}
  `{!Extension X ability} `{!Extension X claims} `{!Extension X (scope_handle (W:=W) (T:=T))}.

(** ** The guards *)

(** [AuthGuard] and [AppAbilityGuard], the application's aliases. *)
Definition AuthGuard : ty := TNamed "AuthGuard<AppJwtStrategy>".
Definition AppAbilityGuard : ty := TNamed "AbilityGuard<AppAbility>".

Definition app_auth_guard (to_str : string -> option string) (jwt : jwt_service) (clock : W -> Z) : guard X W (ambient T) :=
  auth_guard (jwt_strategy to_str claims_from_value jwt clock).
Definition app_ability_guard : guard X W (ambient T) := ability_guard app_ability.

(** ** The handlers *)

Definition create_err_text (e : create_err) : string :=
  match e with ValidationErrors fields => errors_text fields | CreateDb err => db_text err end.

(** [UsersController::create] *)
Definition users_create : endpoint X W (ambient T) := gated Create users (fun env req w =>
  match ctx_from_request (A:=claims) "identity::claims::Claims" req with
  | Err err => (Err err, w)
  | Ok auth =>
      match valid_from_request user_body validate_user req with
      | Err err => (Err err, w)
      | Ok input =>
          let '(r, w1) := create_in_org email_ok input.1 input.2 (org_id auth) env w in
          match r with
          | Err err => (Err (error_from_string (create_err_text err) 500), w1)
          | Ok row => (Ok (json_response (model_value row)), w1)
          end
      end
  end).

(** [UsersController::get]: no gate among its parameters, so no mask around it. *)
Definition users_get : endpoint X W (ambient T) := fun env req w =>
  let '(r, w1) := bind_from_request path_id version_of db_text users Read env req w in
  match r with
  | Err err => (Err err, w1)
  | Ok user => (Ok (json_response (model_value user)), w1)
  end.

(** The routes with their shapers: two are written by hand, [#[crud]] generates the others. *)
Definition users_handlers : list (string * (option (shaper X W (ambient T)) * endpoint X W (ambient T))) :=
  [("create", (Some (authorize_shaper Create users), users_create));
   ("get", (None, users_get));
   ("list", (Some (authorize_shaper Read users), list_handler users));
   ("update", (Some (authorize_shaper Update users), update_handler users));
   ("delete", (Some (authorize_shaper Delete users), delete_handler users))].

Definition users_handler (name : string) : option (option (shaper X W (ambient T)) * endpoint X W (ambient T)) :=
  snd <$> List.find (fun h => String.eqb h.1 name) users_handlers.

Definition shape_with (sh : option (shaper X W (ambient T))) (h : endpoint X W (ambient T)) : endpoint X W (ambient T) :=
  match sh with Some s => shaped s h | None => h end.

(** The subtree of the controller: the handler the router matches. *)
Definition users_subtree (matched : request X -> option string) : endpoint X W (ambient T) := fun env req w =>
  match matched req ≫= users_handler with
  | Some (sh, h) => shape_with sh h env req w
  | None => (Err (error_from_status 404), w)
  end.

(** [UsersController] as it is mounted. *)
Definition users_controller (lp : layer_providers X W (ambient T)) (matched : request X -> option string) : option (endpoint X W (ambient T)) :=
  controller_layers lp [AuthGuard; AppAbilityGuard] [] [] (users_subtree matched).

End controller.

(** ** What the mask leaves *)

Section masked.
Context {X W T : Type} `{Uuids} `{SeaQuery} `{!Wire X} `{!WireLaws X}.
Implicit Types (c : claims) (u : user_row).

Lemma mask_many_users c us : Forall (fun u => u_org_id u = org_id c) us ->
  mask_many (define (app_ability c)) Read users (map MUser us : list model) = Some (map (shown c Read) us).
Proof.
  intros Ho. induction Ho as [|u us Hu Hus IH]; [done|]. cbn [map mask_many].
  apply may_read_user in Hu. rewrite (can_app c Read (MUser u)), Hu. cbn [mbind option_bind].
  by rewrite mask_app, IH.
Qed.

(** A list, of rows the caller may read: each with what the policy shows. *)
Lemma mask_user_list c us : Forall uuid_row us -> Forall (fun u => u_org_id u = org_id c) us ->
  mask_response (define (app_ability c)) Read users (json_response (X:=X) (JArray (map user_value us))) =
    Some (json_response (X:=X) (JArray (map (shown c Read) us))).
Proof.
  intros Hu Ho. unfold mask_response. cbn [api_serde to_vec parse_models into_bytes json_response resp_body].
  rewrite array_text. cbn -[mask_many first_nonblank]. rewrite models_read, mask_many_users by done. done.
Qed.

(** One row the caller may act on. *)
Lemma mask_user c (a : action) u : uuid_row u -> may c a (MUser u) = true ->
  mask_response (define (app_ability c)) a users (json_response (X:=X) (user_value u)) =
    Some (json_response (X:=X) (shown c a u)).
Proof.
  intros Hu Hm. unfold mask_response. cbn [api_serde to_vec parse_model into_bytes json_response resp_body].
  change (first_nonblank (to_text (user_value u))) with (first_nonblank (to_text (X:=X) (JObject
    [("id", JString (uuid_text (u_id u))); ("org_id", JString (uuid_text (u_org_id u)));
     ("name", JString (u_name u)); ("email", JString (u_email u))]))).
  rewrite object_text. cbn -[mask first_nonblank user_value].
  rewrite model_read by done. cbn -[mask]. by rewrite mask_app.
Qed.

End masked.

(** ** The handlers, for a caller *)

Section handlers.
Context {X W T : Type} `{Uuids} `{SeaQuery} `{!SqlSemantics} `{!ApiSql} `{!Statements W T} `{!QuerySemantics W T}
  `{!ApiDatabase W T} `{!Wire X} `{!WireLaws X}
  `{!Extension X ability} `{!Extension X claims} `{!Extension X (scope_handle (W:=W) (T:=T))}.
Implicit Types (c : claims) (ex : executor T) (w : W) (req : request X) (u : user_row).

(** Nothing outside the organisation of the caller is touched. *)
Definition isolated ex c w w1 : Prop :=
  (forall org, org <> org_id c -> org_rows ex org w1 ≡ₚ org_rows ex org w) /\ rows ex orgs w1 = rows ex orgs w.

(** An answer made of some of the given rows, in full or as the policy shows them. *)
Definition made_of c (us : list user_row) (resp : response) : Prop :=
  exists picked js, picked ⊆ us /\ Forall2 (fun u j => j = user_value u \/ j = shown c Read u) picked js /\
    (resp = Response 204 None [] "" \/ resp = json_response (X:=X) (JArray js) \/
     exists j, js = [j] /\ resp = json_response (X:=X) j).

Definition confined ex c w (ow : result response http_error * W) : Prop :=
  isolated ex c w ow.2 /\
  match ow.1 with
  | Ok resp => made_of c (org_rows ex (org_id c) w ++ org_rows ex (org_id c) ow.2) resp
  | Err _ => forall e, rows ex e ow.2 = rows ex e w
  end.

Lemma isolated_same ex c w w1 : (forall e, rows ex e w1 = rows ex e w) -> isolated ex c w w1.
Proof. intros Hr. split; [|done]. intros org _. unfold org_rows, user_rows. by rewrite Hr. Qed.

Lemma org_rows_perm ex c w w1 (m0 m1 : list user_row) (l : list api_model) :
  (rows ex users w : list api_model) ≡ₚ map MUser m0 ++ l -> (rows ex users w1 : list api_model) ≡ₚ map MUser m1 ++ l ->
  Forall (fun u => u_org_id u = org_id c) (m0 ++ m1) -> rows ex orgs w1 = rows ex orgs w -> isolated ex c w w1.
Proof.
  intros Hw0 Hw1 Hall Ho. apply Forall_app in Hall as [Ha0 Ha1]. split; [|done]. intros org Hne.
  unfold org_rows, user_rows. rewrite Hw0, Hw1, !omap_app, !filter_app.
  assert (Hnil : forall us, Forall (fun u => u_org_id u = org_id c) us ->
    filter (fun u => u_org_id u = org) (omap user_of (map MUser us)) = []).
  { intros us Hus. induction Hus as [|u us Hu Hus IH]; [done|].
    cbn [map omap list_omap user_of]. rewrite filter_cons_False by congruence. exact IH. }
  by rewrite !Hnil.
Qed.

Lemma shaped_run (a : action) (h : endpoint X W (ambient T)) ex c env req w :
  amb_executor env = Some ex -> ext_get req = Some (define (app_ability c)) ->
  shaped (authorize_shaper a users) h env req w =
    let '(out, w1) := h (caller_env ex c) req w in
    match out with
    | Ok resp => match mask_response (define (app_ability c)) a users resp with
                 | Some masked => (Ok masked, w1) | None => (Err panicked, w1) end
    | Err err => (Err err, w1)
    end.
Proof. intros He Hab. unfold shaped. simpl. rewrite Hab. unfold under_ability, with_ability. by rewrite He. Qed.

Lemma rows_in_range ex w u : u ∈ user_rows ex w -> uuid_row u.
Proof. intros Hu. apply users_of_rows in Hu. by apply rows_uuids in Hu. Qed.

Lemma org_rows_elem ex org w u : u ∈ org_rows ex org w <-> u_org_id u = org /\ u ∈ user_rows ex w.
Proof. unfold org_rows. by rewrite list_elem_of_filter. Qed.

Lemma list_confined ex c env req w : amb_executor env = Some ex -> ext_get req = Some (define (app_ability c)) ->
  confined ex c w (shaped (authorize_shaper Read users) (list_handler users) env req w).
Proof.
  intros He Hab. rewrite (shaped_run _ _ ex c) by done. unfold list_handler. rewrite (gated_cases _ _ _ _ _ _ _ Hab).
  rewrite (proj1 (can_class_app c Read)). replace (may_class c Read true) with true
    by (unfold may_class; by destruct (is_admin c)).
  pose proof (service_list_spec ex c w) as Hl. destruct (service_list users (caller_env ex c) w) as [[l|err] w1];
    destruct Hl as [Hr Hl]; [|by split; [apply isolated_same|]].
  destruct (Hl l eq_refl) as (us & -> & Hus). cbn [answer_json user_parts output].
  assert (Hin : forall u, u ∈ us -> u_org_id u = org_id c /\ u ∈ user_rows ex w) by (intros u; by rewrite Hus, org_rows_elem).
  match goal with |- context [JArray ?l] => assert (l = map user_value us) as -> by exact (map_map MUser model_value us) end.
  rewrite mask_user_list; [|apply Forall_forall; intros u Hu; by eapply rows_in_range, Hin|apply Forall_forall; intros u Hu; by apply Hin].
  split; [by apply isolated_same|]. exists us, (map (shown c Read) us). split_and!; [| |by right; left].
  - intros u Hu. rewrite elem_of_app. left. by apply org_rows_elem, Hin.
  - apply Forall2_fmap_r. by apply Forall_Forall2_diag, Forall_forall; right.
Qed.

(** An answer with one row the caller may act on, where that action masks nothing of it. *)
Lemma one_confined ex c (a : action) u w w1 masked : isolated ex c w w1 -> u ∈ user_rows ex w \/ u ∈ user_rows ex w1 ->
  may c a (MUser u) = true -> masked = shown c a u \/ masked = user_value u ->
  confined ex c w (Ok (json_response (X:=X) masked), w1).
Proof.
  intros Hi Hin Hm Hv. split; [done|]. exists [u], [masked].
  assert (u_org_id u = org_id c) as Ho by (unfold may in Hm; by apply andb_true_iff in Hm as [?%bool_decide_eq_true _]).
  split_and!; [| |right; right; by exists masked].
  - intros u' ->%list_elem_of_singleton. apply elem_of_app. destruct Hin; [left|right]; by apply org_rows_elem.
  - constructor; [|constructor]. destruct Hv as [->| ->]; [|by left]. unfold shown.
    destruct (is_admin c); [by left|]. case_bool_decide; [by left|by right].
Qed.

Lemma get_confined ex c env req w sc : amb_executor env = Some ex -> ext_get req = Some (define (app_ability c)) ->
  ext_get req = Some sc -> scope_get_service sc users w = (Some (default_service users), w) ->
  confined ex c w (users_get env req w).
Proof.
  intros He Hab Hsc Hsv. unfold users_get, bind_from_request.
  destruct (path_id req) as [id|err]; [|by split; [apply isolated_same|]].
  destruct (negb _); [by split; [apply isolated_same|]|]. rewrite Hab, Hsc, Hsv.
  unfold under_ability, with_ability. rewrite He. cbn [sv_access default_service].
  destruct (access_spec ex (app_ability c) users Read id w) as (r & w2 & Hacc & Hr & Ho).
  unfold request_env in Hacc. rewrite Hacc. destruct r as [[m| |]|err]; try by split; [apply isolated_same|].
  destruct (Ho _ eq_refl) as (Hin & _ & Hc). destruct m as [u|o]; [|by pose proof (rows_entity _ _ _ _ Hin)].
  rewrite (can_app c Read (MUser u)) in Hc. injection Hc as Hc.
  apply (one_confined ex c Read u); [by apply isolated_same|left; by apply users_of_rows|done|by right].
Qed.

Lemma create_confined ex c env req w : amb_executor env = Some ex -> ext_get req = Some (define (app_ability c)) ->
  ext_get req = Some c -> confined ex c w (shaped (authorize_shaper Create users) users_create env req w).
Proof.
  intros He Hab Hc. rewrite (shaped_run _ _ ex c) by done. unfold users_create. rewrite (gated_cases _ _ _ _ _ _ _ Hab).
  rewrite (proj1 (can_class_app c Create)). replace (may_class c Create true) with true
    by (unfold may_class; by destruct (is_admin c)).
  unfold ctx_from_request. rewrite Hc. cbn [ok_or].
  destruct (valid_from_request user_body validate_user req) as [[name email]|err]; [|by split; [apply isolated_same|]].
  cbn [fst snd]. pose proof (create_in_org_spec email_ok name email (org_id c) ex c w) as Hs.
  destruct (create_in_org _ _ _ _ _ w) as [[m|[fields|err]] w1].
  - destruct Hs as (u & -> & _ & Ho & _ & _ & _ & _ & Hrows & Horgs).
    assert (Hi : isolated ex c w w1) by (eapply (org_rows_perm ex c w w1 [] [u]); [cbn [map app]; reflexivity|exact Hrows|by repeat constructor|done]).
    assert (Hu : u ∈ user_rows ex w1) by (apply users_of_rows; rewrite Hrows; by left).
    assert (Hm : may c Create (MUser u) = true) by (unfold may; rewrite Ho, bool_decide_eq_true_2 by done; by destruct (is_admin c)).
    change (model_value (MUser u)) with (user_value u). rewrite mask_user; [|by eapply rows_in_range|done].
    apply (one_confined ex c Create u); [done|by right|done|by left].
  - destruct Hs as [-> _]. by split; [apply isolated_same|].
  - by split; [apply isolated_same|].
Qed.

(** A write reserved to admins: anyone else is turned away without a query. *)
Lemma admin_gate (a : action) ex c (body : endpoint X W (ambient T)) env req w :
  a = Update \/ a = Delete -> ext_get req = Some (define (app_ability c)) ->
  gated a users body env req w = if is_admin c then body env req w else (Err (error_from_string "forbidden" 403), w).
Proof.
  intros Ha Hab. rewrite (gated_cases _ _ _ _ _ _ _ Hab), (proj1 (can_class_app c a)). unfold may_class.
  destruct (is_admin c); [done|]. by destruct Ha as [-> | ->].
Qed.

Lemma may_admin c a u : is_admin c = true -> may c a (MUser u) = true <-> u_org_id u = org_id c.
Proof. intros Ha. unfold may. rewrite Ha. simpl. by rewrite andb_true_r, bool_decide_eq_true. Qed.

(** A gated update of a user, as the service makes it, stays in the organisation. *)
Lemma service_update_in_org ex c u name email w :
  is_admin c = true ->
  let '(r, w1) := service_update users (MUser u : model) (IUser name email : update_input) (caller_env ex c) w in
  match r with
  | Ok m => exists u', m = MUser u' /\ u_org_id u' = org_id c /\ u' ∈ user_rows ex w1 /\ isolated ex c w w1
  | Err _ => forall e, rows ex e w1 = rows ex e w
  end.
Proof.
  intros Ha. unfold service_update, repo_update. cbn [conn caller_env request_env current_executor amb_executor ok_or].
  change (scope_for users Update _) with (condition_for (define (app_ability c)) Update users).
  set (a := apply_to _ _). set (cond := condition_for _ _ _). pose proof (q_update_spec ex users a cond w) as Hs.
  destruct (q_update ex users a cond w) as [[m|err] w1] eqn:Eq; [|done].
  destruct (update_replaces ex users a cond w m w1 eq_refl Eq) as (old & l & Hw & Hw1 & Hsel & Hset & Hother).
  assert (exists o, old = MUser o /\ u_org_id o = org_id c) as (o & -> & Ho).
  { destruct old as [o|o]; [|by pose proof (rows_entity ex users w (MOrg o) ltac:(rewrite Hw; by left))].
    exists o. split; [done|]. apply (selects_app c Update (MUser o)) in Hsel. by apply (may_admin c Update). }
  destruct m as [u'|o']; [|by destruct Hset]. destruct Hset as (_ & Horg & _). cbn in Horg.
  assert (Horg' : u_org_id u' = org_id c) by congruence.
  exists u'. split_and!; [done|done|apply users_of_rows; rewrite Hw1; by left|].
  apply (org_rows_perm ex c w w1 [o] [u'] l); [exact Hw|exact Hw1|by repeat constructor|by apply Hother].
Qed.

(** A gated delete of a user, likewise. *)
Lemma service_delete_in_org ex c u w : is_admin c = true ->
  let '(r, w1) := service_delete users (MUser u : model) (caller_env ex c) w in
  match r with Ok _ => isolated ex c w w1 | Err _ => forall e, rows ex e w1 = rows ex e w end.
Proof.
  intros Ha. pose proof (service_delete_gated ex (app_ability c) users (MUser u) w) as Hg. fold (caller_env ex c) in Hg.
  unfold service_delete, repo_delete in *. cbn [conn caller_env request_env current_executor amb_executor ok_or] in *.
  change (scope_for users Delete _) with (condition_for (define (app_ability c)) Delete users) in *.
  set (cond := condition_for _ _ _) in *. destruct (q_delete _ _ _ cond w) as [[n|err] w1] eqn:Eq; [|exact Hg].
  destruct (Z.eqb_spec n 0) as [->|Hn]; [exact Hg|].
  destruct (delete_removes ex u cond w n w1 Eq Hn) as (old & l & Hw & Hw1 & Hsel & Hother).
  destruct old as [o|o]; [|by pose proof (rows_entity ex users w (MOrg o) ltac:(rewrite Hw; by left))].
  apply (selects_app c Delete (MUser o)) in Hsel. apply (may_admin c Delete) in Hsel; [|done].
  apply (org_rows_perm ex c w w1 [o] [] l); [exact Hw|exact Hw1|by repeat constructor|by apply Hother].
Qed.

Lemma isolated_after_read ex c w w1 w2 : (forall e, rows ex e w1 = rows ex e w) -> isolated ex c w1 w2 -> isolated ex c w w2.
Proof.
  intros Hr [Hi Ho]. split; [|by rewrite Ho]. intros org Hne. rewrite (Hi org Hne). unfold org_rows, user_rows. by rewrite Hr.
Qed.

Lemma update_confined ex c env req w : amb_executor env = Some ex -> ext_get req = Some (define (app_ability c)) ->
  confined ex c w (shaped (authorize_shaper Update users) (update_handler users) env req w).
Proof.
  intros He Hab. rewrite (shaped_run _ _ ex c) by done. unfold update_handler. rewrite (admin_gate Update ex c) by auto.
  destruct (is_admin c) eqn:Ea; [|by split; [apply isolated_same|]].
  destruct (extract_id req) as [id|err]; [|by split; [apply isolated_same|]].
  destruct (valid_from_request extract_update validate_update req) as [input|err] eqn:Ev; [|by split; [apply isolated_same|]].
  destruct (id_v7_check id) as [[]|err]; [|by split; [apply isolated_same|]].
  assert (exists name email, input = IUser name email) as (name & email & ->).
  { revert Ev. unfold valid_from_request, validation_pipe. cbn [extract_update user_parts].
    destruct (user_body req) as [[name email]|err]; simpl; [|done]. intros Ev. exists name, email.
    destruct (validate_user _); simpl in Ev; [|done]. by injection Ev as <-. }
  match goal with |- context [with_access users Update id _ w ?f] =>
    pose proof (with_access_cases ex (app_ability c) users Update id w f) as Hacc end.
  fold (caller_env ex c) in Hacc. destruct (with_access _ _ _ _ _ _) as [out w'].
  destruct Hacc as [(m & w1 & Hin & _ & _ & Hr & Ef)|(err & -> & Hr & _)]; [|by split; [apply isolated_same|]].
  destruct m as [u|o]; [|by pose proof (rows_entity _ _ _ _ Hin)].
  pose proof (service_update_in_org ex c u name email w1 Ea) as Hu. fold (caller_env ex c) in Ef.
  destruct (service_update _ _ _ _ w1) as [[m|err] w2].
  - destruct Hu as (u' & -> & Ho & Hin' & Hi). injection Ef as -> ->.
    cbv beta iota. match goal with |- context [mask_response _ _ _ ?r] => change r with (json_response (X:=X) (user_value u')) end.
    rewrite mask_user; [|by eapply rows_in_range|by apply may_admin].
    apply (one_confined ex c Update u'); [by eapply isolated_after_read|by right|by apply may_admin|by left].
  - injection Ef as -> ->. assert (Hr2 : forall e, rows ex e w2 = rows ex e w) by (intros e; by rewrite Hu).
    by split; [apply isolated_same|].
Qed.

Lemma delete_confined ex c env req w : amb_executor env = Some ex -> ext_get req = Some (define (app_ability c)) ->
  confined ex c w (shaped (authorize_shaper Delete users) (delete_handler users) env req w).
Proof.
  intros He Hab. rewrite (shaped_run _ _ ex c) by done. unfold delete_handler. rewrite (admin_gate Delete ex c) by auto.
  destruct (is_admin c) eqn:Ea; [|by split; [apply isolated_same|]].
  destruct (extract_id req) as [id|err]; [|by split; [apply isolated_same|]].
  destruct (id_v7_check id) as [[]|err]; [|by split; [apply isolated_same|]].
  match goal with |- context [with_access users Delete id _ w ?f] =>
    pose proof (with_access_cases ex (app_ability c) users Delete id w f) as Hacc end.
  fold (caller_env ex c) in Hacc. destruct (with_access _ _ _ _ _ _) as [out w'].
  destruct Hacc as [(m & w1 & Hin & _ & _ & Hr & Ef)|(err & -> & Hr & _)]; [|by split; [apply isolated_same|]].
  destruct m as [u|o]; [|by pose proof (rows_entity _ _ _ _ Hin)].
  pose proof (service_delete_in_org ex c u w1 Ea) as Hd. fold (caller_env ex c) in Ef.
  destruct (service_delete _ _ _ w1) as [[[]|err] w2]; injection Ef as -> ->.
  - split; [by eapply isolated_after_read|]. exists [], []. split_and!; [apply list_subseteq_nil|done|by left].
  - assert (Hr2 : forall e, rows ex e w2 = rows ex e w) by (intros e; by rewrite Hd).
    by split; [apply isolated_same|].
Qed.

End handlers.

(** ** The controller *)

Section controller_properties.
Context {X W T : Type} `{Uuids} `{SeaQuery} `{!SqlSemantics} `{!ApiSql} `{!Statements W T} `{!QuerySemantics W T}
  `{!ApiDatabase W T} `{!Wire X} `{!WireLaws X} `{JwtEngine}
  `{!Extension X ability} `{!Extension X claims} `{!Extension X (scope_handle (W:=W) (T:=T))}.
Implicit Types (c : claims) (ex : executor T) (w : W) (req : request X).

Lemma ext_get_other {A B} `{!Extension X A} `{!Extension X B} (b : B) req :
  ext_key (X:=X) (A:=A) <> ext_key (X:=X) (A:=B) -> ext_get (A:=A) (ext_insert b req) = ext_get req.
Proof. intros Hne. unfold ext_get, ext_insert. simpl. by rewrite lookup_insert_ne. Qed.

(** Every route of the controller, for a request the guards let through. *)
Lemma subtree_confined matched ex c sc env req w :
  amb_executor env = Some ex -> ext_get req = Some (define (app_ability c)) -> ext_get req = Some c ->
  ext_get req = Some sc -> scope_get_service sc users w = (Some (default_service users), w) ->
  confined ex c w (users_subtree (T:=T) matched env req w).
Proof.
  intros He Hab Hc Hsc Hsv. unfold users_subtree.
  destruct (matched req ≫= users_handler) as [[sh h]|] eqn:Em; [|by split; [apply isolated_same|]].
  apply bind_Some in Em as (name & _ & Hh). unfold users_handler in Hh.
  apply fmap_Some in Hh as ([name' [sh' h']] & Hf & [= -> ->]). apply List.find_some in Hf as [Hin _].
  apply list_elem_of_In in Hin. unfold users_handlers in Hin. rewrite !elem_of_cons, elem_of_nil in Hin.
  destruct Hin as [E|[E|[E|[E|[E|[]]]]]]; injection E as _ -> ->; cbn [shape_with].
  - by apply create_confined.
  - by eapply get_confined.
  - by apply list_confined.
  - by apply update_confined.
  - by apply delete_confined.
Qed.

(** [C5] One organisation cannot reach another through the users controller.  A request without a bearer
    token this server verifies is a 401 and touches nothing.  For the claims of a verified token, whichever
    of the five routes is called and with whatever path and body: the users of every other organisation
    and all organisations are as they were, an answer is made of users of the caller's organisation — in
    full, or their ids and names —, and an error leaves every table as it was. *)
Theorem users_controller_isolates_orgs (lp : layer_providers X W (ambient T)) matched to_str (jwt : jwt_service) (clock : W -> Z) :
  get_guard lp AuthGuard = Some (app_auth_guard to_str jwt clock) -> get_guard lp AppAbilityGuard = Some app_ability_guard ->
  NoDup [ext_key (X:=X) (A:=ability); ext_key (X:=X) (A:=claims); ext_key (X:=X) (A:=scope_handle (W:=W) (T:=T))] ->
  exists ep, users_controller lp matched = Some ep /\ forall env ex req sc w,
    amb_executor env = Some ex -> ext_get req = Some sc ->
    scope_get_service sc users w = (Some (default_service users), w) ->
    match (let? tok := ok_or (bearer_token to_str req) MissingCredentials in verify claims_from_value jwt tok (clock w)) with
    | Err err => ep env req w = (Ok (auth_error_response err), w)
    | Ok c =>
        let '(out, w1) := ep env req w in
        (forall org, org <> org_id c -> org_rows ex org w1 ≡ₚ org_rows ex org w) /\ rows ex orgs w1 = rows ex orgs w /\
        match out with
        | Ok resp => made_of (X:=X) c (org_rows ex (org_id c) w ++ org_rows ex (org_id c) w1) resp
        | Err _ => forall e, rows ex e w1 = rows ex e w
        end
    end.
Proof.
  intros Ha Hb Hkeys. rewrite !NoDup_cons, !elem_of_cons in Hkeys. destruct Hkeys as (K1 & K2 & _).
  destruct (controller_layers_in_order lp [AuthGuard; AppAbilityGuard] [] [] [app_auth_guard to_str jwt clock; app_ability_guard]
    [] [] (users_subtree matched)) as (ep & Hep & Hrun); [simpl; by rewrite Ha, Hb|done|done|].
  exists ep. split; [exact Hep|]. intros env ex req sc w He Hsc Hsv. rewrite Hrun. unfold layered. cbn [run_guards with_metas foldr].
  unfold app_auth_guard, auth_guard, jwt_strategy.
  destruct (bearer_token to_str req) as [tok|]; cbn [ok_or result_bind]; [|done].
  destruct (verify claims_from_value jwt tok (clock w)) as [c|err]; cbn [result_bind]; [|done].
  unfold app_ability_guard, ability_guard. rewrite ext_get_insert.
  match goal with |- context [users_subtree matched env ?r w] => set (req2 := r) end.
  assert (Hc : confined ex c w (users_subtree matched env req2 w)).
  { apply (subtree_confined matched ex c sc); [done|apply ext_get_insert| | |done]; unfold req2.
    - rewrite ext_get_other by (intros E; apply K1; by left). apply ext_get_insert.
    - rewrite !ext_get_other; [done|intros E; apply K2; by left|intros E; apply K1; right; by left]. }
  destruct Hc as [[Hi Ho] Hres]. cbn. destruct (users_subtree matched env req2 w) as [[resp|err] w1]; cbn in *; by split_and!.
Qed.

End controller_properties.

(** ** A concrete request *)

Module ApiRoutesDemo.
Import AuthDemo IdentityDemo ApiDemo.

Inductive ext := XAbility (ab : ability) | XClaims (c : claims) | XScope (s : scope_handle (W:=ApiDemo.world) (T:=unit)).

#[export] Instance ability_ext : Extension ext ability.
Proof.
  refine {| ext_key := TArc (TNamed "Ability"); erase := XAbility;
            recover x := match x with XAbility ab => Some ab | _ => None end |}. done.
Defined.

#[export] Instance claims_ext : Extension ext claims.
Proof.
  refine {| ext_key := TNamed "Claims"; erase := XClaims;
            recover x := match x with XClaims c => Some c | _ => None end |}. done.
Defined.

#[export] Instance scope_ext : Extension ext (scope_handle (W:=ApiDemo.world) (T:=unit)).
Proof.
  refine {| ext_key := TArc (TNamed "RequestScope"); erase := XScope;
            recover x := match x with XScope s => Some s | _ => None end |}. done.
Defined.

(** Text: the bracket of a value, then the value as a number. *)
Definition mark (j : json) : string := match j with JArray _ => "[" | JObject _ => "{" | _ => "0" end.
Definition render (j : json) : string := mark j +:+ bits (encode j).
Definition read (s : string) : option json :=
  match s with String _ rest => unbits rest ≫= decode | EmptyString => None end.

Definition user_of_value (j : json) : option api_model :=
  match j with
  | JObject [("id", JString i); ("org_id", JString o); ("name", JString n); ("email", JString e)] =>
      i ← uuid_parse i; o ← uuid_parse o; Some (MUser (UserRow i o n e))
  | _ => None
  end.

Lemma read_render j : read (render j) = Some j.
Proof.
  unfold render. assert (exists a, mark j = String a "") as [a ->] by (destruct j; by eexists).
  change (unbits (bits (encode j)) ≫= decode = Some j). rewrite unbits_bits. cbn. by rewrite decode_encode.
Qed.

Lemma user_of_user_value u : uuid_row u -> user_of_value (user_value u) = Some (MUser u).
Proof. intros [Hi Ho]. unfold user_of_value, user_value, model_value. rewrite !uuid_parse_text by done. by destruct u. Qed.

(** The body of a request is ["name|email"]. *)
Definition bar : Ascii.ascii := Ascii.ascii_of_N 124.
#[export] Instance wire : Wire ext := {
  path_id req := ok_or ((snd <$> List.find (fun kv : string * string => String.eqb kv.1 "id") (rq_params req)) ≫= parse_u64)
                   (error_from_status 400);
  user_body req := match split bar (rq_body req) with [n; e] => Ok (n, e) | _ => Err (error_from_status 400) end;
  page_query _ := Ok (PageParams None None);
  errors_value fields := JArray (map JString fields);
  errors_text := join ", ";
  email_ok s := negb (String.eqb s "");
  version_of _ := 7%Z;
  db_text _ := "database error";
  to_text := render;
  model_of_text _ s := read s ≫= user_of_value;
  models_of_text _ s := j ← read s; match j with JArray js => mapM user_of_value js | _ => None end
}.

#[export] Instance wire_laws : WireLaws ext.
Proof.
  constructor.
  - intros us Hus. cbn. rewrite read_render. cbn. induction Hus as [|u us Hu _ IH]; [done|].
    cbn [map mapM]. rewrite user_of_user_value by done. cbn. cbn in IH. by rewrite IH.
  - intros u Hu. cbn. rewrite read_render. cbn. by apply user_of_user_value.
  - intros js. done.
  - intros ms. done.
Qed.

Definition scope : scope_handle (W:=ApiDemo.world) (T:=unit) := ScopeHandle (fun e w => (Some (default_service e), w)).

Definition token_of (c : claims) : string := default "" (result_ok (sign service (claims_to_value c))).

(** The router reads the route off the path. *)
Definition call (route id body token : string) : request ext :=
  ext_insert scope (Request GET route [("authorization", "Bearer " +:+ token)] [("id", id)] body ∅).
Definition matched (req : request ext) : option string := Some (rq_uri req).

Definition lp : layer_providers ext ApiDemo.world (ambient unit) := {|
  get_guard t := if decide (t = AuthGuard) then Some (app_auth_guard Some service (fun _ => 0%Z))
                 else if decide (t = AppAbilityGuard) then Some app_ability_guard else None;
  get_filter _ := None;
  get_interceptor _ := None |}.

Definition env : ambient unit := Ambient (Some Pool) None.

Definition run (req : request ext) : option (result response http_error) :=
  (fun ep => (ep env req start).1) <$> users_controller lp matched.

(** What the routes answer to a caller of organisation 1. *)
Example routes_answer :
  run (call "list" "" "" (token_of plain)) =
    Some (Ok (json_response (X:=ext) (JArray [JObject [("id", JString "3"); ("name", JString "Ann")]; JObject [("id", JString "1"); ("name", JString "Ann")]]))) /\
  run (call "get" "2" "" (token_of admin)) = Some (Err (error_from_status 403)) /\
  run (call "get" "4" "" (token_of admin)) = Some (Err (error_from_status 404)) /\
  run (call "delete" "1" "" (token_of plain)) = Some (Err (error_from_string "forbidden" 403)) /\
  run (call "delete" "1" "" (token_of admin)) = Some (Ok (Response 204 None [] "")) /\
  run (call "create" "" "Bob|" (token_of plain)) = Some (Err (reject (PipeError "validation failed" (Some (JArray [JString "email"]))))) /\
  run (call "list" "" "" "forged") = Some (Ok (auth_error_response InvalidToken)).
Proof. split_and!; vm_compute; reflexivity. Qed.

(** The by-id route takes its row through [Bind] and has no mask: a caller whose rule lists the id and the name
    is answered every column. *)
Example get_answers_every_column :
  run (call "get" "1" "" (token_of plain)) = Some (Ok (json_response (X:=ext) (user_value ann))) /\
  shown plain Read ann <> user_value ann.
Proof. split; [by vm_compute|done]. Qed.

(** An admin of organisation 1 changes a user of its own, and the users of organisation 2 stay as they are. *)
Lemma users_controller_isolates_orgs_witness :
  exists ep, users_controller lp matched = Some ep /\
    (let '(out, w1) := ep env (call "update" "1" "Anna|anna@acme.test" (token_of admin)) start in
     out = Ok (json_response (X:=ext) (user_value (UserRow 1 1 "Anna" "anna@acme.test"))) /\
     org_rows (T:=unit) Pool 2 w1 ≡ₚ org_rows (T:=unit) Pool 2 start) /\
    ep env (call "list" "" "" "forged") start = (Ok (auth_error_response InvalidToken), start).
Proof.
  destruct (users_controller_isolates_orgs (T:=unit) lp matched Some service (fun _ => 0%Z) eq_refl eq_refl
    ltac:(apply (bool_decide_unpack _); by vm_compute)) as (ep & Hep & Hrun).
  exists ep. split; [exact Hep|]. split.
  - pose proof (Hrun env Pool (call "update" "1" "Anna|anna@acme.test" (token_of admin)) scope start eq_refl eq_refl eq_refl) as Hr.
    assert (E : (fun e => (e env (call "update" "1" "Anna|anna@acme.test" (token_of admin)) start).1) <$> users_controller lp matched =
      Some (Ok (json_response (X:=ext) (user_value (UserRow 1 1 "Anna" "anna@acme.test"))))) by (by vm_compute).
    rewrite Hep in E. injection E as E.
    assert (Hv : (let? tok := ok_or (bearer_token Some (call "update" "1" "Anna|anna@acme.test" (token_of admin))) MissingCredentials in
                  verify claims_from_value service tok 0) = Ok admin) by (by vm_compute).
    rewrite Hv in Hr. destruct (ep env _ start) as [out w1]. split; [exact E|]. by apply Hr.
  - exact (Hrun env Pool (call "list" "" "" "forged") scope start eq_refl eq_refl eq_refl).
Defined.

End ApiRoutesDemo.
