(* ===== verification/Chat.v ===== *)
(** The chat application, [apps/chat]: the room ([chat/service.rs]), the moderation guard ([chat/guard.rs]), the
    two gateways ([chat/gateway.rs], [notify/gateway.rs]) and their payloads ([chat/dto.rs]), as a gateway of
    [Ws]; and the connections of a gateway as they interleave, one step per accepted socket, message and
    close.

    A message is one step: the application awaits nothing between taking it and answering it. *)

From S2P Require Import Prelude Container Codegen Messages Auth Ws.

(** ** The payloads *)

Record chat_message := ChatMessage { cm_author : string; cm_text : string }.

(** [ChatMessage] and [SendMessage] have the same two fields; the derived [Serialize]. *)
Definition message_value (m : chat_message) : json :=
  JObject [("author", JString (cm_author m)); ("text", JString (cm_text m))].

(** The derived [Deserialize] of [SendMessage]: a map with the fields, or a sequence of them. *)
Definition message_of_value (v : json) : option chat_message :=
  match v with
  | JObject ms =>
      match member "author" ms, member "text" ms with
      | Some (JString a), Some (JString t) => Some (ChatMessage a t)
      | _, _ => None
      end
  | JArray [JString a; JString t] => Some (ChatMessage a t)
  | _ => None
  end.

Lemma message_round_trip m : message_of_value (message_value m) = Some m.
Proof. by destruct m. Qed.

(** ** The room *)

Record room := Room { rm_history : list chat_message; rm_present : Z }.

Definition room_default : room := Room [] 0.

(** The counter is a [usize], of 64 bits. *)
Definition connected (r : room) : room := Room (rm_history r) (wrap_u64 (rm_present r + 1)).
Definition disconnected (r : room) : room := Room (rm_history r) (wrap_u64 (rm_present r - 1)).

Section application.
Context `{Wire}.

Definition set_app (r : room) (w : world room) : world room := World (w_server w) (w_chans w) r.

(** [RoomService::record], on the registry of the default namespace. *)
Definition record (message : chat_message) (w : world room) : chat_message * world room :=
  let stored := ChatMessage (cm_author message) (cm_text message) in
  let w1 := set_app (Room (rm_history (w_app w) ++ [stored]) (rm_present (w_app w))) w in
  let '(_, chans) := broadcast (fun m => Ok (message_value m) : result json string) "message" stored (w_server w1) (w_chans w1) in
  (stored, World (w_server w1) chans (w_app w1)).

(** ** The guard *)

(** [Value::get] by a name: of an object only. *)
Definition value_get (k : string) (v : json) : option json := match v with JObject ms => member k ms | _ => None end.

Definition banned : string := "banned".

(** [ModeratedGuard::can_activate] *)
Definition moderated_guard : message_guard := fun _ _ data =>
  match value_get "author" data with
  | Some (JString a) => if String.eqb a banned then Err "author `banned` is not allowed to post" else Ok tt
  | _ => Ok tt
  end.

(** ** The gateway *)

Definition payload (data : json) : result json string :=
  match message_of_value data with Some m => Ok (message_value m) | None => Err "invalid type" end.

(** A handler that takes a message; the payload has been checked before. *)
Definition on_payload (f : chat_message -> world room -> world room) : Z -> json -> world room -> result (result json string * world room) (world room) :=
  fun _ data w => Ok (Ok JNull, match message_of_value data with Some m => f m w | None => w end).

Definition typing (m : chat_message) (w : world room) : world room :=
  let '(_, chans) := broadcast (fun m => Ok (message_value m) : result json string) "typing" m (w_server w) (w_chans w) in
  World (w_server w) chans (w_app w).

Definition chat_handlers : list (handler room) :=
  [Handler "message" [moderated_guard] (Some payload) true (on_payload (fun m w => (record m w).2));
   Handler "history" [] None false (fun _ _ w => Ok (Ok (JArray (map message_value (rm_history (w_app w)))), w));
   Handler "presence" [] None false (fun _ _ w => Ok (Ok (JNumber (rm_present (w_app w))), w));
   Handler "typing" [] (Some payload) true (on_payload typing)].

Definition joined (client : Z) (w : world room) : world room :=
  World (join client "lobby" (w_server w)) (w_chans w) (connected (w_app w)).
Definition left_ (w : world room) : world room := set_app (disconnected (w_app w)) w.

Definition chat_gateway : gateway room :=
  Gateway chat_handlers (messages_guards chat_handlers) None (fun client w => Ok (joined client w)) (fun _ w => Ok (left_ w)).

(** The impl block as it is written. *)
Definition type_named (name : string) : syn_type := TyPath [PathSegment name PathNone].
Definition tagged (event : string) : attribute := Attribute "subscribe_message" (Ok event) (Err "expected path").
Definition client_parameter : fn_arg := Typed (Reference (type_named "WsClient")).
Definition message_parameter : fn_arg := Typed (Owned (type_named "SendMessage")).
Definition chat_block : list impl_item := map ItemFn
  [ImplFn "joined" [Attribute "on_connect" (Err "unexpected end of input") (Ok [])] [Receiver; client_parameter] ReturnDefault;
   ImplFn "left" [Attribute "on_disconnect" (Err "unexpected end of input") (Ok [])] [Receiver] ReturnDefault;
   ImplFn "on_message" [tagged "message"; Attribute "use_guards" (Err "expected string literal") (Ok [type_named "ModeratedGuard"])]
     [Receiver; message_parameter] ReturnDefault;
   ImplFn "history" [tagged "history"] [Receiver] (ReturnOther (type_named "Vec"));
   ImplFn "presence" [tagged "presence"] [Receiver] (ReturnOther (type_named "usize"));
   ImplFn "typing" [tagged "typing"] [Receiver; message_parameter; client_parameter] ReturnDefault].

(** The macro lowers it to the handlers above: their events and guards, whether they take a payload and whether they
    answer, and to both hooks. *)
Lemma chat_block_lowers : exists ex rest, messages chat_block = Ok (ex, rest) /\
  map (fun a => (arm_event a, length (arm_guards a), bool_decide (is_Some (arm_payload a)), arm_returns_unit a)) (ex_arms ex) =
    map (fun h => (h_event h, length (h_guards h), bool_decide (is_Some (h_payload h)), h_returns_unit h)) chat_handlers /\
  ex_on_connect ex = Some (Hook "joined" true) /\ ex_on_disconnect ex = Some (Hook "left" false).
Proof. eexists _, _. split; [by vm_compute|]. split_and!; by vm_compute. Qed.

(** [NotifyGateway], on the registry of its own namespace. *)
Definition notify_handlers : list (handler unit) :=
  [Handler "ping" [] None true (fun _ _ w =>
     let '(_, chans) := broadcast (fun s => Ok (JString s) : result json string) "pong" "hi" (w_server w) (w_chans w) in
     Ok (Ok JNull, World (w_server w) chans (w_app w)))].

Definition notify_gateway : gateway unit :=
  Gateway notify_handlers (messages_guards notify_handlers) None (fun _ w => Ok w) (fun _ w => Ok w).

End application.

(** ** The connections of a gateway, interleaved *)

Inductive label := Opened (id : Z) | Received (id : Z) (text : string) | Closed (id : Z).

Section interleaving.
Context `{Wire} {A : Type} (g : gateway A).

(** The world, and the open connections with their outboxes. *)
Definition gw_state : Type := world A * gmap Z nat.

(** The steps of [serve_connection]: the parts between its awaits. *)
Inductive gw_step : gw_state -> label -> gw_state -> Prop :=
| step_open outbox w open w1 :
    gw_on_connect g (connect outbox (w_server w)).1 (World (connect outbox (w_server w)).2 (w_chans w) (w_app w)) = Ok w1 ->
    gw_step (w, open) (Opened (connect outbox (w_server w)).1) (w1, <[(connect outbox (w_server w)).1 := outbox]> open)
| step_text id outbox text w open reply w1 w2 :
    open !! id = Some outbox ->
    handle_text (gw_handlers g) (gw_guards g) (gw_ambient g) id text w = Ok (reply, w1) ->
    w2 = match reply with
         | Some frame => World (w_server w1) (send outbox frame (w_chans w1)).2 (w_app w1)
         | None => w1
         end ->
    gw_step (w, open) (Received id text) (w2, open)
| step_close id outbox w open w1 :
    open !! id = Some outbox -> gw_on_disconnect g id w = Ok w1 ->
    gw_step (w, open) (Closed id) (World (disconnect id (w_server w1)) (w_chans w1) (w_app w1), delete id open).

Inductive gw_run : gw_state -> list label -> gw_state -> Prop :=
| run_nil s : gw_run s [] s
| run_snoc s ls s1 l s2 : gw_run s ls s1 -> gw_step s1 l s2 -> gw_run s (ls ++ [l]) s2.

Lemma gw_run_app s ls s1 ls' s2 : gw_run s ls s1 -> gw_run s1 ls' s2 -> gw_run s (ls ++ ls') s2.
Proof.
  intros Hr Hr'. induction Hr' as [|s1 ls' s2 l s3 _ IH Hs]; [by rewrite app_nil_r|].
  rewrite (assoc_L (++)). eapply run_snoc; [by apply IH|done].
Qed.

(** The read loop of a connection is a run of its messages. *)
Lemma read_loop_run id outbox open msgs : open !! id = Some outbox -> forall w w',
  read_loop g id outbox msgs w = Ok w' -> exists ls, gw_run (w, open) ls (w', open).
Proof.
  intros Ho. induction msgs as [|[text| | |] msgs IH]; intros w w' Hl; simpl in Hl;
    try (injection Hl as <-; exists []; constructor).
  - destruct (handle_text _ _ _ id text w) as [[reply w1]|] eqn:Eh; simpl in Hl; [|done].
    assert (Hstep : gw_run (w, open) ([] ++ [Received id text])
      (match reply with Some frame => World (w_server w1) (send outbox frame (w_chans w1)).2 (w_app w1) | None => w1 end, open)).
    { eapply run_snoc; [constructor|]. by eapply step_text. }
    destruct reply as [frame|].
    + destruct (send outbox frame (w_chans w1)) as [[] chans]; [|injection Hl as <-; by eexists].
      destruct (IH _ _ Hl) as [ls Hls]. eexists. by eapply gw_run_app.
    + destruct (IH _ _ Hl) as [ls Hls]. eexists. by eapply gw_run_app.
  - by apply IH.
Qed.

(** A whole connection that does not panic is one too, from its accept to its reclaim. *)
Lemma connection_is_a_run outbox open msgs w w' :
  serve_connection g outbox msgs w = Ok w' -> open !! (connect outbox (w_server w)).1 = None ->
  exists ls, gw_run (w, open) ls (w', open).
Proof.
  unfold serve_connection. destruct (connect outbox (w_server w)) as [id srv] eqn:Ec. simpl. intros Hs Hfresh.
  destruct (gw_on_connect g id _) as [w1|] eqn:E1; simpl in Hs; [|done].
  destruct (read_loop g id outbox msgs w1) as [w2|] eqn:E2; simpl in Hs; [|done].
  destruct (gw_on_disconnect g id w2) as [w3|] eqn:E3; simpl in Hs; [|done]. injection Hs as <-.
  destruct (read_loop_run id outbox (<[id := outbox]> open) msgs ltac:(apply lookup_insert_eq) _ _ E2) as [ls Hls].
  exists (([] ++ [Opened id]) ++ ls ++ [Closed id]).
  eapply gw_run_app; [eapply run_snoc; [constructor|]|].
  - pose proof (step_open outbox w open w1) as Ho. rewrite Ec in Ho. by apply Ho.
  - eapply run_snoc; [exact Hls|]. rewrite <- (delete_insert_id open id outbox Hfresh) at 2.
    eapply step_close; [apply lookup_insert_eq|done].
Qed.

End interleaving.

(** ** The room under its connections *)

Section room_properties.
Context `{Wire}.
Implicit Types (w : world room) (s : gw_state (A:=room)).

(** What a text may do: it never panics and leaves the registry and the counter alone; the history grows by
    at most the message the text carries, which the guard has let pass. *)
Lemma chat_text id text w : exists reply w1,
  handle_text chat_handlers (messages_guards chat_handlers) None id text w = Ok (reply, w1) /\
  w_server w1 = w_server w /\ rm_present (w_app w1) = rm_present (w_app w) /\
  (rm_history (w_app w1) = rm_history (w_app w) \/
   exists data m, decode text = Ok ("message", data) /\ moderated_guard id "message" data = Ok tt /\
     message_of_value data = Some m /\ rm_history (w_app w1) = rm_history (w_app w) ++ [m]).
Proof.
  assert (Hnd : NoDup (map h_event chat_handlers)) by (apply (bool_decide_unpack _); by vm_compute).
  unfold handle_text. destruct (decode text) as [[event data]|err] eqn:Ed; [|eexists _, _; by split_and!; [..|left]].
  unfold check. rewrite messages_guards_lookup, dispatch_find by done. unfold find_handler, chat_handlers. cbn [List.find h_event].
  assert (Hpay : forall (f : chat_message -> world room -> world room) ev,
    (forall m w, w_server (f m w) = w_server w /\ rm_present (w_app (f m w)) = rm_present (w_app w)) ->
    exists r w1, handler_arm (Handler ev [] (Some payload) true (on_payload f)) id data w = Ok (r, w1) /\
      w_server w1 = w_server w /\ rm_present (w_app w1) = rm_present (w_app w) /\
      (w1 = w \/ exists m, message_of_value data = Some m /\ w1 = f m w)).
  { intros f ev Hf. unfold handler_arm. cbn [h_payload h_body h_returns_unit]. unfold payload.
    destruct (message_of_value data) as [m|]; [|eexists _, _; by split_and!; [..|left]].
    unfold on_payload. rewrite message_round_trip. eexists _, _. destruct (Hf m w). split_and!; [done..|right; by exists m]. }
  destruct (String.eqb_spec "message" event) as [<-|N1].
  { cbn [mbind option_bind declared_guards h_guards for_each].
    destruct (moderated_guard id "message" data) as [[]|reason] eqn:Eg; cbn [result_bind]; [|eexists _, _; by split_and!; [..|left]].
    destruct (Hpay (fun m w => (record m w).2) "message") as (r & w1 & Hr & Hs & Hp & Hw).
    { intros m w'. unfold record. by destruct (broadcast _ _ _ _ _). }
    unfold handler_arm in Hr |- *. cbn [h_payload h_body h_returns_unit h_event] in Hr |- *. rewrite Hr. cbn [result_bind].
    eexists _, _. split; [done|]. split; [done|]. split; [done|]. destruct Hw as [->|(m & Hm & ->)]; [by left|right].
    exists data, m. split_and!; [done..|]. unfold record. cbn [set_app w_server w_chans w_app].
    destruct (broadcast _ _ _ _ _) as [? ?]. cbn. by destruct m. }
  destruct (String.eqb_spec "history" event) as [<-|N2]; [eexists _, _; by split_and!; [..|left]|].
  destruct (String.eqb_spec "presence" event) as [<-|N3]; [eexists _, _; by split_and!; [..|left]|].
  destruct (String.eqb_spec "typing" event) as [<-|N4]; [|eexists _, _; by split_and!; [..|left]].
  cbn [mbind option_bind declared_guards h_guards].
  destruct (Hpay typing "typing") as (r & w1 & Hr & Hs & Hp & Hw).
  { intros m w'. unfold typing. by destruct (broadcast _ _ _ _ _). }
  rewrite Hr. cbn [result_bind]. eexists _, _. split_and!; [done..|]. left.
  destruct Hw as [->|(m & Hm & ->)]; [done|]. unfold typing. by destruct (broadcast _ _ _ _ _).
Qed.

(** How many connections a run has opened. *)
Definition opened (ls : list label) : nat := length (omap (fun l => match l with Opened id => Some id | _ => None end) ls).

(** What the room keeps: the counter and the registry follow the open connections, and a message by the banned
    author has come as a sequence. *)
Record kept (ls : list label) (s : gw_state (A:=room)) : Prop := {
  kept_present : rm_present (w_app s.1) = Z.of_nat (size s.2);
  kept_registry : dom (conns (w_server s.1)) = dom s.2;
  kept_next : next_id (w_server s.1) = Z.of_nat (opened ls);
  kept_ids : forall id, id ∈ dom s.2 -> (id < next_id (w_server s.1))%Z;
  kept_size : size s.2 <= opened ls;
  kept_history : Forall (fun m => cm_author m = banned -> exists id text l,
    Received id text ∈ ls /\ decode text = Ok ("message", JArray l)) (rm_history (w_app s.1))
}.

Lemma moderated_sequence id ev data m : moderated_guard id ev data = Ok tt -> message_of_value data = Some m ->
  cm_author m = banned -> exists l, data = JArray l.
Proof.
  intros Hg Hm Ha. destruct data as [| | | |l|ms]; try done; [by exists l|]. exfalso. revert Hg Hm.
  unfold moderated_guard, message_of_value, value_get. destruct (member "author" ms) as [[]|]; try done.
  destruct (String.eqb_spec s banned) as [|Hne]; [done|]. intros _. destruct (member "text" ms) as [[]|]; try done.
  intros [= <-]. done.
Qed.

Lemma opened_snoc ls l : opened (ls ++ [l]) = opened ls + match l with Opened _ => 1 | _ => 0 end.
Proof. unfold opened. rewrite omap_app, length_app. by destruct l. Qed.

Lemma history_later ls l h : Forall (fun m => cm_author m = banned -> exists id text a, Received id text ∈ ls /\ decode text = Ok ("message", JArray a)) h ->
  Forall (fun m => cm_author m = banned -> exists id text a, Received id text ∈ ls ++ [l] /\ decode text = Ok ("message", JArray a)) h.
Proof.
  intros Hh. eapply Forall_impl; [exact Hh|]. intros m Hm Hb. destruct (Hm Hb) as (id & text & a & Hin & Hd).
  exists id, text, a. split; [|done]. apply elem_of_app. by left.
Qed.

(** A step keeps it, below the width of the counters. *)
Lemma step_keeps ls s l s' : (Z.of_nat (opened (ls ++ [l])) <= u64_max)%Z -> kept ls s -> gw_step chat_gateway s l s' -> kept (ls ++ [l]) s'.
Proof.
  intros Hmax [Hp Hr Hn Hi Hs Hh] Hstep. rewrite opened_snoc in Hmax. destruct Hstep as [outbox w open w1 Hc|id outbox text w open reply w1 w2 Ho Ht ->|id outbox w open w1 Ho Hc];
    cbn [fst snd] in *.
  - injection Hc as <-. unfold connect in *. cbn [fst snd w_server w_chans w_app] in *. set (id := next_id (w_server w)) in *.
    assert (Hfresh : open !! id = None).
    { apply not_elem_of_dom. intros Hin. apply Hi in Hin. lia. }
    assert (Hnid : next_id (w_server w) = id) by done.
    split; cbn [fst snd joined w_app w_server connected rm_present rm_history].
    + rewrite map_size_insert_None by done. rewrite wrap_u64_small by (unfold u64; lia). lia.
    + unfold join. cbn [conns]. rewrite lookup_insert_eq. cbn [conns]. by rewrite !dom_insert_L, Hr, (assoc_L (∪)), (idemp_L (∪)).
    + unfold join. cbn [conns]. rewrite lookup_insert_eq. cbn [next_id]. rewrite opened_snoc, wrap_u64_small by (unfold u64; lia). lia.
    + unfold join. cbn [conns]. rewrite lookup_insert_eq. cbn [next_id]. rewrite wrap_u64_small by (unfold u64; lia).
      intros id'. rewrite dom_insert_L, elem_of_union, elem_of_singleton. intros [->|Hin%Hi]; lia.
    + rewrite map_size_insert_None by done. rewrite opened_snoc. lia.
    + by apply history_later.
  - destruct (chat_text id text w) as (reply' & w1' & Ht' & Hsv & Hpr & Hhist).
    change (handle_text chat_handlers (messages_guards chat_handlers) None id text w = Ok (reply, w1)) in Ht.
    rewrite Ht in Ht'. injection Ht' as <- <-.
    set (w2 := match reply with Some _ => _ | None => _ end).
    assert (w_server w2 = w_server w1 /\ w_app w2 = w_app w1) as [Es Ea] by (subst w2; by destruct reply).
    split; cbn [fst snd]; rewrite ?Es, ?Ea, ?Hsv, ?Hpr, ?opened_snoc, ?Nat.add_0_r; try done.
    destruct Hhist as [->|(data & m & Hd & Hg & Hm & ->)]; [by apply history_later|].
    apply Forall_app. split; [by apply history_later|]. constructor; [|constructor]. intros Hb.
    destruct (moderated_sequence _ _ _ _ Hg Hm Hb) as [a ->]. exists id, text, a. split; [|done]. apply elem_of_app. right. by left.
  - injection Hc as <-. split; cbn [fst snd left_ set_app w_app w_server disconnect conns next_id disconnected rm_present rm_history];
      rewrite ?opened_snoc, ?Nat.add_0_r; try done.
    + assert (Hsz : size open <> 0) by (intros E; apply map_size_empty_inv in E; by subst).
      rewrite map_size_delete_Some by done. rewrite wrap_u64_small by (unfold u64; lia). lia.
    + by rewrite !dom_delete_L, Hr.
    + intros id' Hin. apply Hi. rewrite dom_delete_L in Hin. set_solver.
    + rewrite map_size_delete_Some by done. lia.
    + by apply history_later.
Qed.

Definition chat_start : gw_state (A:=room) := (World ws_server_default ∅ room_default, ∅).

(** [C35] However the connections of the chat interleave, its room keeps track of them: below 2^64 accepted
    sockets no step can panic, the presence it answers is the number of open connections, which are
    exactly those the registry broadcasts to, and the history holds a message by the banned author only if
    a client has sent its payload as a JSON sequence, which the moderation guard does not read. *)
Theorem room_tracks_its_connections ls (w : world room) (open : gmap Z nat) :
  gw_run chat_gateway chat_start ls (w, open) -> (Z.of_nat (opened ls) <= u64_max)%Z ->
  rm_present (w_app w) = Z.of_nat (size open) /\ dom (conns (w_server w)) = dom open /\
  (forall id text, exists reply w1, handle_text chat_handlers (gw_guards chat_gateway) None id text w = Ok (reply, w1)) /\
  Forall (fun m => cm_author m = banned -> exists id text l,
    Received id text ∈ ls /\ decode text = Ok ("message", JArray l)) (rm_history (w_app w)).
Proof.
  intros Hrun Hmax. assert (Hk : kept ls (w, open)).
  { remember (w, open) as s eqn:E. clear E. remember chat_start as s0 eqn:E0. induction Hrun as [s|s ls s1 l s2 Hr IH Hs].
    - subst s. by split; cbn.
    - eapply step_keeps; [done| |done]. rewrite opened_snoc in Hmax. apply IH; [done|lia]. }
  destruct Hk as [Hp Hr _ _ _ Hh]. split_and!; [done..| |done].
  intros id text. destruct (chat_text id text w) as (reply & w1 & Ht & _). by exists reply, w1.
Qed.

(** A recorded message is the last of the history and goes to every live connection of the registry, once. *)
Lemma record_reaches_everyone m w frame : server_wf (w_server w) -> encode "message" (message_value m) = Some frame ->
  rm_history (w_app (record m w).2) = rm_history (w_app w) ++ [m] /\
  exists n, pushes (fun _ => True) frame (w_server w) (w_chans w) (n, w_chans (record m w).2).
Proof.
  intros Hwf He. unfold record, broadcast, broadcast_value. destruct m as [a t].
  cbn [set_app w_server w_chans w_app cm_author cm_text] in *. rewrite He.
  pose proof (send_all_pushes (fun _ => True) frame (w_server w) (w_chans w) Hwf) as Hp.
  assert (Hf : forall l : list conn, filter (fun _ => True) l = l).
  { induction l as [|c l IH]; [done|]. by rewrite filter_cons_True, IH. }
  rewrite Hf in Hp. destruct (send_all frame _ _) as [n chans]. split; [done|]. by exists n.
Qed.

End room_properties.

(** ** Two clients *)

Module ChatDemo.

(** Frames are recognised. *)
#[export] Instance wire : Wire := {
  encode event data := Some (event +:+ match data with JArray l => show_u64 (Z.of_nat (length l)) | JNumber n => show_u64 n | _ => "" end);
  decode text :=
    if String.eqb text "hello" then Ok ("message", JObject [("author", JString "ada"); ("text", JString "hello")])
    else if String.eqb text "spam" then Ok ("message", JObject [("author", JString "banned"); ("text", JString "spam")])
    else if String.eqb text "sequence" then Ok ("message", JArray [JString "banned"; JString "spam"])
    else if String.eqb text "presence" then Ok ("presence", JNull)
    else if String.eqb text "history" then Ok ("history", JNull) else Err "not an envelope"
}.

Definition channels : gmap nat channel := {[0 := Channel true []; 1 := Channel true []]}.
Definition two : world room := World ws_server_default channels room_default.

(** One client alone. *)
Definition served (msgs : list incoming) : option (list chat_message * Z * option (list string)) :=
  match serve_connection chat_gateway 0 msgs two with
  | Ok w => Some (rm_history (w_app w), rm_present (w_app w), ch_queue <$> w_chans w !! 0)
  | Err _ => None
  end.

Example moderated : served [InText "hello"; InText "spam"; InText "presence"] =
  Some ([ChatMessage "ada" "hello"], 0%Z, Some ["message"; "message"; "presence1"]).
Proof. by vm_compute. Qed.

(** The payload as a sequence: the guard looks for a member of an object, the handler reads the fields in order. *)
Example a_sequence_passes_the_guard : served [InText "sequence"] =
  Some ([ChatMessage "banned" "spam"], 0%Z, Some ["message"]).
Proof. by vm_compute. Qed.

(** Two connections open, and the first says something. *)
Definition accept (outbox : nat) (w : world room) : world room :=
  let '(id, srv) := connect outbox (w_server w) in joined id (World srv (w_chans w) (w_app w)).
Definition first : world room := accept 0 chat_start.1.
Definition second : world room := accept 1 first.
Definition third : world room :=
  match handle_text chat_handlers (gw_guards chat_gateway) None 0 "hello" second with Ok (_, w) => w | Err w => w end.
Definition both : gmap Z nat := <[1%Z := 1]> (<[0%Z := 0]> ∅).

Lemma both_talk : gw_run chat_gateway chat_start ((([] ++ [Opened 0]) ++ [Opened 1]) ++ [Received 0 "hello"]) (third, both).
Proof.
  eapply run_snoc; [eapply run_snoc; [eapply run_snoc; [constructor|]|]|].
  - exact (step_open chat_gateway 0 chat_start.1 ∅ first eq_refl).
  - exact (step_open chat_gateway 1 first _ second eq_refl).
  - eapply (step_text chat_gateway 0 0 "hello" second both None third); [by vm_compute|by vm_compute|reflexivity].
Qed.

Lemma room_tracks_its_connections_witness :
  rm_present (w_app third) = 2%Z /\ rm_history (w_app third) = [ChatMessage "ada" "hello"] /\
  dom (conns (w_server third)) = dom both /\ rm_present (w_app third) = Z.of_nat (size both).
Proof.
  destruct (room_tracks_its_connections _ third both both_talk ltac:(by vm_compute)) as (Hp & Hd & _).
  split; [by vm_compute|]. split; [by vm_compute|]. split; [exact Hd|exact Hp].
Defined.

End ChatDemo.
