(* ===== verification/Seed.v ===== *)
(** The shared database of the applications, [apps/db]: the schema its migrations create
    ([migrations/]) and the seed ([seed/runner.rs], [seed/factories/]), on the rows of [Api].

    The connection is a parameter: [SeedDb] runs one INSERT with its ON CONFLICT clause, [SeedDbLaws] is what
    is documented of it. *)

From S2P Require Import Prelude Container Api.

(** ** The schema *)

Inductive column_type := CUuid | CString.
Inductive fk_action := Restrict | Cascade.

Record column_def := ColumnDef { cd_name : string; cd_type : column_type; cd_not_null : bool; cd_primary : bool; cd_unique : bool }.

Record foreign_key := ForeignKey {
  fk_name : string; fk_from : string * string; fk_to : string * string; fk_on_delete : fk_action; fk_on_update : fk_action }.

Record table_def := TableDef { td_name : string; td_if_not_exists : bool; td_columns : list column_def; td_foreign : list foreign_key }.

(** [m20260526_000000_create_org] and [m20260526_000001_create_user] *)
Definition create_org : table_def :=
  TableDef "org" true [ColumnDef "id" CUuid true true false; ColumnDef "name" CString true false true] [].

Definition create_user : table_def :=
  TableDef "user" true
    [ColumnDef "id" CUuid true true false; ColumnDef "org_id" CUuid true false false;
     ColumnDef "name" CString true false false; ColumnDef "email" CString true false true]
    [ForeignKey "fk_user_org_id" ("user", "org_id") ("org", "id") Restrict Cascade].

(** [Migrator::migrations], in order. *)
Definition migrations : list table_def := [create_org; create_user].

(** A database as its list of tables: creating one needs the tables its keys point to. *)
Definition create_table (schema : list table_def) (t : table_def) : result (list table_def) string :=
  if bool_decide (td_name t ∈ map td_name schema) then
    if td_if_not_exists t then Ok schema else Err ("relation " +:+ td_name t +:+ " already exists")
  else if forallb (fun k => bool_decide ((fk_to k).1 ∈ td_name t :: map td_name schema)) (td_foreign t)
  then Ok (schema ++ [t]) else Err "relation does not exist".

Definition drop_table (schema : list table_def) (t : table_def) : result (list table_def) string :=
  if negb (bool_decide (td_name t ∈ map td_name schema)) then Err ("table " +:+ td_name t +:+ " does not exist")
  else if existsb (fun o => negb (String.eqb (td_name o) (td_name t)) &&
                            existsb (fun k => String.eqb (fk_to k).1 (td_name t)) (td_foreign o)) schema
  then Err "other objects depend on it"
  else Ok (filter (fun o => td_name o <> td_name t) schema).

Definition migrate (schema : list table_def) : result (list table_def) string := for_each create_table migrations schema.
Definition rollback (schema : list table_def) : result (list table_def) string := for_each drop_table (rev migrations) schema.

(** The migrations run in an order their keys allow, once is as good as twice, and undoing them in the reverse
    order leaves nothing. *)
Lemma migrations_run_both_ways :
  migrate [] = Ok migrations /\ migrate migrations = Ok migrations /\ rollback migrations = Ok [] /\
  (exists msg, for_each create_table (rev migrations) [] = Err msg) /\ (exists msg, for_each drop_table migrations migrations = Err msg).
Proof. split_and!; [by vm_compute..|eexists; by vm_compute|eexists; by vm_compute]. Qed.

(** The columns the entities of the API read are those of the tables, in their order, with the same key. *)
Lemma schema_of_the_entities :
  map cd_name (td_columns create_user) = map column_name [UserId; UserOrgId; UserName; UserEmail] /\
  map cd_name (td_columns create_org) = map column_name [OrgId; OrgName] /\
  forall t, t ∈ migrations -> cd_name <$> List.find cd_primary (td_columns t) = Some (column_name UserId) /\
    Forall (fun c => cd_not_null c = true) (td_columns t).
Proof.
  split_and!; [done..|]. intros t. unfold migrations. rewrite !elem_of_cons, elem_of_nil. intros [->|[->|[]]]; (split; [done|]); by repeat constructor.
Qed.

(** ** The seed *)

Class SeedDb (W : Type) := {
  table_rows : ty -> W -> list api_model;
  (* [INSERT INTO .. VALUES .. ON CONFLICT (column) DO NOTHING]: the rows affected *)
  execute_insert : api_model -> api_column -> W -> result Z string * W;
  (* [Uuid::now_v7] and a fake name *)
  draw_user : W -> (Z * string) * W
}.

Definition acme : Z := 0xac3e.
Definition globex : Z := 0x61b3.
Definition demo_orgs : list (Z * string) := [(acme, "Acme"); (globex, "Globex")].
Definition demo_users : list (Z * string * nat) := [(acme, "acme", 3); (globex, "globex", 2)].

Definition user_email (slug : string) (n : nat) : string := slug +:+ "-user-" +:+ show_u64 (Z.of_nat n) +:+ "@example.test".

Section seed.
Context {W : Type} `{!SeedDb W}.

(** [UserRow::build] *)
Definition build_user (org : Z) (slug : string) (n : nat) (w : W) : api_model * W :=
  let '((id, name), w1) := draw_user w in (MUser (UserRow id org name (user_email slug n)), w1).

(** One iteration of a factory: a row, then its statement. *)
Record seed_row := SeedRow { sr_build : W -> api_model * W; sr_conflict : api_column }.

Fixpoint insert_all (rows : list seed_row) (inserted : Z) (w : W) : result Z string * W :=
  match rows with
  | [] => (Ok inserted, w)
  | r :: rows' =>
      let '(m, w1) := sr_build r w in
      let '(n, w2) := execute_insert m (sr_conflict r) w1 in
      match n with
      | Err e => (Err e, w2)
      | Ok n => insert_all rows' (inserted + n) w2
      end
  end.

Definition org_seed_rows : list seed_row :=
  map (fun o => SeedRow (fun w => (MOrg (OrgRow o.1 o.2), w)) OrgId) demo_orgs.
Definition user_seed_rows : list seed_row :=
  flat_map (fun d => map (fun n => SeedRow (build_user d.1.1 d.1.2 n) UserEmail) (seq 1 d.2)) demo_users.

(** [org::seed], [user::seed] and [run] *)
Definition seed_orgs (w : W) : result Z string * W := insert_all org_seed_rows 0 w.
Definition seed_users (w : W) : result Z string * W := insert_all user_seed_rows 0 w.

Definition seed_run (w : W) : result Z string * W :=
  let '(orgs_inserted, w1) := seed_orgs w in
  match orgs_inserted with
  | Err e => (Err e, w1)
  | Ok n =>
      let '(users_inserted, w2) := seed_users w1 in
      match users_inserted with
      | Err e => (Err e, w2)
      | Ok k => (Ok (n + k)%Z, w2)
      end
  end.

End seed.

Arguments seed_row : clear implicits.

(** ** What is documented of the statements *)

(** A row with this value in the column. *)
Definition has_value (c : api_column) (v : api_value) (rows : list api_model) : Prop :=
  Exists (fun m => column_value m c = v) rows.

(** A failed statement leaves the tables; one that conflicts in its column affects no row; any other adds the
    row.  Drawing values touches no table. *)
Class SeedDbLaws (W : Type) `{!SeedDb W} : Prop := {
  execute_spec m c w : let '(r, w1) := execute_insert m c w in
    match r with
    | Err _ => forall e, table_rows e w1 = table_rows e w
    | Ok n =>
        (has_value c (column_value m c) (table_rows (entity_of m) w) /\ n = 0%Z /\ forall e, table_rows e w1 = table_rows e w) \/
        (~ has_value c (column_value m c) (table_rows (entity_of m) w) /\ n = 1%Z /\
         table_rows (entity_of m) w1 ≡ₚ m :: table_rows (entity_of m) w /\
         forall e, e <> entity_of m -> table_rows e w1 = table_rows e w)
    end;
  draw_tables w e : table_rows e (draw_user w).2 = table_rows e w
}.

Section seed_properties.
Context {W : Type} `{!SeedDb W} `{!SeedDbLaws W}.
Implicit Types (w : W) (rows : list (seed_row W)).

(** A row whose statement is decided by a value it always has. *)
Definition keyed_by (e : ty) (v : api_value) (r : seed_row W) : Prop :=
  forall w, entity_of (sr_build r w).1 = e /\ column_value (sr_build r w).1 (sr_conflict r) = v /\
    forall e', table_rows e' (sr_build r w).2 = table_rows e' w.

(** Every key of the rows is in its table. *)
Definition seeded (keys : list (ty * api_value)) rows w : Prop :=
  Forall2 (fun k r => has_value (sr_conflict r) k.2 (table_rows k.1 w)) keys rows.

Definition grows w w1 : Prop := forall e, table_rows e w ⊆+ table_rows e w1.

#[export] Instance grows_preorder : PreOrder grows.
Proof. split; [intros w e; done|intros w1 w2 w3 H1 H2 e; etrans; [apply H1|apply H2]]. Qed.

Lemma has_value_grows c v e w w1 : grows w w1 -> has_value c v (table_rows e w) -> has_value c v (table_rows e w1).
Proof.
  intros Hg. unfold has_value. rewrite !Exists_exists. intros (m & Hm & ?). exists m. split; [|done].
  by eapply elem_of_submseteq, Hg.
Qed.

(** A loop that ends well leaves every key in its table and keeps every row; it adds a row per key that was
    missing at most; and run where every key is present it adds nothing. *)
Lemma insert_all_spec keys rows : Forall2 (fun k r => keyed_by k.1 k.2 r) keys rows -> forall i w n w1,
  insert_all rows i w = (Ok n, w1) ->
  grows w w1 /\ seeded keys rows w1 /\ (i <= n <= i + Z.of_nat (length rows))%Z /\
  (seeded keys rows w -> n = i /\ forall e, table_rows e w1 = table_rows e w).
Proof.
  induction 1 as [|k r keys rows Hk _ IH]; intros i w n w1 Hrun; simpl in Hrun.
  { injection Hrun as <- <-. split_and!; [done|constructor|lia|lia|done]. }
  pose proof (Hk w) as (He & Hv & Hb). destruct (sr_build r w) as [m w2]. cbn [fst snd] in *.
  pose proof (execute_spec m (sr_conflict r) w2) as Hx.
  destruct (execute_insert m (sr_conflict r) w2) as [[x|err] w3]; [|done]. rewrite He, Hv in Hx.
  destruct (IH _ _ _ _ Hrun) as (Hg & Hs & Hn & Hz).
  assert (Hg3 : grows w w3 /\ has_value (sr_conflict r) k.2 (table_rows k.1 w3) /\ (0 <= x <= 1)%Z).
  { destruct Hx as [(Hp & -> & Hsame)|(Hp & -> & Hadd & Hother)].
    - split_and!; [|by rewrite Hsame|lia|lia]. intros e. by rewrite Hsame, Hb.
    - split_and!; [| |lia|lia].
      + intros e. destruct (decide (e = k.1)) as [->|Hne]; [|by rewrite Hother, Hb].
        rewrite Hadd, Hb. by apply submseteq_cons.
      + apply Exists_exists. exists m. split; [rewrite Hadd; by left|done]. }
  destruct Hg3 as (Hg3 & Hp3 & Hx01). split_and!; [by etrans| |lia|cbn [length]; lia|].
  - constructor; [|done]. by eapply has_value_grows.
  - intros Hseeded. inversion Hseeded as [|? ? ? ? Hp Hps]; subst.
    destruct Hx as [(_ & -> & Hsame)|(Hnp & _)]; [|destruct Hnp; by rewrite Hb].
    assert (Hall : forall e, table_rows e w3 = table_rows e w) by (intros e; by rewrite Hsame, Hb).
    destruct Hz as [-> Hz]; [|split; [lia|intros e; by rewrite Hz, Hall]].
    eapply Forall2_impl; [exact Hps|]. intros k' r' ?. by rewrite Hall.
Qed.

Definition org_keys : list (ty * api_value) := map (fun o => (orgs, VUuid (Some o.1))) demo_orgs.
Definition user_keys : list (ty * api_value) :=
  flat_map (fun d => map (fun n => (users, VString (Some (user_email d.1.2 n)))) (seq 1 d.2)) demo_users.

Lemma org_rows_keyed : Forall2 (fun k r => keyed_by k.1 k.2 r) org_keys (org_seed_rows (W:=W)).
Proof. by repeat constructor. Qed.

Lemma build_user_keyed org slug n : keyed_by users (VString (Some (user_email slug n))) (SeedRow (W:=W) (build_user org slug n) UserEmail).
Proof. intros w. unfold build_user; cbn. pose proof (draw_tables w) as Hd. by destruct (draw_user w) as [[id name] w1]. Qed.

Lemma user_rows_keyed : Forall2 (fun k r => keyed_by k.1 k.2 r) user_keys (user_seed_rows (W:=W)).
Proof. cbn. repeat (constructor; [apply build_user_keyed|]). constructor. Qed.

(** What a row is made of: an entity, the value it is looked up by, and what it describes. *)
Definition builds {A} (e : ty) (c : api_column) (key : A -> api_value) (describes : A -> api_model -> Prop)
    (a : A) (r : seed_row W) : Prop :=
  sr_conflict r = c /\ keyed_by e (key a) r /\ forall w, describes a (sr_build r w).1.

(** Exactly the rows whose key was missing are added, in their order. *)
Lemma insert_all_adds {A} e c (key : A -> api_value) describes items rows :
  Forall2 (builds e c key describes) items rows -> NoDup (key <$> items) -> forall i w n w1,
  insert_all rows i w = (Ok n, w1) ->
  exists news, Forall2 describes (filter (fun a => ~ has_value c (key a) (table_rows e w)) items) news /\
    table_rows e w1 ≡ₚ news ++ table_rows e w /\ (forall e', e' <> e -> table_rows e' w1 = table_rows e' w) /\
    n = (i + Z.of_nat (length news))%Z.
Proof.
  induction 1 as [|a r items rows (Hc & Hk & Hd) _ IH]; intros Hnd i w n w1 Hrun; simpl in Hrun.
  { injection Hrun as <- <-. exists []. split_and!; [constructor|done|done|simpl; lia]. }
  rewrite fmap_cons in Hnd. apply NoDup_cons in Hnd as [Hfresh Hnd].
  pose proof (Hk w) as (He & Hv & Hb). specialize (Hd w). destruct (sr_build r w) as [m w2]. cbn [fst snd] in *. subst c.
  pose proof (execute_spec m (sr_conflict r) w2) as Hx.
  destruct (execute_insert m (sr_conflict r) w2) as [[x|err] w3]; [|done]. rewrite He, Hv, Hb in Hx.
  destruct (IH Hnd _ _ _ _ Hrun) as (news & Hnews & Hperm & Hother & ->). rewrite filter_cons.
  destruct Hx as [(Hp & -> & Hsame)|(Hp & -> & Hadd & Hsame)].
  - assert (Hall : forall e', table_rows e' w3 = table_rows e' w) by (intros e'; by rewrite Hsame, Hb).
    rewrite Hall in Hnews, Hperm. exists news. rewrite decide_False by tauto.
    split_and!; [done|done|intros; by rewrite Hother, Hall|lia].
  - exists (m :: news). rewrite decide_True by done. split_and!.
    + constructor; [done|]. replace (filter _ items) with (filter (fun a => ~ has_value (sr_conflict r) (key a) (table_rows e w3)) items); [done|].
      apply filter_ext_elem. intros b Hin. unfold has_value. rewrite Hadd, Exists_cons, Hv.
      assert (key a <> key b); [|tauto]. intros E. apply Hfresh. rewrite E. by apply list_elem_of_fmap_2.
    + rewrite Hperm, Hadd. simpl. by rewrite Permutation_middle.
    + intros e' Hne. by rewrite Hother, Hsame, Hb.
    + cbn [length]. lia.
Qed.

(** The users of the demonstration, by organisation and e-mail. *)
Definition demo_accounts : list (Z * string) :=
  [(acme, "acme-user-1@example.test"); (acme, "acme-user-2@example.test"); (acme, "acme-user-3@example.test");
   (globex, "globex-user-1@example.test"); (globex, "globex-user-2@example.test")].

Lemma org_rows_build : Forall2 (builds orgs OrgId (fun o => VUuid (Some o.1)) (fun o m => m = MOrg (OrgRow o.1 o.2)))
  [(acme, "Acme"); (globex, "Globex")] (org_seed_rows (W:=W)).
Proof. by repeat constructor. Qed.

Definition describes_user (d : Z * string) (m : api_model) : Prop :=
  exists u, m = MUser u /\ u_org_id u = d.1 /\ u_email u = d.2.

Lemma user_rows_build : Forall2 (builds users UserEmail (fun d => VString (Some d.2)) describes_user)
  demo_accounts (user_seed_rows (W:=W)).
Proof.
  assert (Hrow : forall org slug n, builds users UserEmail (fun d : Z * string => VString (Some d.2)) describes_user
    (org, user_email slug n) (SeedRow (build_user org slug n) UserEmail)).
  { intros org slug n. split; [done|]. split; [apply build_user_keyed|]. intros w. unfold build_user. simpl.
    destruct (draw_user w) as [[id name] w1]. by exists (UserRow id org name (user_email slug n)). }
  set (users_of := [(acme, "acme", 1); (acme, "acme", 2); (acme, "acme", 3); (globex, "globex", 1); (globex, "globex", 2)]).
  change (Forall2 (builds users UserEmail (fun d : Z * string => VString (Some d.2)) describes_user)
    (map (fun t => (t.1.1, user_email t.1.2 t.2)) users_of)
    (map (fun t => SeedRow (build_user t.1.1 t.1.2 t.2) UserEmail) users_of)).
  apply Forall2_fmap, Forall_Forall2_diag, Forall_true. intros [[org slug] n]. apply Hrow.
Qed.

(** One run, as its two loops. *)
Lemma seed_run_adds w n w1 : seed_run w = (Ok n, w1) ->
  exists new_orgs new_users,
    Forall2 (fun o m => m = MOrg (OrgRow o.1 o.2))
      (filter (fun o => ~ has_value OrgId (VUuid (Some o.1)) (table_rows orgs w)) [(acme, "Acme"); (globex, "Globex")]) new_orgs /\
    table_rows orgs w1 ≡ₚ new_orgs ++ table_rows orgs w /\
    Forall2 describes_user
      (filter (fun d => ~ has_value UserEmail (VString (Some d.2)) (table_rows users w)) demo_accounts) new_users /\
    table_rows users w1 ≡ₚ new_users ++ table_rows users w /\
    (forall e, e <> orgs -> e <> users -> table_rows e w1 = table_rows e w) /\
    n = Z.of_nat (length new_orgs + length new_users).
Proof.
  unfold seed_run, seed_orgs, seed_users.
  destruct (insert_all org_seed_rows 0 w) as [[a|e] w2] eqn:Eo; [|done].
  destruct (insert_all user_seed_rows 0 w2) as [[b|e] w3] eqn:Eu; [|done]. intros [= <- <-].
  destruct (insert_all_adds _ _ _ _ _ _ org_rows_build ltac:(by apply (bool_decide_unpack _); vm_compute) _ _ _ _ Eo)
    as (os & Hos & Hpo & Hoo & ->).
  destruct (insert_all_adds _ _ _ _ _ _ user_rows_build ltac:(by apply (bool_decide_unpack _); vm_compute) _ _ _ _ Eu)
    as (us & Hus & Hpu & Hou & ->).
  rewrite (Hoo users) in Hus, Hpu by done. rewrite <-(Hou orgs) in Hpo by done.
  exists os, us. split_and!; [done..| |lia]. intros e ??. by rewrite Hou, Hoo.
Qed.

(** The keys of both loops, and a run that finds them all. *)
Lemma seed_run_keys w n w1 : seed_run w = (Ok n, w1) ->
    grows w w1 /\ seeded org_keys org_seed_rows w1 /\ seeded user_keys user_seed_rows w1 /\ (0 <= n <= 7)%Z /\
    (seeded org_keys org_seed_rows w -> seeded user_keys user_seed_rows w -> n = 0%Z /\ forall e, table_rows e w1 = table_rows e w).
Proof.
  unfold seed_run, seed_orgs, seed_users.
    destruct (insert_all org_seed_rows 0 w) as [[a|e] w2] eqn:Eo; [|done].
    destruct (insert_all user_seed_rows 0 w2) as [[b|e] w3] eqn:Eu; [|done]. intros [= <- <-].
    destruct (insert_all_spec _ _ org_rows_keyed _ _ _ _ Eo) as (Hg1 & Hs1 & Hn1 & Hz1).
    destruct (insert_all_spec _ _ user_rows_keyed _ _ _ _ Eu) as (Hg2 & Hs2 & Hn2 & Hz2). cbn [length org_seed_rows] in Hn1.
    split_and!; [by etrans| |done|lia|change (length org_seed_rows) with 2 in Hn1; change (length user_seed_rows) with 5 in Hn2; lia|].
    - eapply Forall2_impl; [exact Hs1|]. intros k r. by apply has_value_grows.
    - intros Ho Hu. destruct (Hz1 Ho) as [-> He1]. destruct Hz2 as [-> He2].
      + eapply Forall2_impl; [exact Hu|]. intros k r ?. by rewrite He1.
      + split; [done|]. intros e. by rewrite He2.
Qed.

(** [C38] Seeding is safe to repeat.  A seed that ends well keeps every row it found and adds exactly what
    the demonstration lacks: Acme and Globex where no organisation has their id, and each of its five
    users, in the organisation they are meant for, where no user has that e-mail (one who has stays as
    and where it is); it reports how many rows that made.  So every id and e-mail of the demonstration is
    in the tables, and a second seed that ends well reports none and changes nothing. *)
Theorem seeding_is_idempotent w n w1 : seed_run w = (Ok n, w1) ->
  (exists new_orgs new_users,
    Forall2 (fun o m => m = MOrg (OrgRow o.1 o.2))
      (filter (fun o => ~ has_value OrgId (VUuid (Some o.1)) (table_rows orgs w)) [(acme, "Acme"); (globex, "Globex")]) new_orgs /\
    table_rows orgs w1 ≡ₚ new_orgs ++ table_rows orgs w /\
    Forall2 (fun d m => exists u, m = MUser u /\ u_org_id u = d.1 /\ u_email u = d.2)
      (filter (fun d => ~ has_value UserEmail (VString (Some d.2)) (table_rows users w)) demo_accounts) new_users /\
    table_rows users w1 ≡ₚ new_users ++ table_rows users w /\
    (forall e, e <> orgs -> e <> users -> table_rows e w1 = table_rows e w) /\
    n = Z.of_nat (length new_orgs + length new_users)) /\
  grows w w1 /\ seeded org_keys org_seed_rows w1 /\ seeded user_keys user_seed_rows w1 /\ (0 <= n <= 7)%Z /\
  forall k w2, seed_run w1 = (Ok k, w2) -> k = 0%Z /\ forall e, table_rows e w2 = table_rows e w1.
Proof.
  intros Hrun. split; [by apply seed_run_adds|]. destruct (seed_run_keys _ _ _ Hrun) as (Hg & Ho & Hu & Hn & _).
  split_and!; [done..|lia|lia|]. intros k w2 Hrun2. destruct (seed_run_keys _ _ _ Hrun2) as (_ & _ & _ & _ & Hz). by apply Hz.
Qed.

End seed_properties.

(** ** A concrete database *)

Module SeedDemo.

(** The two tables, and how many ids and names have been drawn. *)
Record world := World { tb_users : list user_row; tb_orgs : list org_row; drawn : Z }.

Definition demo_table (e : ty) (w : world) : list api_model :=
  if decide (e = users) then map MUser (tb_users w) else if decide (e = orgs) then map MOrg (tb_orgs w) else [].

(** PostgreSQL: the conflict clause first, then the other constraints of the schema. *)
Definition demo_insert (m : api_model) (c : api_column) (w : world) : result Z string * world :=
  if existsb (fun r => bool_decide (column_value r c = column_value m c)) (demo_table (entity_of m) w) then (Ok 0%Z, w)
  else
    match m with
    | MUser u =>
        if existsb (fun r => Z.eqb (u_id r) (u_id u) || String.eqb (u_email r) (u_email u)) (tb_users w) then (Err "duplicate key value", w)
        else if existsb (fun o => Z.eqb (o_id o) (u_org_id u)) (tb_orgs w)
        then (Ok 1%Z, World (u :: tb_users w) (tb_orgs w) (drawn w)) else (Err "fk_user_org_id", w)
    | MOrg o =>
        if existsb (fun r => Z.eqb (o_id r) (o_id o) || String.eqb (o_name r) (o_name o)) (tb_orgs w) then (Err "duplicate key value", w)
        else (Ok 1%Z, World (tb_users w) (o :: tb_orgs w) (drawn w))
    end.

#[export] Instance demo_db : SeedDb world := {
  table_rows := demo_table; execute_insert := demo_insert;
  draw_user w := ((1000 + drawn w, "Jo")%Z, World (tb_users w) (tb_orgs w) (drawn w + 1))
}.

#[export] Instance demo_laws : SeedDbLaws world.
Proof.
  constructor; [|done]. intros m c w. cbn. unfold demo_insert. destruct (existsb _ (demo_table _ w)) eqn:Ex.
  - left. apply existsb_exists in Ex as (r & Hr & E%bool_decide_eq_true). split_and!; [|done..].
    apply Exists_exists. exists r. split; [by apply list_elem_of_In|done].
  - assert (Hn : ~ has_value c (column_value m c) (demo_table (entity_of m) w)).
    { intros Hex. apply Exists_exists in Hex as (r & Hr & E). apply not_true_iff_false in Ex. apply Ex, existsb_exists.
      exists r. split; [by apply list_elem_of_In|by apply bool_decide_eq_true]. }
    destruct m as [u|o].
    + destruct (existsb _ (tb_users w)); [done|]. destruct (existsb _ (tb_orgs w)); [|done]. right. split_and!; [done..|].
      intros e He. unfold demo_table. cbn [entity_of] in He. by rewrite !(decide_False (P:=e = users)).
    + destruct (existsb _ (tb_orgs w)); [done|]. right. split_and!; [done..|].
      intros e He. unfold demo_table. cbn [entity_of] in He. by rewrite !(decide_False (P:=e = orgs)).
Qed.

Definition empty_db : world := World [] [] 0.
Definition seeded_db : world := (seed_run empty_db).2.

Lemma seeding_is_idempotent_witness :
  (seed_run empty_db).1 = Ok 7%Z /\ (seed_run seeded_db).1 = Ok 0%Z /\
  (forall e, table_rows e (seed_run seeded_db).2 = table_rows e seeded_db).
Proof.
  destruct (seed_run empty_db) as [r w1] eqn:E. assert (r = Ok 7%Z) as -> by (by vm_compute in E; injection E).
  split; [done|]. assert (Hw : w1 = seeded_db) by (unfold seeded_db; by rewrite E).
  destruct (seeding_is_idempotent empty_db 7 w1 E) as (_ & _ & _ & _ & _ & Hagain). subst w1.
  destruct (seed_run seeded_db) as [r w2] eqn:E2. assert (exists k, r = Ok k) as [k ->] by (eexists; by vm_compute in E2; injection E2).
  destruct (Hagain k w2 eq_refl) as [-> Hsame]. split; [done|exact Hsame].
Defined.

(** An organisation called Acme under another id stops the seed, which conflicts on the id only. *)
Example a_taken_name_stops_the_seed :
  (seed_run (World [] [OrgRow 7 "Acme"] 0)).1 = Err "duplicate key value".
Proof. by vm_compute. Qed.

(** A user who has an e-mail of the seed already stays in its organisation. *)
Example a_known_email_stays_where_it_is :
  let taken := World [UserRow 5 9 "Eve" (user_email "acme" 1)] [OrgRow 9 "Elsewhere"] 0 in
  let '(r, w) := seed_run taken in
  r = Ok 6%Z /\ List.find (fun u => String.eqb (u_email u) (user_email "acme" 1)) (tb_users w) = Some (UserRow 5 9 "Eve" (user_email "acme" 1)).
Proof. by vm_compute. Qed.

End SeedDemo.
