(* ===== verification/Apps.v ===== *)
(** The small applications: the greeting of [apps/app], the audio pipeline of [apps/worker]
    ([audio/producer.rs], [audio/consumer.rs], [audio/service.rs]) as a cron job and a processor of [Schedule] and
    [Queue], and the weather tool of [apps/mcp] ([weather/tool.rs], [weather/service.rs]).

    Floating-point numbers, the HTTP client, serde on the provider's answer and the storage are parameters. *)

From S2P Require Import Prelude Container Http Auth Schedule Queue.

(** ** apps/app *)

Module Hello.

(** [HelloService::greeting] *)
Definition greeting : string := "Hello World".

(** [HelloController::hello]: a string slice as poem answers it. *)
Definition hello {X W Env} : endpoint X W Env := fun _ _ w =>
  (Ok (Response 200 (Some "text/plain; charset=utf-8") [] greeting), w).

End Hello.

(** ** apps/worker *)

Module Audio.

Definition audio_queue : string := "audio".

Record transcode_job := TranscodeJob { tj_file : string }.

Definition job_value (j : transcode_job) : json := JObject [("file", JString (tj_file j))].

(** The derived [Deserialize]: a map with the field, or a sequence of it. *)
Definition job_of_value (v : json) : option transcode_job :=
  match v with
  | JObject ms => match member "file" ms with Some (JString f) => Some (TranscodeJob f) | _ => None end
  | JArray [JString f] => Some (TranscodeJob f)
  | _ => None
  end.

Lemma job_round_trip j : job_of_value (job_value j) = Some j.
Proof. by destruct j. Qed.

(** The arguments of the two attributes. *)
Definition processor_attribute : list (string * literal) :=
  [("queue", LitStr "audio"); ("concurrency", LitInt 5); ("retries", LitInt 3)].
Definition cron_attribute : list (string * arg_expr) := [("cron", ArgOther (default "" (cron_preset "EVERY_5_SECONDS")))].

Section pipeline.
(** The clock, the storage and the time [transcode] sleeps away; a failure is its message. *)
Context {W : Type} (duration_since_epoch : W -> result Z string).
Context (storage_push : redis_storage -> json -> W -> result unit string * W).
Context (sleep_ms : Z -> W -> W) (log_transcoded : string -> W -> W).

Definition track_name (millis : Z) : string := "track-" +:+ show_u64 millis +:+ ".mp3".

(** [AudioProducer::run] *)
Definition produce (w : W) : result unit string * W :=
  match duration_since_epoch w with
  | Err e => (Err e, w)
  | Ok millis => queue_push storage_push (queue_of audio_queue) (job_value (TranscodeJob (track_name millis))) w
  end.

(** [Transcoder::transcode] and [AudioConsumer::process] *)
Definition transcode (file : string) (w : W) : W * result unit string :=
  (log_transcoded file (sleep_ms 300 w), Ok tt).
Definition process (j : transcode_job) (w : W) : W * result unit string := transcode (tj_file j) w.

(** What the producer stores is one job, in the namespace a worker of the consumer's attribute reads; read back
    it is the track it named, and processing it succeeds and transcodes that track. *)
Lemma track_reaches_the_consumer w millis : duration_since_epoch w = Ok millis ->
  exists backend j,
    produce w = storage_push backend (job_value j) w /\ job_of_value (job_value j) = Some j /\
    (exists args, parse_processor_args processor_attribute = Ok args /\
       rs_namespace backend = rs_namespace (consumer_storage (pa_queue args) (pa_concurrency args)) /\
       rs_buffer_size (consumer_storage (pa_queue args) (pa_concurrency args)) = Some 5%Z /\ pa_retries args = 3%Z) /\
    forall w', process j w' = (log_transcoded (track_name millis) (sleep_ms 300 w'), Ok tt).
Proof.
  intros Hd. exists (queue_of audio_queue), (TranscodeJob (track_name millis)). unfold produce. rewrite Hd.
  split_and!; [done|done| |done]. eexists. split; [by vm_compute|]. done.
Qed.

End pipeline.

(** Two ticks in one millisecond name one track; any two others name two. *)
Lemma track_names_differ x y : (0 <= x)%Z -> (0 <= y)%Z -> track_name x = track_name y -> x = y.
Proof.
  intros Hx Hy E. unfold track_name in E. apply (f_equal chars) in E. rewrite !chars_app in E.
  apply app_inv_head, app_inv_tail in E. apply (f_equal of_chars) in E. rewrite !of_chars_chars in E.
  apply (f_equal (parse_uint (Z.max x y))) in E. rewrite !parse_show_digits in E by done.
  rewrite !(proj2 (Z.leb_le _ _)) in E by lia. by injection E.
Qed.

(** The trigger is a cron expression without a zone. *)
Lemma audio_trigger `{CronLib} : result_map to_tokens (trigger_parse cron_attribute) = Ok (Cron "*/5 * * * * *" None).
Proof. by vm_compute. Qed.

End Audio.

(** ** apps/mcp *)

Module Weather.

(** [f64]: its order, the bounds of a coordinate, and the text of a number with a number of decimals. *)
Class Floats := {
  float : Type;
  flt : float -> float -> bool;
  of_int : Z -> float;
  show_float : float -> string;
  show_fixed : nat -> float -> string
}.

Section weather.
Context `{Floats}.

Record coords := Coords { latitude : float; longitude : float }.

(** [validator]'s range: neither bound is crossed. *)
Definition in_range (lo hi : Z) (x : float) : bool := negb (flt (of_int hi) x) && negb (flt x (of_int lo)).

(** The derived [Validate]: the fields that fail. *)
Definition coords_invalid (c : coords) : list string :=
  (if in_range (-90) 90 (latitude c) then [] else ["latitude"]) ++
  (if in_range (-180) 180 (longitude c) then [] else ["longitude"]).

Record report := Report {
  temperature_c : float; wind_speed_kmh : float; wind_direction_deg : float; weather_code : Z; observed_at : string }.

(** [CurrentWeather] and [OpenMeteoResponse], as the provider writes them. *)
Record current_weather_payload := CurrentWeatherPayload {
  temperature : float; windspeed : float; winddirection : float; weathercode : Z; time : string }.
Record open_meteo_response := OpenMeteoResponse { current_weather_ : option current_weather_payload }.

Definition report_of (c : current_weather_payload) : report :=
  Report (temperature c) (windspeed c) (winddirection c) (weathercode c) (time c).

Inductive weather_error := Upstream (msg : string) | MissingPayload.

Definition weather_error_text (e : weather_error) : string :=
  match e with
  | Upstream msg => "upstream weather provider returned an error: " +:+ msg
  | MissingPayload => "upstream weather provider returned no current_weather payload"
  end.

Definition base_url : string := "https://api.open-meteo.com/v1/forecast".
Definition forecast_url (c : coords) : string :=
  base_url +:+ "?latitude=" +:+ show_float (latitude c) +:+ "&longitude=" +:+ show_float (longitude c) +:+ "&current_weather=true".

Section provider.
(** reqwest: a [GET] within a time limit, answered by a status and a body; the text of the error of a status. *)
Context {W : Type} (http_get : string -> Z -> W -> result (Z * string) string * W) (status_error : Z -> string).
Context (read_response : string -> result open_meteo_response string).

(** [OpenMeteoClient::current] *)
Definition open_meteo_current (c : coords) (w : W) : result report weather_error * W :=
  let '(answer, w1) := http_get (forecast_url c) 10 w in
  ((let? cb := map_err Upstream answer in
    let? _ := map_err Upstream (error_for_status status_error cb.1) in
    let? payload := map_err Upstream (read_response cb.2) in
    let? current := ok_or (current_weather_ payload) MissingPayload in
    Ok (report_of current)), w1).

Lemma open_meteo_cases c w :
  let '(answer, w1) := http_get (forecast_url c) 10 w in
  match open_meteo_current c w with
  | (Ok r, w') => w' = w1 /\ exists code body, answer = Ok (code, body) /\ ~ (400 <= code < 600)%Z /\
                    exists current, read_response body = Ok (OpenMeteoResponse (Some current)) /\ r = report_of current
  | (Err MissingPayload, w') => w' = w1 /\ exists code body, answer = Ok (code, body) /\
                    read_response body = Ok (OpenMeteoResponse None)
  | (Err (Upstream _), w') => w' = w1
  end.
Proof.
  unfold open_meteo_current. destruct (http_get _ _ w) as [[[code body]|msg] w1]; simpl; [|done].
  unfold error_for_status. destruct (_ && _) eqn:Ec; simpl; [done|].
  destruct (read_response body) as [[[r|]]|msg] eqn:Er; simpl; [| |done]; (split; [done|]); exists code, body; split_and!; try done; [|by exists r].
  apply andb_false_iff in Ec as [?%Z.leb_gt|?%Z.ltb_ge]; lia.
Qed.

End provider.

(** [McpError], as far as the tool makes it, and a successful result of one text. *)
Inductive mcp_failure := InvalidParams (msg : string) | InternalError (msg : string).

Section tool.
Context {W : Type} (current : coords -> W -> result report weather_error * W) (validation_text : list string -> string).

Definition summary (r : report) : string :=
  show_fixed 1 (temperature_c r) +:+ "°C, wind " +:+ show_fixed 1 (wind_speed_kmh r) +:+ " km/h @ " +:+
  show_fixed 0 (wind_direction_deg r) +:+ "° (code " +:+ show_u64 (weather_code r) +:+ ", observed " +:+ observed_at r +:+ ")".

(** [internal] *)
Definition internal (e : weather_error) : mcp_failure := InternalError (weather_error_text e).

(** [WeatherTool::current_weather] *)
Definition current_weather (c : coords) (w : W) : result (list string) mcp_failure * W :=
  match coords_invalid c with
  | [] => let '(r, w1) := current c w in
          (let? r := map_err internal r in Ok [summary r], w1)
  | fields => (Err (InvalidParams (validation_text fields)), w)
  end.

(** Coordinates out of range never reach the provider; within it is asked once, its report is told in one text
    and its failure is an internal error of the protocol. *)
Lemma current_weather_cases c w :
  match current_weather c w with
  | (Err (InvalidParams _), w') => w' = w /\ (in_range (-90) 90 (latitude c) && in_range (-180) 180 (longitude c) = false)
  | (Err (InternalError msg), w') => exists e, current c w = (Err e, w') /\ msg = weather_error_text e
  | (Ok texts, w') => exists r, current c w = (Ok r, w') /\ texts = [summary r] /\
      in_range (-90) 90 (latitude c) && in_range (-180) 180 (longitude c) = true
  end.
Proof.
  unfold current_weather, coords_invalid. destruct (in_range (-90) 90 _), (in_range (-180) 180 _); simpl; try done.
  destruct (current c w) as [[r|e] w1]; simpl; [by exists r|by exists e].
Qed.

End tool.
End weather.
End Weather.
